(* ===== verification/_CoqProject ===== *)
-Q . S2P
Prelude.v
GoStrings.v
Values.v
Errors.v
TypeNames.v
Convert.v
Base64.v
Schemas.v
Mappers.v
SchemaMappers.v
Merge.v
Query.v
Builder.v
Controller.v
Workers.v
Condition.v
Message.v
Tunnel.v
Dial.v
Manager.v
Gateway.v
Pings.v
Lifecycle.v
Http.v
Urls.v
Parse.v
Access.v
Stores.v
SchemaStore.v
Server.v
Structs.v
Writer.v
Format.v
ProxyStore.v
Broadcast.v
Watch.v
ObjectSet.v
Injectors.v
Throttle.v
Client.v
Reflect.v
Rest.v
ObjectClient.v
Crd.v
Subscribe.v
SchemaMoves.v
Customize.v
Generator.v
Generated.v
TypedClients.v
Connect.v
Startup.v
