(* ===== verification/Prelude.v ===== *)
(** * Norman: a verification library for the API framework

    Norman serves a Kubernetes-backed REST API that is described by schemas,
    runs the controllers behind it, and tunnels connections through websockets
    to machines that cannot be reached directly.  This library models its core
    logic and proves what makes it correct.

    ** The program and the files that model it

    A request is parsed (parse) to a schema of the registry
    (types/schemas.go), an id and a sub context; the server (api) checks that
    it comes from where it says, that the schema offers the method and that
    access control (authorization) grants it, and calls a handler, which works
    on the store of the schema.  The query of a list request becomes filters,
    an order and a page (parse/collection.go, api/handler/query.go); a body is
    checked and converted by the builder (parse/builder).  Stores are stacked:
    a wrapper filters what is shown by the sub context (store/wrapper), others
    transform what they are given, and at the bottom the proxy store
    (store/proxy) talks to the API server of Kubernetes, the mappers of the
    schema (types/mapper) carrying a resource between its stored and its API
    form, on nested maps (types/values) of dynamically typed values
    (types/convert); an update is merged into what is stored
    (types/convert/merge); watches share one stream (pkg/broadcast).  The
    response is written with links (api/writer, urlbuilder).

    A client may subscribe to the changes of a version (pkg/subscribe), and
    the stores of custom resources are made with their definitions
    (store/crd).  clientbase is the client of this API; the schemas of an API
    are derived from Go types (types/reflection.go).

    On the other side, controllers (controller) run handlers on the stored
    objects, which they change through objectclient: handlers for the life of an object (lifecycle), handlers that
    make others look again (pkg/changeset), handlers that apply a set of
    objects (pkg/objectset); they report in conditions (condition).
    Independently, pkg/remotedialer keeps tunnels: frames (message.go),
    connections and sessions (connection.go, session.go), and the server's
    table of sessions and peers (session_manager.go, peer.go).  All of this is
    put together by Config.Build (build.go), which also joins an election for
    the controllers that only one server runs (leader).

    - [Prelude]: panics, errors, int64 arithmetic, iteration over Go maps,
      tactics and hints;
    - [GoStrings]: package strings, on byte strings (split, trim, prefix,
      case), decimal numbers of strconv;
    - [Values]: the dynamic values [interface{}] and types/values/values.go;
    - [Errors]: httperror, types/schemas.go's MultiErrors, the error handler;
    - [TypeNames]: name, pkg/kv, types/convert/ref.go, types/definition,
      types/set, types/slice, the key conversions of types/convert;
    - [Convert]: types/convert; [Base64]: encoding/base64 as the base64 mapper
      uses it;
    - [Schemas]: types/schemas.go, types/schema_funcs.go: the registry, back
      references, embedding;
    - [Mappers]: types/mapper.go and the FromInternal and ToInternal methods
      of types/mapper; [SchemaMappers]: their ModifySchema methods, as far as
      they change only the schema they are given; [SchemaMoves]: those that
      look at other schemas or change them, and the mappers built from all;
    - [Merge]: types/convert/merge/merge.go;
    - [Query]: types/condition.go, parse/collection.go, api/handler/query.go;
    - [Builder]: parse/builder/builder.go;
    - [Controller]: controller/generic_controller.go; [Workers]: a controller at
      work, with its workers and the work queue of client-go (vendor);
    - [Condition]: condition/condition.go;
    - [Message], [Tunnel], [Manager]: pkg/remotedialer, its frames, its
      sessions and the tables of its server; [Gateway]: the server at work, which
      composes them (server.go, peer.go, the loop of session.go, client.go);
      [Dial]: the goroutines of a dial and what they copy (client_dialer.go);
      [Pings]: deadlines and pings (wsconn.go, session.go, session_windows.go);
    - [Lifecycle]: lifecycle/object.go;
    - [Http]: what the code uses of net/http and net/url (headers, queries,
      escaping); [Urls]: urlbuilder/url.go and types.RawResource;
    - [Parse]: parse/parse.go, validate.go, read_input.go, subcontext.go,
      browser.go and the built-in schemas of api/builtin/schema.go;
    - [Access]: types.AccessControl, authorization/all.go, the checks of
      types/schema_funcs.go;
    - [Stores]: types.Store and store/wrapper, transform, subtype and empty;
      [SchemaStore]: store/schema, and formatters and the root of
      api/builtin;
    - [Server]: api/server.go, api/validate.go, api/handler, api/access;
      [Structs]: Go structs in place of maps (the end of types/convert,
      types/convert/schemaconvert and api/access);
      [Writer]: the body that api/writer makes of a result; [Format]: its response
      writers, which of them a request gets, and what they send;
    - [ProxyStore]: store/proxy/proxy_store.go, error_wrapper.go, types/id.go;
      [Broadcast]: pkg/broadcast, pkg/changeset; [Watch]: the watches of the proxy
      store and share_watch.go, which compose the two;
    - [ObjectSet]: pkg/objectset; [Injectors]: pkg/objectset/injectors;
      [Throttle]: its processor and its rate limiters;
    - [Client]: clientbase, the HTTP client of the API;
    - [Reflect]: types/reflection.go, which derives schemas from Go types, and
      the mapper table of types/schemas.go; [Customize]: imports that are
      customized;
    - [Rest]: package path and what the code uses of client-go's requests
      (vendor); [ObjectClient]: objectclient/object_client.go; [Crd]:
      store/crd/init.go;
    - [Subscribe]: pkg/subscribe/handler.go;
    - [Generator]: generator/generator.go, funcs.go, default.go: what is derived
      from a schema for the generated code, and what is written;
    - [Generated]: the code that controller_template.go and
      lifecycle_template.go generate, controller/cluster_check.go and
      starter.go; it composes [Controller] and [Lifecycle]; [TypedClients]: the
      clients that controller_template.go, k8s_client_template.go and
      type_template.go generate, on [ObjectClient] and [Client]; [Connect]: how
      they are made from a configuration (restwatch, objectclient/dynamic,
      pkg/k8scheck, pkg/resolvehome);
    - [Startup]: build.go, types.go, pkg/kwrapper/k8s/config.go and
      leader/leader.go, which compose the registry, [Crd] and the starters of
      [Generated].

    ** Conventions

    - A function that may panic returns [go A] ([Ret] or [Panic]); a Go pair
      [(A, error)] is a pair or a [result]; a nil map, pointer or interface is
      told apart from an empty one wherever the code does.
    - int64 values are [Z] with the wrap-around written out ([wrap64]) where a
      sum or product can leave the range.  Strings are sequences of bytes;
      the case conversions are those of ASCII.
    - The order in which Go ranges over a map is not specified: it is a
      parameter (class [MapRange], with the law that the order is a
      permutation of the entries), and every theorem holds for each order.
      In the same way [SortSlice] is the unstable sort of package sort,
      [GoFormat] and [SchemaFormat] what fmt, strconv and time print and read,
      [JSON], [SchemaJSON], [KubeCodec], [KubeEncoding] and [CrdCodec] encoding/json and the codecs of
      apimachinery, [Decoders] the decoders of a body, [ClientJSON] those of a
      client, [StructJSON] encoding/json on a type of structs, [YamlCodec] the YAML package, [RateLimiter] and [BucketLaw] the token bucket of
      client-go, [UrlParse] and [UrlEdit] the parser and printer of net/url, [Digest] and [Gzip] the packages of these names,
      [Writing] how far a response writer gets before it panics, if it does,
      [Completion] the order in which concurrent requests complete, and
      [K8sValidation] the name checks of apimachinery; [SchemaIdentity] says
      which entries of a registry are one object; each has an instance
      that shows that its laws can hold.
    - Code that talks to a store or a cluster is a program over a world [W] of
      any type ([prog W A]: it changes the world and returns or panics); the
      interfaces of the code are records of such programs ([Store],
      [RestClient], [KubeClient], [ObjectClient], [HttpClient], [AccessControl]), and what
      the theorems rely on is a record of laws over them ([api_server],
      [cluster] with [patch_laws], [server_ok], [rest_server], [crd_server], [reads_only]).
    - Shared mutable state is explicit where aliasing matters: [Condition]
      and [Lifecycle] have a heap of objects, [Tunnel] a heap of connections shared by a session
      and its users, [Broadcast] the channels of its subscribers, [Schemas]
      the maps of one registry.
    - Concurrent code ([Workers], [Tunnel], [Dial], [Manager], [Gateway], [Broadcast],
      [Watch], [Subscribe]) is a set of atomic steps, one per
      critical section of its locks; the theorems quantify over all sequences
      of them.

    ** Fuel

    Recursions that are not structural take fuel and the theorems say how much
    is enough.  [doAddSchema] and [doRemoveSchema] recurse through the targets
    of embedded schemas.  [Builder.convert] recurses on the value and on
    defaults: [construct_terminates] shows that the nesting of the input is
    enough unless a create meets a schema with a required list, and [create_diverges] that no
    fuel is enough for some schemas that have.  [importType] recurses through the
    types of a program, to which [import_terminates] gives a bound.  The
    traversal of the schema store takes one more than the number of schemas of the version, which
    [schema_list_correct] shows to be enough.  Everywhere else the fuel is
    the length of the string or list that is consumed, which the lemmas show
    to suffice.

    ** What the theorems show

    - Builder: no secret field in a response; what a create or an update
      accepts; limits of fields; termination.
    - Merge: what an API update can change of status, metadata, protected
      labels and annotations; merging a resource with itself is the identity.
    - Schemas: the invariant of the registry under every sequence of calls;
      the exact effect of adding and removing a schema; embedding and its
      undoing.
    - Mappers: a pipeline of mappers that undo themselves restores the stored
      resource, and Move, Embed, SliceToMap and base 64 undo themselves under
      stated conditions; the effect of Embed and of a move on a schema, and that
      the mapper of object metadata keeps types closed, which an import asks
      for.
    - Query: the exact content of a page, all pages together are all matching
      items in order, and no query makes the code panic or filters on a field
      the schema does not offer.
    - Controller: when a key is retried and when it is forgotten; handlers
      added late.  Workers: no key is lost or handled twice at a time, and a
      controller that shuts down handles what is queued and stops.  Condition: after a run the condition reports the outcome,
      an unchanged outcome changes nothing, and Track stores it.
    - Message, Tunnel, Manager: round trips of frames; no sequence of frames
      and calls makes a session panic; bytes arrive in order without loss; a
      session dials only what was authorized; sessions are found, added,
      removed and announced as they should; one connection loop per peer.
      Dial: whatever the session and the socket do, the goroutines of a dial
      copy what arrives in order, and end once one side has.
      Pings: a tunnel whose pings arrive in time is served as if there were no
      deadlines, and one whose peer is silent for ten seconds ends.
      Gateway: no interleaving of any number of connections makes the server
      panic, and its tables list exactly the authenticated connections that are
      served, but for those whose random key another session was given.
    - Parse, Urls, Writer: no URL and no header makes the parser or the
      builder of links panic; the links of a resource have the URLs of what they are links of, and only
      what access control grants is linked; the link to the next page asks for it.
      Format: every answer has its status, the requested format and its data.
    - Server: each request is answered exactly once, also when a response
      writer panics, and changes something only if it was authorized; Stores:
      what it is shown lies inside of its sub context (but what it updates and
      deletes need not); SchemaStore: the schemas a user sees.
    - ProxyStore: an update is atomic whatever other clients do; the requests
      of an operation are bounded; errors of Kubernetes are reported as they
      are.
    - Lifecycle: handling a change is a step of the life of the object and
      leaves the cache alone.  Generated: so does a controller with any life
      cycles, and handlers of a cluster see the objects of that cluster only.
      ObjectSet: applying a set leads to the objects that are wanted, with
      their contents, also when the informers lag behind; what was
      applied is read back.  Broadcast: no interleaving makes it panic, and
      consumers get their events in order.  Watch: so do those that share a
      watch, of a namespace that one of them asked for.
    - Client: it asks only for what the API offers, with its credentials and
      the body it was given, reports what it is answered with the status and
      the body of a failure, and the server understands its filters and ids.  Reflect:
      imported schemas are well typed and closed, and an import ends;
      Customize: a customization changes the schema it is meant for.  Structs: a
      struct converted to the form of its own API is kept.
      Generator: the Go struct of an imported schema has its fields and their
      types; what is written for Go types.  TypedClients: a generated client and
      the store of the same schema ask for the same paths; following the links
      of pages gives all of a collection; packages that are linked together
      must not share a resource.  Connect: the clients of different packages do
      not disturb each other, and watches have a timeout of their own.
    - ObjectClient: a map of objects over the paths of an API server, whatever
      names it is given.  Crd: a store only over an established definition.
      Throttle: how often a set is applied.  Injectors: objects written as YAML are read back.
      Startup: a server that was built has its configuration, clients and API
      handler, nothing runs after an early failure, and an election is
      accepted by client-go or the process ends.
      Subscribe: events are written in order without loss; what goes wrong
      cancels a subscription, and a cancelled one ends once its stores close
      their channels.
    - Values, Convert, TypeNames: paths in nested maps, numbers in every
      representation a decoder delivers, key conversions.

    Some behaviours of the code are probably not meant; each is stated as a
    closed example next to its component: the removal of a cancelled handler
    ([handler_done_replaces_others]), two ForgetErrors
    ([both_forget_is_retried]), back references of qualified names and of
    replaced schemas ([qualified_reference_lost],
    [force_add_keeps_references]), superseded entries of the list of schemas
    ([schemas_list]), the nested field named as its parent
    ([embed_same_name_lost]), trimming in front of base 64 ([base64_trims]),
    the stale Last of a page ([last_not_reset]), self-embedding defaults
    ([create_diverges]), client keys with separators ([announce_slash],
    [peer_route_colon]), ids in links ([link_not_escaped]), version paths
    ([version_matches_more]), missing transformers
    ([transform_delete_panics]), objects outside of the sub context
    ([outside_context_deleted]), access to links
    ([link_skips_access_control]), stores that are wrapped twice
    ([wrapped_twice_loses_pages]), null bodies ([unknown_object_is_null]),
    options and ids of the proxy store ([list_nil_options],
    [id_not_trimmed]), gaps in a watch ([slow_consumer_gap]), watches of
    different namespaces ([first_namespace_wins]), owners of object
    sets ([owners_collide]), pruning of discovered kinds
    ([discovered_not_pruned]), certificates, headers and ids of the client
    ([bad_certificates_unnoticed], [websocket_headers_lost],
    [id_becomes_query]), recursive types ([recursive_type_not_mapped],
    [self_embedding_diverges]), definitions that exist already
    ([existing_crd_fails]), access to subscriptions
    ([subscription_skips_access_control]), a null in a watch
    ([null_event_panics]), moves out of other schemas
    ([nested_source_stays]), refused tunnels ([refusals_are_200]), versions of
    the core group ([core_versions_mixed]), type names that are cut off
    ([unclosed_panics]), panics while a body is written
    ([panic_answers_200]), a failed start ([master_outlives_failure],
    [schema_errors_unnoticed]) and the kinds of acronyms
    ([acronym_kinds_differ]).

    ** What is not modelled

    I/O and glue around libraries: deep copies, formatting and directories of
    generated code, the fakes for tests, the streams of a watch and websockets
    themselves, timers but for those of pings, the encoding of responses, metrics, signals, the embedded etcd and
    k3s, the demonstration programs of the tunnel.  Locks are not
    modelled but for the atomicity they give. *)

From stdpp Require Export base tactics option list gmap strings fin_maps fin_map_dom sets.
From Stdlib Require Export ZArith Lia Sorted Permutation.
#[global] Set Warnings "-register-all".
#[global] Open Scope Z_scope.

(** ** Run-time panics

    Every Go function of the sources is modelled by a function into [go A]: it
    either returns or panics (a write to a nil map, an index out of range, a
    comparison of uncomparable dynamic types).  Go's error values are not
    panics: they are ordinary results (see [error] below). *)
Inductive go (A : Type) : Type :=
| Ret (a : A)
| Panic.
Arguments Ret {A} _.
Arguments Panic {A}.

#[export] Instance go_ret : MRet go := λ A a, Ret a.
#[export] Instance go_bind : MBind go := λ A B f m,
  match m with Ret a => f a | Panic => Panic end.
#[export] Instance go_fmap : FMap go := λ A B f m,
  match m with Ret a => Ret (f a) | Panic => Panic end.

(** [returns m] : the call [m] does not panic. *)
Definition returns {A} (m : go A) : Prop := ∃ a, m = Ret a.

(** A Go [for] loop over a slice: the state is threaded from left to right and a
    panic in the body stops the loop. *)
Fixpoint foldM {A B} (f : B → A → go B) (l : list A) (b : B) : go B :=
  match l with
  | [] => Ret b
  | a :: l' => b' ← f b a; foldM f l' b'
  end.

Lemma foldM_app {A B} (f : B → A → go B) l1 l2 b :
  foldM f (l1 ++ l2) b = (b' ← foldM f l1 b; foldM f l2 b').
Proof. revert b. induction l1 as [|a l1 IH]; intros b; simpl; [done|]. destruct (f b a); simpl; auto. Qed.

(** ** Error values

    The dynamic types of the [error] interface the sources distinguish. *)
Record ErrorCode := mkErrorCode { Code : string; Status : Z }.

Inductive error : Type :=
| ErrorString (msg : string)               (* errors.New, fmt.Errorf *)
| EOF                                      (* io.EOF *)
| ErrClosedPipe                            (* io.ErrClosedPipe *)
| APIError (code : ErrorCode) (message : string) (cause : option error)
           (fieldName : string)            (* httperror.APIError *)
| MultiErrors (errs : list error)          (* types.MultiErrors *)
| ForgetError (err : error) (reason : string)   (* controller.ForgetError *)
| HandlerError (name : string) (err : error)    (* controller.handlerError *)
| ConditionError (reason message : string)      (* condition.conditionError *)
| Conflict (msg : string)                  (* k8s StatusError, reason Conflict *)
| AlreadyExists (msg : string)             (* k8s StatusError, reason AlreadyExists *)
| StatusError (code : Z) (reason msg : string). (* any other k8s StatusError *)

(** The result of a call that returns [(T, error)] and whose caller looks at
    [T] only when the error is nil. *)
Abbreviation result A := (A + error)%type.

#[export] Instance ErrorCode_eq_dec : EqDecision ErrorCode.
Proof. solve_decision. Defined.

(** ** Ranging over a map

    Go ranges over a map in an unspecified order.  [range m] is the order a run
    happens to use: some permutation of the entries.  The components are defined
    for every such order, so their theorems hold whatever it is. *)
Class MapRange := {
  range : ∀ {A}, gmap string A → list (string * A);
  range_perm : ∀ {A} (m : gmap string A), range m ≡ₚ map_to_list m
}.

(** One possible order, used to evaluate the definitions. *)
Definition std_range : MapRange :=
  {| range := λ A m, map_to_list m; range_perm := λ A m, Permutation_refl _ |}.

Lemma foldl_ext {A B} (f g : A → B → A) (l : list B) (a : A) :
  (∀ a b, f a b = g a b) → foldl f a l = foldl g a l.
Proof. intros Hfg. revert a. induction l as [|b l IH]; intros a; simpl; [done|]. by rewrite Hfg, IH. Qed.

Section Range.
  Context `{MapRange}.

Lemma elem_of_range {A} (m : gmap string A) k v : (k, v) ∈ range m ↔ m !! k = Some v.
Proof. rewrite range_perm. apply elem_of_map_to_list. Qed.

Lemma NoDup_range {A} (m : gmap string A) : NoDup (range m).*1.
Proof. rewrite range_perm. apply NoDup_fst_map_to_list. Qed.

  (** A loop that writes [m[k] = f k v] for some of the entries of [m']. *)
Lemma foldl_insert_lookup {A B} (f : string → A → option B) (l : list (string * A)) (acc : gmap string B) k :
    NoDup l.*1 →
    foldl (λ acc e, match f e.1 e.2 with Some b => <[e.1 := b]> acc | None => acc end) acc l !! k
    = match (list_to_map l : gmap string A) !! k ≫= f k with Some b => Some b | None => acc !! k end.
Proof.
    revert acc. induction l as [|[k' a] l IH]; intros acc Hnd; [done|].
    simpl in *. inv Hnd. rewrite IH by done. rewrite lookup_insert. case_decide as Hk; subst; simpl.
    - rewrite not_elem_of_list_to_map_1 by done. simpl.
      destruct (f k a); [|done]. by rewrite lookup_insert_eq.
    - destruct (_ ≫= _); [done|]. destruct (f k' a); [|done]. by rewrite lookup_insert_ne.
Qed.

Lemma range_insert_lookup {A B} (f : string → A → option B) (m : gmap string A) (acc : gmap string B) k :
    foldl (λ acc e, match f e.1 e.2 with Some b => <[e.1 := b]> acc | None => acc end) acc (range m) !! k
    = match m !! k ≫= f k with Some b => Some b | None => acc !! k end.
Proof.
    rewrite foldl_insert_lookup by apply NoDup_range.
    by rewrite (list_to_map_proper _ (map_to_list m) (NoDup_range m) (range_perm m)), list_to_map_to_list.
Qed.

  (** The same loop with the entries to skip given by a test. *)
Lemma range_insert_unless {A B} (P : string → A → bool) (f : string → A → B) (m : gmap string A)
      (acc : gmap string B) k :
    foldl (λ acc e, if P e.1 e.2 then acc else <[e.1 := f e.1 e.2]> acc) acc (range m) !! k
    = match m !! k with Some a => if P k a then acc !! k else Some (f k a) | None => acc !! k end.
Proof.
    rewrite <- (foldl_ext (λ acc e, match (if P e.1 e.2 then None else Some (f e.1 e.2)) with
                                    | Some b => <[e.1 := b]> acc | None => acc end)) by (intros acc' e; by destruct (P e.1 e.2)).
    etrans; [apply (range_insert_lookup (λ k a, if P k a then None else Some (f k a)))|].
    destruct (m !! k) as [a|]; simpl; [|done]. by destruct (P k a).
Qed.

  (** A loop that deletes some of the keys of [m']. *)
Lemma range_delete_lookup {A B} (P : string → A → bool) (m : gmap string A) (acc : gmap string B) k :
    foldl (λ acc e, if P e.1 e.2 then delete e.1 acc else acc) acc (range m) !! k
    = match m !! k with Some a => if P k a then None else acc !! k | None => acc !! k end.
Proof.
    assert (∀ l (acc : gmap string B), NoDup l.*1 →
      foldl (λ acc e, if P e.1 e.2 then delete e.1 acc else acc) acc l !! k
      = match (list_to_map l : gmap string A) !! k with
        | Some a => if P k a then None else acc !! k | None => acc !! k end) as Hl.
    { induction l as [|[k' a] l IH]; intros acc' Hnd; [done|].
      simpl in *. inv Hnd. rewrite IH by done. rewrite lookup_insert. case_decide as Hk; subst.
      - rewrite not_elem_of_list_to_map_1 by done. destruct (P k a); [|done]. by rewrite lookup_delete_eq.
      - destruct (_ !! k) as [b|]; destruct (P k' a); try done; by rewrite lookup_delete_ne. }
    rewrite Hl by apply NoDup_range.
    by rewrite (list_to_map_proper _ (map_to_list m) (NoDup_range m) (range_perm m)), list_to_map_to_list.
Qed.
End Range.

(** ** Times, which package time counts in nanoseconds *)
Definition Second : Z := 1000000000.
Definition Minute : Z := 60 * Second.

(** ** Generic tactics *)
(** Case analysis on the scrutinee of a [match] or an [if] of the goal or of a
    hypothesis, remembering the equation. *)
Ltac case_goal :=
  match goal with
  | |- context [match ?x with _ => _ end] =>
      lazymatch x with context [match _ with _ => _ end] => fail | _ => destruct x eqn:? end
  end.
Ltac case_hyp :=
  match goal with
  | H : context [match ?x with _ => _ end] |- _ =>
      lazymatch x with context [match _ with _ => _ end] => fail | _ => destruct x eqn:? end
  end.
Ltac crush_cases := repeat (case_hyp || case_goal; simplify_eq/=).

Create HintDb norman.
