(* ===== verification/GoStrings.v ===== *)
(** * Go strings

    The part of Go's [strings], [strconv] and [fmt] packages the sources use,
    on byte strings (a Go string is a sequence of bytes, as is [string]).
    Case mapping and white space are those of ASCII, which is what Go computes
    on strings whose bytes are all below 128; [is_ascii] says so where a
    theorem depends on it. *)

From S2P Require Import Prelude.
From Stdlib Require Import DecimalString DecimalZ Ascii.
From Stdlib Require OrdersEx.
Local Open Scope nat_scope.

(** ** Slicing and searching *)
Fixpoint str_drop (n : nat) (s : string) : string :=
  match n, s with
  | S n', String _ s' => str_drop n' s'
  | _, _ => s
  end.

Fixpoint str_take (n : nat) (s : string) : string :=
  match n, s with
  | S n', String c s' => String c (str_take n' s')
  | _, _ => ""
  end.

Definition HasPrefix (s p : string) : bool := String.prefix p s.

Definition HasSuffix (s p : string) : bool :=
  (String.length p <=? String.length s) &&
  bool_decide (str_drop (String.length s - String.length p) s = p).

(** [strings.Index]: the first position at which [sub] occurs. *)
Fixpoint Index (s sub : string) : option nat :=
  if String.prefix sub s then Some 0
  else match s with
       | "" => None
       | String _ s' => S <$> Index s' sub
       end.

(** [strings.LastIndex]: the last position at which [sub] occurs. *)
Fixpoint LastIndex (s sub : string) : option nat :=
  match s with
  | "" => if String.prefix sub s then Some 0 else None
  | String _ s' =>
      match LastIndex s' sub with
      | Some i => Some (S i)
      | None => if String.prefix sub s then Some 0 else None
      end
  end.

Definition Contains (s sub : string) : bool := bool_decide (is_Some (Index s sub)).

Definition is_byte_in (chars : string) (c : ascii) : bool :=
  Contains chars (String c "").

(** [strings.ContainsAny] for an ASCII set of characters. *)
Fixpoint ContainsAny (s chars : string) : bool :=
  match s with
  | "" => false
  | String c s' => is_byte_in chars c || ContainsAny s' chars
  end.

(** [strings.SplitN(s, sep, 2)] with a non-empty [sep]. *)
Definition Split2 (s sep : string) : list string :=
  match Index s sep with
  | None => [s]
  | Some i => [str_take i s; str_drop (i + String.length sep) s]
  end.

(** [strings.Split] with a separator of one byte: the loop keeps the bytes of
    the current part in [cur]. *)
Fixpoint split_go (sep : ascii) (cur : string) (s : string) : list string :=
  match s with
  | "" => [cur]
  | String c s' =>
      if decide (c = sep) then cur :: split_go sep "" s'
      else split_go sep (cur +:+ String c "") s'
  end.
Definition Split (s : string) (sep : ascii) : list string := split_go sep "" s.

(** [strings.Split] with a non-empty separator of any length; [fuel] bounds the
    number of parts, and the length of the string is enough of it. *)
Fixpoint split_str (fuel : nat) (s sep : string) : list string :=
  match fuel with
  | O => [s]
  | S fuel' =>
      match Index s sep with
      | None => [s]
      | Some i => str_take i s :: split_str fuel' (str_drop (i + String.length sep) s) sep
      end
  end.
Definition SplitStr (s sep : string) : list string := split_str (String.length s) s sep.

(** [strings.TrimSuffix] *)
Definition TrimSuffix (s p : string) : string :=
  if HasSuffix s p then str_take (String.length s - String.length p) s else s.

(** [strings.Join] *)
Fixpoint Join (l : list string) (sep : string) : string :=
  match l with
  | [] => ""
  | [s] => s
  | s :: l' => s +:+ sep +:+ Join l' sep
  end.

(** ** Characters *)
Definition is_upper (c : ascii) : bool :=
  let n := nat_of_ascii c in (65 <=? n) && (n <=? 90).
Definition is_lower (c : ascii) : bool :=
  let n := nat_of_ascii c in (97 <=? n) && (n <=? 122).
Definition is_digit (c : ascii) : bool :=
  let n := nat_of_ascii c in (48 <=? n) && (n <=? 57).
Definition is_letter (c : ascii) : bool := is_upper c || is_lower c.
Definition is_space (c : ascii) : bool :=
  let n := nat_of_ascii c in (n =? 32) || ((9 <=? n) && (n <=? 13)).
Definition to_lower (c : ascii) : ascii :=
  if is_upper c then ascii_of_nat (nat_of_ascii c + 32) else c.
Definition to_upper (c : ascii) : ascii :=
  if is_lower c then ascii_of_nat (nat_of_ascii c - 32) else c.

Fixpoint str_all (f : ascii → bool) (s : string) : bool :=
  match s with "" => true | String c s' => f c && str_all f s' end.
Fixpoint str_map (f : ascii → ascii) (s : string) : string :=
  match s with "" => "" | String c s' => String (f c) (str_map f s') end.

Definition is_ascii (s : string) : bool := str_all (λ c, nat_of_ascii c <? 128) s.

Definition ToLower (s : string) : string := str_map to_lower s.
Definition ToUpper (s : string) : string := str_map to_upper s.
Definition EqualFold (s t : string) : bool := bool_decide (ToLower s = ToLower t).

(** [strings.Title]: upper-case every letter that follows a separator (in
    ASCII: any byte that is not a letter, a digit or an underscore). *)
Definition is_separator (c : ascii) : bool :=
  negb (is_letter c || is_digit c || bool_decide (c = "_"%char)).
Fixpoint title_go (prev_sep : bool) (s : string) : string :=
  match s with
  | "" => ""
  | String c s' => String (if prev_sep then to_upper c else c) (title_go (is_separator c) s')
  end.
Definition Title (s : string) : string := title_go true s.

(** ** White space *)
Fixpoint trim_left (s : string) : string :=
  match s with
  | "" => ""
  | String c s' => if is_space c then trim_left s' else s
  end.
Fixpoint trim_right (s : string) : string :=
  match s with
  | "" => ""
  | String c s' =>
      match trim_right s' with
      | "" => if is_space c then "" else String c ""
      | t => String c t
      end
  end.
Definition TrimSpace (s : string) : string := trim_right (trim_left s).

(** ** Decimal numbers

    [itoa] is [strconv.Itoa] and the [%d] verb; [ParseInt] is
    [strconv.ParseInt(s, 10, 64)] (and [strconv.Atoi] on a 64-bit platform):
    an optional sign, at least one digit, and the result in range. *)
Definition int64_min : Z := (- 2 ^ 63)%Z.
Definition int64_max : Z := (2 ^ 63 - 1)%Z.
Definition in_int64 (z : Z) : bool := ((int64_min <=? z) && (z <=? int64_max))%Z.

(** Go's wrap-around on conversion to int64. *)
Definition wrap64 (z : Z) : Z := ((z + 2 ^ 63) mod 2 ^ 64 - 2 ^ 63)%Z.

Definition itoa (z : Z) : string := NilZero.string_of_int (Z.to_int z).

Definition parse_digits (s : string) : option Z :=
  Z.of_uint <$> NilZero.uint_of_string s.

Definition ParseInt (s : string) : option Z :=
  z ← match s with
      | "" => None
      | String "+" s' => parse_digits s'
      | String "-" s' => Z.opp <$> parse_digits s'
      | _ => parse_digits s
      end;
  if in_int64 z then Some z else None.

(** ** String comparison: Go's [<] on strings is bytewise. *)
Definition str_lt (s t : string) : bool := String.ltb s t.

(** ** Lemmas *)
#[global] Arguments String.append !_ _ / : simpl nomatch.

Lemma str_app_nil_r s : s +:+ "" = s.
Proof. induction s as [|c s IH]; simpl; [done|by rewrite IH]. Qed.

Lemma str_app_assoc s t u : (s +:+ t) +:+ u = s +:+ (t +:+ u).
Proof. induction s as [|c s IH]; simpl; [done|by rewrite IH]. Qed.

Lemma str_app_cons c s t : String c s +:+ t = String c (s +:+ t).
Proof. done. Qed.

Lemma str_length_app s t : String.length (s +:+ t) = String.length s + String.length t.
Proof. induction s as [|c s IH]; simpl; [done|by rewrite IH]. Qed.

Lemma str_drop_app s t : str_drop (String.length s) (s +:+ t) = t.
Proof. by induction s. Qed.

Lemma str_drop_0 s : str_drop 0 s = s.
Proof. done. Qed.

Lemma str_drop_add n m s : str_drop (n + m) s = str_drop m (str_drop n s).
Proof. revert s; induction n; intros [|c s]; simpl; auto. by destruct m. Qed.

Lemma str_take_app s t : str_take (String.length s) (s +:+ t) = s.
Proof. induction s as [|c s IH]; simpl; [by destruct t|by rewrite IH]. Qed.

Lemma str_take_drop n s : str_take n s +:+ str_drop n s = s.
Proof. revert s; induction n; intros [|c s]; simpl; auto. by rewrite IHn. Qed.

Lemma prefix_app p s : String.prefix p (p +:+ s) = true.
Proof. induction p as [|c p IH]; simpl; [by destruct s|].
  by destruct (ascii_dec c c).
Qed.

Lemma prefix_inv p s : String.prefix p s = true → ∃ t, s = p +:+ t.
Proof.
  revert s; induction p as [|c p IH]; intros s; simpl; [eauto|].
  destruct s as [|d s]; [done|]. simpl. destruct (ascii_dec c d) as [->|]; [|done].
  intros [t ->]%IH. by exists t.
Qed.

Lemma HasPrefix_app p s : HasPrefix (p +:+ s) p = true.
Proof. apply prefix_app. Qed.

Lemma HasSuffix_app s p : HasSuffix (s +:+ p) p = true.
Proof.
  unfold HasSuffix. rewrite str_length_app.
  replace (String.length s + String.length p - String.length p) with (String.length s) by lia.
  rewrite str_drop_app, bool_decide_true by done.
  rewrite andb_true_r. apply Nat.leb_le. lia.
Qed.

Lemma HasSuffix_inv s p : HasSuffix s p = true → ∃ t, s = t +:+ p.
Proof.
  unfold HasSuffix. intros [Hl Hd%bool_decide_eq_true]%andb_prop.
  exists (str_take (String.length s - String.length p) s).
  pose proof (str_take_drop (String.length s - String.length p) s) as Hs.
  by rewrite Hd in Hs.
Qed.

(** Bytes of a string. *)
Fixpoint str_in (c : ascii) (s : string) : bool :=
  match s with "" => false | String d s' => bool_decide (c = d) || str_in c s' end.

Lemma str_in_app c s t : str_in c (s +:+ t) = str_in c s || str_in c t.
Proof. induction s as [|d s IH]; simpl; [done|]. by rewrite IH, orb_assoc. Qed.

Lemma Index_byte_None c s : str_in c s = false → Index s (String c "") = None.
Proof.
  induction s as [|d s IH]; simpl; [done|].
  intros [Hd%bool_decide_eq_false Hs]%orb_false_elim.
  destruct (ascii_dec c d); [done|]. by rewrite IH.
Qed.

Lemma Index_byte_app c s t :
  str_in c s = false → Index (s +:+ String c t) (String c "") = Some (String.length s).
Proof.
  induction s as [|d s IH]; simpl.
  - intros _. destruct (ascii_dec c c); [|done]. by destruct t.
  - intros [Hd%bool_decide_eq_false Hs]%orb_false_elim.
    destruct (ascii_dec c d); [done|]. by rewrite IH.
Qed.

(** [strings.SplitN(a + sep + b, sep, 2)] gives back the two parts when the
    separator byte does not occur in the first one. *)
Lemma Split2_app c s t :
  str_in c s = false → Split2 (s +:+ String c t) (String c "") = [s; t].
Proof.
  intros H. unfold Split2. rewrite Index_byte_app by done.
  rewrite str_take_app. rewrite str_drop_add, str_drop_app. by destruct t.
Qed.

Lemma Split2_None c s : str_in c s = false → Split2 s (String c "") = [s].
Proof. intros H. unfold Split2. by rewrite Index_byte_None. Qed.

Lemma Index_byte_in c s : str_in c s = true → is_Some (Index s (String c "")).
Proof.
  induction s as [|d s IH]; simpl; [done|].
  destruct (ascii_dec c d) as [->|]; [destruct s; by eexists|].
  rewrite bool_decide_false by done. simpl. intros [i ->]%IH. by eexists.
Qed.

Lemma is_byte_in_spec chars c : is_byte_in chars c = str_in c chars.
Proof.
  unfold is_byte_in, Contains. destruct (str_in c chars) eqn:E.
  - apply bool_decide_eq_true_2, Index_byte_in, E.
  - rewrite Index_byte_None by done. by apply bool_decide_eq_false_2; intros [? ?].
Qed.

(** *** Split and Join *)
Lemma split_go_nonempty sep cur s : split_go sep cur s ≠ [].
Proof. revert cur; induction s; intros cur; simpl; [done|]. by case_decide. Qed.

Lemma Join_cons s l sep : l ≠ [] → Join (s :: l) sep = s +:+ sep +:+ Join l sep.
Proof. by destruct l. Qed.

Lemma split_go_Join sep cur s : Join (split_go sep cur s) (String sep "") = cur +:+ s.
Proof.
  revert cur; induction s as [|c s IH]; intros cur; simpl.
  - by rewrite str_app_nil_r.
  - case_decide as Hc.
    + subst c. rewrite Join_cons by apply split_go_nonempty. by rewrite IH.
    + rewrite IH, str_app_assoc. done.
Qed.

Lemma Join_Split s sep : Join (Split s sep) (String sep "") = s.
Proof. apply split_go_Join. Qed.

Lemma split_go_app sep cur s t :
  str_in sep s = false → split_go sep cur (s +:+ t) = split_go sep (cur +:+ s) t.
Proof.
  revert cur; induction s as [|c s IH]; intros cur; simpl; [by rewrite str_app_nil_r|].
  intros [Hc%bool_decide_eq_false Hs]%orb_false_elim.
  rewrite decide_False by done. rewrite IH by done. by rewrite str_app_assoc.
Qed.

Lemma Split_single sep s : str_in sep s = false → Split s sep = [s].
Proof.
  intros H. unfold Split. rewrite <- (str_app_nil_r s).
  rewrite split_go_app by done. by rewrite str_app_nil_r.
Qed.

Lemma Split_cons sep s t :
  str_in sep s = false → Split (s +:+ String sep t) sep = s :: Split t sep.
Proof.
  intros H. unfold Split. rewrite split_go_app by done. simpl. by rewrite decide_True.
Qed.

Lemma Split_Join l sep :
  l ≠ [] → Forall (λ s, str_in sep s = false) l → Split (Join l (String sep "")) sep = l.
Proof.
  intros Hl Hf. induction Hf as [|s l Hs Hf IH]; [done|].
  destruct l as [|t l]; [by apply Split_single|].
  change (Split (s +:+ String sep (Join (t :: l) (String sep ""))) sep = s :: t :: l).
  rewrite Split_cons by done. by rewrite IH.
Qed.

Lemma split_go_no_sep sep cur s :
  str_in sep cur = false → Forall (λ p, str_in sep p = false) (split_go sep cur s).
Proof.
  revert cur; induction s as [|c s IH]; intros cur Hcur; simpl; [by repeat constructor|].
  case_decide as Hc; [constructor; auto|].
  apply IH. rewrite str_in_app, Hcur. simpl. by rewrite bool_decide_false by congruence.
Qed.

Lemma Split_no_sep s sep : Forall (λ p, str_in sep p = false) (Split s sep).
Proof. by apply split_go_no_sep. Qed.

Lemma Split_nonempty s sep : Split s sep ≠ [].
Proof. apply split_go_nonempty. Qed.

(** *** Decimal round trip *)
Lemma in_int64_spec z : in_int64 z = true ↔ (int64_min ≤ z ≤ int64_max)%Z.
Proof. unfold in_int64. rewrite andb_true_iff, !Z.leb_le. lia. Qed.

Lemma NilZero_head d c s :
  NilZero.string_of_uint d = String c s → c ≠ "+"%char ∧ c ≠ "-"%char.
Proof. destruct d; simpl; intros [= <- _]; split; discriminate. Qed.

Lemma parse_digits_uint d :
  d ≠ Decimal.Nil → parse_digits (NilZero.string_of_uint d) = Some (Z.of_uint d).
Proof. intros Hd. unfold parse_digits. by rewrite NilZero.usu. Qed.

Lemma to_uint_nonnil p : Pos.to_uint p ≠ Decimal.Nil.
Proof. apply DecimalPos.Unsigned.to_uint_nonnil. Qed.

Lemma ParseInt_itoa z : in_int64 z = true → ParseInt (itoa z) = Some z.
Proof.
  intros Hz. unfold itoa, ParseInt.
  assert (match NilZero.string_of_int (Z.to_int z) with
          | "" => None
          | String "+" s' => parse_digits s'
          | String "-" s' => Z.opp <$> parse_digits s'
          | _ => parse_digits (NilZero.string_of_int (Z.to_int z))
          end = Some z) as ->; [|simpl; by rewrite Hz].
  destruct z as [|p|p]; simpl; [done| |].
  - pose proof (parse_digits_uint _ (to_uint_nonnil p)) as Hp.
    unfold Z.of_uint in Hp. rewrite DecimalPos.Unsigned.of_to in Hp. simpl in Hp.
    destruct (NilZero.string_of_uint (Pos.to_uint p)) as [|c s] eqn:E; [done|].
    destruct (NilZero_head _ _ _ E) as [H1 H2].
    by repeat (match goal with |- context [match ?x with _ => _ end] =>
                 is_var x; destruct x end).
  - rewrite parse_digits_uint by apply to_uint_nonnil.
    unfold Z.of_uint. by rewrite DecimalPos.Unsigned.of_to.
Qed.

Lemma wrap64_id z : in_int64 z = true → wrap64 z = z.
Proof.
  rewrite in_int64_spec. unfold int64_min, int64_max, wrap64. intros H.
  rewrite Z.mod_small; lia.
Qed.

Lemma wrap64_range z : in_int64 (wrap64 z) = true.
Proof.
  apply in_int64_spec. unfold wrap64, int64_min, int64_max.
  pose proof (Z.mod_pos_bound (z + 2 ^ 63) (2 ^ 64)). lia.
Qed.

Lemma str_take_ge n s : String.length s ≤ n → str_take n s = s.
Proof.
  revert s; induction n; intros [|c s]; simpl; intros H; [done|lia|done|].
  by rewrite IHn by lia.
Qed.

Lemma str_drop_ge n s : String.length s ≤ n → str_drop n s = "".
Proof. revert s; induction n; intros [|c s]; simpl; intros H; [done|lia|done|]. apply IHn. lia. Qed.

Lemma str_take_app_le n s t : (n ≤ String.length s)%nat → str_take n (s +:+ t) = str_take n s.
Proof.
  revert n. induction s as [|c s IH]; intros [|n]; simpl; try done; [lia|]. intros Hn. f_equal. apply IH. lia.
Qed.

Lemma str_take_app_ge n s t :
  String.length s ≤ n → str_take n (s +:+ t) = s +:+ str_take (n - String.length s) t.
Proof.
  revert s; induction n; intros [|c s]; simpl; intros H; [done|lia|done|].
  by rewrite IHn by lia.
Qed.

Lemma str_length_take n s : String.length (str_take n s) = Nat.min n (String.length s).
Proof. revert s; induction n; intros [|c s]; simpl; auto. Qed.

Lemma str_in_take c n s : str_in c s = false → str_in c (str_take n s) = false.
Proof.
  revert s; induction n; intros [|d s]; simpl; auto.
  intros [-> H]%orb_false_elim. simpl. auto.
Qed.

Lemma str_all_app f s t : str_all f (s +:+ t) = str_all f s && str_all f t.
Proof. induction s as [|c s IH]; simpl; [done|]. by rewrite IH, andb_assoc. Qed.

(** ** The order on strings *)
Lemma str_compare_OT s t : String.compare s t = OrdersEx.String_as_OT.compare s t.
Proof. revert t. induction s as [|c s IH]; intros [|d t]; simpl; try done. Qed.

Lemma str_lt_spec s t : str_lt s t = true ↔ OrdersEx.String_as_OT.lt s t.
Proof.
  unfold str_lt, String.ltb, OrdersEx.String_as_OT.lt. rewrite str_compare_OT.
  by destruct (OrdersEx.String_as_OT.compare s t).
Qed.

Lemma str_lt_asym s t : str_lt s t = false ∨ str_lt t s = false.
Proof.
  destruct (str_lt s t) eqn:H1; [|by left]. destruct (str_lt t s) eqn:H2; [|by right].
  apply str_lt_spec in H1, H2. exfalso.
  apply (StrictOrder_Irreflexive s). by apply (StrictOrder_Transitive s t s).
Qed.

(** [x ≤ y] and [y ≤ z] give [x ≤ z]. *)
Lemma str_le_trans x y z : str_lt y x = false → str_lt z y = false → str_lt z x = false.
Proof.
  intros Hyx Hzy. destruct (str_lt z x) eqn:Hzx; [|done]. apply str_lt_spec in Hzx.
  destruct (OrdersEx.String_as_OT.compare_spec x y) as [He|Hl|Hl].
  - unfold OrdersEx.String_as_OT.eq in He. subst. apply str_lt_spec in Hzx. congruence.
  - assert (str_lt z y = true); [|congruence]. apply str_lt_spec. by apply (StrictOrder_Transitive z x y).
  - apply str_lt_spec in Hl. congruence.
Qed.
