(* ===== verification/Values.v ===== *)
(** * Dynamic values

    The API framework handles resources as [map[string]interface{}].  [value]
    is the type of the dynamic values the sources meet in such a map (decoded
    JSON or YAML, form data, defaults of a schema), [obj] the maps, and
    [option obj] a variable of type [map[string]interface{}], [None] being the
    nil map: reading or deleting from it is harmless, writing to it panics.
    A nil slice and an empty one are identified: the sources tell them apart
    only where a slice that starts nil is grown by [append].

    Models types/values/values.go and the accessors of types/convert/convert.go. *)

From S2P Require Import Prelude GoStrings.
From Stdlib Require Export SpecFloat.

Inductive value : Type :=
| VNil                                  (* the nil interface *)
| VBool (b : bool)
| VInt (z : Z)                          (* int *)
| VInt64 (z : Z)
| VFloat (f : spec_float)               (* float64 *)
| VNumber (s : string)                  (* json.Number *)
| VTime (ns : Z)                        (* time.Time, as nanoseconds since the epoch *)
| VStr (s : string)
| VStrs (l : list string)               (* []string *)
| VList (l : list value)                (* []interface{} *)
| VMaps (l : list (option (gmap string value)))  (* []map[string]interface{} *)
| VNilMap                               (* a nil map[string]interface{} *)
| VMap (m : gmap string value).         (* map[string]interface{} *)

Abbreviation obj := (gmap string value).

(** ** Reading and writing a [map[string]interface{}] variable *)
Definition mlookup (d : option obj) (k : string) : option value := d ≫= λ m, m !! k.

(** [d[k]]: the zero value (nil) when the key is absent. *)
Definition mget (d : option obj) (k : string) : value := default VNil (mlookup d k).

(** [d[k] = v] *)
Definition mset (d : option obj) (k : string) (v : value) : go (option obj) :=
  match d with Some m => Ret (Some (<[k := v]> m)) | None => Panic end.

(** [delete(d, k)] *)
Definition mdelete (d : option obj) (k : string) : option obj := delete k <$> d.

(** [v, ok := x.(map[string]interface{})], also convert.ToMapInterface. *)
Definition ToMapInterface (v : value) : option obj :=
  match v with VMap m => Some m | _ => None end.
Definition as_map (v : value) : option (option obj) :=
  match v with VMap m => Some (Some m) | VNilMap => Some None | _ => None end.
Definition is_map (v : value) : bool :=
  match v with VMap _ | VNilMap => true | _ => false end.
(** A map variable stored in an interface. *)
Definition of_map (d : option obj) : value :=
  match d with Some m => VMap m | None => VNilMap end.
(** [s, _ := x.(string)] *)
Definition as_string (v : value) : string :=
  match v with VStr s => s | _ => "" end.

(** convert.ToInterfaceSlice *)
Definition ToInterfaceSlice (v : value) : list value :=
  match v with VList l => l | _ => [] end.

(** [x == y] on interfaces: false when the dynamic types differ, a panic when
    they agree and are not comparable. *)
Definition iface_eq (x y : value) : go bool :=
  match x, y with
  | VNil, VNil => Ret true
  | VBool a, VBool b => Ret (bool_decide (a = b))
  | VInt a, VInt b | VInt64 a, VInt64 b | VTime a, VTime b => Ret (a =? b)
  | VFloat a, VFloat b => Ret (SFeqb a b)
  | VNumber a, VNumber b | VStr a, VStr b => Ret (bool_decide (a = b))
  | VStrs _, VStrs _ | VList _, VList _ | VMaps _, VMaps _
  | VNilMap, VNilMap | VNilMap, VMap _ | VMap _, VNilMap | VMap _, VMap _ => Panic
  | _, _ => Ret false
  end.

(** ** types/values/values.go *)

Fixpoint GetValue (data : option obj) (keys : list string) : value * bool :=
  match keys with
  | [] => (VNil, false)
  | [key] => (mget data key, bool_decide (is_Some (mlookup data key)))
  | key :: keys' => GetValue (ToMapInterface (mget data key)) keys'
  end.

Definition GetValueN (data : option obj) (keys : list string) : value :=
  (GetValue data keys).1.

(** The map reached through [keys] is mutated in place: the maps on the way to
    it are rebuilt around the changed one. *)
Fixpoint RemoveValue (data : option obj) (keys : list string) : option obj * value * bool :=
  match keys with
  | [] => (data, VNil, false)
  | [key] => (mdelete data key, mget data key, bool_decide (is_Some (mlookup data key)))
  | key :: keys' =>
      match mlookup data key with
      | Some (VMap sub) =>
          let '(sub', v, ok) := RemoveValue (Some sub) keys' in
          ((λ m, <[key := of_map sub']> m) <$> data, v, ok)
      | _ => let '(_, v, ok) := RemoveValue None keys' in (data, v, ok)
      end
  end.

Fixpoint put_path (m : obj) (val : value) (keys : list string) : go obj :=
  match keys with
  | [] => Ret m
  | [key] => Ret (<[key := val]> m)
  | key :: keys' =>
      match m !! key with
      | Some (VMap sub) => sub' ← put_path sub val keys'; Ret (<[key := VMap sub']> m)
      | Some VNilMap => Panic
      | Some _ => Ret m
      | None => sub' ← put_path ∅ val keys'; Ret (<[key := VMap sub']> m)
      end
  end.

Definition PutValue (data : option obj) (val : value) (keys : list string) : go (option obj) :=
  match data with
  | None => Ret None
  | Some m => Some <$> put_path m val keys
  end.

(** values.GetSlice *)
Definition GetSlice (data : option obj) (keys : list string) : list (option obj) * bool :=
  let '(val, ok) := GetValue data keys in
  if negb ok then ([], false)
  else match val with
       | VMaps l => (l, true)
       | VList l => (omap as_map l, true)
       | _ => ([], false)
       end.

(** convert.ToMapSlice: nil as soon as one element is not a map. *)
Definition ToMapSlice (v : value) : list (option obj) :=
  match v with
  | VMaps l => l
  | VList l => default [] (mapM as_map l)
  | _ => []
  end.

(** convert.IsAPIObjectEmpty.  The comparisons [v == 0] and [v == false] are on
    interfaces: only an [int] zero equals [0], an [int64] or a [float64] zero
    does not. *)
Definition IsAPIObjectEmpty (v : value) : bool :=
  match v with
  | VNil => true
  | VStr s => bool_decide (s = "")
  | VInt z => z =? 0
  | VBool b => negb b
  | VMap m => bool_decide (m = ∅)
  | VNilMap => true
  | VList l => bool_decide (length l = 0%nat)
  | _ => false
  end.

(** convert.Singular *)
Definition Singular (v : value) : value :=
  match v with
  | VStrs [] => VNil
  | VStrs (s :: _) => VStr s
  | VList [] => VNil
  | VList (x :: _) => x
  | _ => v
  end.

(** ** Paths *)

(** The maps on the way to the last key are absent or maps: nothing blocks
    [PutValue]. *)
Fixpoint path_open (m : obj) (keys : list string) : bool :=
  match keys with
  | [] | [_] => true
  | key :: keys' =>
      match m !! key with
      | Some (VMap sub) => path_open sub keys'
      | None => true
      | Some _ => false
      end
  end.

(** The maps on the way to the last key all exist. *)
Fixpoint path_parents (m : obj) (keys : list string) : bool :=
  match keys with
  | [] => false
  | [_] => true
  | key :: keys' =>
      match m !! key with Some (VMap sub) => path_parents sub keys' | _ => false end
  end.

Lemma path_ind (P : list string → Prop) :
  P [] → (∀ k, P [k]) → (∀ k k' ks, P (k' :: ks) → P (k :: k' :: ks)) → ∀ ks, P ks.
Proof.
  intros H0 H1 H2 ks. induction ks as [|k ks IH]; [done|].
  destruct ks as [|k' ks]; auto.
Qed.

Lemma GetValue_None ks : GetValue None ks = (VNil, false).
Proof. induction ks as [|k|k k' ks IH] using path_ind; [done|done|exact IH]. Qed.

Lemma RemoveValue_None ks : RemoveValue None ks = (None, VNil, false).
Proof.
  induction ks as [|k|k k' ks IH] using path_ind; [done|done|].
  change (RemoveValue None (k :: k' :: ks)) with
    (let '(_, v, ok) := RemoveValue None (k' :: ks) in (@None obj, v, ok)).
  by rewrite IH.
Qed.

Lemma GetValue_cons m k k' ks :
  GetValue (Some m) (k :: k' :: ks) =
  match m !! k with
  | Some (VMap sub) => GetValue (Some sub) (k' :: ks)
  | _ => (VNil, false)
  end.
Proof.
  change (GetValue (Some m) (k :: k' :: ks))
    with (GetValue (ToMapInterface (default VNil (m !! k))) (k' :: ks)).
  destruct (m !! k) as [[]|]; simpl ToMapInterface; by rewrite ?GetValue_None.
Qed.

Lemma RemoveValue_cons m k k' ks :
  RemoveValue (Some m) (k :: k' :: ks) =
  match m !! k with
  | Some (VMap sub) =>
      let '(sub', v, ok) := RemoveValue (Some sub) (k' :: ks) in
      (Some (<[k := of_map sub']> m), v, ok)
  | _ => (Some m, VNil, false)
  end.
Proof.
  change (RemoveValue (Some m) (k :: k' :: ks)) with
    (match m !! k with
     | Some (VMap sub) =>
         let '(sub', v, ok) := RemoveValue (Some sub) (k' :: ks) in
         (Some (<[k := of_map sub']> m), v, ok)
     | _ => let '(_, v, ok) := RemoveValue None (k' :: ks) in (Some m, v, ok)
     end).
  rewrite RemoveValue_None. destruct (m !! k) as [[]|]; done.
Qed.

Lemma put_path_cons m v k k' ks :
  put_path m v (k :: k' :: ks) =
  match m !! k with
  | Some (VMap sub) => sub' ← put_path sub v (k' :: ks); Ret (<[k := VMap sub']> m)
  | Some VNilMap => Panic
  | Some _ => Ret m
  | None => sub' ← put_path ∅ v (k' :: ks); Ret (<[k := VMap sub']> m)
  end.
Proof. done. Qed.

Lemma put_path_empty v ks : ks ≠ [] → ∃ m', put_path ∅ v ks = Ret m' ∧ GetValue (Some m') ks = (v, true).
Proof.
  induction ks as [|k|k k' ks IH] using path_ind; intros Hne; [done| |].
  - eexists. split; [done|]. simpl. unfold mget. simpl. by rewrite lookup_insert_eq.
  - destruct IH as (m' & Hm & Hg); [done|].
    rewrite put_path_cons, lookup_empty, Hm. eexists. split; [done|].
    by rewrite GetValue_cons, lookup_insert_eq.
Qed.

(** Put then get. *)
Lemma put_get m v ks :
  ks ≠ [] → path_open m ks = true →
  ∃ m', put_path m v ks = Ret m' ∧ GetValue (Some m') ks = (v, true).
Proof.
  revert m; induction ks as [|k|k k' ks IH] using path_ind; intros m Hne Ho; [done| |].
  - eexists. split; [done|]. simpl. unfold mget. simpl. by rewrite lookup_insert_eq.
  - rewrite put_path_cons. simpl in Ho.
    destruct (m !! k) as [x|] eqn:Hk.
    + destruct x as [| | | | | | | | | | | |sub]; try done.
      destruct (IH sub) as (s' & -> & Hg); [done|done|]. eexists. split; [done|].
      by rewrite GetValue_cons, lookup_insert_eq.
    + destruct (put_path_empty v (k' :: ks)) as (s' & -> & Hg); [done|].
      eexists. split; [done|]. by rewrite GetValue_cons, lookup_insert_eq.
Qed.

(** Put on a fresh path, then remove: the map is back to what it was. *)
Lemma put_remove m v ks :
  path_parents m ks = true → (GetValue (Some m) ks).2 = false →
  ∃ m', put_path m v ks = Ret m' ∧ RemoveValue (Some m') ks = (Some m, v, true).
Proof.
  revert m; induction ks as [|k|k k' ks IH] using path_ind; intros m Hp Hg; [done| |].
  - apply bool_decide_eq_false in Hg. simpl in Hg. apply eq_None_not_Some in Hg.
    eexists. split; [done|]. simpl. unfold mget, mlookup. simpl.
    rewrite lookup_insert_eq, delete_insert_id by done. by rewrite bool_decide_true.
  - rewrite put_path_cons. rewrite GetValue_cons in Hg. simpl in Hp.
    destruct (m !! k) as [x|] eqn:Hk; [|done].
    destruct x as [| | | | | | | | | | | |sub]; try done.
    destruct (IH sub) as (s' & -> & Hr); [done|done|]. eexists. split; [done|].
    rewrite RemoveValue_cons, lookup_insert_eq, Hr. simpl.
    by rewrite insert_insert_eq, insert_id.
Qed.

(** Remove a value that is there, then put it back. *)
Lemma remove_put m v ks :
  GetValue (Some m) ks = (v, true) →
  ∃ m', RemoveValue (Some m) ks = (Some m', v, true) ∧ put_path m' v ks = Ret m.
Proof.
  revert m; induction ks as [|k|k k' ks IH] using path_ind; intros m Hg; [done| |].
  - simpl in Hg. unfold mget, mlookup in Hg. simpl in Hg.
    destruct (m !! k) as [x|] eqn:Hk; [|done]. simpl in Hg. inv Hg.
    eexists. split.
    + simpl. unfold mget, mlookup. simpl. rewrite Hk. by rewrite bool_decide_true.
    + simpl. by rewrite insert_delete_eq, insert_id.
  - rewrite GetValue_cons in Hg. rewrite RemoveValue_cons.
    destruct (m !! k) as [x|] eqn:Hk; [|done].
    destruct x as [| | | | | | | | | | | |sub]; try done.
    destruct (IH sub) as (s' & -> & Hp); [done|]. eexists. split; [done|].
    rewrite put_path_cons, lookup_insert_eq. cbn [of_map]. rewrite Hp. simpl.
    by rewrite insert_insert_eq, insert_id.
Qed.

(** A value that was found is reported with the same value by [RemoveValue],
    and is gone afterwards. *)
Lemma remove_gone m ks m' v ok :
  RemoveValue (Some m) ks = (m', v, ok) →
  GetValue (Some m) ks = (v, ok) ∧ (GetValue m' ks).2 = false.
Proof.
  revert m m'; induction ks as [|k|k k' ks IH] using path_ind; intros m m' Hr.
  - inv Hr. done.
  - simpl in Hr. inv Hr. split; [done|]. simpl. by rewrite lookup_delete_eq.
  - rewrite RemoveValue_cons in Hr. rewrite GetValue_cons.
    destruct (m !! k) as [x|] eqn:Hk.
    + destruct x as [| | | | | | | | | | | |sub];
        try (inv Hr; split; [done|]; by rewrite GetValue_cons, Hk).
      destruct (RemoveValue (Some sub) (k' :: ks)) as [[s' v'] ok'] eqn:Hs.
      inv Hr. destruct (IH _ _ Hs) as [H1 H2]. split; [done|].
      rewrite GetValue_cons, lookup_insert_eq. by destruct s'.
    + inv Hr. split; [done|]. by rewrite GetValue_cons, Hk.
Qed.

(** Two paths that part at some key: neither leads through the other. *)
Fixpoint path_disjoint (ks ks' : list string) : bool :=
  match ks, ks' with
  | k :: ks, k' :: ks' => if decide (k = k') then path_disjoint ks ks' else true
  | _, _ => false
  end.

Lemma path_disjoint_cons k ks k' ks' :
  path_disjoint (k :: ks) (k' :: ks') = if decide (k = k') then path_disjoint ks ks' else true.
Proof. done. Qed.

Lemma GetValue_insert_ne m k x ks k' :
  k ≠ k' → GetValue (Some (<[k := x]> m)) (k' :: ks) = GetValue (Some m) (k' :: ks).
Proof.
  intros Hk. destruct ks as [|k'' ks].
  - simpl. unfold mget, mlookup. simpl. by rewrite lookup_insert_ne.
  - by rewrite !GetValue_cons, lookup_insert_ne.
Qed.

Lemma GetValue_empty ks : GetValue (Some ∅) ks = (VNil, false).
Proof. destruct ks as [|k [|k' ks]]; [done|done|]. by rewrite GetValue_cons, lookup_empty. Qed.

Lemma path_disjoint_sym ks ks' : path_disjoint ks ks' = path_disjoint ks' ks.
Proof.
  revert ks'. induction ks as [|k ks IH]; intros [|k' ks']; simpl; try done.
  repeat case_decide; congruence.
Qed.

(** [PutValue] changes nothing off its path. *)
Lemma put_frame m v ks m' ks' :
  path_disjoint ks ks' = true → put_path m v ks = Ret m' →
  GetValue (Some m') ks' = GetValue (Some m) ks'.
Proof.
  revert m m' ks'; induction ks as [|k|k k' ks IH] using path_ind; intros m m' ks' Hd Hp.
  - by destruct ks'.
  - destruct ks' as [|k2 ks2]; [done|]. rewrite path_disjoint_cons in Hd. case_decide; [done|].
    inv Hp. by apply GetValue_insert_ne.
  - destruct ks' as [|k2 ks2]; [done|]. rewrite path_disjoint_cons in Hd.
    rewrite put_path_cons in Hp.
    assert (∀ sub m0, m !! k = m0 →
              (m0 = Some (VMap sub) ∨ (m0 = None ∧ sub = ∅)) →
              (sub' ← put_path sub v (k' :: ks); Ret (<[k := VMap sub']> m)) = Ret m' →
              GetValue (Some m') (k2 :: ks2) = GetValue (Some m) (k2 :: ks2)) as Hsub.
    { intros sub m0 Hm0 Hcase Hb.
      destruct (put_path sub v (k' :: ks)) as [s'|] eqn:Hs; [|done]. inv Hb.
      case_decide as Hk; [subst k2|by apply GetValue_insert_ne].
      destruct ks2 as [|k3 ks3]; [done|].
      rewrite !GetValue_cons, lookup_insert_eq, (IH _ _ _ Hd Hs).
      destruct Hcase as [->|[-> ->]]; [done|apply GetValue_empty]. }
    destruct (m !! k) as [x|] eqn:Hk; [|eapply Hsub; eauto].
    destruct x; try (inv Hp; done). eapply Hsub; eauto.
Qed.

(** [RemoveValue] changes nothing off its path. *)
Lemma remove_frame m ks m' v ok ks' :
  path_disjoint ks ks' = true → RemoveValue (Some m) ks = (m', v, ok) →
  GetValue m' ks' = GetValue (Some m) ks'.
Proof.
  revert m m' ks'; induction ks as [|k|k k' ks IH] using path_ind; intros m m' ks' Hd Hp.
  - by destruct ks'.
  - destruct ks' as [|k2 ks2]; [done|]. rewrite path_disjoint_cons in Hd. case_decide; [done|].
    simpl in Hp. inv Hp. destruct ks2 as [|k3 ks3].
    + simpl. unfold mget, mlookup. simpl. by rewrite lookup_delete_ne.
    + rewrite !GetValue_cons. by rewrite lookup_delete_ne.
  - destruct ks' as [|k2 ks2]; [done|]. rewrite path_disjoint_cons in Hd.
    rewrite RemoveValue_cons in Hp.
    destruct (m !! k) as [x|] eqn:Hk; [|by inv Hp].
    destruct x as [| | | | | | | | | | | |sub]; try (by inv Hp).
    destruct (RemoveValue (Some sub) (k' :: ks)) as [[s' v'] ok'] eqn:Hs. inv Hp.
    case_decide as Hk2; [subst k2|by apply GetValue_insert_ne].
    destruct ks2 as [|k3 ks3]; [done|].
    rewrite !GetValue_cons, lookup_insert_eq, Hk, <- (IH _ _ _ Hd Hs).
    destruct s'; [done|]. simpl of_map. by rewrite GetValue_None.
Qed.

(** [RemoveValue] of a nil map, or of a path that is not there, is the identity
    on what [GetValue] reports of that path; [RemoveValue] keeps non-nil maps
    non-nil. *)
Lemma RemoveValue_Some m ks : ∃ m' v ok, RemoveValue (Some m) ks = (Some m', v, ok).
Proof.
  destruct ks as [|k [|k' ks]]; [by repeat eexists|by repeat eexists|].
  rewrite RemoveValue_cons. destruct (m !! k) as [[]|]; try (by repeat eexists).
  destruct (RemoveValue _ _) as [[??]?]. by repeat eexists.
Qed.

(** [RemoveValue] leaves the maps on the way to a path off its own. *)
Lemma remove_parents m ks m' v ok ks' :
  path_disjoint ks ks' = true → RemoveValue (Some m) ks = (Some m', v, ok) →
  path_parents m ks' = true → path_parents m' ks' = true.
Proof.
  revert m m' ks'; induction ks as [|k|k k' ks IH] using path_ind; intros m m' ks' Hd Hp Hpar.
  - by destruct ks'.
  - destruct ks' as [|k2 [|k3 ks3]]; [done|done|]. rewrite path_disjoint_cons in Hd. case_decide; [done|].
    simpl in Hp. inv Hp. simpl in *. by rewrite lookup_delete_ne.
  - destruct ks' as [|k2 [|k3 ks3]]; [done|done|]. rewrite path_disjoint_cons in Hd.
    rewrite RemoveValue_cons in Hp. cbn [path_parents] in *.
    destruct (m !! k) as [x|] eqn:Hk; [|by inv Hp].
    destruct x as [| | | | | | | | | | | |sub]; try (by inv Hp).
    destruct (RemoveValue_Some sub (k' :: ks)) as (s' & v' & ok' & Hs). rewrite Hs in Hp. inv Hp.
    case_decide as Hk2; [subst k2|by rewrite lookup_insert_ne].
    rewrite lookup_insert_eq. simpl of_map. cbv iota beta. rewrite Hk in Hpar. exact (IH sub s' (k3 :: ks3) Hd Hs Hpar).
Qed.

Lemma remove_parents_self m ks m' v :
  RemoveValue (Some m) ks = (Some m', v, true) → path_parents m' ks = true.
Proof.
  revert m m'; induction ks as [|k|k k' ks IH] using path_ind; intros m m' Hr; [done|done|].
  rewrite RemoveValue_cons in Hr. destruct (m !! k) as [x|] eqn:Hk; [|done].
  destruct x as [| | | | | | | | | | | |sub]; try done.
  destruct (RemoveValue_Some sub (k' :: ks)) as (s' & v' & ok' & Hs). rewrite Hs in Hr. inv Hr.
  specialize (IH sub s' Hs). cbn [path_parents] in *. rewrite lookup_insert_eq. simpl of_map. exact IH.
Qed.

(** Writing a value at a path that no scalar or slice blocks succeeds
    without a panic; afterwards [GetValue] finds exactly that value there, every
    path that does not lead through or along it reads as before, and
    [RemoveValue] takes the value out again. *)
Theorem put_value_correct (m : obj) (v : value) (ks : list string) :
  ks ≠ [] → path_open m ks = true →
  ∃ m', PutValue (Some m) v ks = Ret (Some m')
    ∧ GetValue (Some m') ks = (v, true)
    ∧ (∀ ks', path_disjoint ks ks' = true → GetValue (Some m') ks' = GetValue (Some m) ks')
    ∧ ∃ m'', RemoveValue (Some m') ks = (Some m'', v, true)
        ∧ (GetValue (Some m'') ks).2 = false.
Proof.
  intros Hne Ho. destruct (put_get m v ks Hne Ho) as (m' & Hp & Hg).
  exists m'. simpl. rewrite Hp. repeat split; auto.
  - intros ks' Hd. by eapply put_frame.
  - destruct (RemoveValue_Some m' ks) as (m'' & v' & ok & Hr).
    destruct (remove_gone _ _ _ _ _ Hr) as [Hg' Hgone].
    rewrite Hg in Hg'. inv Hg'. eauto.
Qed.

(** Writing [spec/replicas] into [{"spec": {"image": "x"}}]. *)
Lemma put_value_correct_witness :
  let m : obj := {[ "spec" := VMap {[ "image" := VStr "x" ]} ]} in
  ∃ m', PutValue (Some m) (VInt64 3) ["spec"; "replicas"] = Ret (Some m')
    ∧ GetValue (Some m') ["spec"; "replicas"] = (VInt64 3, true)
    ∧ (∀ ks', path_disjoint ["spec"; "replicas"] ks' = true →
         GetValue (Some m') ks' = GetValue (Some m) ks')
    ∧ ∃ m'', RemoveValue (Some m') ["spec"; "replicas"] = (Some m'', VInt64 3, true)
        ∧ (GetValue (Some m'') ["spec"; "replicas"]).2 = false.
Proof.
  intros m. apply (put_value_correct m (VInt64 3) ["spec"; "replicas"]); [done|].
  by vm_compute.
Defined.

(** ** Nesting of maps *)
Fixpoint map_depth (v : value) : nat :=
  match v with
  | VMap m => S (map_fold (λ _ v n, max (map_depth v) n) 0%nat m)
  | _ => 0
  end.

Lemma map_depth_lookup (m : obj) k v : m !! k = Some v → (map_depth v < map_depth (VMap m))%nat.
Proof.
  intros Hk. simpl. apply Nat.lt_succ_r. revert k v Hk.
  apply (map_fold_weak_ind (λ (r : nat) m, ∀ k v, m !! k = Some v → (map_depth v ≤ r)%nat)).
  - intros k v. by rewrite lookup_empty.
  - intros i x m' r Hi IH k v. rewrite lookup_insert. case_decide; [intros [= ->]; lia|].
    intros Hk%IH. lia.
Qed.

(** Induction on the nesting of maps. *)
Lemma map_nesting_ind (P : value → Prop) :
  (∀ v, (∀ m, v ≠ VMap m) → P v) → (∀ m, map_Forall (λ _ v, P v) m → P (VMap m)) → ∀ v, P v.
Proof.
  intros Hbase Hmap v. remember (map_depth v) as n eqn:Hn. revert v Hn. induction (lt_wf n) as [n _ IH]. intros v Hn.
  destruct (as_map v) as [[m|]|] eqn:Hv; [|apply Hbase; by intros m ->|apply Hbase; by intros m ->].
  destruct v; try done. simpl in Hv. injection Hv as ->. apply Hmap. intros k v Hk.
  eapply IH; [|done]. subst n. by eapply map_depth_lookup.
Qed.

(** No nil map is reached through maps. *)
Fixpoint no_nil_map (v : value) : bool :=
  match v with
  | VNilMap => false
  | VMap m => map_fold (λ _ v b, no_nil_map v && b) true m
  | _ => true
  end.

Lemma no_nil_map_lookup (m : obj) k v :
  no_nil_map (VMap m) = true → m !! k = Some v → no_nil_map v = true.
Proof.
  simpl. revert k v.
  apply (map_fold_weak_ind (λ (r : bool) m, ∀ k v, r = true → m !! k = Some v → no_nil_map v = true)).
  - intros k v _. by rewrite lookup_empty.
  - intros i x m' r Hi IH k v [Hx Hr]%andb_prop. rewrite lookup_insert. case_decide; [naive_solver|]. eauto.
Qed.
