(* ===== verification/Errors.v ===== *)
(** * Errors

    Models httperror/error.go, httperror/handler/handler.go and the error
    aggregation of types/schemas.go ([Errors], [NewErrors], [MultiErrors]).
    Go's nil error is [None]. *)

From S2P Require Import Prelude GoStrings Values.

(** ** Error codes of httperror *)
Definition Unauthorized := mkErrorCode "Unauthorized" 401.
Definition PermissionDenied := mkErrorCode "PermissionDenied" 403.
Definition NotFound := mkErrorCode "NotFound" 404.
Definition MethodNotAllowed := mkErrorCode "MethodNotAllow" 405.
Definition ConflictCode := mkErrorCode "Conflict" 409.
Definition InvalidDateFormat := mkErrorCode "InvalidDateFormat" 422.
Definition InvalidFormat := mkErrorCode "InvalidFormat" 422.
Definition InvalidReference := mkErrorCode "InvalidReference" 422.
Definition NotNullable := mkErrorCode "NotNullable" 422.
Definition NotUnique := mkErrorCode "NotUnique" 422.
Definition MinLimitExceeded := mkErrorCode "MinLimitExceeded" 422.
Definition MaxLimitExceeded := mkErrorCode "MaxLimitExceeded" 422.
Definition MinLengthExceeded := mkErrorCode "MinLengthExceeded" 422.
Definition MaxLengthExceeded := mkErrorCode "MaxLengthExceeded" 422.
Definition InvalidOption := mkErrorCode "InvalidOption" 422.
Definition InvalidCharacters := mkErrorCode "InvalidCharacters" 422.
Definition MissingRequired := mkErrorCode "MissingRequired" 422.
Definition InvalidCSRFToken := mkErrorCode "InvalidCSRFToken" 422.
Definition InvalidAction := mkErrorCode "InvalidAction" 422.
Definition InvalidBodyContent := mkErrorCode "InvalidBodyContent" 422.
Definition InvalidType := mkErrorCode "InvalidType" 422.
Definition ActionNotAvailable := mkErrorCode "ActionNotAvailable" 404.
Definition InvalidState := mkErrorCode "InvalidState" 422.
Definition ServerError := mkErrorCode "ServerError" 500.
Definition ClusterUnavailable := mkErrorCode "ClusterUnavailable" 503.

Definition ErrorCode_String (e : ErrorCode) : string := Code e +:+ " " +:+ itoa (Status e).

Definition NewAPIError (code : ErrorCode) (message : string) : error :=
  APIError code message None "".
Definition NewAPIErrorLong (status : Z) (code message : string) : error :=
  NewAPIError (mkErrorCode code status) message.
Definition NewFieldAPIError (code : ErrorCode) (fieldName message : string) : error :=
  APIError code message None fieldName.
Definition WrapFieldAPIError (err : error) (code : ErrorCode) (fieldName message : string) : error :=
  APIError code message (Some err) fieldName.
Definition WrapAPIError (err : error) (code : ErrorCode) (message : string) : error :=
  APIError code message (Some err) "".

Definition IsAPIError (e : error) : bool :=
  match e with APIError _ _ _ _ => true | _ => false end.
Definition IsNotFound (e : error) : bool :=
  match e with APIError c _ _ _ => Status c =? 404 | _ => false end.
Definition IsConflict (e : error) : bool :=
  match e with APIError c _ _ _ => Status c =? 409 | _ => false end.

(** MultiErrors.Error joins the messages with a comma; the separator is written
    only when the buffer already holds something. *)
Definition join_messages (msgs : list string) : string :=
  foldl (λ buf m, (if decide (buf = "") then buf else buf +:+ ", ") +:+ m) "" msgs.

(** The Error methods. *)
Fixpoint Error (e : error) : string :=
  match e with
  | ErrorString m => m
  | EOF => "EOF"
  | ErrClosedPipe => "io: read/write on closed pipe"
  | APIError code message _ fieldName =>
      if decide (fieldName ≠ "")
      then fieldName +:+ "=" +:+ ErrorCode_String code +:+ ": " +:+ message
      else ErrorCode_String code +:+ ": " +:+ message
  | MultiErrors errs => join_messages (map Error errs)
  | ForgetError err _ => Error err
  | HandlerError name err => "[" +:+ name +:+ "] failed with : " +:+ Error err
  | ConditionError _ message => message
  | Conflict m | AlreadyExists m | StatusError _ _ m => m
  end.

(** ** types.NewErrors and types.Errors *)
Definition NewErrors (inErrors : list (option error)) : option error :=
  match omap id inErrors with
  | [] => None
  | [e] => Some e
  | errors => Some (MultiErrors errors)
  end.

(** The accumulator [types.Errors]. *)
Definition Errors_Add (errors : list error) (err : option error) : list error :=
  match err with Some e => errors ++ [e] | None => errors end.
Definition Errors_Err (errors : list error) : option error := NewErrors (Some <$> errors).

(** ** httperror/handler: the JSON body of an error response *)
Definition toError (code : ErrorCode) (message fieldName : string) : obj :=
  let e : obj := {[ "type" := VStr "/meta/schemas/error"; "status" := VInt (Status code);
                    "code" := VStr (Code code); "message" := VStr message ]} in
  if decide (fieldName ≠ "") then <["fieldName" := VStr fieldName]> e else e.

(** ErrorHandler: an error that is not an APIError is reported as a 500. *)
Definition ErrorHandler (err : error) : Z * obj :=
  match err with
  | APIError code message _ fieldName => (Status code, toError code message fieldName)
  | _ => (500, toError ServerError (Error err) "")
  end.

(** ** Lemmas *)
Lemma omap_id_Some {A} (l : list A) : omap id (Some <$> l) = l.
Proof. induction l as [|a l IH]; [done|]. cbn. by rewrite IH. Qed.

Lemma NewErrors_None l : NewErrors l = None ↔ Forall (λ e, e = None) l.
Proof.
  unfold NewErrors. split.
  - intros H. induction l as [|[e|] l IH]; [done| |]; simpl in H.
    + by destruct (list_omap _ _ id l).
    + constructor; auto.
  - intros H. assert (omap id l = []) as ->; [|done].
    induction H as [|e l -> Hl IH]; simpl; auto.
Qed.

Lemma Errors_Err_None l : Errors_Err l = None ↔ l = [].
Proof. unfold Errors_Err, NewErrors. rewrite omap_id_Some. by destruct l as [|? []]. Qed.
