(* ===== verification/TypeNames.v ===== *)
(** * Type names and keys

    Models types/definition/definition.go (the syntax of field types),
    types/convert/ref.go, the key and case conversions of
    types/convert/convert.go, name/name.go, pkg/kv/split.go, types/slice and
    types/set. *)

From S2P Require Import Prelude GoStrings Values.
From Stdlib Require Import Ascii.
Local Open Scope nat_scope.

(** ** types/definition *)
Definition IsMapType (t : string) : bool := HasPrefix t "map[" && HasSuffix t "]".
Definition IsArrayType (t : string) : bool := HasPrefix t "array[" && HasSuffix t "]".
Definition IsReferenceType (t : string) : bool := HasPrefix t "reference[" && HasSuffix t "]".
Definition HasReferenceType (t : string) : bool := Contains t "reference[".

(** SubType: what is between the first bracket and the last byte. *)
Definition SubType (t : string) : string :=
  match Index t "[" with
  | None | Some O => t
  | Some i =>
      if String.length t - 1 <=? i then t
      else str_take (String.length t - 1 - (i + 1)) (str_drop (i + 1) t)
  end.

Definition GetShortTypeFromFull (t : string) : string := List.last (Split t "/") "".

(** ** types/convert/ref.go *)
Definition ToReference (t : string) : string := "reference[" +:+ t +:+ "]".
Definition ToFullReference (path t : string) : string := "reference[" +:+ path +:+ "/schemas/" +:+ t +:+ "]".

(** ** types/convert/convert.go: keys *)
Definition Capitalize (s : string) : string :=
  if String.length s <=? 1 then ToUpper s else ToUpper (str_take 1 s) +:+ str_drop 1 s.
Definition Uncapitalize (s : string) : string :=
  if String.length s <=? 1 then ToLower s else ToLower (str_take 1 s) +:+ str_drop 1 s.

(** LowerTitle lowers a leading run of capitals, except its last one when a
    lower-case letter follows. *)
Fixpoint LowerTitle_go (first : bool) (s : string) : string :=
  match s with
  | "" => ""
  | String c rest =>
      let last_or_upper := match rest with "" => true | String d _ => is_upper d end in
      if is_upper c && (first || last_or_upper)
      then String (to_lower c) (LowerTitle_go false rest)
      else s
  end.
Definition LowerTitle (s : string) : string := LowerTitle_go true s.

Definition ToJSONKey (str : string) : string :=
  match Split str "_" with
  | [] => ""
  | p :: parts => Join (p :: (Title <$> parts)) ""
  end.

(** The loop of ToYAMLKey after the first rune; [cap] says that only capitals
    were seen so far. *)
Fixpoint ToYAMLKey_go (cap : bool) (s : string) : string :=
  match s with
  | "" => ""
  | String r s' =>
      if is_upper r then
        if cap then String (to_lower r) (ToYAMLKey_go cap s')
        else String "_" (String (to_lower r) (ToYAMLKey_go cap s'))
      else String r (ToYAMLKey_go false s')
  end.
Definition ToYAMLKey (s : string) : string :=
  match s with
  | "" => ""
  | String r s' => String (to_lower r) (ToYAMLKey_go (is_upper r) s')
  end.

(** ** name/name.go *)
Definition GuessPluralName (name : string) : string :=
  if decide (name = "") then name
  else if EqualFold name "Endpoints" then name
  else if HasSuffix name "s" || HasSuffix name "ch" || HasSuffix name "x" then name +:+ "es"
  else if HasSuffix name "y" && (2 <? String.length name)
          && negb (ContainsAny (str_take 1 (str_drop (String.length name - 2) name)) "[aeiou]")
  then str_take (String.length name - 1) name +:+ "ies"
  else name +:+ "s".

(** ** pkg/kv/split.go *)
Definition kv_safeIndex (parts : list string) (idx : nat) : string := default "" (parts !! idx).
Definition kv_Split (s sep : string) : string * string :=
  let parts := Split2 s sep in
  (TrimSpace (kv_safeIndex parts 0), TrimSpace (kv_safeIndex parts 1)).
Definition kv_SplitMap (s : string) (sep : ascii) : gmap string string :=
  foldl (λ m part, let '(k, v) := kv_Split part "=" in <[k := v]> m) ∅ (Split s sep).

(** ** types/slice *)
Fixpoint ContainsString (slice : list string) (item : string) : bool :=
  match slice with
  | [] => false
  | j :: rest => if decide (j = item) then true else ContainsString rest item
  end.
Fixpoint StringsEqual (left right : list string) : bool :=
  match left, right with
  | [], [] => true
  | x :: l, y :: r => if decide (x = y) then StringsEqual l r else false
  | _, _ => false
  end.

(** ** types/set/reconcile.go: a [map[string]bool] holds a key with a value. *)
Section Set_.
Context `{MapRange}.
Definition member (m : gmap string bool) (k : string) : bool := default false (m !! k).
Definition Diff (desired actual : gmap string bool) : list string * list string * list string :=
  let ks := (range desired).*1 in
  (filter (λ k, member actual k = false) ks,
   filter (λ k, member desired k = false) (range actual).*1,
   filter (λ k, member actual k = true) ks).
Definition Changed (desired actual : gmap string bool) : bool :=
  let '(toCreate, toDelete, _) := Diff desired actual in
  negb (length toCreate =? 0) || negb (length toDelete =? 0).

Lemma length_filter_0 (P : string → bool) l :
  (length (filter (λ k, P k = false) l) =? 0) = true ↔ ∀ k, k ∈ l → P k = true.
Proof.
  rewrite Nat.eqb_eq. split.
  - intros H0 k Hk. destruct (P k) eqn:E; [done|].
    assert (k ∈ filter (λ k, P k = false) l) as Hin by (by apply list_elem_of_filter).
    destruct (filter _ l); [by apply not_elem_of_nil in Hin|done].
  - intros Hall. induction l as [|a l IH]; [done|]. rewrite filter_cons_False.
    + apply IH. intros k Hk. apply Hall. by right.
    + rewrite (Hall a); [done|by left].
Qed.

(** Nothing has to change exactly when each side's keys are members of the
    other. *)
Lemma Changed_false desired actual :
  Changed desired actual = false ↔
  (∀ k, is_Some (desired !! k) → member actual k = true) ∧
  (∀ k, is_Some (actual !! k) → member desired k = true).
Proof.
  unfold Changed, Diff. rewrite orb_false_iff, !negb_false_iff, !length_filter_0.
  assert (∀ (m : gmap string bool) k, k ∈ (range m).*1 ↔ is_Some (m !! k)) as Hk.
  { intros m k. rewrite list_elem_of_fmap. split.
    - intros ([k' b] & -> & Hin%elem_of_range). by eexists.
    - intros [b Hb]. exists (k, b). split; [done|]. by apply elem_of_range. }
  by setoid_rewrite Hk.
Qed.
End Set_.

(** ** Lemmas on field types *)
Lemma ContainsString_spec slice item : ContainsString slice item = true ↔ item ∈ slice.
Proof.
  induction slice as [|j rest IH]; simpl; [split; [done|by intros ?%not_elem_of_nil]|].
  rewrite elem_of_cons. case_decide; [subst; naive_solver|]. rewrite IH. naive_solver.
Qed.

(** A type constructor applied to a type: brackets around it. *)
Lemma SubType_app c t :
  str_in "[" c = false → c ≠ "" → SubType (c +:+ "[" +:+ t +:+ "]") = t.
Proof.
  intros Hc Hne. unfold SubType.
  change ("[" +:+ t +:+ "]") with (String "[" (t +:+ "]")).
  rewrite Index_byte_app by done. destruct (String.length c) as [|n] eqn:Hl; [by destruct c|].
  rewrite <- Hl. rewrite str_length_app. simpl (String.length (String _ _)). rewrite str_length_app.
  simpl (String.length "]").
  destruct (Nat.leb_spec (String.length c + S (String.length t + 1) - 1) (String.length c)); [lia|].
  rewrite str_drop_add, str_drop_app. simpl (str_drop 1 _).
  replace (String.length c + S (String.length t + 1) - 1 - (String.length c + 1)) with (String.length t) by lia.
  apply str_take_app.
Qed.

(** SubType shrinks a type until it is a fixed point: the loop
    [for subType != t] of the schema store ends. *)
Lemma SubType_length t : SubType t = t ∨ String.length (SubType t) < String.length t.
Proof.
  unfold SubType. destruct (Index t "[") as [[|i]|]; [by left| |by left].
  destruct (Nat.leb_spec (String.length t - 1) (S i)); [by left|]. right.
  rewrite str_length_take. lia.
Qed.

(** ** JSON and YAML keys *)
Definition is_alnum (c : ascii) : bool := is_letter c || is_digit c.

Lemma to_upper_to_lower c : is_upper c = true → to_upper (to_lower c) = c.
Proof. destruct c as [[] [] [] [] [] [] [] []]; vm_compute; done. Qed.

Lemma alnum_facts c :
  is_alnum c = true → c ≠ "_"%char ∧ is_separator c = false ∧
  to_lower c ≠ "_"%char ∧ is_separator (to_lower c) = false.
Proof. destruct c as [[] [] [] [] [] [] [] []]; vm_compute; repeat split; discriminate. Qed.

Lemma not_upper_to_lower c : is_upper c = false → to_lower c = c.
Proof. unfold to_lower. by intros ->. Qed.

Lemma Join_nil_cons s l : Join (s :: l) "" = s +:+ Join l "".
Proof. destruct l; simpl; [by rewrite str_app_nil_r|done]. Qed.

Lemma title_go_alnum s : str_all is_alnum s = true → title_go false s = s.
Proof.
  induction s as [|c s IH]; [done|]. simpl. intros [Hc Hs]%andb_prop.
  destruct (alnum_facts c Hc) as (_ & -> & _). by rewrite IH.
Qed.

(** The parts of the snake-case form of an alphanumeric string, put back
    together with their initials raised, are the string. *)
Lemma split_yaml u cur :
  str_all is_alnum u = true →
  ∃ q parts, split_go "_" cur (ToYAMLKey_go false u) = (cur +:+ q) :: parts
    ∧ str_all is_alnum q = true ∧ q +:+ Join (Title <$> parts) "" = u.
Proof.
  revert cur. induction u as [|c u IH]; intros cur Hu.
  { exists "", []. simpl. by rewrite str_app_nil_r. }
  simpl in Hu. apply andb_prop in Hu as [Hc Hu]. destruct (alnum_facts c Hc) as (Hne & _ & Hne' & Hsep').
  simpl. destruct (is_upper c) eqn:Hup; simpl.
  - destruct (IH (String (to_lower c) "") Hu) as (q & parts & Hs & Hq & Hj).
    exists "", (String (to_lower c) q :: parts).
    rewrite (decide_False _ _ Hne'). simpl in Hs. rewrite str_app_nil_r.
    split; [by rewrite Hs|]. split; [done|].
    rewrite fmap_cons, Join_nil_cons. unfold Title at 1. simpl.
    by rewrite to_upper_to_lower, Hsep', title_go_alnum, Hj.
  - destruct (IH (cur +:+ String c "") Hu) as (q & parts & Hs & Hq & Hj).
    exists (String c q), parts. rewrite (decide_False _ _ Hne), Hs, str_app_assoc.
    split; [done|]. simpl. by rewrite Hc, Hq, Hj.
Qed.

(** ToYAMLKey and ToJSONKey are inverse on keys: an alphanumeric key that
    starts with a lower-case letter or a digit, turned into snake case, is
    turned back into itself. *)
Theorem yaml_json_key_roundtrip (c : ascii) (s : string) :
  is_upper c = false → str_all is_alnum (String c s) = true →
  ToJSONKey (ToYAMLKey (String c s)) = String c s.
Proof.
  intros Hup [Hc Hs]%andb_prop. unfold ToYAMLKey. rewrite Hup, (not_upper_to_lower _ Hup).
  unfold ToJSONKey, Split. destruct (alnum_facts c Hc) as (Hne & _). cbn [split_go].
  rewrite (decide_False _ _ Hne). simpl ("" +:+ _).
  destruct (split_yaml s (String c "") Hs) as (q & parts & -> & _ & Hj).
  rewrite Join_nil_cons. simpl. by rewrite Hj.
Qed.

Lemma yaml_json_key_roundtrip_witness :
  ToJSONKey (ToYAMLKey "clusterIPRange2") = "clusterIPRange2".
Proof. apply (yaml_json_key_roundtrip "c" "lusterIPRange2"); by vm_compute. Defined.
