(* ===== verification/Convert.v ===== *)
(** * Conversions of dynamic values

    Models types/convert/convert.go (ToString, ToBool, ToNumber, ToFloat,
    ToTimestamp, ToStringSlice, Chan), types/convert/transform.go and
    types/convert/value_set_string.go.

    The text that Go's fmt, time and strconv produce for a floating point
    number, a time, or a composite value, and what they read back from such a
    text, errors included, are operations of the class [GoFormat]; on strings,
    numbers and booleans fmt.Sprint is written out, and so is
    strconv.ParseInt but for its error. *)

From S2P Require Import Prelude GoStrings Values.
From Stdlib Require Import Ascii.

Class GoFormat := {
  sprint_other : value → string;          (* fmt.Sprint of a float, a time, a list or a map *)
  format_rfc3339 : Z → string;            (* time.Time.Format(time.RFC3339) *)
  parse_rfc3339 : string → result Z;      (* time.Parse(time.RFC3339, _), in nanoseconds *)
  parse_float : string → result spec_float;   (* strconv.ParseFloat(_, 64) *)
  parse_int_error : string → error;       (* the error of strconv.ParseInt(_, 10, 64), if it fails *)
  int64_of_float : spec_float → Z;        (* int64(f) *)
  float_of_int64 : Z → spec_float;        (* float64(i) *)
  int64_of_float_range : ∀ f, in_int64 (int64_of_float f) = true
}.

(** A formatter for evaluation. *)
Definition std_format : GoFormat := {|
  sprint_other := λ _, "?";
  format_rfc3339 := λ ns, itoa ns;
  parse_rfc3339 := λ s, match ParseInt s with Some ns => inl ns | None => inr (ErrorString s) end;
  parse_float := λ s, inr (ErrorString s);
  parse_int_error := ErrorString;
  int64_of_float := λ _, 0;
  float_of_int64 := λ _, S754_zero false;
  int64_of_float_range := λ _, eq_refl
|}.

Section Convert.
Context `{GoFormat}.

(** fmt.Sprint *)
Definition Sprint (v : value) : string :=
  match v with
  | VNil => "<nil>"
  | VBool b => if b then "true" else "false"
  | VInt z | VInt64 z => itoa z
  | VNumber s | VStr s => s
  | _ => sprint_other v
  end.

Definition ToStringNoTrim (v : value) : string :=
  match v with
  | VTime ns => format_rfc3339 ns
  | _ => match Singular v with VNil => "" | single => Sprint single end
  end.

Definition ToString (v : value) : string := TrimSpace (ToStringNoTrim v).

(** Milliseconds; Go's division truncates. *)
Definition ToTimestamp (v : value) : result Z :=
  let str := ToString v in
  if decide (str = "") then inr (ErrorString "invalid date")
  else match parse_rfc3339 str with
       | inl ns => inl (Z.quot ns 1000000)
       | inr err => inr err
       end.

Definition ToBool (v : value) : bool :=
  match Singular v with
  | VBool b => b
  | value =>
      let str := ToLower (ToString value) in
      bool_decide (str = "true") || bool_decide (str = "t") || bool_decide (str = "yes") || bool_decide (str = "y")
  end.

Definition ParseInt_err (s : string) : result Z :=
  match ParseInt s with Some z => inl z | None => inr (parse_int_error s) end.

Definition ToNumber (v : value) : result Z :=
  match Singular v with
  | VInt64 z => inl z
  | VFloat f => inl (int64_of_float f)
  | VNumber n =>
      match ParseInt n with
      | Some i => inl i
      | None => match parse_float n with
                | inl f => inl (int64_of_float f)
                | inr err => inr err
                end
      end
  | value => ParseInt_err (ToString value)
  end.

Definition ToFloat (v : value) : result spec_float :=
  match Singular v with
  | VFloat f => inl f
  | VNumber n => match ParseInt n with Some i => inl (float_of_int64 i) | None => parse_float n end
  | value => parse_float (ToString value)
  end.

Definition ToStringSlice (v : value) : list string :=
  match v with
  | VStrs l => l
  | VList l => ToString <$> l
  | _ => []
  end.

(** values.GetStringSlice: the strings of a path, and whether there are. *)
Definition GetStringSlice (data : option obj) (keys : list string) : list string * bool :=
  let '(val, ok) := GetValue data keys in
  if negb ok then ([], false)
  else match val with
       | VStrs l => (l, true)
       | VList l => (ToString <$> l, true)
       | _ => ([], false)
       end.

(** definition.GetFullType *)
Definition GetFullType (data : option obj) : string := ToString (mget data "type").

(** Chan: the values sent on the new channel for those received on [c]; a nil
    result is not sent. *)
Definition Chan (f : option obj → option obj) (c : list (option obj)) : list obj := omap f c.

(** ** ToValuesSlice

    splitRegexp splits around commas and takes the white space next to them. *)
Fixpoint trim_pieces (first : bool) (l : list string) : list string :=
  match l with
  | [] => []
  | [s] => [if first then s else trim_left s]
  | s :: l' => trim_right (if first then s else trim_left s) :: trim_pieces false l'
  end.

Definition ToValuesSlice (value : string) : list string :=
  let value := TrimSpace value in
  if HasPrefix value "(" && HasSuffix value ")" then
    trim_pieces true (Split (str_take (String.length value - 2) (str_drop 1 value)) ",")
  else [value].

(** ** Transform

    The maps below [data] are changed in place.  [fuel] bounds the length of the
    path, which every call shortens. *)
Definition ArrayKey : string := "{ARRAY}".
Definition MapKey : string := "{MAP}".

Fixpoint transform (fuel : nat) (data : obj) (path : list string) (f : value → value) : obj :=
  match fuel with
  | O => data
  | S fuel' =>
      match path with
      | [] => data
      | key :: path' =>
          match data !! key with
          | None | Some VNil => data
          | Some v =>
              let into x := match x with VMap m => VMap (transform fuel' m path' f) | _ => x end in
              match path' with
              | [] => <[key := f v]> data
              | k' :: _ :: _ =>
                  let sub x := match x with VMap m => VMap (transform fuel' m (tail path') f) | _ => x end in
                  if decide (k' = ArrayKey) then
                    match v with
                    | VMaps l => <[key := VMaps (map (option_map (λ m, transform fuel' m (tail path') f)) l)]> data
                    | VList l => if forallb is_map l then <[key := VList (map sub l)]> data else data
                    | _ => data
                    end
                  else if decide (k' = MapKey) then
                    match v with
                    | VMap m => <[key := VMap (sub <$> m)]> data
                    | _ => data
                    end
                  else <[key := into v]> data
              | _ => <[key := into v]> data
              end
          end
      end
  end.
Definition Transform (data : option obj) (path : list string) (f : value → value) : option obj :=
  (λ m, transform (length path) m path f) <$> data.

(** ** Lemmas *)
Lemma trim_right_app_nonspace s c : is_space c = false → trim_right (s +:+ String c "") = s +:+ String c "".
Proof.
  intros Hc. induction s as [|d s IH]; simpl; [by rewrite Hc|]. rewrite IH. by destruct s.
Qed.

Lemma TrimSpace_id s : str_all (λ c, negb (is_space c)) s = true → TrimSpace s = s.
Proof.
  unfold TrimSpace. intros Hs. assert (trim_left s = s) as ->.
  { destruct s; simpl in *; [done|]. by destruct (is_space _). }
  induction s as [|c s IH]; simpl in *; [done|]. apply andb_prop in Hs as [Hc Hs].
  rewrite IH by done. destruct s; [|done]. by destruct (is_space c).
Qed.

Lemma uint_no_space d : str_all (λ c, negb (is_space c)) (DecimalString.NilEmpty.string_of_uint d) = true.
Proof. by induction d; simpl. Qed.

Lemma itoa_no_space z : str_all (λ c, negb (is_space c)) (itoa z) = true.
Proof.
  unfold itoa, DecimalString.NilZero.string_of_int. destruct (Z.to_int z) as [d|d]; simpl.
  - destruct d; try done; apply uint_no_space.
  - destruct d; try done; apply uint_no_space.
Qed.

Lemma ToString_Str s : str_all (λ c, negb (is_space c)) s = true → ToString (VStr s) = s.
Proof. apply TrimSpace_id. Qed.

(** A whole number in the int64 range is read as itself by ToNumber however
    a decoder or a form delivered it: as an int, an int64, a JSON number, a
    string, or the first element of a list of values. *)
Theorem to_number_representations z rest srest :
  in_int64 z = true →
  Forall (λ v, ToNumber v = inl z)
    [VInt z; VInt64 z; VNumber (itoa z); VStr (itoa z); VStrs (itoa z :: srest);
     VList (VInt64 z :: rest); VList (VStr (itoa z) :: rest); VList (VNumber (itoa z) :: rest)].
Proof.
  intros Hz.
  assert (ParseInt_err (ToString (VStr (itoa z))) = inl z) as Hs.
  { rewrite ToString_Str by apply itoa_no_space. unfold ParseInt_err. by rewrite ParseInt_itoa. }
  repeat constructor; unfold ToNumber; simpl; rewrite ?ParseInt_itoa by done; try done.
Qed.

(** A number ToNumber returns is an int64. *)
Lemma ToNumber_range v z : (∀ i, Singular v = VInt64 i → in_int64 i = true) → ToNumber v = inl z → in_int64 z = true.
Proof.
  intros Hv. assert (∀ s z, ParseInt s = Some z → in_int64 z = true) as HP.
  { intros s z'. unfold ParseInt. intros (x & _ & Hx)%bind_Some. by destruct (in_int64 x) eqn:?; simplify_eq. }
  assert (∀ s, ParseInt_err s = inl z → in_int64 z = true) as HPe.
  { intros s. unfold ParseInt_err. destruct (ParseInt s) eqn:Hs; [|done]. intros [= <-]. eauto. }
  unfold ToNumber. destruct (Singular v) eqn:Hs; try apply HPe.
  - intros [= <-]. by apply Hv.
  - intros [= <-]. apply int64_of_float_range.
  - destruct (ParseInt s) eqn:Hp; [intros [= <-]; eauto|]. destruct (parse_float s); [|done].
    intros [= <-]. apply int64_of_float_range.
Qed.
End Convert.

Lemma to_number_representations_witness :
  @ToNumber std_format (VStr "-42") = inl (-42) ∧ @ToNumber std_format (VList [VStr "-42"; VNil]) = inl (-42).
Proof.
  pose proof (@to_number_representations std_format (-42) [VNil] [] eq_refl) as Hf.
  rewrite !Forall_cons in Hf. split; apply Hf.
Defined.

Example values_slice :
  ToValuesSlice " (a , b,, c d ) " = ["a"; "b"; ""; "c d "] ∧ ToValuesSlice "x, y" = ["x, y"].
Proof. by vm_compute. Qed.

(** Strings that were put at a path are found there. *)
Lemma put_strings `{GoFormat} m l keys :
  keys ≠ [] → path_open m keys = true → ∃ m', put_path m (VStrs l) keys = Ret m' ∧ GetStringSlice (Some m') keys = (l, true).
Proof. intros Hne Ho. destruct (put_get m (VStrs l) keys Hne Ho) as (m' & Hp & Hg). exists m'. split; [done|]. unfold GetStringSlice. by rewrite Hg. Qed.
