(* ===== verification/Base64.v ===== *)
(** * Base 64

    The standard encoding of Go's encoding/base64, which types/mapper/base64.go
    uses: with padding; the decoder skips line breaks and, on a corrupt input,
    returns what it decoded before the error. *)

From S2P Require Import Prelude GoStrings.
From Stdlib Require Import Ascii.
Local Open Scope Z_scope.

Definition byte (c : ascii) : Z := Z.of_nat (nat_of_ascii c).
Definition chr (z : Z) : ascii := ascii_of_nat (Z.to_nat z).

Definition alphabet : list ascii :=
  String.list_ascii_of_string "ABCDEFGHIJKLMNOPQRSTUVWXYZabcdefghijklmnopqrstuvwxyz0123456789+/".
Definition sextet (z : Z) : ascii := default "A"%char (alphabet !! Z.to_nat z).
Definition unsextet (c : ascii) : option Z := (λ p, Z.of_nat p.1) <$> list_find (c =.) alphabet.

(** EncodeToString *)
Fixpoint encode (s : string) : string :=
  match s with
  | "" => ""
  | String a "" =>
      let v := Z.shiftl (byte a) 16 in
      String (sextet (Z.land (Z.shiftr v 18) 63)) (String (sextet (Z.land (Z.shiftr v 12) 63)) "==")
  | String a (String b "") =>
      let v := Z.lor (Z.shiftl (byte a) 16) (Z.shiftl (byte b) 8) in
      String (sextet (Z.land (Z.shiftr v 18) 63)) (String (sextet (Z.land (Z.shiftr v 12) 63))
        (String (sextet (Z.land (Z.shiftr v 6) 63)) "="))
  | String a (String b (String c s')) =>
      let v := Z.lor (Z.lor (Z.shiftl (byte a) 16) (Z.shiftl (byte b) 8)) (byte c) in
      String (sextet (Z.land (Z.shiftr v 18) 63)) (String (sextet (Z.land (Z.shiftr v 12) 63))
        (String (sextet (Z.land (Z.shiftr v 6) 63)) (String (sextet (Z.land v 63)) (encode s'))))
  end.

Definition is_break (c : ascii) : bool := bool_decide (c = "010"%char) || bool_decide (c = "013"%char).
Fixpoint strip_breaks (s : string) : string :=
  match s with
  | "" => ""
  | String c s' => if is_break c then strip_breaks s' else String c (strip_breaks s')
  end.

(** The loop over quanta of four characters: the decoded bytes and whether the
    whole input was valid. *)
Fixpoint decode_go (s : string) : string * bool :=
  match s with
  | "" => ("", true)
  | String c1 (String c2 (String c3 (String c4 s'))) =>
      match unsextet c1, unsextet c2 with
      | Some x1, Some x2 =>
          let v12 := Z.lor (Z.shiftl x1 18) (Z.shiftl x2 12) in
          let b1 := chr (Z.land (Z.shiftr v12 16) 255) in
          match unsextet c3, unsextet c4 with
          | Some x3, Some x4 =>
              let v := Z.lor (Z.lor v12 (Z.shiftl x3 6)) x4 in
              let '(out, ok) := decode_go s' in
              (String b1 (String (chr (Z.land (Z.shiftr v 8) 255)) (String (chr (Z.land v 255)) out)), ok)
          | Some x3, None =>
              if decide (c4 = "="%char) then
                let v := Z.lor v12 (Z.shiftl x3 6) in
                (String b1 (String (chr (Z.land (Z.shiftr v 8) 255)) ""), bool_decide (s' = ""))
              else ("", false)
          | None, _ =>
              if decide (c3 = "="%char ∧ c4 = "="%char) then (String b1 "", bool_decide (s' = ""))
              else ("", false)
          end
      | _, _ => ("", false)
      end
  | _ => ("", false)
  end.
(** DecodeString *)
Definition decode (s : string) : string * bool := decode_go (strip_breaks s).

(** ** Decoding an encoding *)
Lemma byte_range c : 0 ≤ byte c < 256.
Proof. unfold byte. pose proof (nat_ascii_bounded c). lia. Qed.

Lemma chr_byte c : chr (byte c) = c.
Proof. unfold chr, byte. by rewrite Nat2Z.id, ascii_nat_embedding. Qed.

Lemma sextets : Forall (λ n, unsextet (sextet (Z.of_nat n)) = Some (Z.of_nat n) ∧
    is_break (sextet (Z.of_nat n)) = false ∧ is_space (sextet (Z.of_nat n)) = false)
  (seq 0 64).
Proof. repeat (constructor; [by vm_compute|]). constructor. Qed.

Lemma sextet_spec z : 0 ≤ z < 64 → unsextet (sextet z) = Some z ∧ is_break (sextet z) = false ∧ is_space (sextet z) = false.
Proof.
  intros Hz. pose proof sextets as Hf. rewrite Forall_forall in Hf.
  specialize (Hf (Z.to_nat z)). rewrite Z2Nat.id in Hf by lia. apply Hf. apply elem_of_seq. lia.
Qed.

Lemma land63 z : 0 ≤ Z.land z 63 < 64.
Proof. change 63 with (Z.ones 6). rewrite Z.land_ones by lia. apply Z.mod_pos_bound. lia. Qed.

Lemma unsextet_sextet z : unsextet (sextet (Z.land z 63)) = Some (Z.land z 63).
Proof. apply sextet_spec, land63. Qed.
Lemma sextet_break z : is_break (sextet (Z.land z 63)) = false.
Proof. apply sextet_spec, land63. Qed.

Lemma byte_high c n : 8 ≤ n → Z.testbit (byte c) n = false.
Proof.
  intros Hn. pose proof (byte_range c). destruct (decide (byte c = 0)) as [->|]; [apply Z.testbit_0_l|].
  apply Z.bits_above_log2; [lia|]. apply Z.log2_lt_pow2; [lia|].
  eapply Z.lt_le_trans; [|apply (Z.pow_le_mono_r 2 8); lia]. lia.
Qed.

(** Two numbers below 256 are equal when their eight bits are. *)
Lemma octet_ext x y :
  (∀ n, 8 ≤ n → Z.testbit x n = false) → (∀ n, 8 ≤ n → Z.testbit y n = false) →
  Forall (λ n, Z.testbit x n = Z.testbit y n) [0; 1; 2; 3; 4; 5; 6; 7] → x = y.
Proof.
  intros Hx Hy Hf. apply Z.bits_inj'. intros n Hn. destruct (decide (n < 8)).
  - rewrite Forall_forall in Hf. apply Hf. rewrite !elem_of_cons. lia.
  - rewrite Hx, Hy by lia. done.
Qed.

Lemma octet_land x n : 8 ≤ n → Z.testbit (Z.land x 255) n = false.
Proof.
  intros Hn. rewrite Z.land_spec. change 255 with (Z.ones 8). rewrite Z.ones_spec_high by lia. apply andb_false_r.
Qed.

(** The bits of an expression of shifts and masks at a known position. *)
Ltac eval_bits :=
  repeat match goal with
    | |- context [Z.testbit (Zpos ?p) (Zpos ?n)] =>
        let b := eval compute in (Z.testbit (Zpos p) (Zpos n)) in change (Z.testbit (Zpos p) (Zpos n)) with b
    | |- context [Z.testbit (Zpos ?p) Z0] =>
        let b := eval compute in (Z.testbit (Zpos p) Z0) in change (Z.testbit (Zpos p) Z0) with b
    | |- context [Z.testbit ?x (Zneg ?p)] => rewrite (Z.testbit_neg_r x (Zneg p)) by done
    | |- context [Z.testbit (byte ?c) (Zpos ?n)] => rewrite (byte_high c (Zpos n)) by lia
    | |- context [Z.testbit ?x ?n] =>
        lazymatch n with Z0 => fail | Zpos _ => fail | _ =>
          let m := eval compute in n in change (Z.testbit x n) with (Z.testbit x m) end
    | |- context [Z.testbit (Z.land ?x ?y) ?n] => rewrite (Z.land_spec x y n)
    | |- context [Z.testbit (Z.lor ?x ?y) ?n] => rewrite (Z.lor_spec x y n)
    | |- context [Z.testbit (Z.shiftl ?x ?y) ?n] => rewrite (Z.shiftl_spec x y n) by lia
    | |- context [Z.testbit (Z.shiftr ?x ?y) ?n] => rewrite (Z.shiftr_spec x y n) by lia
    end;
  rewrite ?andb_true_r, ?andb_false_r, ?orb_false_r, ?orb_false_l.
Ltac solve_octet :=
  apply octet_ext; [intros ?; apply octet_land|intros ?; apply byte_high|];
  repeat (constructor; [eval_bits; reflexivity|]); constructor.

Lemma quantum1 a :
  let v := Z.shiftl (byte a) 16 in
  Z.land (Z.shiftr (Z.lor (Z.shiftl (Z.land (Z.shiftr v 18) 63) 18) (Z.shiftl (Z.land (Z.shiftr v 12) 63) 12)) 16) 255
  = byte a.
Proof. intros v. unfold v. solve_octet. Qed.

Lemma quantum2 a b :
  let v := Z.lor (Z.shiftl (byte a) 16) (Z.shiftl (byte b) 8) in
  let w12 := Z.lor (Z.shiftl (Z.land (Z.shiftr v 18) 63) 18) (Z.shiftl (Z.land (Z.shiftr v 12) 63) 12) in
  let w := Z.lor w12 (Z.shiftl (Z.land (Z.shiftr v 6) 63) 6) in
  Z.land (Z.shiftr w12 16) 255 = byte a ∧ Z.land (Z.shiftr w 8) 255 = byte b.
Proof.
  intros v w12 w. unfold w, w12, v. split; solve_octet. Qed.

Lemma quantum3 a b c :
  let v := Z.lor (Z.lor (Z.shiftl (byte a) 16) (Z.shiftl (byte b) 8)) (byte c) in
  let w12 := Z.lor (Z.shiftl (Z.land (Z.shiftr v 18) 63) 18) (Z.shiftl (Z.land (Z.shiftr v 12) 63) 12) in
  let w := Z.lor (Z.lor w12 (Z.shiftl (Z.land (Z.shiftr v 6) 63) 6)) (Z.land v 63) in
  Z.land (Z.shiftr w12 16) 255 = byte a ∧ Z.land (Z.shiftr w 8) 255 = byte b ∧ Z.land w 255 = byte c.
Proof. intros v w12 w. unfold w, w12, v. split_and!; solve_octet. Qed.

(** Induction by three characters at a time. *)
Lemma string_ind3 (P : string → Prop) :
  P "" → (∀ a, P (String a "")) → (∀ a b, P (String a (String b ""))) →
  (∀ a b c s, P s → P (String a (String b (String c s)))) → ∀ s, P s.
Proof.
  intros H0 H1 H2 H3 s. remember (String.length s) as n eqn:Hn. revert s Hn.
  induction (lt_wf n) as [n _ IH]. intros [|a [|b [|c s]]] Hn; auto. apply H3. eapply IH; [|done].
  simpl in Hn. lia.
Qed.

Lemma strip_encode s : strip_breaks (encode s) = encode s.
Proof.
  induction s as [| | |a b c s IH] using string_ind3; [done| | |];
    cbn [encode strip_breaks]; rewrite !sextet_break; try done. by rewrite IH.
Qed.

(** Decoding an encoding gives it back. *)
Lemma decode_encode s : decode (encode s) = (s, true).
Proof.
  unfold decode. rewrite strip_encode.
  induction s as [|a|a b|a b c s IH] using string_ind3; [done| | |];
    cbn [encode decode_go]; rewrite !unsextet_sextet.
  - change (unsextet "=") with (@None Z). cbn [decide]. by rewrite (quantum1 a), chr_byte.
  - change (unsextet "=") with (@None Z). destruct (quantum2 a b) as [-> ->]. by rewrite !chr_byte.
  - rewrite IH. destruct (quantum3 a b c) as (-> & -> & ->). by rewrite !chr_byte.
Qed.

Lemma encode_no_space s : str_all (λ c, negb (is_space c)) (encode s) = true.
Proof.
  assert (∀ z, is_space (sextet (Z.land z 63)) = false) as Hsp by (intros z; apply sextet_spec, land63).
  induction s as [| | |a b c s IH] using string_ind3; [done| | |]; cbn [encode str_all]; rewrite !Hsp; try done.
Qed.

Lemma encode_empty s : encode s = "" → s = "".
Proof. by destruct s as [|? [|? [|? ?]]]. Qed.
