(* ===== verification/Schemas.v ===== *)
(** * Schemas

    Models the data of types/types.go and the registry of types/schemas.go.

    A Schema describes a resource type.  The registry keeps, per version path,
    the schemas by id ([schemasByPath]), the list of all schemas in the order
    they were added ([schemas]), the versions, and the back references: for a
    referenced type, the fields of other schemas that refer to it.

    The handlers, the store and the mapper of a schema are carried along
    unchanged by the registry and are not part of the record; the mappers are
    modelled in Mappers.v. *)

From S2P Require Import Prelude GoStrings Values Errors TypeNames.

Record Field := mkField {
  Type_ : string;
  Default : value;
  Nullable : bool;
  Create : bool;
  WriteOnly : bool;
  Required : bool;
  Update : bool;
  MinLength : option Z;
  MaxLength : option Z;
  Min : option Z;
  Max : option Z;
  Options : list string;
  ValidChars : string;
  InvalidChars : string;
  Description : string;
  FieldCodeName : string;
  DynamicField : bool
}.

(** The zero value of the struct, which a lookup of a missing field gives. *)
Definition zero_field : Field :=
  mkField "" VNil false false false false false None None None None [] "" "" "" "" false.

Record Action := mkAction { Input : string; Output : string }.

Record APIVersion := mkVersion {
  Group : string;
  Version_ : string;
  Path : string;
  SubContext : bool;
  SubContextSchema : string
}.
#[export] Instance APIVersion_eq_dec : EqDecision APIVersion.
Proof. solve_decision. Defined.

Inductive Schema : Type := mkSchema {
  ID : string;
  Embed : bool;
  EmbedType : string;
  CodeName : string;
  CodeNamePlural : string;
  SType : string;
  BaseType : string;
  Version : APIVersion;
  PluralName : string;
  ResourceMethods : list string;
  ResourceFields : gmap string Field;
  ResourceActions : gmap string Action;
  CollectionMethods : list string;
  CollectionActions : gmap string Action;
  CollectionFilters : gmap string (list string);   (* modifiers *)
  DynamicSchemaVersion : string;
  Scope : string;
  InternalSchema : option Schema
}.

(** [schema.ResourceFields[name]] *)
Definition field_of (s : Schema) (name : string) : Field :=
  default zero_field (ResourceFields s !! name).

Definition set_fields (s : Schema) (fs : gmap string Field) : Schema :=
  mkSchema (ID s) (Embed s) (EmbedType s) (CodeName s) (CodeNamePlural s) (SType s) (BaseType s)
    (Version s) (PluralName s) (ResourceMethods s) fs (ResourceActions s) (CollectionMethods s)
    (CollectionActions s) (CollectionFilters s) (DynamicSchemaVersion s) (Scope s) (InternalSchema s).

(** types/schema_funcs.go, APIVersion.Equals *)
Definition Version_Equals (v w : APIVersion) : bool :=
  bool_decide (Version_ v = Version_ w) && bool_decide (Group v = Group w) && bool_decide (Path v = Path w).

Record BackReference := mkBackReference { RefField : string; RefSchema : Schema }.

Record Schemas := mkSchemas {
  schemasByPath : gmap string (gmap string Schema);
  references : gmap string (list BackReference);
  versions : list APIVersion;
  schemas : list Schema;
  AddHook : option (Schema → Schema);
  errors : list error
}.

Definition NewSchemas (hook : option (Schema → Schema)) : Schemas := mkSchemas ∅ ∅ [] [] hook [].

Definition Schemas_Err (s : Schemas) : option error := NewErrors (Some <$> errors s).

(** setupDefaults: fills what can be guessed; a schema without an id or a
    version is reported and left as it is.  The report on a missing id ends in
    the [%v] print of the schema, an operation of the class [SchemaFormat]. *)
Class SchemaFormat := { sprint_schema : Schema → string }.
Definition std_schema_format : SchemaFormat := {| sprint_schema := ID |}.

Definition setupDefaults `{SchemaFormat} (s : Schemas) (sc : Schema) : Schemas * Schema :=
  let typed := mkSchema (ID sc) (Embed sc) (EmbedType sc) (CodeName sc) (CodeNamePlural sc)
      "/meta/schemas/schema" (BaseType sc) (Version sc) (PluralName sc) (ResourceMethods sc)
      (ResourceFields sc) (ResourceActions sc) (CollectionMethods sc) (CollectionActions sc)
      (CollectionFilters sc) (DynamicSchemaVersion sc) (Scope sc) (InternalSchema sc) in
  let report msg := mkSchemas (schemasByPath s) (references s) (versions s) (schemas s) (AddHook s)
                      (errors s ++ [ErrorString msg]) in
  if decide (ID sc = "") then (report ("ID is not set on schema: " +:+ sprint_schema typed), typed)
  else if decide (Path (Version sc) = "" ∨ Version_ (Version sc) = "")
  then (report ("version is not set on schema: " +:+ ID sc), typed)
  else
    let plural := if decide (PluralName sc = "") then GuessPluralName (ID sc) else PluralName sc in
    let code := if decide (CodeName sc = "") then Capitalize (ID sc) else CodeName sc in
    let codePlural := if decide (CodeNamePlural sc = "") then GuessPluralName code else CodeNamePlural sc in
    let base := if decide (BaseType sc = "") then ID sc else BaseType sc in
    (s, mkSchema (ID sc) (Embed sc) (EmbedType sc) code codePlural
          "/meta/schemas/schema" base (Version sc) plural (ResourceMethods sc)
          (ResourceFields sc) (ResourceActions sc) (CollectionMethods sc) (CollectionActions sc)
          (CollectionFilters sc) (DynamicSchemaVersion sc) (Scope sc) (InternalSchema sc)).

Section Registry.
Context `{MapRange} `{SchemaFormat}.

(** The key under which a reference to a type is recorded. *)
Definition refKey (sc : Schema) (t : string) : string :=
  let refType := SubType t in
  if negb (HasPrefix refType "/") then ToFullReference (Path (Version sc)) refType else refType.

Definition addReferences (refs : gmap string (list BackReference)) (sc : Schema)
  : gmap string (list BackReference) :=
  foldl (λ refs (e : string * Field),
           if negb (IsReferenceType (Type_ e.2)) then refs
           else let k := refKey sc (Type_ e.2) in
                <[k := default [] (refs !! k) ++ [mkBackReference e.1 sc]]> refs)
        refs (range (ResourceFields sc)).

Definition same_schema (a b : Schema) : Prop := ID a = ID b ∧ Path (Version a) = Path (Version b).
#[local] Instance same_schema_dec a b : Decision (same_schema a b).
Proof. unfold same_schema. apply _. Defined.

(** removeReferences: an entry is rewritten only when something was dropped
    from it. *)
Definition removeReferences (refs : gmap string (list BackReference)) (sc : Schema)
  : gmap string (list BackReference) :=
  (λ values, filter (λ v, ¬ same_schema (RefSchema v) sc) values) <$> refs.

(** doSchema: by id, else by id or plural name up to case. *)
Definition doSchema (s : Schemas) (version : option APIVersion) (name : string) : option Schema :=
  let '(path, name) :=
    if Contains name "/schemas/" then
      match Split2 name "/schemas/" with [p; n] => (p, n) | _ => ("", name) end
    else match version with Some v => (Path v, name) | None => ("core", name) end in
  scs ← schemasByPath s !! path;
  match scs !! name with
  | Some sc => Some sc
  | None =>
      (λ e, e.2.2) <$>
      list_find (λ e : string * Schema, EqualFold (ID e.2) name || EqualFold (PluralName e.2) name = true)
        (range scs)
  end.
Definition Schemas_Schema := doSchema.

(** References: the fields that refer to the schema. *)
Definition References (s : Schemas) (sc : Schema) : list BackReference :=
  default [] (references s !! ToFullReference (Path (Version sc)) (ID sc)).

Definition SchemasForVersion (s : Schemas) (v : APIVersion) : gmap string Schema :=
  default ∅ (schemasByPath s !! Path v).

Definition SubContextVersionForSchema (s : Schemas) (sc : Schema) : option APIVersion :=
  let fullName := Path (Version sc) +:+ "/schemas/" +:+ ID sc in
  snd <$> list_find (λ v, SubContextSchema v = fullName) (versions s).

(** replace the first schema of that id in the list *)
Fixpoint replace_first (l : list Schema) (sc : Schema) : list Schema :=
  match l with
  | [] => []
  | c :: l' => if decide (ID c = ID sc) then sc :: l' else c :: replace_first l' sc
  end.

(** What [schemasByPath] holds under a path and an id. *)
Definition filed (s : Schemas) (p i : string) : option Schema := schemasByPath s !! p ≫= (!!) i.

(** A schema that is already registered is replaced only by ForceAddSchema, and
    only by one of another dynamic version. *)
Definition is_fresh (s : Schemas) (sc : Schema) (replace : bool) : bool :=
  match filed s (Path (Version sc)) (ID sc) with
  | None => true
  | Some old => replace && negb (bool_decide (DynamicSchemaVersion sc = DynamicSchemaVersion old))
  end.

(** The part of doAddSchema that registers the schema itself, after the
    defaults and the hook. *)
Definition register (s : Schemas) (sc : Schema) (replace : bool) : Schemas :=
  let path := Path (Version sc) in
  let vs := match schemasByPath s !! path with
            | Some _ => versions s
            | None => versions s ++ [Version sc]
            end in
  let scs := default ∅ (schemasByPath s !! path) in
  if is_fresh s sc replace then
    mkSchemas (<[path := <[ID sc := sc]> scs]> (schemasByPath s))
      (if Embed sc then references s else addReferences (references s) sc)
      vs (if replace then replace_first (schemas s) sc else schemas s ++ [sc]) (AddHook s) (errors s)
  else mkSchemas (<[path := scs]> (schemasByPath s)) (references s) vs (schemas s) (AddHook s) (errors s).

Definition apply_hook (s : Schemas) (sc : Schema) : Schema :=
  match AddHook s with Some f => f sc | None => sc end.

(** The fields of the embedding target without those of the embedded schema. *)
Definition fields_without (target sc : Schema) : gmap string Field :=
  foldl (λ fs e, delete e.1 fs) (ResourceFields target) (range (ResourceFields sc)).
(** The target's own fields with those of the embedded schema: dynamic fields
    that an earlier embedding left are dropped first. *)
Definition fields_with (target sc : Schema) : gmap string Field :=
  ResourceFields sc ∪ filter (λ e, DynamicField e.2 = false) (ResourceFields target).

(** The part of doRemoveSchema that concerns the schema itself. *)
Definition unregister (s : Schemas) (sc : Schema) : Schemas :=
  mkSchemas (alter (delete (ID sc)) (Path (Version sc)) (schemasByPath s))
    (removeReferences (references s) sc) (versions s) (schemas s) (AddHook s) (errors s).

(** doAddSchema and doRemoveSchema call each other through embed and
    removeEmbed: a schema with Embed set is merged into its target, which is
    removed and added again.  [fuel] bounds the chain of targets; [None] means
    that the chain does not end within it. *)
Fixpoint doAddSchema (fuel : nat) (s : Schemas) (sc : Schema) (replace : bool) : option Schemas :=
  match fuel with
  | O => None
  | S fuel' =>
      let '(s1, sc1) := setupDefaults s sc in
      let sc2 := apply_hook s1 sc1 in
      let s2 := register s1 sc2 replace in
      if Embed sc2 then
        match doSchema s2 (Some (Version sc2)) (EmbedType sc2) with
        | None => Some s2
        | Some target =>
            s3 ← doRemoveSchema fuel' s2 target;
            doAddSchema fuel' s3 (set_fields target (fields_with target sc2)) false
        end
      else Some s2
  end
with doRemoveSchema (fuel : nat) (s : Schemas) (sc : Schema) : option Schemas :=
  match fuel with
  | O => None
  | S fuel' =>
      let s1 := unregister s sc in
      if Embed sc then
        match doSchema s1 (Some (Version sc)) (EmbedType sc) with
        | None => Some s1
        | Some target =>
            s2 ← doRemoveSchema fuel' s1 target;
            doAddSchema fuel' s2 (set_fields target (fields_without target sc)) false
        end
      else Some s1
  end.

Definition AddSchema (fuel : nat) (s : Schemas) (sc : Schema) : option Schemas := doAddSchema fuel s sc false.
Definition ForceAddSchema (fuel : nat) (s : Schemas) (sc : Schema) : option Schemas := doAddSchema fuel s sc true.
Definition RemoveSchema (fuel : nat) (s : Schemas) (sc : Schema) : option Schemas := doRemoveSchema fuel s sc.
Definition AddSchemas (fuel : nat) (s other : Schemas) : option Schemas :=
  foldl (λ acc sc, s ← acc; AddSchema fuel s sc) (Some s) (schemas other).

(** ** Back references *)

(** The field [e] of [sc] is recorded under the key [k]. *)
Definition refers (sc : Schema) (k : string) (e : string * Field) : Prop :=
  IsReferenceType (Type_ e.2) = true ∧ refKey sc (Type_ e.2) = k.
#[local] Instance refers_dec sc k e : Decision (refers sc k e).
Proof. unfold refers. apply _. Defined.

Lemma addReferences_lookup refs sc k :
  default [] (addReferences refs sc !! k)
  = default [] (refs !! k) ++ ((λ e, mkBackReference e.1 sc) <$> filter (refers sc k) (range (ResourceFields sc))).
Proof.
  unfold addReferences. generalize (range (ResourceFields sc)). intros l. revert refs.
  induction l as [|[n f] l IH]; intros refs; simpl; [by rewrite app_nil_r|].
  rewrite IH, filter_cons. clear IH. destruct (decide (refers sc k (n, f))) as [[Hr Hk]|Hn]; simpl in *.
  - rewrite Hr. simpl. rewrite Hk, lookup_insert_eq. simpl. by rewrite <- app_assoc.
  - destruct (IsReferenceType (Type_ f)) eqn:Hr; simpl; [|done].
    rewrite lookup_insert_ne; [done|]. intros Hk. by apply Hn.
Qed.

Lemma elem_of_addReferences refs sc k br :
  br ∈ default [] (addReferences refs sc !! k) ↔
  br ∈ default [] (refs !! k) ∨
  RefSchema br = sc ∧ ∃ f, ResourceFields sc !! RefField br = Some f ∧ refers sc k (RefField br, f).
Proof.
  rewrite addReferences_lookup, elem_of_app, list_elem_of_fmap. f_equiv. split.
  - intros ([n f] & -> & Hf%list_elem_of_filter). destruct Hf as [Hr Hin%elem_of_range]. simpl. eauto.
  - intros (<- & f & Hf & Hr). exists (RefField br, f). destruct br; simpl in *. split; [done|].
    apply list_elem_of_filter. split; [done|]. by apply elem_of_range.
Qed.

Lemma removeReferences_lookup refs sc k :
  default [] (removeReferences refs sc !! k)
  = filter (λ v, ¬ same_schema (RefSchema v) sc) (default [] (refs !! k)).
Proof. unfold removeReferences. rewrite lookup_fmap. by destruct (refs !! k). Qed.

(** ** The registry invariant

    Schemas are filed under their own path and id, the versions are the paths,
    each once, and a back reference belongs to a reference field of a schema
    whose id is registered. *)
Record registry_ok (s : Schemas) : Prop := {
  ok_filed : ∀ p i sc, filed s p i = Some sc → Path (Version sc) = p ∧ ID sc = i;
  ok_versions : NoDup (Path <$> versions s);
  ok_paths : ∀ p, p ∈ (Path <$> versions s) ↔ is_Some (schemasByPath s !! p);
  ok_refs : ∀ k br, br ∈ default [] (references s !! k) →
              (∃ f, ResourceFields (RefSchema br) !! RefField br = Some f ∧
                    refers (RefSchema br) k (RefField br, f)) ∧
              is_Some (filed s (Path (Version (RefSchema br))) (ID (RefSchema br)))
}.

Lemma setupDefaults_same s sc s' sc' :
  setupDefaults s sc = (s', sc') →
  schemasByPath s' = schemasByPath s ∧ references s' = references s ∧ versions s' = versions s ∧
  schemas s' = schemas s ∧ AddHook s' = AddHook s ∧
  ID sc' = ID sc ∧ Version sc' = Version sc ∧ Embed sc' = Embed sc ∧ EmbedType sc' = EmbedType sc ∧
  ResourceFields sc' = ResourceFields sc.
Proof. unfold setupDefaults. intros Hs. by repeat case_decide; simplify_eq/=. Qed.

(** The entry of the schema itself after [register]. *)
Definition registered (s : Schemas) (sc : Schema) (replace : bool) : Schema :=
  if is_fresh s sc replace then sc else default sc (filed s (Path (Version sc)) (ID sc)).

Lemma register_filed s sc replace p i :
  filed (register s sc replace) p i
  = if decide (p = Path (Version sc) ∧ i = ID sc) then Some (registered s sc replace) else filed s p i.
Proof.
  unfold register, registered, filed.
  destruct (is_fresh s sc replace) eqn:Hf; simpl.
  - rewrite lookup_insert. case_decide as Hp; subst; simpl; [|by rewrite decide_False by naive_solver].
    rewrite lookup_insert. case_decide as Hi; subst; simpl; [by rewrite decide_True|].
    rewrite decide_False by naive_solver. by destruct (schemasByPath s !! _).
  - rewrite lookup_insert. case_decide as Hp; subst; simpl; [|by rewrite decide_False by naive_solver].
    unfold is_fresh, filed in Hf. destruct (schemasByPath s !! _) as [m|]; simpl in *; [|done].
    destruct (m !! ID sc) as [old|] eqn:Hm; [|done]. simpl. clear Hf. case_decide as Hd; [|done]. by destruct Hd as [_ ->].
Qed.

Lemma register_paths s sc replace p :
  is_Some (schemasByPath (register s sc replace) !! p) ↔ p = Path (Version sc) ∨ is_Some (schemasByPath s !! p).
Proof.
  unfold register. destruct (is_fresh s sc replace); simpl; rewrite lookup_insert_is_Some;
    destruct (decide (p = Path (Version sc))); naive_solver.
Qed.

Lemma unregister_filed s sc p i :
  filed (unregister s sc) p i
  = if decide (p = Path (Version sc) ∧ i = ID sc) then None else filed s p i.
Proof.
  unfold unregister, filed. simpl. rewrite lookup_alter.
  case_decide as Hp; subst; [|by rewrite decide_False by naive_solver].
  destruct (schemasByPath s !! _) as [m|]; simpl; [|by case_decide].
  rewrite lookup_delete. repeat case_decide; naive_solver.
Qed.

Lemma registry_ok_ext s s' :
  schemasByPath s' = schemasByPath s → references s' = references s → versions s' = versions s →
  registry_ok s → registry_ok s'.
Proof. unfold filed. intros Hp Hr Hv [H1 H2 H3 H4]. split; unfold filed in *; rewrite ?Hp, ?Hr, ?Hv; auto. Qed.

Lemma register_ok s sc replace : registry_ok s → registry_ok (register s sc replace).
Proof.
  intros Hok. split.
  - intros p i sc'. rewrite register_filed. case_decide as Hd; [|by apply Hok].
    destruct Hd as [-> ->]. intros [= <-]. unfold registered, is_fresh.
    destruct (filed s _ _) as [old|] eqn:Hf; [|done]. destruct (replace && _); [done|]. simpl. by apply Hok.
  - unfold register. destruct (schemasByPath s !! Path (Version sc)) eqn:Hp; destruct (is_fresh _ _ _);
      simpl; try apply (ok_versions _ Hok); rewrite fmap_app, NoDup_app; split_and!;
      try apply (ok_versions _ Hok); try apply NoDup_singleton;
      intros p Hin%(ok_paths _ Hok) Hq%list_elem_of_singleton; subst; rewrite Hp in Hin; by destruct Hin.
  - intros p. rewrite register_paths, <- (ok_paths _ Hok).
    unfold register. destruct (schemasByPath s !! Path (Version sc)) eqn:Hp; destruct (is_fresh _ _ _);
      simpl; rewrite ?fmap_app, ?elem_of_app; simpl; rewrite ?list_elem_of_singleton; try naive_solver;
      (split; [auto|intros [->|?]; [apply (ok_paths _ Hok); rewrite Hp; eauto|done]]).
  - intros k br Hin. rewrite register_filed.
    assert (br ∈ default [] (references s !! k) ∨ br ∈ default [] (addReferences (references s) sc !! k)) as Hbr.
    { revert Hin. unfold register. destruct (is_fresh _ _ _); simpl; [destruct (Embed sc)|]; auto. }
    rewrite elem_of_addReferences in Hbr. destruct Hbr as [Hbr|[Hbr|(<- & Hf)]].
    1,2: destruct (ok_refs _ Hok k br Hbr); split; [done|]; case_decide; eauto.
    split; [done|]. rewrite decide_True by done. eauto.
Qed.

Lemma unregister_ok s sc : registry_ok s → registry_ok (unregister s sc).
Proof.
  intros Hok. split.
  - intros p i sc'. rewrite unregister_filed. case_decide; [done|]. by apply Hok.
  - apply (ok_versions _ Hok).
  - intros p. simpl. rewrite (ok_paths _ Hok), lookup_alter.
    case_decide; subst; [|done]. by rewrite fmap_is_Some.
  - intros k br. simpl. rewrite removeReferences_lookup. intros [Hns Hin]%list_elem_of_filter.
    rewrite unregister_filed, decide_False; [by apply Hok|]. unfold same_schema in Hns. naive_solver.
Qed.

Lemma add_remove_ok fuel :
  (∀ s sc replace s', registry_ok s → doAddSchema fuel s sc replace = Some s' → registry_ok s') ∧
  (∀ s sc s', registry_ok s → doRemoveSchema fuel s sc = Some s' → registry_ok s').
Proof.
  induction fuel as [|fuel [IHa IHr]]; [done|]. split.
  - intros s sc replace s' Hok. simpl. destruct (setupDefaults s sc) as [s1 sc1] eqn:Hd.
    apply setupDefaults_same in Hd as (?&?&?&_).
    assert (registry_ok (register s1 (apply_hook s1 sc1) replace)) as Hok2
      by by eapply register_ok, registry_ok_ext.
    destruct (Embed _); [|naive_solver]. destruct (doSchema _ _ _) as [t|]; [|naive_solver].
    intros (s3 & Hr & Ha)%bind_Some. eauto.
  - intros s sc s' Hok. simpl. apply (unregister_ok _ sc) in Hok as Hok2.
    destruct (Embed _); [|naive_solver]. destruct (doSchema _ _ _) as [t|]; [|naive_solver].
    intros (s3 & Hr & Ha)%bind_Some. eauto.
Qed.

(** ** Lookup *)
Lemma doSchema_exact s v name sc :
  Contains name "/schemas/" = false → filed s (Path v) name = Some sc → doSchema s (Some v) name = Some sc.
Proof.
  unfold doSchema, filed. intros -> (m & -> & Hm)%bind_Some. simpl. by rewrite Hm.
Qed.

Lemma HasPrefix_reference p t : HasPrefix (ToFullReference p t) "/" = false.
Proof. done. Qed.

(** Which back references [References] finds. *)
Lemma refers_full sc p t e :
  refers sc (ToFullReference p t) e ↔
  IsReferenceType (Type_ e.2) = true ∧ HasPrefix (SubType (Type_ e.2)) "/" = false ∧
  ToFullReference (Path (Version sc)) (SubType (Type_ e.2)) = ToFullReference p t.
Proof.
  unfold refers, refKey. destruct (HasPrefix (SubType (Type_ e.2)) "/") eqn:Hp; simpl;
    [|split; [intros [? ?]|intros (?&?&?)]; auto].
  split; [|intros (?&?&?); done]. intros [_ Heq]. rewrite Heq in Hp. by rewrite HasPrefix_reference in Hp.
Qed.

(** A schema whose id and version are set. *)
Definition named (sc : Schema) : Prop :=
  ID sc ≠ "" ∧ Path (Version sc) ≠ "" ∧ Version_ (Version sc) ≠ "" ∧ Contains (ID sc) "/schemas/" = false.
#[global] Instance named_dec sc : Decision (named sc).
Proof. unfold named. apply _. Defined.

Lemma setupDefaults_named s sc : named sc → (setupDefaults s sc).1 = s.
Proof.
  intros (Hi & Hp & Hv & _). unfold setupDefaults.
  rewrite decide_False by done. rewrite decide_False by naive_solver. done.
Qed.

Lemma add_plain fuel s sc :
  named sc → AddHook s = None → Embed sc = false →
  AddSchema (S fuel) s sc = Some (register s (setupDefaults s sc).2 false).
Proof.
  intros Hn Hh He. unfold AddSchema. simpl.
  pose proof (setupDefaults_named s sc Hn) as Hs. destruct (setupDefaults s sc) as [s1 sc1] eqn:Hd.
  simpl in Hs. subst s1. apply setupDefaults_same in Hd as (_&_&_&_&_&_&_&HE&_).
  unfold apply_hook. rewrite Hh. simpl. by rewrite HE, He.
Qed.

Lemma remove_plain fuel s sc :
  Embed sc = false → RemoveSchema (S fuel) s sc = Some (unregister s sc).
Proof. intros He. unfold RemoveSchema. simpl. by rewrite He. Qed.
End Registry.

(** ** Operations in any order *)
Inductive reg_op := OpAdd (sc : Schema) | OpForce (sc : Schema) | OpRemove (sc : Schema).
Definition run_op `{MapRange} `{SchemaFormat} (fuel : nat) (s : Schemas) (o : reg_op) : option Schemas :=
  match o with
  | OpAdd sc => AddSchema fuel s sc
  | OpForce sc => ForceAddSchema fuel s sc
  | OpRemove sc => RemoveSchema fuel s sc
  end.
Fixpoint run_ops `{MapRange} `{SchemaFormat} (fuel : nat) (s : Schemas) (l : list reg_op) : option Schemas :=
  match l with
  | [] => Some s
  | o :: l' => s' ← run_op fuel s o; run_ops fuel s' l'
  end.

Lemma run_ops_ok `{MapRange} `{SchemaFormat} fuel ops s s' : registry_ok s → run_ops fuel s ops = Some s' → registry_ok s'.
Proof.
  revert s. induction ops as [|o ops IH]; simpl; intros s Hok; [naive_solver|].
  intros (s1 & Hs1 & Ho)%bind_Some. eapply IH; [|done].
  destruct (add_remove_ok fuel) as [Ha Hr]. destruct o; [eapply Ha|eapply Ha|eapply Hr]; done.
Qed.

(** ** Chains of embedded schemas

    An embedded schema names its target by id, or by id or plural name up to
    case; the plural name may be the guessed one. *)
Definition embed_name (e : string) : string :=
  if Contains e "/schemas/" then match Split2 e "/schemas/" with [_; n] => n | _ => e end else e.
Definition may_name (e : string) (t : Schema) : bool :=
  let n := embed_name e in
  EqualFold (ID t) n || EqualFold (PluralName t) n || EqualFold (GuessPluralName (ID t)) n.

(** The embedded schemas among [l] that another one may name as its target have
    a smaller rank than it: chains of targets are no longer than ranks. *)
Definition layered (rank : string → nat) (l : list Schema) : Prop :=
  ∀ sc t, sc ∈ l → t ∈ l → Embed sc = true → Embed t = true → may_name (EmbedType sc) t = true →
    (rank (ID t) < rank (ID sc))%nat.
Definition fuel_for (rank : string → nat) (sc : Schema) : nat :=
  if Embed sc then S (S (rank (ID sc))) else 1.

Definition op_schema (o : reg_op) : Schema := match o with OpAdd sc | OpForce sc | OpRemove sc => sc end.

Section Chains.
Context `{MapRange} `{SchemaFormat} (rank : string → nat) (U : list Schema) (HU : layered rank U).

(** [a] is a schema of [U], up to its fields and what defaults may fill in. *)
Definition known (a : Schema) : Prop :=
  ∃ o, o ∈ U ∧ ID a = ID o ∧ Embed a = Embed o ∧ EmbedType a = EmbedType o ∧
       (PluralName a = PluralName o ∨ PluralName a = GuessPluralName (ID o)).
Record chain_ok (s : Schemas) : Prop := {
  chain_registry : registry_ok s;
  chain_hook : AddHook s = None;
  chain_known : ∀ p i sc, filed s p i = Some sc → known sc
}.

Lemma known_of_U sc : sc ∈ U → known sc.
Proof. intros Hin. exists sc. naive_solver. Qed.

Lemma known_set_fields sc fs : known sc → known (set_fields sc fs).
Proof. done. Qed.

Lemma known_setupDefaults s sc s' sc' : setupDefaults s sc = (s', sc') → known sc → known sc'.
Proof.
  unfold setupDefaults, known. intros Hs (o & Ho & Hi & He & Ht & Hp). exists o.
  repeat case_decide; simplify_eq/=; rewrite <- ?Hi; naive_solver congruence.
Qed.

Lemma doSchema_filed s v name t :
  registry_ok s → doSchema s v name = Some t →
  (∃ p, filed s p (ID t) = Some t) ∧
  (EqualFold (ID t) (embed_name name) || EqualFold (PluralName t) (embed_name name) = true).
Proof.
  intros Hok. unfold doSchema.
  set (pn := if Contains name "/schemas/" then _ else _).
  assert (pn.2 = embed_name name) as Hn.
  { unfold pn, embed_name. destruct (Contains name "/schemas/"); [|by destruct v].
    by destruct (Split2 name "/schemas/") as [|? [|? [|? ?]]]. }
  rewrite <- Hn. clearbody pn. destruct pn as [p n]. simpl.
  intros (m & Hm & Ht)%bind_Some. destruct (m !! n) as [sc|] eqn:Hmn.
  - injection Ht as ->. assert (filed s p n = Some t) as Hf by (unfold filed; by rewrite Hm).
    destruct (ok_filed _ Hok _ _ _ Hf) as [_ <-]. split; [by exists p|].
    unfold EqualFold. by rewrite bool_decide_true.
  - apply fmap_Some in Ht as ([k [i sc]] & Hl & ->). apply list_find_Some in Hl as (Hl & He & _).
    apply list_elem_of_lookup_2, elem_of_range in Hl. simpl in *. split; [|done].
    assert (filed s p i = Some sc) as Hf by (unfold filed; by rewrite Hm).
    destruct (ok_filed _ Hok _ _ _ Hf) as [_ <-]. by exists p.
Qed.

Lemma chain_register s sc replace : chain_ok s → known sc → chain_ok (register s sc replace).
Proof.
  intros [Hok Hh Hk] Hsc. split; [by apply register_ok|unfold register; by destruct (is_fresh _ _ _)|].
  intros p i sc'. rewrite register_filed. case_decide; [|by apply Hk]. intros [= <-].
  unfold registered. destruct (is_fresh _ _ _); [done|].
  destruct (filed s (Path (Version sc)) (ID sc)) eqn:Hf; simpl; [by eapply Hk|done].
Qed.

Lemma chain_unregister s sc : chain_ok s → chain_ok (unregister s sc).
Proof.
  intros [Hok Hh Hk]. split; [by apply unregister_ok|done|].
  intros p i sc'. rewrite unregister_filed. case_decide; [done|]. by apply Hk.
Qed.

(** The target of an embedded schema needs less fuel than the schema. *)
Lemma target_fuel s sc t fuel :
  chain_ok s → known sc → Embed sc = true → (fuel_for rank sc ≤ S fuel)%nat →
  doSchema s (Some (Version sc)) (EmbedType sc) = Some t → known t ∧ (fuel_for rank t ≤ fuel)%nat.
Proof.
  intros [Hok _ Hk] Hsc He Hf Ht. apply doSchema_filed in Ht as [[p Hp] Hn]; [|done].
  apply Hk in Hp as Hkt. split; [done|]. unfold fuel_for in *. rewrite He in Hf.
  destruct (Embed t) eqn:Het; [|lia].
  destruct Hsc as (o & Ho & Hi & Heo & Hto & _), Hkt as (u & Hu & Hiu & Heu & _ & Hpu).
  rewrite Hi in Hf. rewrite Hiu in *.
  enough (rank (ID u) < rank (ID o))%nat by lia. apply HU; try congruence. rewrite <- Hto.
  unfold may_name. rewrite !orb_true_iff. apply orb_true_iff in Hn as [Hn|Hn]; [auto|].
  destruct Hpu as [Heq|Heq]; rewrite Heq in Hn; auto.
Qed.

Lemma add_remove_returns fuel :
  (∀ s sc replace, chain_ok s → known sc → (fuel_for rank sc ≤ fuel)%nat →
     ∃ s', doAddSchema fuel s sc replace = Some s' ∧ chain_ok s') ∧
  (∀ s sc, chain_ok s → known sc → (fuel_for rank sc ≤ fuel)%nat →
     ∃ s', doRemoveSchema fuel s sc = Some s' ∧ chain_ok s').
Proof.
  induction fuel as [|fuel [IHa IHr]].
  { split; intros; exfalso; unfold fuel_for in *; destruct (Embed _); lia. }
  split.
  - intros s sc replace Hc Hk Hf. simpl. destruct (setupDefaults s sc) as [s1 sc1] eqn:Hd.
    apply (known_setupDefaults _ _ _ _ Hd) in Hk as Hk1.
    apply setupDefaults_same in Hd as (Hp & Hr & Hv & _ & Hh & Hi & _ & He & _).
    assert (chain_ok s1) as Hc1.
    { destruct Hc as [Hok Hn Hkn]. split; [by eapply registry_ok_ext|by rewrite Hh|].
      unfold filed. rewrite Hp. apply Hkn. }
    assert (apply_hook s1 sc1 = sc1) as -> by (unfold apply_hook; by rewrite (chain_hook _ Hc1)).
    assert (fuel_for rank sc1 ≤ S fuel)%nat as Hf1 by (unfold fuel_for in *; by rewrite He, Hi).
    apply (chain_register _ sc1 replace Hc1) in Hk1 as Hc2. clear He.
    destruct (Embed sc1) eqn:He; [|by eauto]. destruct (doSchema _ _ _) as [t|] eqn:Ht; [|by eauto].
    destruct (target_fuel _ _ _ _ Hc2 Hk1 He Hf1 Ht) as [Hkt Hft].
    destruct (IHr _ _ Hc2 Hkt Hft) as (s3 & -> & Hc3). by apply IHa.
  - intros s sc Hc Hk Hf. simpl. apply (chain_unregister _ sc) in Hc as Hc2.
    destruct (Embed sc) eqn:He; [|by eauto]. destruct (doSchema _ _ _) as [t|] eqn:Ht; [|by eauto].
    destruct (target_fuel _ _ _ _ Hc2 Hk He Hf Ht) as [Hkt Hft].
    destruct (IHr _ _ Hc2 Hkt Hft) as (s3 & -> & Hc3). by apply IHa.
Qed.

Lemma run_ops_returns fuel ops s :
  chain_ok s → (∀ o, o ∈ ops → op_schema o ∈ U ∧ (fuel_for rank (op_schema o) ≤ fuel)%nat) →
  is_Some (run_ops fuel s ops).
Proof.
  revert s. induction ops as [|o ops IH]; intros s Hc Ho; [by eexists|].
  destruct (Ho o (list_elem_of_here _ _)) as [Hin Hf]. apply known_of_U in Hin.
  assert (∃ s', run_op fuel s o = Some s' ∧ chain_ok s') as (s' & Hs' & Hc').
  { destruct (add_remove_returns fuel) as [Ha Hr]. destruct o; simpl in *; [by apply Ha..|by apply Hr]. }
  simpl. rewrite Hs'. apply IH; [done|]. intros o' Ho'. apply Ho. by right.
Qed.
End Chains.

Lemma NewSchemas_ok hook : registry_ok (NewSchemas hook).
Proof.
  split; simpl; try done.
  - constructor.
  - intros p. rewrite elem_of_nil. split; [done|]. by intros [? ?].
  - intros k br Hin. by apply elem_of_nil in Hin.
Qed.

(** C14: whatever sequence of AddSchema, ForceAddSchema and RemoveSchema calls
    built the registry (with any AddHook and any chain of embedded schemas),
    every schema is filed under its own version path and id, the versions list
    names each registered path exactly once, and every back reference belongs
    to a reference field of a schema whose id is registered.  Without a hook,
    and when the embedded schemas can be ranked so that none may name as its
    target an embedded one of the same or a higher rank, all the calls return. *)
Theorem registry_invariant `{MapRange} `{SchemaFormat} hook fuel ops :
  (∀ s, run_ops fuel (NewSchemas hook) ops = Some s → registry_ok s) ∧
  (∀ rank, hook = None → layered rank (op_schema <$> ops) →
     (∀ o, o ∈ ops → (fuel_for rank (op_schema o) ≤ fuel)%nat) →
     is_Some (run_ops fuel (NewSchemas hook) ops)).
Proof.
  split; [intros s; apply run_ops_ok, NewSchemas_ok|]. intros rank -> HU Hf.
  apply (run_ops_returns rank (op_schema <$> ops) HU); [|by auto using list_elem_of_fmap_2].
  split; [apply NewSchemas_ok|done|]. intros p i sc Hsc. unfold filed in Hsc. simpl in Hsc. by rewrite lookup_empty in Hsc.
Qed.

Section SchemaTheorems.
Context `{MapRange} `{SchemaFormat}.

(** C15: AddSchema of a schema that has an id and a version, is not embedded and
    is not registered yet: the call returns; the schema, with its defaults
    filled in, is what Schema finds under its version and id; every other
    registration is as before; the list of all schemas grows by it, and no
    error is recorded.  References afterwards finds, besides what it found
    before, exactly the fields of the schema whose type is [reference[t]] for
    an unqualified [t] that names the target in the schema's own version. *)
Theorem add_schema_correct fuel s sc :
  named sc → AddHook s = None → Embed sc = false → filed s (Path (Version sc)) (ID sc) = None →
  ∃ s' sc', AddSchema (S fuel) s sc = Some s' ∧ sc' = (setupDefaults s sc).2 ∧
    Schemas_Schema s' (Some (Version sc)) (ID sc) = Some sc' ∧
    (∀ p i, (p, i) ≠ (Path (Version sc), ID sc) → filed s' p i = filed s p i) ∧
    schemas s' = schemas s ++ [sc'] ∧ errors s' = errors s ∧
    (∀ target br, br ∈ References s' target ↔
       br ∈ References s target ∨
       RefSchema br = sc' ∧ ∃ f, ResourceFields sc !! RefField br = Some f ∧
         IsReferenceType (Type_ f) = true ∧ HasPrefix (SubType (Type_ f)) "/" = false ∧
         ToFullReference (Path (Version sc)) (SubType (Type_ f))
         = ToFullReference (Path (Version target)) (ID target)).
Proof.
  intros Hn Hh He Hf. rewrite add_plain by done.
  pose proof (setupDefaults_named s sc Hn) as Hs.
  destruct (setupDefaults s sc) as [s1 sc'] eqn:Hd. simpl in *. subst s1.
  apply setupDefaults_same in Hd as (_&_&_&_&_&HI&HV&HE&_&HF).
  assert (is_fresh s sc' false = true) as Hfr by (unfold is_fresh; by rewrite HI, HV, Hf).
  eexists _, sc'. split_and!; try done.
  - apply doSchema_exact; [apply Hn|]. rewrite register_filed, HI, HV, decide_True by done.
    unfold registered. by rewrite Hfr.
  - intros p i Hne. rewrite register_filed, HI, HV, decide_False by naive_solver. done.
  - unfold register. by rewrite Hfr.
  - unfold register. by rewrite Hfr.
  - intros target br. unfold References. unfold register. rewrite Hfr, HE, He. simpl.
    rewrite elem_of_addReferences. setoid_rewrite refers_full. by rewrite HF, HV.
Qed.

(** RemoveSchema of a schema that is not embedded: the call returns, its
    registration is gone and every other one is as before, and of the back
    references exactly those that belong to the removed schema are dropped, the
    rest keeping its order. *)
Theorem remove_schema_correct fuel s sc :
  Embed sc = false →
  ∃ s', RemoveSchema (S fuel) s sc = Some s' ∧
    filed s' (Path (Version sc)) (ID sc) = None ∧
    (∀ p i, (p, i) ≠ (Path (Version sc), ID sc) → filed s' p i = filed s p i) ∧
    (∀ target, References s' target
       = filter (λ br, ¬ (ID (RefSchema br) = ID sc ∧ Path (Version (RefSchema br)) = Path (Version sc)))
           (References s target)).
Proof.
  intros He. rewrite remove_plain by done. eexists. split; [done|]. split_and!.
  - rewrite unregister_filed. by rewrite decide_True.
  - intros p i Hne. rewrite unregister_filed, decide_False by naive_solver. done.
  - intros target. unfold References. simpl. by rewrite removeReferences_lookup.
Qed.

(** ** Embedded schemas *)

Lemma set_fields_same t : set_fields t (ResourceFields t) = t.
Proof. by destruct t. Qed.

(** [t] is as the registry keeps a schema: its defaults are filled in. *)
Definition completed (t : Schema) : Prop := named t ∧ (setupDefaults (NewSchemas None) t).2 = t.

Lemma setupDefaults_completed s t fs :
  completed t → setupDefaults s (set_fields t fs) = (s, set_fields t fs).
Proof.
  intros [(Hi & Hp & Hv & _) Ht]. revert Ht. unfold setupDefaults. destruct t; simpl in *.
  rewrite !(decide_False (P := ID0 = "")) by done.
  rewrite !(decide_False (P := Path Version0 = "" ∨ Version_ Version0 = "")) by naive_solver.
  unfold set_fields. simpl. intros [=]. repeat case_decide; congruence.
Qed.

Lemma fields_with_plain t e :
  ResourceFields t ##ₘ ResourceFields e → map_Forall (λ _ f, DynamicField f = false) (ResourceFields t) →
  fields_with t e = ResourceFields e ∪ ResourceFields t.
Proof.
  intros Hdis Hdyn. unfold fields_with. f_equal. apply map_filter_id. intros i x Hx. by apply (Hdyn i).
Qed.

Lemma fields_without_with t e :
  ResourceFields t ##ₘ ResourceFields e →
  fields_without (set_fields t (ResourceFields e ∪ ResourceFields t)) e = ResourceFields t.
Proof.
  intros Hdis. unfold fields_without. apply map_eq. intros k.
  pose proof (range_delete_lookup (λ _ _, true) (ResourceFields e)
                (ResourceFields (set_fields t (ResourceFields e ∪ ResourceFields t))) k) as Hl.
  etrans; [exact Hl|]. simpl. destruct (ResourceFields e !! k) as [f|] eqn:He.
  - symmetry. by apply (map_disjoint_Some_r _ _ _ f Hdis).
  - by rewrite lookup_union_r.
Qed.

Lemma apply_hook_None s sc : AddHook s = None → apply_hook s sc = sc.
Proof. unfold apply_hook. by intros ->. Qed.

Lemma register_hook s sc replace : AddHook (register s sc replace) = AddHook s.
Proof. unfold register. by destruct (is_fresh _ _ _). Qed.

(** Adding an embedded schema [e] whose target [t] is registered. *)
Lemma add_embedded fuel s e t :
  AddHook s = None → named e → Embed e = true → Embed t = false → completed t →
  Path (Version t) = Path (Version e) → EmbedType e = ID t → ID e ≠ ID t →
  filed s (Path (Version t)) (ID t) = Some t →
  ∃ s', AddSchema (S (S fuel)) s e = Some s' ∧ AddHook s' = None ∧
    (∀ p i, filed s' p i =
       if decide (p = Path (Version t) ∧ i = ID t) then Some (set_fields t (fields_with t e))
       else if decide (p = Path (Version e) ∧ i = ID e) then
         Some (registered s (setupDefaults s e).2 false)
       else filed s p i).
Proof.
  intros Hh Hn He Het Hc Hp Hty Hid Hf. unfold AddSchema.
  pose proof (setupDefaults_named s e Hn) as Hs. simpl.
  destruct (setupDefaults s e) as [s1 e'] eqn:Hd. simpl in Hs |- *. subst s1.
  apply setupDefaults_same in Hd as (_&_&_&_&_&HI&HV&HE&HT&HF).
  rewrite (apply_hook_None s) by done.
  assert (filed (register s e' false) (Path (Version t)) (ID t) = Some t) as Hft.
  { rewrite register_filed, decide_False; [done|]. rewrite HI. naive_solver. }
  rewrite HE, He, HT, Hty. rewrite (doSchema_exact _ _ _ t); [|apply Hc|by rewrite HV, <- Hp].
  rewrite Het. simpl. unfold fields_with at 1. rewrite HF. fold (fields_with t e).
  rewrite setupDefaults_completed by done.
  rewrite apply_hook_None by (simpl; by rewrite register_hook).
  change (Embed (set_fields t (fields_with t e))) with (Embed t). rewrite Het.
  eexists. split; [done|]. split; [by rewrite !register_hook; simpl; rewrite register_hook|].
  intros p i. rewrite register_filed. change (ID (set_fields t (fields_with t e))) with (ID t).
  change (Version (set_fields t (fields_with t e))) with (Version t).
  case_decide as Hd.
  - unfold registered, is_fresh. change (ID (set_fields t (fields_with t e))) with (ID t).
    change (Version (set_fields t (fields_with t e))) with (Version t).
    rewrite unregister_filed, decide_True by done. done.
  - rewrite unregister_filed, decide_False by done. rewrite register_filed, HI, HV. done.
Qed.

(** Removing it again. *)
Lemma remove_embedded fuel s e t :
  AddHook s = None → Embed e = true → Embed t = false → completed t →
  Path (Version t) = Path (Version e) → EmbedType e = ID t → ID e ≠ ID t →
  filed s (Path (Version t)) (ID t) = Some (set_fields t (ResourceFields e ∪ ResourceFields t)) →
  ResourceFields t ##ₘ ResourceFields e →
  ∃ s', RemoveSchema (S (S fuel)) s e = Some s' ∧
    (∀ p i, filed s' p i =
       if decide (p = Path (Version t) ∧ i = ID t) then Some t
       else if decide (p = Path (Version e) ∧ i = ID e) then None
       else filed s p i).
Proof.
  intros Hh He Het Hc Hp Hty Hid Hf Hdis. unfold RemoveSchema. simpl. rewrite He, Hty.
  set (t' := set_fields t (ResourceFields e ∪ ResourceFields t)) in *.
  rewrite (doSchema_exact _ _ _ t'); [|apply Hc|].
  2:{ rewrite <- Hp, unregister_filed, decide_False; [done|]. naive_solver. }
  change (Embed t') with (Embed t). rewrite Het. simpl.
  unfold t' at 3. rewrite fields_without_with by done.
  replace (set_fields t' (ResourceFields t)) with t by by destruct t.
  pose proof (setupDefaults_completed (unregister (unregister s e) t') t (ResourceFields t) Hc) as Hd.
  rewrite set_fields_same in Hd. rewrite Hd, apply_hook_None by done. rewrite Het.
  eexists. split; [done|]. intros p i. rewrite register_filed. case_decide as Hd'.
  - unfold registered, is_fresh. rewrite unregister_filed, decide_True by done. done.
  - rewrite unregister_filed, decide_False by done. by rewrite unregister_filed.
Qed.

(** Embedding and its undoing.  A schema [e] marked Embed is merged into its
    target [t]: once it is added, the target is registered with its own fields
    and those of [e].  Removing [e] gives back every registration as it was,
    when the two have no field in common and the target has no dynamic field.
    Both calls return. *)
Theorem embed_roundtrip fuel s e t :
  AddHook s = None → named e → Embed e = true → Embed t = false → completed t →
  Path (Version t) = Path (Version e) → EmbedType e = ID t → ID e ≠ ID t →
  filed s (Path (Version t)) (ID t) = Some t → filed s (Path (Version e)) (ID e) = None →
  ResourceFields t ##ₘ ResourceFields e → map_Forall (λ _ f, DynamicField f = false) (ResourceFields t) →
  ∃ s1 s2, AddSchema (S (S fuel)) s e = Some s1 ∧
    filed s1 (Path (Version t)) (ID t) = Some (set_fields t (ResourceFields e ∪ ResourceFields t)) ∧
    RemoveSchema (S (S fuel)) s1 e = Some s2 ∧
    ∀ p i, filed s2 p i = filed s p i.
Proof.
  intros Hh Hn He Het Hc Hp Hty Hid Hft Hfe Hdis Hdyn.
  destruct (add_embedded fuel s e t) as (s1 & Ha & Hh1 & Hf1); try done.
  rewrite fields_with_plain in Hf1 by done.
  destruct (remove_embedded fuel s1 e t) as (s2 & Hr & Hf2); try done.
  { by rewrite Hf1, decide_True. }
  exists s1, s2. split_and!; try done.
  - by rewrite Hf1, decide_True.
  - intros p i. rewrite Hf2, Hf1. destruct (decide (p = Path (Version t) ∧ i = ID t)) as [[-> ->]|]; [done|].
    case_decide as Hd; [|done]. destruct Hd as [-> ->]. done.
Qed.
End SchemaTheorems.

(** ** Concrete registries *)
Definition typed_field (t : string) : Field :=
  mkField t VNil false true false false true None None None None [] "" "" "" "" false.
Definition v3 : APIVersion := mkVersion "management" "v3" "/v3" false "".
Definition plain_schema (id : string) (fs : gmap string Field) : Schema :=
  mkSchema id false "" "" "" "" "" v3 "" [] fs ∅ [] ∅ ∅ "" "" None.
Definition embedded_schema (id target dyn : string) (fs : gmap string Field) : Schema :=
  mkSchema id true target "" "" "" "" v3 "" [] fs ∅ [] ∅ ∅ dyn "" None.
Definition dynamic_schema (id dyn : string) (fs : gmap string Field) : Schema :=
  mkSchema id false "" "" "" "" "" v3 "" [] fs ∅ [] ∅ ∅ dyn "" None.
Definition cluster_schema : Schema :=
  (@setupDefaults std_schema_format (NewSchemas None) (plain_schema "cluster" {[ "name" := typed_field "string" ]})).2.
Definition node_schema : Schema :=
  plain_schema "node" {[ "clusterId" := typed_field "reference[cluster]" ]}.
Definition driver_schema : Schema :=
  embedded_schema "driverConfig" "cluster" "" {[ "driver" := typed_field "string" ]}.
Definition one_schema : Schemas := default (NewSchemas None) (@AddSchema std_range std_schema_format 3 (NewSchemas None) cluster_schema).

Definition some_ops : list reg_op :=
  [OpAdd cluster_schema; OpAdd node_schema; OpAdd driver_schema; OpForce node_schema; OpRemove driver_schema].

Lemma registry_invariant_witness :
  ∃ s, @run_ops std_range std_schema_format 2 (NewSchemas None) some_ops = Some s ∧ registry_ok s.
Proof.
  destruct (@registry_invariant std_range std_schema_format None 2 some_ops) as [Hok Hret].
  destruct (Hret (λ _, 0%nat)) as [s Hs].
  - done.
  - intros sc t Hsc Ht. apply list_elem_of_In in Hsc, Ht. simpl in Hsc, Ht. naive_solver.
  - intros o Ho. apply list_elem_of_In in Ho. simpl in Ho. naive_solver (done || (unfold fuel_for; simpl; lia)).
  - exists s. split; [exact Hs|]. exact (Hok s Hs).
Defined.

Lemma add_schema_correct_witness :
  ∃ s' sc', @AddSchema std_range std_schema_format 1 one_schema node_schema = Some s' ∧
    mkBackReference "clusterId" sc' ∈ References s' cluster_schema.
Proof.
  destruct (@add_schema_correct std_range std_schema_format 0 one_schema node_schema)
    as (s' & sc' & Ha & Hsc & _ & _ & _ & _ & Hr);
    [by vm_compute; split_and!|done|done|by vm_compute|].
  exists s', sc'. split; [done|]. apply Hr. right. split; [done|].
  exists (typed_field "reference[cluster]"). split_and!; by vm_compute.
Defined.

Lemma remove_schema_correct_witness :
  ∃ s', @RemoveSchema std_range std_schema_format 1 one_schema cluster_schema = Some s' ∧ filed s' "/v3" "cluster" = None.
Proof.
  destruct (@remove_schema_correct std_range std_schema_format 0 one_schema cluster_schema) as (s' & Hr & Hg & _); [done|].
  by exists s'.
Defined.

Lemma embed_roundtrip_witness :
  ∃ s1 s2, @AddSchema std_range std_schema_format 2 one_schema driver_schema = Some s1 ∧
    (ResourceFields <$> filed s1 "/v3" "cluster")
      = Some {[ "driver" := typed_field "string"; "name" := typed_field "string" ]} ∧
    @RemoveSchema std_range std_schema_format 2 s1 driver_schema = Some s2 ∧ filed s2 "/v3" "cluster" = Some cluster_schema.
Proof.
  destruct (@embed_roundtrip std_range std_schema_format 0 one_schema driver_schema cluster_schema)
    as (s1 & s2 & Ha & Hf & Hr & Hs);
    [done|by vm_compute; split_and!|done|done|by vm_compute; split_and!|done|done|done
    |by vm_compute|by vm_compute| | |].
  - by apply map_disjoint_singleton_l.
  - by apply map_Forall_singleton.
  - exists s1, s2. change (Path (Version cluster_schema)) with "/v3" in Hf.
    change (ID cluster_schema) with "cluster" in Hf. rewrite Hf, Hs. split_and!; done.
Defined.

(** A fully qualified reference is recorded under its bare type, while
    References looks under the [reference[...]] form: it is never found. *)
Example qualified_reference_lost :
  let owner := plain_schema "node" {[ "clusterId" := typed_field "reference[/v3/schemas/cluster]" ]} in
  (λ s, (length (References s cluster_schema), length (default [] (references s !! "/v3/schemas/cluster"))))
    <$> @AddSchema std_range std_schema_format 1 one_schema owner = Some (0%nat, 1%nat).
Proof. by vm_compute. Qed.

(** ForceAddSchema of a new dynamic version keeps the back references of the
    version it replaces: References reports a field that is no longer there. *)
Example force_add_keeps_references :
  (λ s, RefField <$> References s cluster_schema)
    <$> @run_ops std_range std_schema_format 1 one_schema
          [OpForce (dynamic_schema "node" "1" {[ "clusterId" := typed_field "reference[cluster]" ]});
           OpForce (dynamic_schema "node" "2" {[ "ownerId" := typed_field "reference[cluster]" ]})]
  = Some ["clusterId"; "ownerId"].
Proof. by vm_compute. Qed.

(** Schemas lists the target of an embedded schema twice, the superseded one
    first; a schema first added by ForceAddSchema is not listed at all. *)
Example schemas_list :
  (λ s, ID <$> schemas s) <$> @run_ops std_range std_schema_format 2 one_schema [OpAdd driver_schema; OpForce node_schema]
  = Some ["cluster"; "driverConfig"; "cluster"].
Proof. by vm_compute. Qed.
