(* ===== verification/Mappers.v ===== *)
(** * Mappers

    Models types/mapper.go and types/mapper/*.go: how a resource is converted
    between the form it is stored in (internal) and the form the API shows.

    A mapper changes the map it is given in place: [FromInternal] and
    [ToInternal] take the map variable ([None] for the nil map) and return what
    it holds afterwards.  Each struct of the package is a record, each of its
    two conversions a definition, and [Mapper] the interface they implement.

    encoding/json is the class [JSON]: what it marshals a value to and what it
    reads from a text. *)

From S2P Require Import Prelude GoStrings Values Errors TypeNames Convert Base64 Schemas.
From Stdlib Require Import Ascii.

Record Mapper := mkMapper {
  FromInternal : option obj → go (option obj);
  ToInternal : option obj → go (option obj * option error)
}.

Class JSON := {
  marshal : value → option string;            (* json.Marshal, None on an error *)
  unmarshal_map : string → option obj;        (* json.Unmarshal into a map *)
  unmarshal_list : string → option (list value)
}.

Section Mappers.
Context `{MapRange} `{GoFormat} `{JSON}.

(** ** types/mapper.go: Mappers *)
Definition Mappers_FromInternal (m : list Mapper) (data : option obj) : go (option obj) :=
  foldM (λ d mapper, FromInternal mapper d) m data.

(** From the last to the first; every one runs, whatever the others report. *)
Definition ToInternal_step (acc : option obj * list (option error)) (mapper : Mapper)
  : go (option obj * list (option error)) :=
  '(d, err) ← ToInternal mapper acc.1; Ret (d, acc.2 ++ [err]).
Definition Mappers_ToInternal (m : list Mapper) (data : option obj) : go (option obj * option error) :=
  '(d, errs) ← foldM ToInternal_step (reverse m) (data, []);
  Ret (d, NewErrors errs).

Definition Mappers (m : list Mapper) : Mapper := mkMapper (Mappers_FromInternal m) (Mappers_ToInternal m).

(** ** Moving values *)
Record Move := mkMove { MFrom : string; MTo : string; MCodeName : string; DestDefined : bool; NoDeleteFromField : bool }.

(** What Move and UntypedMove do with the two paths split. *)
Definition move_value (data : option obj) (from to : list string) : go (option obj) :=
  let '(data, v, ok) := RemoveValue data from in
  if ok then PutValue data v to else Ret data.

Definition Move_FromInternal (m : Move) (data : option obj) : go (option obj) :=
  move_value data (Split (MFrom m) "/") (Split (MTo m) "/").
Definition Move_ToInternal (m : Move) (data : option obj) : go (option obj * option error) :=
  d ← move_value data (Split (MTo m) "/") (Split (MFrom m) "/"); Ret (d, None).
Definition Move_mapper (m : Move) : Mapper := mkMapper (Move_FromInternal m) (Move_ToInternal m).

Record UntypedMove := mkUntypedMove { UFrom : string; UTo : string; USeparator : string }.
Definition getSep (sep : string) : string := if decide (sep = "") then "/" else sep.
Definition UntypedMove_FromInternal (m : UntypedMove) (data : option obj) : go (option obj) :=
  let sep := getSep (USeparator m) in move_value data (SplitStr (UFrom m) sep) (SplitStr (UTo m) sep).
Definition UntypedMove_ToInternal (m : UntypedMove) (data : option obj) : go (option obj * option error) :=
  let sep := getSep (USeparator m) in
  d ← move_value data (SplitStr (UTo m) sep) (SplitStr (UFrom m) sep); Ret (d, None).
Definition UntypedMove_mapper (m : UntypedMove) : Mapper :=
  mkMapper (UntypedMove_FromInternal m) (UntypedMove_ToInternal m).

(** BatchMove: its moves, and the error aggregation of types.Errors. *)
Definition BatchMove_FromInternal (moves : list Move) (data : option obj) : go (option obj) :=
  foldM (λ d m, Move_FromInternal m d) moves data.
Definition BatchMove_ToInternal (moves : list Move) (data : option obj) : go (option obj * option error) :=
  '(d, errs) ← foldM (λ (acc : option obj * list error) m,
                 '(d', err) ← Move_ToInternal m acc.1; Ret (d', Errors_Add acc.2 err)) (reverse moves) (data, []);
  Ret (d, Errors_Err errs).

Record Copy := mkCopy { CFrom : string; CTo : string }.
Definition Copy_FromInternal (c : Copy) (data : option obj) : go (option obj) :=
  match data with
  | None => Ret None
  | Some m => match m !! CFrom c with Some v => Ret (Some (<[CTo c := v]> m)) | None => Ret data end
  end.
Definition Copy_ToInternal (c : Copy) (data : option obj) : go (option obj * option error) :=
  match data with
  | None => Ret (None, None)
  | Some m =>
      match m !! CTo c, m !! CFrom c with
      | Some t, None => Ret (Some (<[CFrom c := t]> m), None)
      | _, _ => Ret (data, None)
      end
  end.

(** ** Fields kept in labels and annotations *)
Definition field_key (field : string) : string := "field.cattle.io/" +:+ field.

Definition LabelField_FromInternal (field : string) (data : option obj) : go (option obj) :=
  let '(data, v, ok) := RemoveValue data ["labels"; field_key field] in
  if ok then mset data field v else Ret data.
Definition LabelField_ToInternal (field : string) (data : option obj) : go (option obj * option error) :=
  match mlookup data field with
  | Some v => d ← PutValue data v ["labels"; field_key field]; Ret (d, None)
  | None => Ret (data, None)
  end.

Record AnnotationField := mkAnnotationField { AField : string; AObject : bool; AList : bool }.
Definition AnnotationField_FromInternal (e : AnnotationField) (data : option obj) : go (option obj) :=
  let '(data, v, ok) := RemoveValue data ["annotations"; field_key (AField e)] in
  if ok then
    let v := if AObject e then match unmarshal_map (ToString v) with Some m => VMap m | None => v end else v in
    let v := if AList e then match unmarshal_list (ToString v) with Some l => VList l | None => v end else v in
    mset data (AField e) v
  else Ret data.
Definition AnnotationField_ToInternal (e : AnnotationField) (data : option obj) : go (option obj * option error) :=
  d ← match mlookup data (AField e) with
      | Some v =>
          let v := if AObject e || AList e then match marshal v with Some b => VStr b | None => v end else v in
          PutValue data (VStr (ToString v)) ["annotations"; field_key (AField e)]
      | None => Ret data
      end;
  Ret ((RemoveValue d [AField e]).1.1, None).

(** ** Encodings *)
Record Base64M := mkBase64 { BField : string; BSeparator : string }.
Definition Base64_FromInternal (m : Base64M) (data : option obj) : go (option obj) :=
  let keys := SplitStr (BField m) (getSep (BSeparator m)) in
  let '(data, v, ok) := RemoveValue data keys in
  if ok then
    let str := ToString v in
    if decide (str = "") then Ret data
    else PutValue data (VStr (decode str).1) keys
  else Ret data.
Definition Base64_ToInternal (m : Base64M) (data : option obj) : go (option obj * option error) :=
  let keys := SplitStr (BField m) (getSep (BSeparator m)) in
  let '(data, v, ok) := RemoveValue data keys in
  if ok then
    let str := ToString v in
    if decide (str = "") then Ret (data, None)
    else d ← PutValue data (VStr (encode str)) keys; Ret (d, None)
  else Ret (data, None).

Record JSONEncode := mkJSONEncode { JField : string; JSeparator : string }.
Definition JSONEncode_FromInternal (m : JSONEncode) (data : option obj) : go (option obj) :=
  let keys := SplitStr (JField m) (getSep (JSeparator m)) in
  let '(data, v, ok) := RemoveValue data keys in
  if ok then match unmarshal_map (ToString v) with Some o => PutValue data (VMap o) keys | None => Ret data end
  else Ret data.
Definition JSONEncode_ToInternal (m : JSONEncode) (data : option obj) : go (option obj * option error) :=
  let keys := SplitStr (JField m) (getSep (JSeparator m)) in
  let '(data, v, ok) := RemoveValue data keys in
  if ok then
    match v with
    | VNil => Ret (data, None)
    | _ => match marshal v with
           | Some b => d ← PutValue data (VStr b) keys; Ret (d, None)
           | None => Ret (data, None)
           end
    end
  else Ret (data, None).

(** ** Restructuring *)
Record Embed_ := mkEmbed {
  EField : string; EOptional : bool; EReadOnly : bool; Ignore : list string;
  ignoreOverride : bool; embeddedFields : list string; EmptyValueOk : bool
}.

Definition embed_step (sub : option obj) (d : option obj) (fieldName : string) : go (option obj) :=
  match mlookup sub fieldName with Some v => mset d fieldName v | None => Ret d end.
(** [sub] aliases the nested map, which the loop does not write: [data[e.Field]]
    may be overwritten by the loop, [sub] still is the map it held first. *)
Definition Embed_FromInternal (e : Embed_) (data : option obj) : go (option obj) :=
  let sub := ToMapInterface (mget data (EField e)) in
  d ← foldM (embed_step sub) (embeddedFields e) data;
  Ret (mdelete d (EField e)).

Definition Embed_ToInternal (e : Embed_) (data : option obj) : go (option obj * option error) :=
  match data with
  | None => Ret (None, None)
  | Some m =>
      let '(m, sub) := foldl (λ (acc : obj * obj) fieldName,
            (delete fieldName acc.1,
             match acc.1 !! fieldName with Some v => <[fieldName := v]> acc.2 | None => acc.2 end))
          (m, ∅) (embeddedFields e) in
      if decide (sub = ∅) then Ret (Some (if EmptyValueOk e then <[EField e := VNil]> m else m), None)
      else Ret (Some (<[EField e := VMap sub]> m), None)
  end.
Definition Embed_mapper (e : Embed_) : Mapper := mkMapper (Embed_FromInternal e) (Embed_ToInternal e).

(** UnionEmbed: [embeds] by field name, in the unspecified order of a map for
    FromInternal; ToInternal picks the first mapping all of whose check fields
    are present and not empty. *)
Record UnionMapping := mkUnionMapping { FieldName : string; CheckFields : list string }.
Definition UnionEmbed_FromInternal (embeds : gmap string Embed_) (data : option obj) : go (option obj) :=
  foldM (λ d e, Embed_FromInternal e.2 d) (range embeds) data.
Definition check_fields (data : option obj) (checks : list string) : bool :=
  forallb (λ c, match mlookup data c with Some v => negb (IsAPIObjectEmpty v) | None => false end) checks.
Fixpoint UnionEmbed_ToInternal (fields : list UnionMapping) (embeds : gmap string Embed_) (data : option obj)
  : go (option obj * option error) :=
  match fields with
  | [] => Ret (data, None)
  | m :: fields' =>
      if bool_decide (CheckFields m = []) || negb (check_fields data (CheckFields m))
      then UnionEmbed_ToInternal fields' embeds data
      else Embed_ToInternal (default (mkEmbed "" false false [] false [] false) (embeds !! FieldName m)) data
  end.

Record SliceToMap := mkSliceToMap { SField : string; SKey : string }.
(** The entry a list item gives: its key is taken out of it. *)
Definition slice_item (key : string) (item : value) : option (string * option obj) :=
  match item with
  | VMap m => Some (as_string (default VNil (m !! key)), Some (delete key m))
  | VNilMap => Some ("", None)
  | _ => None
  end.
Definition slice_to_map (key : string) (datas : list value) : obj :=
  foldl (λ res item, match slice_item key item with
                     | Some (name, m) => <[name := of_map m]> res | None => res end) ∅ datas.
Definition SliceToMap_FromInternal (s : SliceToMap) (data : option obj) : go (option obj) :=
  let result := slice_to_map (SKey s) (ToInterfaceSlice (mget data (SField s))) in
  if decide (result = ∅) then Ret data else mset data (SField s) (VMap result).

Definition map_items (key : string) (datas : obj) : list value :=
  omap (λ e, match e.2 with VMap m => Some (VMap (<[key := VStr e.1]> m)) | _ => None end) (range datas).
Definition SliceToMap_ToInternal (s : SliceToMap) (data : option obj) : go (option obj * option error) :=
  match ToMapInterface (mget data (SField s)) with
  | Some datas => d ← mset data (SField s) (VList (map_items (SKey s) datas)); Ret (d, None)
  | None => Ret (data, None)
  end.
Definition SliceToMap_mapper (s : SliceToMap) : Mapper :=
  mkMapper (SliceToMap_FromInternal s) (SliceToMap_ToInternal s).

Record SliceMerge := mkSliceMerge { SMFrom : list string; SMTo : string }.
Definition SliceMerge_FromInternal (s : SliceMerge) (data : option obj) : go (option obj) :=
  let result := foldl (λ r name, match mlookup data name with
                                 | Some val => r ++ ToInterfaceSlice val | None => r end) [] (SMFrom s) in
  match result with [] => Ret data | _ => mset data (SMTo s) (VList result) end.

Definition Drop_FromInternal (field : string) (data : option obj) : go (option obj) := Ret (mdelete data field).
(** The ToInternal of the mappers that only change the way out, or the schema. *)
Definition keep_internal (data : option obj) : go (option obj * option error) := Ret (data, None).
Definition Drop_mapper (field : string) : Mapper := mkMapper (Drop_FromInternal field) keep_internal.

Record SetValue := mkSetValue { VField : string; VTo : string; Value : value; IfEq : value }.
Definition getTo (s : SetValue) : string := if decide (VTo s = "") then VField s else VTo s.
Definition SetValue_FromInternal (s : SetValue) (data : option obj) : go (option obj) :=
  match IfEq s with
  | VNil => PutValue data (Value s) (Split (getTo s) "/")
  | ifEq =>
      let '(v, ok) := GetValue data (Split (VField s) "/") in
      if ok then eq ← iface_eq v ifEq; if (eq : bool) then PutValue data (Value s) (Split (getTo s) "/") else Ret data
      else Ret data
  end.
Definition SetValue_ToInternal (s : SetValue) (data : option obj) : go (option obj * option error) :=
  let '(v, ok) := GetValue data (Split (getTo s) "/") in
  if ok then
    match IfEq s with
    | VNil => Ret ((RemoveValue data (Split (VField s) "/")).1.1, None)
    | ifEq =>
        eq ← iface_eq v (Value s);
        if (eq : bool) then d ← PutValue data ifEq (Split (VField s) "/"); Ret (d, None) else Ret (data, None)
    end
  else Ret (data, None).

(** ** Conditional mappers *)
Definition Condition_FromInternal (field : string) (v : value) (m : Mapper) (data : option obj) : go (option obj) :=
  eq ← iface_eq (mget data field) v; if (eq : bool) then FromInternal m data else Ret data.
Definition Condition_ToInternal (field : string) (v : value) (m : Mapper) (data : option obj)
  : go (option obj * option error) :=
  eq ← iface_eq (mget data field) v; if (eq : bool) then ToInternal m data else Ret (data, None).

(** Root, Scope and RenameReference run their mapper only when ModifySchema
    enabled it. *)
Definition When_FromInternal (enabled : bool) (m : Mapper) (data : option obj) : go (option obj) :=
  if enabled then FromInternal m data else Ret data.
Definition When_ToInternal (enabled : bool) (m : Mapper) (data : option obj) : go (option obj * option error) :=
  if enabled then ToInternal m data else Ret (data, None).

(** ** API group and status *)
Record APIGroup := mkAPIGroup { apiVersion : string; kind : string }.
Definition default_key (data : option obj) (k : string) (v : value) : option obj :=
  (λ m : obj, match m !! k with None => <[k := v]> m | Some _ => m end) <$> data.
Definition APIGroup_ToInternal (a : APIGroup) (data : option obj) : go (option obj * option error) :=
  Ret (default_key (default_key data "apiVersion" (VStr (apiVersion a))) "kind" (VStr (kind a)), None).
Definition APIGroup_ModifySchema (sc : Schema) : APIGroup :=
  mkAPIGroup (Group (Version sc) +:+ "/" +:+ Version_ (Version sc)) (Capitalize (ID sc)).

Definition PendingStatus_FromInternal (data : option obj) : go (option obj) :=
  match data with
  | None => Ret None
  | Some m =>
      match m !! "state" with
      | Some (VStr "active") =>
          match ToMapSlice (GetValueN data ["status"; "conditions"]) with
          | [] => mset data "state" (VStr "pending")
          | _ => Ret data
          end
      | _ => Ret data
      end
  end.

(** DisplayName *)
Definition DisplayName_mapper : Mapper :=
  Mappers [Move_mapper (mkMove "name" "id" "" false false);
           Move_mapper (mkMove "displayName" "name" "" false false);
           mkMapper (λ d, Ret d) keep_internal].

(** ** The mapper of a type *)
Record typeMapper := mkTypeMapper {
  TMappers : list Mapper;
  root : bool;
  typeName : string;
  subSchemas : gmap string (option Mapper);       (* the mapper of the sub schema, if any *)
  subArraySchemas : gmap string (option Mapper);
  subMapSchemas : gmap string (option Mapper)
}.

(** A conversion applied to the maps inside [data], which are changed in place.
    A value that is not a map is handed over as the nil map, and stays. *)
Definition in_map (f : option obj → go (option obj)) (v : value) : go value :=
  match v with VMap m => of_map <$> f (Some m) | _ => _ ← f None; Ret v end.
Definition mapM_list (f : value → go value) (l : list value) : go (list value) :=
  foldM (λ acc x, y ← f x; Ret (acc ++ [y])) l [].
Definition in_maps (f : value → go value) (m : obj) : go obj :=
  foldM (λ (acc : obj) (e : string * value), y ← f e.2; Ret (<[e.1 := y]> acc)) (range m) m.

Definition set_if (data : option obj) (k : string) (v : value) : option obj :=
  (λ m : obj, match m !! k with Some _ => <[k := v]> m | None => m end) <$> data.

Definition typeMapper_subs (t : typeMapper) (data : option obj) : go (option obj) :=
  data ← foldM (λ d (e : string * option Mapper), match e.2 with
           | None => Ret d
           | Some sm => v ← in_map (FromInternal sm) (mget d e.1); Ret (set_if d e.1 v)
           end) (range (subSchemas t)) data;
  data ← foldM (λ d (e : string * option Mapper), match e.2, mget d e.1 with
           | Some sm, VMap m => m' ← in_maps (in_map (FromInternal sm)) m; Ret (set_if d e.1 (VMap m'))
           | _, _ => Ret d
           end) (range (subMapSchemas t)) data;
  foldM (λ d (e : string * option Mapper), match e.2, mget d e.1 with
    | Some sm, VList l => l' ← mapM_list (in_map (FromInternal sm)) l; Ret (set_if d e.1 (VList l'))
    | _, _ => Ret d
    end) (range (subArraySchemas t)) data.

(** The id of a root object: [namespace:name], or with the id that is there. *)
Definition put_id (name namespace : string) (m : obj) : obj :=
  match m !! "id" with
  | Some v => if decide (namespace = "") then m else <["id" := VStr (namespace +:+ ":" +:+ as_string v)]> m
  | None => if decide (name = "") then m
            else <["id" := VStr (if decide (namespace = "") then name else namespace +:+ ":" +:+ name)]> m
  end.

Definition typeMapper_FromInternal (t : typeMapper) (data : option obj) : go (option obj) :=
  let name := as_string (GetValueN data ["metadata"; "name"]) in
  let namespace := as_string (GetValueN data ["metadata"; "namespace"]) in
  d1 ← typeMapper_subs t data;
  d2 ← Mappers_FromInternal (TMappers t) (default_key d1 "type" (VStr (typeName t)));
  let d3 := if root t then option_map (put_id name namespace) d2 else d2 in
  Ret (option_map (λ m : obj, match m !! "type", m !! "id" with
                              | None, Some _ => <["type" := VStr (typeName t)]> m
                              | _, _ => m end) d3).

(** ToInternal on the sub maps: the errors are collected. *)
Definition to_map (sm : Mapper) (v : value) (errs : list error) : go (value * list error) :=
  match v with
  | VMap m => '(d, err) ← ToInternal sm (Some m); Ret (of_map d, Errors_Add errs err)
  | _ => '(_, err) ← ToInternal sm None; Ret (v, Errors_Add errs err)
  end.

Definition typeMapper_ToInternal (t : typeMapper) (data : option obj) : go (option obj * option error) :=
  '(data, err) ← Mappers_ToInternal (TMappers t) data;
  st ← foldM (λ (st : option obj * list error) (e : string * option Mapper),
         match e.2, mget st.1 e.1 with
         | Some sm, VList l =>
             '(l', errs) ← foldM (λ (acc : list value * list error) x,
                 '(y, errs) ← to_map sm x acc.2; Ret (acc.1 ++ [y], errs)) l ([], st.2);
             Ret (set_if st.1 e.1 (VList l'), errs)
         | _, _ => Ret st
         end) (range (subArraySchemas t)) (data, Errors_Add [] err);
  st ← foldM (λ (st : option obj * list error) (e : string * option Mapper),
         match e.2, mget st.1 e.1 with
         | Some sm, VMap m =>
             '(m', errs) ← foldM (λ (acc : obj * list error) (x : string * value),
                 '(y, errs) ← to_map sm x.2 acc.2; Ret (<[x.1 := y]> acc.1, errs)) (range m) (m, st.2);
             Ret (set_if st.1 e.1 (VMap m'), errs)
         | _, _ => Ret st
         end) (range (subMapSchemas t)) st;
  '(data, errs) ← foldM (λ (st : option obj * list error) (e : string * option Mapper),
         match e.2 with
         | Some sm => '(v, errs) ← to_map sm (mget st.1 e.1) st.2; Ret (set_if st.1 e.1 v, errs)
         | None => Ret st
         end) (range (subSchemas t)) st;
  Ret (data, Errors_Err errs).

(** ** Round trips

    [inverts M d]: on the way out and back, [d] comes back, without an error. *)
Definition inverts (M : Mapper) (d : option obj) : Prop :=
  ∃ d', FromInternal M d = Ret d' ∧ ToInternal M d' = Ret (d, None).

(** Each mapper of the list undoes itself on what the ones before it produce. *)
Fixpoint chain_inverts (ms : list Mapper) (d : option obj) : Prop :=
  match ms with
  | [] => True
  | M :: ms' => ∃ d', FromInternal M d = Ret d' ∧ ToInternal M d' = Ret (d, None) ∧ chain_inverts ms' d'
  end.

Lemma Mappers_inverts ms d : chain_inverts ms d → inverts (Mappers ms) d.
Proof.
  unfold inverts. simpl. unfold Mappers_FromInternal, Mappers_ToInternal.
  cut (chain_inverts ms d → ∃ d' errs, foldM (λ d mapper, FromInternal mapper d) ms d = Ret d' ∧
         foldM ToInternal_step (reverse ms) (d', []) = Ret (d, errs) ∧ Forall (λ e, e = None) errs).
  { intros Hc Hi. destruct (Hc Hi) as (d' & errs & Hf & Ht & He). exists d'. split; [done|].
    rewrite Ht. simpl. by rewrite (proj2 (NewErrors_None errs) He). }
  revert d. induction ms as [|M ms IH]; intros d; simpl.
  - intros _. exists d, []. split_and!; done.
  - intros (d1 & Hf & Ht & Hc). rewrite Hf. simpl. destruct (IH d1 Hc) as (d' & errs & -> & Hr & He).
    exists d', (errs ++ [None]). split; [done|]. rewrite reverse_cons, foldM_app, Hr. simpl.
    unfold ToInternal_step. simpl. rewrite Ht. simpl. split; [done|]. apply Forall_app. split; [done|]. by constructor.
Qed.

(** C30: a pipeline of mappers applies them in order on the way out and in the
    reverse order on the way back; if each of them undoes itself on what it is
    given, the whole pipeline restores the stored resource and reports no
    error. *)
Theorem mappers_roundtrip ms d :
  chain_inverts ms d →
  ∃ d', Mappers_FromInternal ms d = Ret d' ∧ Mappers_ToInternal ms d' = Ret (d, None).
Proof. exact (Mappers_inverts ms d). Qed.

Lemma move_value_inverts (m : obj) from to v :
  GetValue (Some m) from = (v, true) → path_disjoint from to = true →
  path_parents m to = true → (GetValue (Some m) to).2 = false →
  ∃ m', move_value (Some m) from to = Ret (Some m') ∧ GetValue (Some m') to = (v, true) ∧
        (GetValue (Some m') from).2 = false ∧
        move_value (Some m') to from = Ret (Some m).
Proof.
  intros Hg Hd Hp Hn. destruct (remove_put m v from Hg) as (m1 & Hr & Hput).
  assert (path_parents m1 to = true) as Hp1 by by eapply remove_parents.
  assert (GetValue (Some m1) to = GetValue (Some m) to) as Hg1 by by eapply remove_frame.
  destruct (put_remove m1 v to Hp1) as (m2 & Hput2 & Hr2); [by rewrite Hg1|].
  exists m2. unfold move_value. rewrite Hr, Hr2. simpl. rewrite Hput2, Hput. split_and!; try done.
  - by destruct (remove_gone _ _ _ _ _ Hr2) as [? _].
  - rewrite (put_frame m1 v to m2 from); [|by rewrite path_disjoint_sym|done].
    by destruct (remove_gone _ _ _ _ _ Hr) as [_ ->].
Qed.

(** Move puts the value of its From path under its To path and, on the way
    back, restores the resource: for a value that is there, and a To path that
    is free, does not cross From and whose parents exist. *)
Theorem move_roundtrip (mv : Move) (m : obj) v :
  GetValue (Some m) (Split (MFrom mv) "/") = (v, true) →
  path_disjoint (Split (MFrom mv) "/") (Split (MTo mv) "/") = true →
  path_parents m (Split (MTo mv) "/") = true → (GetValue (Some m) (Split (MTo mv) "/")).2 = false →
  ∃ m', Move_FromInternal mv (Some m) = Ret (Some m') ∧
        GetValue (Some m') (Split (MTo mv) "/") = (v, true) ∧
        (GetValue (Some m') (Split (MFrom mv) "/")).2 = false ∧
        Move_ToInternal mv (Some m') = Ret (Some m, None).
Proof.
  intros Hg Hd Hp Hn. destruct (move_value_inverts m _ _ v Hg Hd Hp Hn) as (m' & Hf & Hto & Hfrom & Hb).
  exists m'. unfold Move_FromInternal, Move_ToInternal. rewrite Hf, Hb. done.
Qed.

(** *** Embed *)
Lemma embed_from_fold (sub : obj) fields m :
  ∃ m', foldM (embed_step (Some sub)) fields (Some m) = Ret (Some m') ∧
  ∀ k, m' !! k = if decide (k ∈ fields ∧ is_Some (sub !! k)) then sub !! k else m !! k.
Proof.
  revert m. induction fields as [|f fields IH]; intros m; cbn [foldM].
  - by exists m.
  - assert (embed_step (Some sub) (Some m) f
      = Ret (Some match sub !! f with Some v => <[f := v]> m | None => m end)) as ->
      by (unfold embed_step; simpl; by destruct (sub !! f)).
    cbn [mbind go_bind]. destruct (sub !! f) as [v|] eqn:Hf.
    + destruct (IH (<[f := v]> m)) as (m' & -> & Hm). exists m'. split; [done|]. intros k. rewrite Hm.
      rewrite lookup_insert. repeat case_decide; set_solver.
    + destruct (IH m) as (m' & -> & Hm). exists m'. split; [done|]. intros k. rewrite Hm.
      destruct (decide (k = f)) as [->|]; [|repeat case_decide; set_solver].
      rewrite !decide_False; [done| |]; rewrite Hf; intros [_ []]; done.
Qed.

Lemma embed_to_fold fields (m s0 : obj) :
  let r := foldl (λ (acc : obj * obj) fieldName,
            (delete fieldName acc.1,
             match acc.1 !! fieldName with Some v => <[fieldName := v]> acc.2 | None => acc.2 end))
          (m, s0) fields in
  (∀ k, r.1 !! k = if decide (k ∈ fields) then None else m !! k) ∧
  (∀ k, r.2 !! k = if decide (k ∈ fields ∧ is_Some (m !! k)) then m !! k else s0 !! k).
Proof.
  revert m s0. induction fields as [|f fields IH]; intros m s0; simpl.
  - done.
  - destruct (IH (delete f m) (match m !! f with Some v => <[f := v]> s0 | None => s0 end)) as [H1' H2'].
    split; intros k; [rewrite H1'|rewrite H2']; clear H1' H2'.
    + rewrite lookup_delete. repeat case_decide; set_solver.
    + rewrite lookup_delete. destruct (decide (f = k)) as [<-|Hne].
      * rewrite decide_False by (intros [_ []]; done). destruct (m !! f) eqn:Hf.
        -- rewrite lookup_insert_eq, decide_True; [done|]. set_solver.
        -- rewrite decide_False; [done|]. intros [_ []]; done.
      * destruct (m !! f); rewrite ?lookup_insert_ne by done; repeat case_decide; set_solver.
Qed.

Lemma embed_inverts (e : Embed_) (m sub : obj) :
  m !! EField e = Some (VMap sub) → sub ≠ ∅ → EField e ∉ embeddedFields e →
  (∀ k, is_Some (sub !! k) → k ∈ embeddedFields e) → (∀ k, k ∈ embeddedFields e → m !! k = None) →
  ∃ m', Embed_FromInternal e (Some m) = Ret (Some m') ∧ m' = sub ∪ delete (EField e) m ∧
        Embed_ToInternal e (Some m') = Ret (Some m, None).
Proof.
  intros He Hne Hnot Hdom Hfree. unfold Embed_FromInternal, Embed_ToInternal, mget. simpl. rewrite He. simpl.
  destruct (embed_from_fold sub (embeddedFields e) m) as (m1 & Hf & Hm1). rewrite Hf. simpl.
  assert (delete (EField e) m1 = sub ∪ delete (EField e) m) as Heq.
  { apply map_eq. intros k. rewrite lookup_union, !lookup_delete.
    destruct (decide (EField e = k)) as [<-|Hk].
    - destruct (sub !! EField e) eqn:Hs; [|done]. destruct Hnot. apply Hdom. by rewrite Hs.
    - rewrite Hm1. destruct (sub !! k) as [v|] eqn:Hs.
      + rewrite decide_True; [|split; [apply Hdom; by rewrite Hs|done]]. by destruct (m !! k).
      + rewrite decide_False by (intros [_ []]; done). by destruct (m !! k). }
  eexists. split; [done|]. split; [done|]. simpl. rewrite Heq. clear m1 Hf Hm1 Heq.
  pose proof (embed_to_fold (embeddedFields e) (sub ∪ delete (EField e) m) ∅) as [H1' H2'].
  destruct (foldl _ _ _) as [m2 s2] eqn:Hfold. simpl in H1', H2'.
  assert (∀ k, k ∈ embeddedFields e → (sub ∪ delete (EField e) m) !! k = sub !! k) as Hin.
  { intros k Hk. rewrite lookup_union, lookup_delete. rewrite (Hfree k Hk).
    destruct (sub !! k); by destruct (decide (EField e = k)). }
  assert (s2 = sub) as ->.
  { apply map_eq. intros k. rewrite H2'. destruct (decide (k ∈ embeddedFields e)) as [Hk|Hk].
    - rewrite (Hin k Hk). destruct (sub !! k) eqn:Hs; [by rewrite decide_True|].
      rewrite decide_False by (intros [_ []]; done). apply lookup_empty.
    - rewrite decide_False by naive_solver. rewrite lookup_empty. destruct (sub !! k) eqn:Hs; [|done].
      destruct Hk. apply Hdom. by rewrite Hs. }
  rewrite decide_False by done. do 3 f_equal. apply map_eq. intros k. rewrite lookup_insert.
  case_decide as Hk; [by subst|]. rewrite H1'. case_decide as Hk'; [by rewrite Hfree|].
  rewrite lookup_union, lookup_delete, decide_False by done.
  destruct (sub !! k) eqn:Hs; [|by destruct (m !! k)]. destruct Hk'. apply Hdom. by rewrite Hs.
Qed.

(** Embed lifts the fields of a nested object into the resource and packs
    them into it again on the way back: when the nested object is not empty, has
    only known fields, and none of them clashes with a field of the resource or
    with the name of the nested object itself. *)
Theorem embed_mapper_roundtrip (e : Embed_) (m sub : obj) :
  m !! EField e = Some (VMap sub) → sub ≠ ∅ → EField e ∉ embeddedFields e →
  (∀ k, is_Some (sub !! k) → k ∈ embeddedFields e) → (∀ k, k ∈ embeddedFields e → m !! k = None) →
  Embed_FromInternal e (Some m) = Ret (Some (sub ∪ delete (EField e) m)) ∧
  Embed_ToInternal e (Some (sub ∪ delete (EField e) m)) = Ret (Some m, None).
Proof.
  intros He Hne Hnot Hdom Hfree.
  destruct (embed_inverts e m sub He Hne Hnot Hdom Hfree) as (m' & Hf & -> & Ht). done.
Qed.

(** *** SliceToMap *)
Definition keyed (key : string) (e : string * obj) : value := VMap (<[key := VStr e.1]> e.2).

Lemma slice_to_map_keyed key (items : list (string * obj)) :
  NoDup items.*1 → Forall (λ e, e.2 !! key = None) items →
  slice_to_map key (keyed key <$> items) = list_to_map (prod_map id VMap <$> items).
Proof.
  intros Hnd Hk. unfold slice_to_map. apply map_eq. intros k.
  assert (∀ acc : obj, foldl (λ res item, match slice_item key item with
                     | Some (name, m) => <[name := of_map m]> res | None => res end) acc (keyed key <$> items)
          = foldl (λ acc e, match Some (VMap e.2) with Some b => <[e.1 := b]> acc | None => acc end) acc items) as Hf.
  { clear Hnd. induction items as [|[n m] items IH]; intros acc; simpl; [done|]. inv Hk.
    rewrite lookup_insert_eq. simpl. rewrite delete_insert_id by done. by apply IH. }
  rewrite Hf, (foldl_insert_lookup (λ _ m, Some (VMap m)) items ∅ k Hnd), lookup_empty.
  change (prod_map id VMap <$> items) with (prod_map id VMap <$> items).
  rewrite list_to_map_fmap, lookup_fmap. by destruct (list_to_map items !! k).
Qed.

Lemma map_items_keyed key (items : list (string * obj)) :
  NoDup items.*1 → map_items key (list_to_map (prod_map id VMap <$> items)) ≡ₚ keyed key <$> items.
Proof.
  intros Hnd. unfold map_items. rewrite range_perm, map_to_list_to_map.
  - clear Hnd. induction items as [|[n m] items IH]; simpl; [done|]. by rewrite IH.
  - rewrite <- list_fmap_compose. by erewrite list_fmap_ext.
Qed.

(** SliceToMap turns a list of named objects into a map from their names
    and back: with distinct names, the list that comes back has exactly the
    objects of the stored one, in some order, and nothing else of the resource
    changes. *)
Theorem slice_to_map_roundtrip (s : SliceToMap) (m : obj) (items : list (string * obj)) :
  items ≠ [] → NoDup items.*1 → Forall (λ e, e.2 !! SKey s = None) items →
  m !! SField s = Some (VList (keyed (SKey s) <$> items)) →
  ∃ m' l, SliceToMap_FromInternal s (Some m) = Ret (Some m') ∧
    m' = <[SField s := VMap (list_to_map (prod_map id VMap <$> items))]> m ∧
    SliceToMap_ToInternal s (Some m') = Ret (Some (<[SField s := VList l]> m), None) ∧
    l ≡ₚ keyed (SKey s) <$> items.
Proof.
  intros Hne Hnd Hk Hm. unfold SliceToMap_FromInternal, mget. simpl. rewrite Hm. simpl.
  rewrite slice_to_map_keyed by done. rewrite decide_False.
  2:{ destruct items as [|[n x] items]; [done|]. simpl. apply insert_non_empty. }
  eexists _, _. split_and!; [done|done| |by apply map_items_keyed].
  unfold SliceToMap_ToInternal, mget. simpl. rewrite lookup_insert_eq. simpl. by rewrite insert_insert_eq.
Qed.

(** *** Base64 *)

(** A field that the API shows in clear and the store keeps in base 64: a
    non-empty string without surrounding white space is stored as its encoding,
    and reading the stored resource gives it back. *)
Theorem base64_roundtrip (b : Base64M) (m : obj) (s : string) :
  let keys := SplitStr (BField b) (getSep (BSeparator b)) in
  GetValue (Some m) keys = (VStr s, true) → s ≠ "" → TrimSpace s = s →
  ∃ m', Base64_ToInternal b (Some m) = Ret (Some m', None) ∧
        GetValue (Some m') keys = (VStr (encode s), true) ∧
        Base64_FromInternal b (Some m') = Ret (Some m).
Proof.
  intros keys Hg Hs Ht. unfold Base64_ToInternal, Base64_FromInternal. fold keys.
  assert (keys ≠ []) as Hkeys by by intros Hk; rewrite Hk in Hg.
  destruct (remove_put m _ keys Hg) as (m1 & Hr & Hput).
  pose proof (remove_parents_self _ _ _ _ Hr) as Hp. destruct (remove_gone _ _ _ _ _ Hr) as [_ Hgone].
  destruct (put_remove m1 (VStr (encode s)) keys Hp Hgone) as (m2 & Hput2 & Hr2).
  destruct (remove_gone _ _ _ _ _ Hr2) as [Hg2 _].
  assert (ToString (VStr s) = s) as Hts by exact Ht. rewrite Hr, Hts, decide_False by done.
  simpl. rewrite Hput2. simpl. exists m2. split_and!; [done|done|].
  rewrite Hr2, ToString_Str by apply encode_no_space. rewrite decide_False by (intros He%encode_empty; done).
  rewrite decode_encode. simpl. by rewrite Hput.
Qed.
End Mappers.

(** ** Concrete resources *)
Definition std_json : JSON :=
  {| marshal := λ _, None; unmarshal_map := λ _, None; unmarshal_list := λ _, None |}.

Definition stored_node : obj :=
  {[ "metadata" := VMap {[ "name" := VStr "n1"; "uid" := VStr "u" ]};
     "spec" := VMap {[ "image" := VStr "x" ]} ]}.
Definition embed_metadata : Embed_ := mkEmbed "metadata" false false [] false ["name"; "uid"] false.
Definition embed_spec : Embed_ := mkEmbed "spec" true false [] false ["image"] false.

Lemma mappers_roundtrip_witness :
  let ms := [Embed_mapper embed_metadata; Embed_mapper embed_spec; Move_mapper (mkMove "uid" "uuid" "UUID" false false)] in
  ∃ d', @Mappers_FromInternal ms (Some stored_node) = Ret d' ∧
        Mappers_ToInternal ms d' = Ret (Some stored_node, None).
Proof.
  intros ms. destruct (mappers_roundtrip ms (Some stored_node)) as (d' & Hf & Ht).
  - exists (Some {[ "name" := VStr "n1"; "uid" := VStr "u"; "spec" := VMap {[ "image" := VStr "x" ]} ]}).
    split; [(vm_compute; reflexivity)|]. split; [(vm_compute; reflexivity)|].
    exists (Some {[ "name" := VStr "n1"; "uid" := VStr "u"; "image" := VStr "x" ]}).
    split; [(vm_compute; reflexivity)|]. split; [(vm_compute; reflexivity)|].
    exists (Some {[ "name" := VStr "n1"; "uuid" := VStr "u"; "image" := VStr "x" ]}).
    split; [(vm_compute; reflexivity)|]. split; [(vm_compute; reflexivity)|]. exact I.
  - by exists d'.
Defined.

Lemma move_roundtrip_witness :
  let mv := mkMove "metadata/uid" "metadata/uuid" "" false false in
  ∃ m', Move_FromInternal mv (Some stored_node) = Ret (Some m') ∧
        Move_ToInternal mv (Some m') = Ret (Some stored_node, None).
Proof.
  intros mv. destruct (move_roundtrip mv stored_node (VStr "u")) as (m' & Hf & _ & _ & Hb);
    [(vm_compute; reflexivity)|(vm_compute; reflexivity)|(vm_compute; reflexivity)|(vm_compute; reflexivity)|]. by exists m'.
Defined.

Lemma embed_mapper_roundtrip_witness :
  Embed_ToInternal embed_spec (Some ({[ "image" := VStr "x" ]} ∪ delete "spec" stored_node))
  = Ret (Some stored_node, None).
Proof.
  apply (embed_mapper_roundtrip embed_spec stored_node {[ "image" := VStr "x" ]}).
  - vm_compute. reflexivity.
  - apply map_non_empty_singleton.
  - by intros Hin%list_elem_of_singleton.
  - intros k Hk. simpl. apply list_elem_of_singleton.
    destruct (decide (k = "image")) as [|Hne]; [done|]. rewrite lookup_singleton_ne in Hk by done. by destruct Hk.
  - intros k ->%list_elem_of_singleton. vm_compute. reflexivity.
Defined.

Lemma slice_to_map_roundtrip_witness :
  let s := mkSliceToMap "containers" "name" in
  let items := [("a", {[ "image" := VStr "x" ]} : obj); ("b", ∅)] in
  ∃ m' l, @SliceToMap_FromInternal s (Some {[ "containers" := VList (keyed "name" <$> items) ]}) = Ret (Some m') ∧
    @SliceToMap_ToInternal std_range s (Some m')
    = Ret (Some (<["containers" := VList l]> {[ "containers" := VList (keyed "name" <$> items) ]}), None) ∧
    l ≡ₚ keyed "name" <$> items.
Proof.
  intros s items.
  destruct (@slice_to_map_roundtrip std_range s {[ "containers" := VList (keyed "name" <$> items) ]} items)
    as (m' & l & Hf & _ & Ht & Hp).
  - done.
  - apply (bool_decide_unpack _). vm_compute. reflexivity.
  - repeat constructor.
  - vm_compute. reflexivity.
  - by exists m', l.
Defined.

Lemma base64_roundtrip_witness :
  let b := mkBase64 "data/key" "" in
  ∃ m', @Base64_ToInternal std_format b (Some {[ "data" := VMap {[ "key" := VStr "hi" ]} ]}) = Ret (Some m', None) ∧
        @Base64_FromInternal std_format b (Some m') = Ret (Some {[ "data" := VMap {[ "key" := VStr "hi" ]} ]}).
Proof.
  intros b. destruct (@base64_roundtrip std_format b {[ "data" := VMap {[ "key" := VStr "hi" ]} ]} "hi")
    as (m' & Ht & _ & Hf); [(vm_compute; reflexivity)|done|(vm_compute; reflexivity)|].
  by exists m'.
Defined.

(** Base64 trims the value before it encodes it: a trailing line break, as in a
    PEM file, is lost. *)
Example base64_trims :
  let newline := String "010"%char "" in
  let b := mkBase64 "key" "" in
  @Base64_ToInternal std_format b (Some {[ "key" := VStr ("hi" +:+ newline) ]})
  = Ret (Some {[ "key" := VStr (encode "hi") ]}, None).
Proof. vm_compute. reflexivity. Qed.

(** A nested field of the same name as the embedded object is lifted and then
    deleted with it. *)
Example embed_same_name_lost :
  let e := mkEmbed "spec" false false [] false ["spec"; "image"] false in
  Embed_FromInternal e (Some {[ "spec" := VMap {[ "spec" := VStr "kept?"; "image" := VStr "x" ]} ]})
  = Ret (Some {[ "image" := VStr "x" ]}).
Proof. vm_compute. reflexivity. Qed.

(** LabelField keeps the field on the way in, AnnotationField takes it out. *)
Example label_field_kept :
  LabelField_ToInternal "team" (Some {[ "team" := VStr "a" ]})
  = Ret (Some {[ "team" := VStr "a"; "labels" := VMap {[ "field.cattle.io/team" := VStr "a" ]} ]}, None) ∧
  @AnnotationField_ToInternal std_format std_json (mkAnnotationField "team" false false) (Some {[ "team" := VStr "a" ]})
  = Ret (Some {[ "annotations" := VMap {[ "field.cattle.io/team" := VStr "a" ]} ]}, None).
Proof. split; vm_compute; reflexivity. Qed.
