(* ===== verification/SchemaMappers.v ===== *)
(** * Mappers on schemas

    Models the ModifySchema methods of types/mapper/*.go that change only the
    schema they are given.  A method returns the schema it leaves and its error:
    when it fails halfway the changes made so far stay in the schema. *)

From S2P Require Import Prelude GoStrings Values Errors TypeNames Schemas Mappers.

Definition set_field (sc : Schema) (name : string) (f : Field) : Schema :=
  set_fields sc (<[name := f]> (ResourceFields sc)).
Definition delete_field (sc : Schema) (name : string) : Schema :=
  set_fields sc (delete name (ResourceFields sc)).

(** The updates of one member of the Field struct. *)
Definition with_access (f : Field) (create update writeOnly : bool) : Field :=
  mkField (Type_ f) (Default f) (Nullable f) create writeOnly (Required f) update (MinLength f) (MaxLength f)
    (Min f) (Max f) (Options f) (ValidChars f) (InvalidChars f) (Description f) (FieldCodeName f) (DynamicField f).
Definition with_type (f : Field) (t : string) (options : list string) : Field :=
  mkField t (Default f) (Nullable f) (Create f) (WriteOnly f) (Required f) (Update f) (MinLength f) (MaxLength f)
    (Min f) (Max f) options (ValidChars f) (InvalidChars f) (Description f) (FieldCodeName f) (DynamicField f).
Definition with_required (f : Field) : Field :=
  mkField (Type_ f) (Default f) (Nullable f) (Create f) (WriteOnly f) true (Update f) (MinLength f) (MaxLength f)
    (Min f) (Max f) (Options f) (ValidChars f) (InvalidChars f) (Description f) (FieldCodeName f) (DynamicField f).
(** [field.Create = false; field.Update = false] *)
Definition read_only (f : Field) : Field := with_access f false false (WriteOnly f).

(** check.go *)
Definition ValidateField (field : string) (sc : Schema) : option error :=
  match ResourceFields sc !! field with
  | Some _ => None
  | None => Some (ErrorString ("field " +:+ field +:+ " missing on schema " +:+ ID sc))
  end.

Section SchemaMappers.
Context `{MapRange}.

(** A loop that stops at the first error. *)
Fixpoint until_error {A} (f : Schema → A → Schema * option error) (l : list A) (sc : Schema) : Schema * option error :=
  match l with
  | [] => (sc, None)
  | a :: l' => match f sc a with
               | (sc', None) => until_error f l' sc'
               | r => r
               end
  end.

(** access.go *)
Definition Access_ModifySchema (fields : gmap string string) (optional : bool) (sc : Schema) : Schema * option error :=
  until_error (λ sc (e : string * string),
    match ValidateField e.1 sc with
    | Some err => if optional then (sc, None) else (sc, Some err)
    | None => (set_field sc e.1 (with_access (field_of sc e.1) (Contains e.2 "c") (Contains e.2 "u") (Contains e.2 "o")), None)
    end) (range fields) sc.

(** drop.go *)
Definition Drop_ModifySchema (field : string) (ignoreDefinition : bool) (sc : Schema) : Schema * option error :=
  match ResourceFields sc !! field with
  | None => if ignoreDefinition then (delete_field sc field, None)
            else (sc, Some (ErrorString ("can not drop missing field " +:+ field +:+ " on " +:+ ID sc)))
  | Some _ => (delete_field sc field, None)
  end.

(** copy.go *)
Definition Copy_ModifySchema (c : Copy) (sc : Schema) : Schema * option error :=
  match ResourceFields sc !! CFrom c with
  | None => (sc, Some (ErrorString ("field " +:+ CFrom c +:+ " missing on schema " +:+ ID sc)))
  | Some f => (set_field sc (CTo c) f, None)
  end.

(** enum.go and changetype.go *)
Definition Enum_ModifySchema (field : string) (options : list string) (sc : Schema) : Schema * option error :=
  match ValidateField field sc with
  | Some err => (sc, Some err)
  | None => (set_field sc field (with_type (field_of sc field) "enum" options), None)
  end.
Definition ChangeType_ModifySchema (field type : string) (sc : Schema) : Schema * option error :=
  match ValidateField field sc with
  | Some err => (sc, Some err)
  | None => (set_field sc field (with_type (field_of sc field) type (Options (field_of sc field))), None)
  end.

(** required.go *)
Definition Required_ModifySchema (fields : list string) (sc : Schema) : Schema * option error :=
  until_error (λ sc field, match ValidateField field sc with
    | Some err => (sc, Some err)
    | None => (set_field sc field (with_required (field_of sc field)), None)
    end) fields sc.

(** slice_merge.go *)
Definition SliceMerge_ModifySchema (s : SliceMerge) (ignoreDefinition : bool) (sc : Schema) : Schema * option error :=
  if ignoreDefinition then (sc, None)
  else match until_error (λ sc from, match ValidateField from sc with
               | Some err => (sc, Some err)
               | None => (if decide (from = SMTo s) then sc else delete_field sc from, None)
               end) (SMFrom s) sc with
       | (sc', None) => (sc', ValidateField (SMTo s) sc')
       | r => r
       end.

(** scope.go: whether the mappers of a Scope run. *)
Definition Scope_run (sIf sIfNot : string) (sc : Schema) : bool :=
  if decide (sIfNot = "") then (if decide (sIf = "") then false else bool_decide (Scope sc = sIf))
  else negb (bool_decide (Scope sc = sIfNot)).

(** embed.go: one turn of the loop over the fields of the embedded schema. *)
Definition overwrites (e : Embed_) (sc : Schema) (name : string) : bool :=
  negb (bool_decide (name = EField e)) && negb (ignoreOverride e) && bool_decide (is_Some (ResourceFields sc !! name)).
Definition embedded_field (e : Embed_) (f : Field) : Field := if EReadOnly e then read_only f else f.
Fixpoint embed_loop (e : Embed_) (l : list (string * Field)) (sc : Schema) (embedded : list string) (deleteField : bool)
  : Schema * list string * bool * option error :=
  match l with
  | [] => (sc, embedded, deleteField, None)
  | (name, field) :: l' =>
      if bool_decide (name ∈ Ignore e) then embed_loop e l' sc embedded deleteField
      else if overwrites e sc name then
        (sc, embedded, deleteField,
         Some (ErrorString ("embedding field " +:+ EField e +:+ " on " +:+ ID sc +:+ " will overwrite the field " +:+ name)))
      else embed_loop e l' (set_field sc name (embedded_field e field)) (embedded ++ [name])
             (deleteField && negb (bool_decide (name = EField e)))
  end.

(** ModifySchema: the schema, the embeddedFields it leaves in the mapper, and
    its error. *)
Definition Embed_ModifySchema (e : Embed_) (sc : Schema) (schemas : Schemas)
  : Schema * list string * option error :=
  match ValidateField (EField e) sc with
  | Some err => (sc, embeddedFields e, if EOptional e then None else Some err)
  | None =>
      let id := Type_ (field_of sc (EField e)) in
      match Schemas_Schema schemas (Some (Version sc)) id with
      | None => (sc, [], if EOptional e then None
                         else Some (ErrorString ("failed to find schema " +:+ id +:+ " for embedding")))
      | Some es =>
          match embed_loop e (range (ResourceFields es)) sc [] true with
          | (sc', embedded, deleteField, Some err) => (sc', embedded, Some err)
          | (sc', embedded, deleteField, None) =>
              (if (deleteField : bool) then delete_field sc' (EField e) else sc', embedded, None)
          end
      end
  end.

(** ** Embedding a schema *)
(** The fields of the embedded schema that are lifted. *)
Definition lifted (e : Embed_) (es : Schema) (name : string) : Prop :=
  name ∉ Ignore e ∧ is_Some (ResourceFields es !! name).

Lemma embed_loop_ok e l sc embedded del :
  NoDup l.*1 →
  (∀ x, x ∈ l → x.1 ∉ Ignore e → overwrites e sc x.1 = false) →
  ∃ sc' emb' del', embed_loop e l sc embedded del = (sc', emb', del', None) ∧
    emb' = embedded ++ filter (λ n, n ∉ Ignore e) l.*1 ∧
    (del' = true ↔ del = true ∧ ¬ (EField e ∈ l.*1 ∧ EField e ∉ Ignore e)) ∧
    Version sc' = Version sc ∧ ID sc' = ID sc ∧
    ∀ k, ResourceFields sc' !! k = match (list_to_map l : gmap string Field) !! k with
                                   | Some f => if decide (k ∈ Ignore e) then ResourceFields sc !! k
                                               else Some (embedded_field e f)
                                   | None => ResourceFields sc !! k
                                   end.
Proof.
  revert sc embedded del. induction l as [|[n f] l IH]; intros sc embedded del Hnd Hov; simpl.
  - exists sc, embedded, del. rewrite app_nil_r. split_and!; try done. set_solver.
  - simpl in Hnd. apply NoDup_cons in Hnd as [Hnin Hnd]. rewrite filter_cons. destruct (decide (n ∈ Ignore e)) as [Hi|Hi].
    + rewrite bool_decide_true by done. rewrite decide_False by naive_solver.
      destruct (IH sc embedded del) as (sc' & emb' & del' & Hl & He & Hd & Hv & Hid & Hf); [done|set_solver|].
      exists sc', emb', del'. split_and!; try done.
      { rewrite Hd, elem_of_cons. destruct (decide (EField e = n)) as [->|]; naive_solver. }
      intros k. rewrite Hf, lookup_insert. destruct (decide (n = k)) as [<-|Hk]; [|done].
      rewrite not_elem_of_list_to_map_1 by done. by rewrite decide_True.
    + rewrite bool_decide_false by done. rewrite decide_True by done.
      assert (overwrites e sc n = false) as -> by (apply (Hov (n, f)); [set_solver|done]).
      destruct (IH (set_field sc n (embedded_field e f)) (embedded ++ [n]) (del && negb (bool_decide (n = EField e))))
        as (sc' & emb' & del' & Hl & He & Hd & Hv & Hid & Hf); [done| |].
      { intros [n' f'] Hin Hni. specialize (Hov (n', f')). simpl in *. unfold overwrites in *. simpl.
        rewrite lookup_insert_ne; [apply Hov; set_solver|]. intros ->. apply Hnin. apply list_elem_of_fmap. by exists (n', f'). }
      exists sc', emb', del'. split_and!; try done.
      * by rewrite He, <- app_assoc.
      * rewrite Hd, andb_true_iff, negb_true_iff, bool_decide_eq_false. set_solver.
      * intros k. rewrite Hf. simpl. rewrite !lookup_insert. destruct (decide (n = k)) as [<-|Hk]; [|done].
        rewrite not_elem_of_list_to_map_1 by done. by rewrite decide_False.
Qed.

(** Embedding a schema into another.  When the embedded schema is found and
    none of its fields would overwrite one of the outer schema (or overriding is
    allowed), ModifySchema succeeds: the fields that are not ignored are lifted
    (read only if so asked), the field that held the nested object is dropped
    unless it is one of them, every other field is unchanged, and the mapper
    remembers exactly the lifted fields. *)
Theorem embed_schema_correct e sc schemas es fld :
  ResourceFields sc !! EField e = Some fld →
  Schemas_Schema schemas (Some (Version sc)) (Type_ fld) = Some es →
  (∀ k, lifted e es k → overwrites e sc k = false) →
  ∃ sc' embedded, Embed_ModifySchema e sc schemas = (sc', embedded, None) ∧
    (∀ k, k ∈ embedded ↔ lifted e es k) ∧ NoDup embedded ∧
    (∀ k, lifted e es k → ResourceFields sc' !! k = embedded_field e <$> ResourceFields es !! k) ∧
    (¬ lifted e es (EField e) → ResourceFields sc' !! EField e = None) ∧
    (∀ k, ¬ lifted e es k → k ≠ EField e → ResourceFields sc' !! k = ResourceFields sc !! k).
Proof.
  intros Hf Hs Hov. unfold Embed_ModifySchema, ValidateField, field_of. rewrite Hf. simpl. rewrite Hs.
  assert (list_to_map (range (ResourceFields es)) = ResourceFields es) as Hrange.
  { by rewrite (list_to_map_proper _ _ (NoDup_range _) (range_perm _)), list_to_map_to_list. }
  assert (∀ k, k ∈ (range (ResourceFields es)).*1 ↔ is_Some (ResourceFields es !! k)) as Hin.
  { intros k. rewrite list_elem_of_fmap. split.
    - intros ([n x] & -> & Hx%elem_of_range). by exists x.
    - intros [x Hx]. exists (k, x). split; [done|]. by apply elem_of_range. }
  destruct (embed_loop_ok e (range (ResourceFields es)) sc [] true (NoDup_range _))
    as (sc' & emb & del & Hl & He & Hd & Hv & Hid & Hfields).
  { intros [n x] Hx%elem_of_range Hn. apply Hov. split; [done|]. by exists x. }
  rewrite Hl. clear Hl. simpl in He. subst emb.
  assert (∀ k, lifted e es k → ResourceFields sc' !! k = embedded_field e <$> ResourceFields es !! k) as Hlift.
  { intros k [Hn [x Hx]]. rewrite Hfields, Hrange, Hx. simpl. by rewrite decide_False. }
  assert (∀ k, ¬ lifted e es k → ResourceFields sc' !! k = ResourceFields sc !! k) as Hkeep.
  { intros k Hn. rewrite Hfields, Hrange. destruct (ResourceFields es !! k) eqn:Hk; [|done].
    case_decide; [done|]. destruct Hn. split; [done|]. by rewrite Hk. }
  assert (del = true ↔ ¬ lifted e es (EField e)) as Hdel by (rewrite Hd, Hin; unfold lifted; naive_solver).
  eexists _, _. split; [done|]. split_and!.
  - intros k. rewrite list_elem_of_filter, Hin. done.
  - apply NoDup_filter, NoDup_range.
  - intros k Hk. destruct del; [|by apply Hlift]. simpl. rewrite lookup_delete_ne; [by apply Hlift|].
    intros <-. by apply Hdel.
  - intros Hn. destruct del; [simpl; apply lookup_delete_eq|]. by apply Hdel in Hn.
  - intros k Hk Hne. destruct del; [simpl; rewrite lookup_delete_ne by done|]; by apply Hkeep.
Qed.
End SchemaMappers.

Definition outer_schema : Schema :=
  plain_schema "pod" {[ "spec" := typed_field "podSpec"; "name" := typed_field "string" ]}.
Definition spec_schema : Schema := plain_schema "podSpec" {[ "image" := typed_field "string" ]}.
Definition spec_registry : Schemas :=
  default (NewSchemas None) (@AddSchema std_range std_schema_format 1 (NewSchemas None) spec_schema).

Lemma embed_schema_correct_witness :
  ∃ sc' embedded,
    @Embed_ModifySchema std_range (mkEmbed "spec" false true [] false [] false) outer_schema spec_registry
    = (sc', embedded, None) ∧ ResourceFields sc' !! "spec" = None.
Proof.
  destruct (@embed_schema_correct std_range (mkEmbed "spec" false true [] false [] false) outer_schema spec_registry
    (@setupDefaults std_schema_format (NewSchemas None) spec_schema).2 (typed_field "podSpec")) as (sc' & emb & Hm & _ & _ & _ & Hd & _).
  - vm_compute. reflexivity.
  - vm_compute. reflexivity.
  - intros k [_ Hk]. destruct (decide (k = "image")) as [->|Hne]; [vm_compute; reflexivity|].
    change (ResourceFields (@setupDefaults std_schema_format (NewSchemas None) spec_schema).2) with
      ({[ "image" := typed_field "string" ]} : gmap string Field) in Hk.
    rewrite lookup_singleton_ne in Hk by done. by destruct Hk.
  - exists sc', emb. split; [done|]. apply Hd. intros [_ Hk]. vm_compute in Hk. by destruct Hk.
Defined.
