(* ===== verification/Merge.v ===== *)
(** * Merging an update into a stored resource

    Models types/convert/merge/merge.go: how the body of an update request is
    merged into the resource that is stored.  The maps passed in are never
    written to: every function builds a fresh result. *)

From S2P Require Import Prelude GoStrings Values Errors TypeNames Schemas.

Section Merge.
Context `{MapRange}.

Definition isField (k : string) : bool := HasPrefix k "field.cattle.io/".
Definition isProtected (k : string) : bool :=
  negb (negb (Contains k "cattle.io/") || (isField k && negb (bool_decide (k = "field.cattle.io/creatorId")))).

(** copyMap: a fresh map, empty for a nil one. *)
Definition copyMap (src : option obj) : obj :=
  foldl (λ res e, <[e.1 := e.2]> res) ∅ (range (default ∅ src)).

Definition mergeProtected (dest src : option obj) : option obj :=
  match src with
  | None => dest
  | Some srcm =>
      let result := copyMap dest in
      let result := foldl (λ res e, if isProtected e.1 then res else <[e.1 := e.2]> res) result (range srcm) in
      Some (foldl (λ (res : obj) (e : string * value),
                     if isProtected e.1 || isField e.1 then res
                     else match srcm !! e.1 with None => delete e.1 res | Some _ => res end)
              result (range (default ∅ dest)))
  end.

Definition mergeMetadata (dest src : option obj) : obj :=
  let result := copyMap dest in
  let labels := mergeProtected (ToMapInterface (mget dest "labels")) (ToMapInterface (mget src "labels")) in
  let annotations :=
    mergeProtected (ToMapInterface (mget dest "annotations")) (ToMapInterface (mget src "annotations")) in
  <["annotations" := of_map annotations]> (<["labels" := of_map labels]> result).

(** copyMapReplace: on a replace, the fields that may be updated are left out. *)
Definition copyMapReplace (schema : option Schema) (src : option obj) (replace : bool) : obj :=
  foldl (λ res e,
           if match schema with Some sc => replace && Update (field_of sc e.1) | None => false end
           then res else <[e.1 := e.2]> res)
    ∅ (range (default ∅ src)).

Definition isMap (field : string) (schema : option Schema) (schemas : Schemas) : bool :=
  match schema with
  | None => false
  | Some sc =>
      let f := field_of sc field in
      if negb (IsMapType (Type_ f)) then false
      else match Schemas_Schema schemas (Some (Version sc)) (SubType (Type_ f)) with
           | None => true
           | Some _ => false
           end
  end.

(** The internal schema of a schema, when it has one. *)
Definition internal (s : option Schema) : option Schema :=
  s' ← s; match InternalSchema s' with Some i => Some i | None => Some s' end.

Definition getSchema (field parentFieldType : string) (parentSchema schema : option Schema) (schemas : Schemas)
  : string * option Schema :=
  match schema with
  | None =>
      match parentSchema with
      | Some ps =>
          if IsMapType parentFieldType then
            let subType := SubType parentFieldType in
            (subType, internal (Schemas_Schema schemas (Some (Version ps)) subType))
          else ("", None)
      | None => ("", None)
      end
  | Some sc =>
      let fieldType := Type_ (field_of sc field) in
      (fieldType, internal (Schemas_Schema schemas (Some (Version sc)) fieldType))
  end.

(** merge, with the loop of mergeMaps written in it: both recurse into the
    nested maps of [src].  The order of that loop is immaterial, since the turn
    of a key writes that key only. *)
Fixpoint merge (schemas : Schemas) (replace : bool) (src : value)
    (field fieldType : string) (parentSchema schema : option Schema) (dest : value) {struct src} : value :=
  if isMap field schema schemas then src
  else
    let '(fieldType', fieldSchema) := getSchema field fieldType parentSchema schema schemas in
    match src, as_map dest with
    | VNilMap, Some dm => VMap (copyMapReplace fieldSchema dm replace)
    | VMap sm, Some dm =>
        VMap (map_fold (λ k v result,
                <[k := merge schemas replace v k fieldType' schema fieldSchema (mget dm k)]> result)
                (copyMapReplace fieldSchema dm replace) sm)
    | _, _ => src
    end.

Definition mergeMaps (fieldType : string) (parentSchema schema : option Schema) (schemas : Schemas)
    (replace : bool) (dest src : option obj) : obj :=
  map_fold (λ k v result, <[k := merge schemas replace v k fieldType parentSchema schema (mget dest k)]> result)
    (copyMapReplace schema dest replace) (default ∅ src).

Definition UpdateMerge (schema : option Schema) (schemas : Schemas) (dest src : option obj) (replace : bool) : obj :=
  mergeMaps "" None schema schemas replace dest src.

Definition APIUpdateMerge (schema : option Schema) (schemas : Schemas) (dest src : option obj) (replace : bool) : obj :=
  let result := UpdateMerge schema schemas dest src replace in
  let result := match mlookup dest "status" with Some s => <["status" := s]> result | None => result end in
  match mlookup dest "metadata" with
  | Some m => <["metadata" := VMap (mergeMetadata (ToMapInterface m) (ToMapInterface (mget src "metadata")))]> result
  | None => result
  end.

(** ** Lookups *)
Lemma default_lookup (src : option obj) k : default ∅ src !! k = mlookup src k.
Proof. destruct src; simpl; by rewrite ?lookup_empty. Qed.

Lemma copyMap_id src : copyMap src = default ∅ src.
Proof.
  apply map_eq. intros k. unfold copyMap.
  etrans; [exact (range_insert_unless (λ _ _, false) (λ _ v, v) (default ∅ src) ∅ k)|].
  rewrite lookup_empty. by destruct (default ∅ src !! k).
Qed.

Lemma copyMapReplace_lookup schema src replace k :
  copyMapReplace schema src replace !! k
  = match schema with
    | Some sc => if replace && Update (field_of sc k) then None else mlookup src k
    | None => mlookup src k
    end.
Proof.
  etrans; [exact (range_insert_unless
    (λ k' _, match schema with Some sc => replace && Update (field_of sc k') | None => false end)
    (λ _ v, v) (default ∅ src) ∅ k)|].
  rewrite default_lookup, lookup_empty. destruct (mlookup src k), schema as [sc|]; try done.
  by destruct (replace && Update (field_of sc k)).
Qed.

Lemma map_fold_insert_lookup (f : string → value → value) (b m : obj) k :
  map_fold (λ k v r, <[k := f k v]> r) b m !! k = match m !! k with Some v => Some (f k v) | None => b !! k end.
Proof.
  apply (map_fold_weak_ind (λ r m, r !! k = match m !! k with Some v => Some (f k v) | None => b !! k end)).
  - by rewrite lookup_empty.
  - intros i x m' r Hi IH. rewrite !lookup_insert. by case_decide; subst.
Qed.

Lemma mergeMaps_lookup fieldType parent schema schemas replace dest src k :
  mergeMaps fieldType parent schema schemas replace dest src !! k
  = match mlookup src k with
    | Some v => Some (merge schemas replace v k fieldType parent schema (mget dest k))
    | None => copyMapReplace schema dest replace !! k
    end.
Proof.
  unfold mergeMaps.
  etrans; [exact (map_fold_insert_lookup
    (λ k v, merge schemas replace v k fieldType parent schema (mget dest k)) _ _ k)|].
  destruct src as [src|]; simpl; [done|]. by rewrite lookup_empty.
Qed.

Lemma merge_eq schemas replace src field fieldType parent schema dest :
  merge schemas replace src field fieldType parent schema dest
  = if isMap field schema schemas then src
    else match as_map src, as_map dest with
         | Some sm, Some dm =>
             VMap (mergeMaps (getSchema field fieldType parent schema schemas).1 schema
                     (getSchema field fieldType parent schema schemas).2 schemas replace dm sm)
         | _, _ => src
         end.
Proof.
  destruct src; simpl; destruct (isMap field schema schemas); try done;
    destruct (getSchema field fieldType parent schema schemas); try done;
    destruct (as_map dest) as [dm|]; try done.
Qed.

Lemma mergeProtected_lookup dest src k :
  mlookup (mergeProtected dest (Some src)) k
  = if isProtected k then mlookup dest k
    else if isField k then match src !! k with Some v => Some v | None => mlookup dest k end
    else src !! k.
Proof.
  unfold mergeProtected. simpl. rewrite copyMap_id.
  set (r1 := foldl _ _ (range src)).
  assert (r1 !! k = match src !! k with
                    | Some v => if isProtected k then mlookup dest k else Some v
                    | None => mlookup dest k end) as Hr1.
  { etrans; [exact (range_insert_unless (λ j _, isProtected j) (λ _ v, v) src (default ∅ dest) k)|].
    by rewrite default_lookup. }
  rewrite (foldl_ext _ (λ res e, if negb (isProtected e.1 || isField e.1) && bool_decide (src !! e.1 = None)
                                 then delete e.1 res else res)).
  2:{ intros acc e. destruct (isProtected e.1 || isField e.1); simpl; [done|]. by destruct (src !! e.1). }
  etrans; [exact (range_delete_lookup
    (λ j _, negb (isProtected j || isField j) && bool_decide (src !! j = None)) (default ∅ dest) r1 k)|].
  rewrite Hr1, default_lookup.
  destruct (src !! k) as [v|] eqn:Hs; destruct (mlookup dest k) as [w|] eqn:Hd;
    destruct (isProtected k), (isField k); done.
Qed.

Lemma merge_same schemas replace v field fieldType parent schema :
  no_nil_map v = true → merge schemas replace v field fieldType parent schema v = v.
Proof.
  revert field fieldType parent schema.
  induction v as [v Hv|m IH] using map_nesting_ind; intros field fieldType parent schema Hn; rewrite merge_eq.
  - destruct (isMap _ _ _); [done|]. destruct v; try done. by destruct (Hv m).
  - destruct (isMap _ _ _); [done|]. simpl. f_equal. apply map_eq. intros k.
    rewrite mergeMaps_lookup. simpl. unfold mget. simpl. destruct (m !! k) as [v|] eqn:Hk; simpl.
    + f_equal. apply (IH k v Hk). by eapply no_nil_map_lookup.
    + rewrite copyMapReplace_lookup. simpl. rewrite Hk. by destruct (getSchema _ _ _ _ _).2 as [sc|]; [destruct (_ && _)|].
Qed.

(** Updating a resource with its own content changes nothing, with or
    without replace, whatever the schema says of its fields: the merge is
    idempotent through every level of nested maps. *)
Theorem update_merge_self schema schemas (m : obj) replace :
  no_nil_map (VMap m) = true → UpdateMerge schema schemas (Some m) (Some m) replace = m.
Proof.
  intros Hn. apply map_eq. intros k. unfold UpdateMerge. rewrite mergeMaps_lookup. unfold mget. simpl.
  destruct (m !! k) as [v|] eqn:Hk; simpl.
  - f_equal. apply merge_same. by eapply no_nil_map_lookup.
  - rewrite copyMapReplace_lookup. simpl. rewrite Hk. by destruct schema as [sc|]; [destruct (_ && _)|].
Qed.

(** The labels or annotations that an update leaves in the metadata. *)
Definition metadata_part (m : option obj) (part : string) : option obj := ToMapInterface (mget m part).

Lemma mergeMetadata_part dest src part :
  part = "labels" ∨ part = "annotations" →
  metadata_part (Some (mergeMetadata dest src)) part
  = mergeProtected (metadata_part dest part) (metadata_part src part).
Proof.
  assert (∀ d : option obj, ToMapInterface (of_map d) = d) as Hof by by intros [].
  unfold metadata_part, mergeMetadata, mget. simpl. intros [-> | ->].
  - rewrite lookup_insert_ne, lookup_insert_eq by done. apply Hof.
  - rewrite lookup_insert_eq. apply Hof.
Qed.

(** C7: what an API update may change.  The status of a stored resource stays
    as it is.  Its metadata stays as it is but for labels and annotations; of
    those, the protected keys (the ones of cattle.io, creatorId included) are
    neither added, changed nor removed, a field.cattle.io key is taken from the
    update or else kept, and any other key is what the update says, when it
    sends that map at all.  Every other field is merged if the update has it and
    otherwise kept, unless the request replaces the resource and the schema
    allows updates of the field. *)
Theorem api_update_merge_correct schema schemas dest src replace :
  let result := APIUpdateMerge schema schemas dest src replace in
  (∀ s, mlookup dest "status" = Some s → result !! "status" = Some s) ∧
  (∀ m, mlookup dest "metadata" = Some m → ∃ meta, result !! "metadata" = Some (VMap meta) ∧
     (∀ k, k ≠ "labels" → k ≠ "annotations" → meta !! k = mlookup (ToMapInterface m) k) ∧
     (∀ part, part = "labels" ∨ part = "annotations" →
        let stored := metadata_part (ToMapInterface m) part in
        match metadata_part (ToMapInterface (mget src "metadata")) part with
        | None => metadata_part (Some meta) part = stored
        | Some sent => ∀ k, mlookup (metadata_part (Some meta) part) k
            = if isProtected k then mlookup stored k
              else if isField k then match sent !! k with Some v => Some v | None => mlookup stored k end
              else sent !! k
        end)) ∧
  (∀ k, k ≠ "status" → k ≠ "metadata" →
     result !! k = match mlookup src k with
                   | Some v => Some (merge schemas replace v k "" None schema (mget dest k))
                   | None => match schema with
                             | Some sc => if replace && Update (field_of sc k) then None else mlookup dest k
                             | None => mlookup dest k
                             end
                   end).
Proof.
  intros result. unfold result, APIUpdateMerge. clear result. split_and!.
  - intros s ->. destruct (mlookup dest "metadata"); [rewrite lookup_insert_ne by done|]; apply lookup_insert_eq.
  - intros m ->. eexists. split; [apply lookup_insert_eq|]. split.
    + intros k H1 H2. unfold mergeMetadata. rewrite !lookup_insert_ne, copyMap_id by done. apply default_lookup.
    + intros part Hp. simpl. rewrite mergeMetadata_part by done.
      destruct (metadata_part (ToMapInterface (mget src "metadata")) part) as [sent|]; [|done].
      intros k. apply mergeProtected_lookup.
  - intros k H1 H2.
    assert (UpdateMerge schema schemas dest src replace !! k = match mlookup src k with
      | Some v => Some (merge schemas replace v k "" None schema (mget dest k))
      | None => match schema with
                | Some sc => if replace && Update (field_of sc k) then None else mlookup dest k
                | None => mlookup dest k end end) as Hu.
    { unfold UpdateMerge. rewrite mergeMaps_lookup. destruct (mlookup src k); [done|]. apply copyMapReplace_lookup. }
    destruct (mlookup dest "metadata"); [rewrite lookup_insert_ne by done|];
      (destruct (mlookup dest "status"); [rewrite lookup_insert_ne by done|]; exact Hu).
Qed.
End Merge.

Definition stored_pod : obj :=
  {[ "metadata" := VMap {[ "labels" := VMap {[ "cattle.io/creator" := VStr "norman"; "app" := VStr "web" ]} ]};
     "spec" := VMap {[ "replicas" := VInt64 1 ]} ]}.

Lemma update_merge_self_witness :
  @UpdateMerge std_range None (NewSchemas None) (Some stored_pod) (Some stored_pod) true = stored_pod.
Proof. apply (@update_merge_self std_range). by vm_compute. Defined.

(** A client that tries to take over a protected label and drops its own one. *)
Lemma api_update_merge_correct_witness :
  let sent : obj := {[ "metadata" := VMap {[ "labels" := VMap {[ "cattle.io/creator" := VStr "me" ]} ]} ]} in
  ∃ meta, @APIUpdateMerge std_range None (NewSchemas None) (Some stored_pod) (Some sent) true !! "metadata" = Some (VMap meta) ∧
    mlookup (metadata_part (Some meta) "labels") "cattle.io/creator" = Some (VStr "norman") ∧
    mlookup (metadata_part (Some meta) "labels") "app" = None.
Proof.
  intros sent.
  destruct (@api_update_merge_correct std_range None (NewSchemas None) (Some stored_pod) (Some sent) true) as (_ & Hm & _).
  destruct (Hm (default VNil (stored_pod !! "metadata"))) as (meta & Hr & _ & Hp); [vm_compute; reflexivity|].
  exists meta. split; [exact Hr|]. specialize (Hp "labels" (or_introl eq_refl)).
  change (metadata_part (ToMapInterface (mget (Some sent) "metadata")) "labels")
    with (Some ({[ "cattle.io/creator" := VStr "me" ]} : obj)) in Hp. cbv beta iota zeta in Hp.
  rewrite !Hp. split; vm_compute; reflexivity.
Defined.

(** A nil map in the update is not kept: it comes back as an empty map. *)
Example merge_nil_map :
  @UpdateMerge std_range None (NewSchemas None) (Some {[ "a" := VNilMap ]}) (Some {[ "a" := VNilMap ]}) false
  = {[ "a" := VMap ∅ ]}.
Proof. by vm_compute. Qed.
