(* ===== verification/Query.v ===== *)
(** * Queries on collections

    Models types/condition.go, api/handler/query.go and parse/collection.go: the
    filter, sort and paging parameters of a list request, how they are parsed
    and how they are applied to the items of a collection. *)

From S2P Require Import Prelude GoStrings Values Convert Schemas.
From stdpp Require Import sorting.
Local Open Scope Z_scope.

(** ** types/condition.go *)
Inductive QueryConditionType := CondEQ | CondNE | CondNull | CondNotNull | CondIn | CondNotIn | CondOr | CondAnd.
#[export] Instance QueryConditionType_eq_dec : EqDecision QueryConditionType.
Proof. solve_decision. Defined.

Definition cond_name (c : QueryConditionType) : string :=
  match c with
  | CondEQ => "eq" | CondNE => "ne" | CondNull => "null" | CondNotNull => "notnull"
  | CondIn => "in" | CondNotIn => "notin" | CondOr => "or" | CondAnd => "and"
  end.
Definition cond_args (c : QueryConditionType) : Z :=
  match c with CondNull | CondNotNull => 0 | CondIn | CondNotIn => -1 | _ => 1 end.
Definition all_mods : list QueryConditionType :=
  [CondEQ; CondNE; CondNull; CondNotNull; CondIn; CondNotIn; CondOr; CondAnd].
(** [mods]: the condition type of a modifier. *)
Definition mods (md : string) : option QueryConditionType :=
  snd <$> list_find (λ c, cond_name c = md) all_mods.
Definition ValidMod (md : string) : bool := bool_decide (is_Some (mods md)).

(** The zero condition type, of an unknown modifier, is [None]. *)
Inductive QueryCondition := mkCondition {
  QField : string;
  QValue : string;
  QValues : gset string;
  conditionType : option QueryConditionType;
  left : option QueryCondition;
  right : option QueryCondition
}.

Section Query.
Context `{GoFormat}.

Definition valueOrDefault (schema : Schema) (data : option obj) (field : string) : value :=
  match mget data field with
  | VNil => Default (field_of schema field)
  | v => v
  end.

Fixpoint Valid (q : QueryCondition) (schema : Schema) (data : option obj) : bool :=
  let v := ToString (valueOrDefault schema data (QField q)) in
  match conditionType q with
  | Some CondAnd =>
      match left q, right q with
      | Some l, Some r => Valid l schema data && Valid r schema data
      | _, _ => false
      end
  | Some CondOr =>
      match left q, right q with
      | Some l, Some r => Valid l schema data || Valid r schema data
      | _, _ => false
      end
  | Some CondEQ => bool_decide (QValue q = v)
  | Some CondNE => negb (bool_decide (QValue q = v))
  | Some CondIn => bool_decide (v ∈ QValues q)
  | Some CondNotIn => negb (bool_decide (v ∈ QValues q))
  | Some CondNotNull => negb (bool_decide (v = ""))
  | Some CondNull => bool_decide (v = "")
  | None => false
  end.

Definition NewConditionFromString (field md : string) (values : list string) : QueryCondition :=
  mkCondition field (default "" (head values)) (list_to_set values) (mods md) None None.
Definition EQ (key value : string) : QueryCondition := NewConditionFromString key "eq" [value].

(** ToCondition: the echo of a condition in a response; [FValues] in an
    unspecified order. *)
Inductive filter_value := FNone | FValue (s : string) | FValues (l : list string).
Record FilterCondition := mkFilter { Modifier : string; FilterValue : filter_value }.
Definition ToCondition `{MapRange} (q : QueryCondition) : FilterCondition :=
  mkFilter (match conditionType q with Some c => cond_name c | None => "" end)
    (match conditionType q with
     | Some c => if cond_args c =? 1 then FValue (QValue q)
                 else if cond_args c =? -1 then FValues (range (gset_to_gmap true (QValues q))).*1 else FNone
     | None => FNone
     end).

(** ** parse/collection.go

    [query] is the url.Values of the request. *)
Definition Values := gmap string (list string).
Definition query_get (query : Values) (key : string) : string := default "" (query !! key ≫= head).

(** [NoOrder] is the empty string of a sort that was not parsed. *)
Inductive SortOrder := ASC | DESC | NoOrder.
Record Sort := mkSort { SName : string; Order : SortOrder }.
Definition parseOrder (query : Values) : SortOrder := if decide (query_get query "order" = "desc") then DESC else ASC.
Definition parseSort (schema : Schema) (query : Values) : Sort :=
  let sortField := query_get query "sort" in
  mkSort (match CollectionFilters schema !! sortField with Some _ => sortField | None => "" end) (parseOrder query).

Record Pagination := mkPagination {
  Marker : string; First : string; Previous : string; Next : string; Last : string;
  Limit : option Z; Total : option Z; Partial : bool
}.
Definition defaultLimit : Z := 1000.
Definition maxLimit : Z := 10000.

Definition parsePagination (context : option Pagination) (query : Values) : Pagination :=
  match context with
  | Some p => p
  | None =>
      let limit := query_get query "limit" in
      let page l := mkPagination (query_get query "marker") "" "" "" "" (Some l) None false in
      if decide (limit = "") then page defaultLimit
      else match ParseInt limit with
           | None => page defaultLimit
           | Some n => if (maxLimit <? n) || (n =? -1) then page maxLimit
                       else if 0 <=? n then page n else page defaultLimit
           end
  end.

Definition parseNameAndOp (value : string) : string * string :=
  match LastIndex value "_" with
  | Some (S i) => (str_take (S i) value, str_drop (S (S i)) value)
  | _ => (value, "eq")
  end.

Definition parseFilters `{MapRange} (schema : Schema) (query : Values) : list QueryCondition :=
  foldl (λ conditions (e : string * list string),
           let '(name, op) := parseNameAndOp e.1 in
           match CollectionFilters schema !! name with
           | None => conditions
           | Some modifiers =>
               foldl (λ conditions md,
                        if negb (bool_decide (op = md)) || negb (ValidMod op) then conditions
                        else conditions ++ [NewConditionFromString name md e.2])
                 conditions modifiers
           end) [] (range query).

Record QueryOptions := mkQueryOptions {
  QSort : Sort;
  QPagination : option Pagination;
  QConditions : list QueryCondition;
  QOptions : gmap string string;
  QNamespaces : option (list string)        (* None: nil; an empty list asks for nothing *)
}.
Definition zero_options : QueryOptions := mkQueryOptions (mkSort "" NoOrder) None [] ∅ None.
Definition set_conditions (o : QueryOptions) (l : list QueryCondition) : QueryOptions :=
  mkQueryOptions (QSort o) (QPagination o) l (QOptions o) (QNamespaces o).
Definition set_options_pagination (o : QueryOptions) (p : option Pagination) : QueryOptions :=
  mkQueryOptions (QSort o) p (QConditions o) (QOptions o) (QNamespaces o).

Definition parse_QueryOptions `{MapRange} (method : string) (context : option Pagination) (schema : Schema) (query : Values)
  : QueryOptions :=
  if decide (method = "GET") then
    mkQueryOptions (parseSort schema query) (Some (parsePagination context query)) (parseFilters schema query) ∅ None
  else zero_options.

(** ** api/handler/query.go *)
Definition ApplyQueryConditions (conditions : list QueryCondition) (schema : Schema) (data : list (option obj))
  : list (option obj) :=
  filter (λ item, forallb (λ c, Valid c schema item) conditions = true) data.

(** The key a collection is sorted by; [less] as ApplySort passes it to sort.Slice. *)
Definition sort_key (sortOpts : Sort) (item : option obj) : string :=
  ToString (mget item (if decide (SName sortOpts = "") then "id" else SName sortOpts)).
Definition less (sortOpts : Sort) (x y : option obj) : bool :=
  match Order sortOpts with
  | DESC => str_lt (sort_key sortOpts y) (sort_key sortOpts x)
  | ASC | NoOrder => str_lt (sort_key sortOpts x) (sort_key sortOpts y)
  end.
End Query.

(** sort.Slice leaves a permutation in which no item is less than an earlier
    one; the order of items that compare equal is not specified. *)
Class SortSlice := {
  sort_slice : ∀ {A}, (A → A → bool) → list A → list A;
  sort_slice_perm : ∀ {A} (lt : A → A → bool) l, sort_slice lt l ≡ₚ l;
  sort_slice_sorted : ∀ {A} (lt : A → A → bool) l,
    (∀ x y z, lt y x = false → lt z y = false → lt z x = false) →
    (∀ x y, lt y x = false ∨ lt x y = false) →
    StronglySorted (λ x y, lt y x = false) (sort_slice lt l)
}.

Definition id_of (item : option obj) : string := as_string (mget item "id").

Section Apply.
Context `{GoFormat} `{SortSlice}.

Definition ApplySort (sortOpts : Sort) (data : list (option obj)) : list (option obj) :=
  sort_slice (less sortOpts) data.

(** The index of the item the page starts at. *)
Definition start_index (marker : string) (data : list (option obj)) : nat :=
  if decide (marker = "") then 0%nat
  else default 0%nat (fst <$> list_find (λ item, id_of item = marker) data).

(** ApplyPagination: [data[i]["id"]] with an index out of range, and a slice
    whose bounds are out of range, panic.  [Last] is not among the fields that
    are reset. *)
Definition id_at (data : list (option obj)) (i : Z) : go string :=
  if i <? 0 then Panic else match data !! Z.to_nat i with Some item => Ret (id_of item) | None => Panic end.
Definition slice (data : list (option obj)) (from to : Z) : go (list (option obj)) :=
  if (0 <=? from) && (from <=? to) && (to <=? Z.of_nat (length data))
  then Ret (take (Z.to_nat (to - from)) (drop (Z.to_nat from) data)) else Panic.

Definition ApplyPagination (pagination : option Pagination) (data : list (option obj))
  : go (option Pagination * list (option obj)) :=
  match pagination with
  | None => Ret (None, data)
  | Some p =>
    match Limit p with
    | None => Ret (Some p, data)
    | Some l =>
      let limit := if l <? 0 then 0 else l in
      let total := Z.of_nat (length data) in
      let page first prev next last partial :=
        Some (mkPagination (Marker p) first prev next last (Limit p) (Some total) partial) in
      if decide (length data = 0%nat) then Ret (page "" "" "" (Last p) false, data)
      else
        let startIndex := Z.of_nat (start_index (Marker p) data) in
        let previousIndex := if wrap64 (startIndex - limit) <=? 0 then 0 else wrap64 (startIndex - limit) in
        let nextIndex := if total <? wrap64 (startIndex + limit) then total else wrap64 (startIndex + limit) in
        prev ← if previousIndex <? startIndex then id_at data previousIndex else Ret "";
        next ← if (startIndex <? nextIndex) && (nextIndex <? total) then id_at data nextIndex else Ret "";
        let partial := (0 <? startIndex) || (nextIndex <? total) in
        first ← if partial then id_at data 0 else Ret "";
        let lastIndex := wrap64 (total - limit) in
        last ← if partial && (0 <? lastIndex) && (lastIndex <? total) then id_at data lastIndex else Ret (Last p);
        items ← slice data startIndex nextIndex;
        Ret (page first prev next last partial, items)
    end
  end.

Definition ApplyQueryOptions (options : QueryOptions) (schema : Schema) (data : list (option obj))
  : go (option Pagination * list (option obj)) :=
  ApplyPagination (QPagination options) (ApplySort (QSort options) (ApplyQueryConditions (QConditions options) schema data)).

(** ** Paging *)
Lemma start_index_lt marker data : data ≠ [] → (start_index marker data < length data)%nat.
Proof.
  intros Hne. assert (0 < length data)%nat by (destruct data; simpl; [done|lia]).
  unfold start_index. case_decide; [done|]. destruct (list_find _ data) as [[i x]|] eqn:Hf; simpl; [|done].
  apply list_find_Some in Hf as (Hi & _). by apply lookup_lt_Some in Hi.
Qed.

Lemma id_at_lookup data i : (i < length data)%nat →
  ∃ x, data !! i = Some x ∧ id_at data (Z.of_nat i) = Ret (id_of x).
Proof.
  intros Hi. destruct (lookup_lt_is_Some_2 data i Hi) as [x Hx]. exists x. split; [done|].
  unfold id_at. rewrite (proj2 (Z.ltb_ge _ _)) by lia. by rewrite Nat2Z.id, Hx.
Qed.

(** The id at an index, as text; empty out of range. *)
Definition id_nth (data : list (option obj)) (i : nat) : string := default "" (id_of <$> data !! i).

Lemma id_at_nth data i : (i < length data)%nat → id_at data (Z.of_nat i) = Ret (id_nth data i).
Proof.
  intros Hi. destruct (id_at_lookup data i Hi) as (x & Hx & ->). unfold id_nth. by rewrite Hx.
Qed.

Lemma slice_ok data (from to : nat) : (from ≤ to ≤ length data)%nat →
  slice data (Z.of_nat from) (Z.of_nat to) = Ret (take (to - from) (drop from data)).
Proof.
  intros Hft. unfold slice.
  rewrite (proj2 (Z.leb_le 0 _)), (proj2 (Z.leb_le (Z.of_nat from) _)), (proj2 (Z.leb_le (Z.of_nat to) _)) by lia.
  simpl. by rewrite <- Nat2Z.inj_sub, !Nat2Z.id by lia.
Qed.

Lemma id_at_if data (b : bool) i : (b = true → (i < length data)%nat) →
  (if b then id_at data (Z.of_nat i) else Ret "") = Ret (if b then id_nth data i else "").
Proof. destruct b; intros Hi; [|done]. apply id_at_nth. by apply Hi. Qed.

Lemma Zltb_nat (a b : nat) : (Z.of_nat a <? Z.of_nat b) = (a <? b)%nat.
Proof. destruct (Z.ltb_spec (Z.of_nat a) (Z.of_nat b)), (Nat.ltb_spec a b); lia || done. Qed.

Lemma take_min {A} (l : list A) start n : (start ≤ length l)%nat →
  take (Nat.min (start + n) (length l) - start) (drop start l) = take n (drop start l).
Proof.
  intros Hs. destruct (decide (start + n ≤ length l)%nat); [by f_equal; lia|].
  rewrite !take_ge; [done| |]; rewrite length_drop; lia.
Qed.

Lemma apply_pagination_eval p l data :
  Limit p = Some (Z.of_nat l) → Z.of_nat l + Z.of_nat (length data) ≤ int64_max → data ≠ [] →
  let start := start_index (Marker p) data in
  let len := length data in
  let next := Nat.min (start + l) len in
  let partial := negb (start =? 0)%nat || (next <? len)%nat in
  ApplyPagination (Some p) data
  = Ret (Some (mkPagination (Marker p)
                (if partial then id_nth data 0 else "")
                (if ((start - l) <? start)%nat then id_nth data (start - l) else "")
                (if (start <? next)%nat && (next <? len)%nat then id_nth data next else "")
                (if partial && (l <? len)%nat && (0 <? l)%nat then id_nth data (len - l) else Last p)
                (Limit p) (Some (Z.of_nat len)) partial),
         take l (drop start data)).
Proof.
  intros Hl Hb Hne start len next partial. pose proof (start_index_lt (Marker p) data Hne) as Hs.
  fold start in Hs. fold len in Hs, Hb. unfold ApplyPagination. rewrite Hl. fold start len.
  rewrite (proj2 (Z.ltb_ge (Z.of_nat l) 0)) by lia.
  rewrite decide_False by (fold len; lia).
  assert (∀ z, - int64_max ≤ z ≤ int64_max → wrap64 z = z) as Hw
    by (intros z Hz; apply wrap64_id, in_int64_spec; unfold int64_min, int64_max in *; lia).
  rewrite !Hw by lia.
  replace (if Z.of_nat start - Z.of_nat l <=? 0 then 0 else Z.of_nat start - Z.of_nat l)
    with (Z.of_nat (start - l)) by (destruct (Z.leb_spec (Z.of_nat start - Z.of_nat l) 0); lia).
  replace (if Z.of_nat len <? Z.of_nat start + Z.of_nat l then Z.of_nat len else Z.of_nat start + Z.of_nat l)
    with (Z.of_nat next) by (unfold next; destruct (Z.ltb_spec (Z.of_nat len) (Z.of_nat start + Z.of_nat l)); lia).
  rewrite !Zltb_nat.
  replace (0 <? Z.of_nat start) with (negb (start =? 0)%nat)
    by (destruct (Z.ltb_spec 0 (Z.of_nat start)), (Nat.eqb_spec start 0); simpl; lia || done).
  fold partial.
  replace (0 <? Z.of_nat len - Z.of_nat l) with (l <? len)%nat
    by (destruct (Z.ltb_spec 0 (Z.of_nat len - Z.of_nat l)), (Nat.ltb_spec l len); lia || done).
  replace (Z.of_nat len - Z.of_nat l <? Z.of_nat len) with (0 <? l)%nat
    by (destruct (Z.ltb_spec (Z.of_nat len - Z.of_nat l) (Z.of_nat len)), (Nat.ltb_spec 0 l); lia || done).
  rewrite (id_at_if _ _ (start - l)%nat) by (intros _; fold len; lia). cbn [mbind go_bind].
  rewrite (id_at_if _ _ next) by (rewrite andb_true_iff, !Nat.ltb_lt; intros []; done).
  cbn [mbind go_bind]. change 0 with (Z.of_nat 0) at 1.
  rewrite (id_at_if _ partial 0%nat) by (intros _; fold len; lia). cbn [mbind go_bind].
  rewrite slice_ok by (fold len; lia). rewrite (take_min data start l : (start ≤ length data)%nat → take (next - start) _ = _) by (fold len; lia).
  destruct (partial && (l <? len)%nat && (0 <? l)%nat) eqn:Hlast; [|done].
  apply andb_prop in Hlast as [[_ H1%Nat.ltb_lt]%andb_prop H2%Nat.ltb_lt].
  rewrite <- Nat2Z.inj_sub, id_at_nth by (fold len; lia). done.
Qed.

(** A page of a collection.  With a limit the sums stay in int64, paging
    does not panic: it returns the items from the marked one (or the first, when
    the marker is empty or unknown) up to the limit; Total counts all of them;
    Partial says exactly whether some were left out; and Next, when the limit is
    positive, is the id of the item that follows the page, if there is one. *)
Theorem apply_pagination_correct p l data :
  Limit p = Some (Z.of_nat l) → Z.of_nat l + Z.of_nat (length data) ≤ int64_max → data ≠ [] →
  ∃ p' page, ApplyPagination (Some p) data = Ret (Some p', page) ∧
    page = take l (drop (start_index (Marker p) data) data) ∧
    Total p' = Some (Z.of_nat (length data)) ∧
    (Partial p' = true ↔ page ≠ data) ∧
    ((0 < l)%nat → Next p' = default "" (id_of <$> data !! (start_index (Marker p) data + l)%nat)).
Proof.
  intros Hl Hb Hne. pose proof (start_index_lt (Marker p) data Hne) as Hs.
  rewrite (apply_pagination_eval p l data Hl Hb Hne). eexists _, _. split; [done|]. split; [done|]. simpl.
  set (start := start_index (Marker p) data) in *. split; [done|]. split.
  - assert (take l (drop start data) = data ↔ start = 0%nat ∧ (length data ≤ l)%nat) as ->.
    { split.
      - intros Heq. apply (f_equal length) in Heq. rewrite length_take, length_drop in Heq. lia.
      - intros [-> Hlen]. by rewrite drop_0, take_ge. }
    rewrite orb_true_iff, negb_true_iff, Nat.eqb_neq, Nat.ltb_lt. lia.
  - intros Hl0. destruct (decide (start + l < length data)%nat) as [Hlt|Hge].
    + rewrite Nat.min_l by lia. rewrite (proj2 (Nat.ltb_lt start _)), (proj2 (Nat.ltb_lt (start + l) _)) by lia. done.
    + rewrite Nat.min_r by lia. rewrite Nat.ltb_irrefl, andb_false_r.
      by rewrite lookup_ge_None_2 by lia.
Qed.

(** A client that follows Next until it is empty. *)
Definition with_marker (p : Pagination) (marker : string) : Pagination :=
  mkPagination marker (First p) (Previous p) (Next p) (Last p) (Limit p) (Total p) (Partial p).
Fixpoint all_pages (fuel : nat) (p : Pagination) (data : list (option obj)) : go (list (option obj)) :=
  match fuel with
  | O => Ret []
  | S fuel' =>
      '(p', page) ← ApplyPagination (Some p) data;
      match p' with
      | Some p' => if decide (Next p' = "") then Ret page
                   else rest ← all_pages fuel' (with_marker p (Next p')) data; Ret (page ++ rest)
      | None => Ret page
      end
  end.

Lemma start_index_at data i x :
  NoDup (id_of <$> data) → data !! i = Some x → id_of x ≠ "" → start_index (id_of x) data = i.
Proof.
  intros Hnd Hi Hx. unfold start_index. rewrite decide_False by done.
  assert (list_find (λ item, id_of item = id_of x) data = Some (i, x)) as ->; [|done].
  apply list_find_Some. split_and!; [done|done|]. intros j y Hj Hlt Heq.
  assert (j = i); [|lia]. apply (NoDup_lookup (id_of <$> data) j i (id_of x) Hnd);
    rewrite list_lookup_fmap; [rewrite Hj|rewrite Hi]; simpl; congruence.
Qed.

Lemma all_pages_from fuel p l data i :
  Limit p = Some (Z.of_nat l) → (0 < l)%nat → Z.of_nat l + Z.of_nat (length data) ≤ int64_max →
  NoDup (id_of <$> data) → Forall (λ x, id_of x ≠ "") data →
  start_index (Marker p) data = i → (i < length data)%nat → (length data - i ≤ fuel)%nat →
  all_pages fuel p data = Ret (drop i data).
Proof.
  revert p i. induction fuel as [|fuel IH]; intros p i Hl Hl0 Hb Hnd Hids Hi Hlt Hfuel; [lia|].
  cbn [all_pages]. rewrite (apply_pagination_eval p l data Hl Hb) by (by intros ->; simpl in *; lia).
  cbn [mbind go_bind Next]. rewrite Hi.
  destruct (decide (i + l < length data)%nat) as [Hmore|Hend].
  - rewrite Nat.min_l by lia. rewrite (proj2 (Nat.ltb_lt i _)), (proj2 (Nat.ltb_lt (i + l) _)) by lia.
    destruct (lookup_lt_is_Some_2 data (i + l)%nat Hmore) as [x Hx].
    assert (id_of x ≠ "") as Hxid by (rewrite Forall_forall in Hids; apply Hids; by eapply list_elem_of_lookup_2).
    simpl. unfold id_nth. rewrite Hx. simpl. rewrite decide_False by done.
    rewrite (IH (with_marker p (id_of x)) (i + l)%nat); try done; [|by apply start_index_at|lia].
    simpl. rewrite <- drop_drop. by rewrite take_drop.
  - rewrite Nat.min_r by lia. rewrite Nat.ltb_irrefl, andb_false_r. rewrite decide_True by done.
    rewrite take_ge; [done|]. rewrite length_drop. lia.
Qed.

Lemma less_order sortOpts :
  (∀ x y z, less sortOpts y x = false → less sortOpts z y = false → less sortOpts z x = false) ∧
  (∀ x y, less sortOpts y x = false ∨ less sortOpts x y = false).
Proof.
  unfold less. destruct (Order sortOpts); split; intros; solve [by eapply str_le_trans|apply str_lt_asym].
Qed.

(** The items a list request is answered from. *)
Definition query_items (options : QueryOptions) (schema : Schema) (data : list (option obj)) : list (option obj) :=
  ApplySort (QSort options) (ApplyQueryConditions (QConditions options) schema data).

(** C13: a client that starts without a marker and follows Next gets, in a number
    of requests bounded by the number of items, every item that satisfies the
    conditions exactly once, in the requested order: the pages of a query cover
    its result.  The items have distinct, non-empty ids and the limit is
    positive. *)
Theorem pages_cover_query options schema data p l :
  Limit p = Some (Z.of_nat l) → (0 < l)%nat → Marker p = "" →
  Z.of_nat l + Z.of_nat (length data) ≤ int64_max →
  NoDup (id_of <$> data) → Forall (λ x, id_of x ≠ "") data →
  let items := query_items options schema data in
  all_pages (S (length data)) p items = Ret items ∧
  items ≡ₚ filter (λ item, forallb (λ c, Valid c schema item) (QConditions options) = true) data ∧
  StronglySorted (λ x y, less (QSort options) y x = false) items.
Proof.
  intros Hl Hl0 Hm Hb Hnd Hids items.
  set (matching := filter (λ item, forallb (λ c, Valid c schema item) (QConditions options) = true) data).
  assert (items ≡ₚ matching) as Hperm by apply sort_slice_perm.
  assert (matching `sublist_of` data) as Hsub by apply sublist_filter.
  split; [|split; [done|]].
  2:{ apply sort_slice_sorted; apply less_order. }
  assert (length items ≤ length data)%nat as Hlen by (rewrite Hperm; by apply sublist_length).
  destruct (decide (items = [])) as [->|Hne].
  { cbn [all_pages]. unfold ApplyPagination. by rewrite Hl. }
  rewrite (all_pages_from (S (length data)) p l items 0); try done.
  - lia.
  - rewrite Hperm. eapply sublist_NoDup; [exact Hnd|]. by apply fmap_sublist.
  - rewrite Hperm. rewrite Forall_forall in *. intros x Hx. apply Hids. by eapply elem_of_sublist.
  - unfold start_index. by rewrite Hm.
  - destruct items; simpl; [done|lia].
  - lia.
Qed.

(** The parameters of a list request are harmless: whatever query a client
    sends, the limit that is parsed lies between 0 and 10000, and filtering,
    sorting and paging a collection with it does not panic. *)
Theorem parsed_query_returns `{MapRange} method schema (query : Values) data :
  Z.of_nat (length data) ≤ 2 ^ 62 →
  (∀ l, Limit (parsePagination None query) = Some l → 0 ≤ l ≤ 10000) ∧
  returns (ApplyQueryOptions (parse_QueryOptions method None schema query) schema data).
Proof.
  intros Hlen.
  assert (∃ l, Limit (parsePagination None query) = Some (Z.of_nat l) ∧ (Z.of_nat l ≤ 10000)) as (l & Hl & Hl10).
  { assert (∀ n, 0 ≤ n ≤ 10000 → ∃ l, Some n = Some (Z.of_nat l) ∧ (Z.of_nat l ≤ 10000)) as Hn.
    { intros n Hn. exists (Z.to_nat n). rewrite Z2Nat.id by lia. split; [done|lia]. }
    unfold parsePagination, maxLimit, defaultLimit. case_decide; simpl; [by apply Hn|].
    destruct (ParseInt _) as [n|]; simpl; [|by apply Hn].
    destruct ((10000 <? n) || (n =? -1)) eqn:Hmax; simpl; [by apply Hn|].
    destruct (0 <=? n) eqn:Hpos; simpl; apply Hn; [|lia].
    apply orb_false_iff in Hmax as [Hmax%Z.ltb_ge _]. apply Z.leb_le in Hpos. lia. }
  split; [intros l'; rewrite Hl; intros [= <-]; lia|].
  unfold ApplyQueryOptions, parse_QueryOptions. generalize dependent (parsePagination None query).
  intros pg Hl. case_decide; cbn [QPagination QSort QConditions]; [|by eexists].
  set (items := ApplySort _ _). destruct (decide (items = [])) as [->|Hne].
  { unfold ApplyPagination. rewrite Hl. by eexists. }
  assert (length items ≤ length data)%nat.
  { unfold items, ApplySort. rewrite sort_slice_perm. apply sublist_length, sublist_filter. }
  rewrite (apply_pagination_eval _ l items Hl); [by eexists| |done]. unfold int64_max. lia.
Qed.

(** A request can only filter on what the schema offers: every condition
    that is parsed from the query is on a field with a collection filter, with
    one of the modifiers that filter lists, and that modifier is a known one. *)
Theorem parsed_filters_allowed `{MapRange} schema (query : Values) :
  Forall (λ c, ∃ modifiers md ct, CollectionFilters schema !! QField c = Some modifiers ∧ md ∈ modifiers ∧
                 mods md = Some ct ∧ conditionType c = Some ct) (parseFilters schema query).
Proof.
  unfold parseFilters. set (P := λ c, _).
  assert (∀ l acc, Forall P acc → Forall P (foldl (λ conditions (e : string * list string),
           let '(name, op) := parseNameAndOp e.1 in
           match CollectionFilters schema !! name with
           | None => conditions
           | Some modifiers =>
               foldl (λ conditions md,
                        if negb (bool_decide (op = md)) || negb (ValidMod op) then conditions
                        else conditions ++ [NewConditionFromString name md e.2]) conditions modifiers
           end) acc l)) as Hgen; [|by apply Hgen].
  induction l as [|[key values] l IH]; intros acc Hacc; simpl; [done|]. apply IH. clear IH l.
  destruct (parseNameAndOp key) as [name op]. destruct (CollectionFilters schema !! name) as [modifiers|] eqn:Hf; [|done].
  assert (∀ ms acc, ms ⊆ modifiers → Forall P acc → Forall P (foldl (λ conditions md,
                        if negb (bool_decide (op = md)) || negb (ValidMod op) then conditions
                        else conditions ++ [NewConditionFromString name md values]) acc ms)) as Hin; [|by apply Hin].
  clear acc Hacc. induction ms as [|md ms IH]; intros acc Hsub Hacc; simpl; [done|]. apply IH; [set_solver|].
  case_bool_decide as Hop; simpl; [subst md|done]. destruct (ValidMod op) eqn:Hv; simpl; [|done].
  apply Forall_app. split; [done|]. apply Forall_singleton. unfold ValidMod in Hv.
  apply bool_decide_eq_true in Hv as [ct Hct]. exists modifiers, op, ct. simpl. split_and!; [done|set_solver|done|done].
Qed.
End Apply.

(** An order that sort.Slice may produce. *)
Definition not_less {A} (lt : A → A → bool) (x y : A) : Prop := lt y x = false.
#[local] Instance not_less_dec {A} (lt : A → A → bool) x y : Decision (not_less lt x y).
Proof. unfold not_less. apply _. Defined.
Definition merge_slice {A} (lt : A → A → bool) (l : list A) : list A := merge_sort (not_less lt) l.
#[refine, local] Instance std_sort : SortSlice := {| sort_slice := @merge_slice |}.
Proof.
  - intros A lt l. apply merge_sort_Permutation.
  - intros A lt l Htr Htot.
    assert (Transitive (not_less lt)) by (intros x y z; apply Htr).
    assert (base.Total (not_less lt)) by (intros x y; apply Htot).
    exact (StronglySorted_merge_sort (not_less lt) l).
Defined.

Definition three_items : list (option obj) :=
  [Some {[ "id" := VStr "b" ]}; Some {[ "id" := VStr "a" ]}; Some {[ "id" := VStr "c" ]}].
Definition first_page (limit : Z) : Pagination := mkPagination "" "" "" "" "" (Some limit) None false.
Definition by_id : QueryOptions := zero_options.

Lemma apply_pagination_correct_witness :
  ∃ p' page, ApplyPagination (Some (first_page 2)) three_items = Ret (Some p', page) ∧ Partial p' = true ∧ Next p' = "c".
Proof.
  destruct (apply_pagination_correct (first_page 2) 2 three_items) as (p' & page & Ha & -> & _ & Hp & Hn);
    [done|by vm_compute|done|].
  eexists p', _. split; [done|]. split; [by apply Hp|]. rewrite Hn by lia. vm_compute. reflexivity.
Defined.

Lemma pages_cover_query_witness :
  let items := @query_items std_format std_sort by_id (plain_schema "x" ∅) three_items in
  all_pages 4 (first_page 2) items = Ret items.
Proof.
  apply (@pages_cover_query std_format std_sort by_id (plain_schema "x" ∅) three_items (first_page 2) 2);
    [done|lia|done|by vm_compute| |].
  - apply (bool_decide_unpack _). vm_compute. exact I.
  - repeat constructor; by vm_compute.
Defined.

Lemma parsed_query_returns_witness :
  returns (@ApplyQueryOptions std_format std_sort
             (@parse_QueryOptions std_range "GET" None (plain_schema "x" ∅) {[ "limit" := ["9223372036854775807"] ]})
             (plain_schema "x" ∅) three_items).
Proof. apply (@parsed_query_returns std_format std_sort std_range). by vm_compute. Defined.

(** A limit that did not come from a query can overflow the index arithmetic. *)
Example limit_overflow :
  ApplyPagination (Some (mkPagination "a" "" "" "" "" (Some int64_max) None false)) three_items = Panic.
Proof. vm_compute. reflexivity. Qed.

(** Last is left over from an earlier use of the same Pagination. *)
Example last_not_reset :
  match ApplyPagination (Some (mkPagination "" "" "" "" "stale" (Some 5) None false)) three_items with
  | Ret (Some p, _) => Last p = "stale" ∧ First p = ""
  | _ => False
  end.
Proof. vm_compute. done. Qed.
