(* ===== verification/Builder.v ===== *)
(** * The resource builder

    Models parse/builder/builder.go: how the data of a request or of the store
    is checked against a schema and converted to the types of its fields, and
    the access methods of types/schema_funcs.go.

    The validators of k8s.io/apimachinery, the reference validator and the
    validator of a schema are parameters: fields of [Builder] and of the class
    [K8sValidation]. *)

From S2P Require Import Prelude GoStrings Values Errors TypeNames Convert Schemas.

(** The outcome of a step: a value, an error, a run-time panic, or no answer
    within the fuel. *)
Inductive res (A : Type) : Type := Ok (a : A) | Err (e : error) | Crash | NoFuel.
Arguments Ok {A} _.
Arguments Err {A} _.
Arguments Crash {A}.
Arguments NoFuel {A}.
#[export] Instance res_ret : MRet res := λ A a, Ok a.
#[export] Instance res_bind : MBind res := λ A B f m,
  match m with Ok a => f a | Err e => Err e | Crash => Crash | NoFuel => NoFuel end.

(** A loop whose body may fail. *)
Fixpoint foldR {A B} (f : B → A → res B) (l : list A) (b : B) : res B :=
  match l with
  | [] => Ok b
  | a :: l' => b' ← f b a; foldR f l' b'
  end.
Lemma foldR_inv {A B} (P : B → Prop) (f : B → A → res B) l b r :
  P b → (∀ b a b', a ∈ l → P b → f b a = Ok b' → P b') → foldR f l b = Ok r → P r.
Proof.
  revert b. induction l as [|a l IH]; intros b Hb Hf; simpl; [by intros [= <-]|].
  destruct (f b a) as [b'| | |] eqn:Ha; try done. simpl. apply IH.
  - eapply Hf; [left|exact Hb|exact Ha].
  - intros b0 a0 b0' Hin. apply Hf. by right.
Qed.

(** What a turn establishes and later turns keep holds of every element. *)
Lemma foldR_each {A B} (Q : A → B → Prop) (f : B → A → res B) l b r :
  (∀ b a b', f b a = Ok b' → Q a b') → (∀ b a b' a0, Q a0 b → f b a = Ok b' → Q a0 b') →
  foldR f l b = Ok r → ∀ a, a ∈ l → Q a r.
Proof.
  intros Hnew Hkeep. revert b. induction l as [|a l IH]; intros b; simpl; [set_solver|].
  destruct (f b a) as [b'| | |] eqn:Ha; try done. simpl. intros Hr a0 [->|Hin]%elem_of_cons; [|by eapply IH].
  eapply (foldR_inv (Q a)); [by eapply Hnew| |exact Hr]. intros ? ? ? _. apply Hkeep.
Qed.

Lemma foldR_fuel {A B} (f : B → A → res B) l b : (∀ b a, a ∈ l → f b a ≠ NoFuel) → foldR f l b ≠ NoFuel.
Proof.
  revert b. induction l as [|a l IH]; intros b Hf; simpl; [done|].
  pose proof (Hf b a) as Ha. destruct (f b a) as [b'| | |]; simpl; try done; [|set_solver].
  apply IH. intros b0 a0 Hin. apply Hf. by right.
Qed.

Lemma bind_fuel {A B} (m : res A) (f : A → res B) : m ≠ NoFuel → (∀ a, m = Ok a → f a ≠ NoFuel) → (a ← m; f a) ≠ NoFuel.
Proof. destruct m; naive_solver. Qed.

Lemma bind_Ok {A B} (m : res A) (f : A → res B) r : (a ← m; f a) = Ok r ↔ ∃ a, m = Ok a ∧ f a = Ok r.
Proof. destruct m; naive_solver. Qed.

Definition of_error (e : option error) : res unit := match e with None => Ok tt | Some e => Err e end.
Definition of_result {A} (r : result A) : res A := match r with inl a => Ok a | inr e => Err e end.
Definition of_go {A} (m : go A) : res A := match m with Ret a => Ok a | Panic => Crash end.

Lemma of_error_fuel e : of_error e ≠ NoFuel.
Proof. by destruct e. Qed.
Lemma of_go_fuel {A} (m : go A) : of_go m ≠ NoFuel.
Proof. by destruct m. Qed.
Lemma of_result_fuel {A} (r : result A) : of_result r ≠ NoFuel.
Proof. by destruct r. Qed.
#[export] Hint Resolve of_error_fuel of_go_fuel of_result_fuel bind_fuel : norman.

Inductive Operation := OpCreate | OpUpdate | OpAction | OpList | OpListForCreate.
#[export] Instance Operation_eq_dec : EqDecision Operation.
Proof. solve_decision. Defined.
Definition IsList (o : Operation) : bool := match o with OpList | OpListForCreate => true | _ => false end.

Class K8sValidation := {
  IsDNS1123Label : string → list string;
  IsDNS1035Label : string → list string;
  IsDNS1123Subdomain : string → list string
}.

Record Builder := mkBuilder {
  BVersion : option APIVersion;
  BSchemas : Schemas;
  RefValidator : option (string → string → bool);
  edit : bool;
  export : bool;
  Validator : Schema → option (obj → option error)
}.

Section Builder.
Context `{GoFormat} `{MapRange} `{K8sValidation}.

(** [value == ""] on an interface. *)
Definition is_empty_string (v : value) : bool := match v with VStr "" => true | _ => false end.
Definition is_nil (v : value) : bool := match v with VNil => true | _ => false end.

(** ** CheckFieldCriteria *)
Definition lt_opt (z : Z) (bound : option Z) : bool := match bound with Some b => z <? b | None => false end.
Definition gt_opt (z : Z) (bound : option Z) : bool := match bound with Some b => b <? z | None => false end.

Definition CheckFieldCriteria (fieldName : string) (field : Field) (v : value) : option error :=
  let fail code := Some (NewFieldAPIError code fieldName "") in
  let num := match v with VInt64 z => Some z | _ => None end in
  let v := match v with VNil => Default field | _ => v end in
  let empty := is_nil v || is_empty_string v in
  let hasStrVal := negb empty in
  let strVal := if hasStrVal then Sprint v else "" in
  let strLen := Z.of_nat (String.length strVal) in
  if empty && negb (Nullable field) && is_nil (Default field) then fail NotNullable
  else if match num with Some z => lt_opt z (Min field) | None => false end then fail MinLimitExceeded
  else if match num with Some z => gt_opt z (Max field) | None => false end then fail MaxLimitExceeded
  else if (hasStrVal || is_empty_string v) && lt_opt strLen (MinLength field) then fail MinLengthExceeded
  else if (hasStrVal || is_empty_string v) && gt_opt strLen (MaxLength field) then fail MaxLengthExceeded
  else if negb (bool_decide (Options field = [])) && (hasStrVal || negb (Nullable field))
          && negb (bool_decide (strVal ∈ Options field)) then fail InvalidOption
  else if negb (bool_decide (ValidChars field = "")) && hasStrVal
          && negb (str_all (is_byte_in (ValidChars field)) strVal) then fail InvalidCharacters
  else if negb (bool_decide (InvalidChars field = "")) && hasStrVal
          && ContainsAny strVal (InvalidChars field) then fail InvalidCharacters
  else None.

Definition fieldMatchesOp (field : Field) (op : Operation) : bool :=
  match op with
  | OpCreate => Create field
  | OpUpdate => Update field
  | OpList => negb (bool_decide (Type_ field = "password")) && negb (WriteOnly field)
  | OpListForCreate => negb (bool_decide (Type_ field = "password"))
  | OpAction => false
  end.

(** ** ConvertSimple: [None] stands for ErrComplexType. *)
Definition checked_name (check : string → list string) (v : value) (op : Operation) : res (option value) :=
  let str := ToString v in
  if decide (str = "") then Ok (Some (VStr ""))
  else if bool_decide (op = OpCreate) || bool_decide (op = OpUpdate) then
    match check str with
    | [] => Ok (Some (VStr str))
    | errs => Err (NewAPIError InvalidFormat ("invalid value " +:+ Sprint v +:+ ": " +:+ Join errs ","))
    end
  else Ok (Some (VStr str)).

Definition ConvertSimple (fieldType : string) (v : value) (op : Operation) : res (option value) :=
  if is_nil v then Ok (Some v)
  else if decide (fieldType = "json") then Ok (Some v)
  else if decide (fieldType = "date") then
    let s := ToString v in Ok (Some (if decide (s = "") then VNil else VStr s))
  else if decide (fieldType = "boolean") then Ok (Some (VBool (ToBool v)))
  else if decide (fieldType = "enum") then Ok (Some (VStr (ToString v)))
  else if decide (fieldType = "int") then n ← of_result (ToNumber v); Ok (Some (VInt64 n))
  else if decide (fieldType = "float") then f ← of_result (ToFloat v); Ok (Some (VFloat f))
  else if decide (fieldType = "password") then Ok (Some (VStr (ToString v)))
  else if decide (fieldType = "string") then
    Ok (Some (VStr (if IsList op then ToStringNoTrim v else ToString v)))
  else if decide (fieldType = "dnsLabel") then checked_name IsDNS1123Label v op
  else if decide (fieldType = "dnsLabelRestricted") then checked_name IsDNS1035Label v op
  else if decide (fieldType = "hostname") then checked_name IsDNS1123Subdomain v op
  else if decide (fieldType = "intOrString") then
    Ok (Some (match ToNumber v with inl n => VInt64 n | inr _ => VStr (ToString v) end))
  else if decide (fieldType = "base64" ∨ fieldType = "reference") then Ok (Some (VStr (ToString v)))
  else Ok None.

(** ** Conversion of composite values

    The functions call each other through [convert]; here each takes it as the
    argument [conv]. *)
Abbreviation converter := (string → value → Operation → res value).

Definition convertReferenceType (b : Builder) (fieldType : string) (v : value) : res value :=
  let subType := SubType fieldType in
  let strVal := ToString v in
  match RefValidator b with
  | Some validate =>
      if validate subType strVal then Ok (VStr strVal)
      else Err (NewAPIError InvalidReference ("Not found type: " +:+ subType +:+ " id: " +:+ strVal))
  | None => Ok (VStr strVal)
  end.

(** The slice, which is nil for a value that is not one. *)
Definition convertArray (conv : converter) (fieldType : string) (v : value) (op : Operation) : res (list value) :=
  match v with
  | VStrs l => Ok (VStr <$> l)
  | VList l => foldR (λ acc x, y ← conv (SubType fieldType) x op; Ok (acc ++ [y])) l []
  | _ => Ok []
  end.

(** The map, which is nil for a value that is not one. *)
Definition convertMap (conv : converter) (fieldType : string) (v : value) (op : Operation) : res (option obj) :=
  match as_map v with
  | None => Ok None
  | Some m =>
      r ← foldR (λ (acc : obj) (e : string * value),
                   match conv (SubType fieldType) e.2 op with
                   | Ok y => Ok (<[e.1 := y]> acc)
                   | Err err => Err (WrapAPIError err InvalidFormat (Error err))
                   | Crash => Crash
                   | NoFuel => NoFuel
                   end) (range (default ∅ m)) ∅;
      Ok (Some r)
  end.

(** ** copyInputs *)
Definition check_elements (fieldName : string) (field : Field) (l : list value) : res unit :=
  foldR (λ _ x, if is_nil x
                then Err (NewFieldAPIError NotNullable fieldName "Individual array values can not be null")
                else of_error (CheckFieldCriteria fieldName field x)) l tt.

(** One turn of the loop over the input. *)
Definition copyInput (b : Builder) (conv : converter) (schema : Schema) (op : Operation) (result : obj)
    (e : string * value) : res obj :=
  let '(fieldName, v) := e in
  match ResourceFields schema !! fieldName with
  | None => Ok result
  | Some field =>
      if negb (fieldMatchesOp field op) then Ok result
      else
        let wasNull := is_nil v && (Nullable field || is_nil (Default field)) in
        match conv (Type_ field) v op with
        | Err err => Err (WrapFieldAPIError err InvalidFormat fieldName (Error err))
        | Crash => Crash
        | NoFuel => NoFuel
        | Ok v' =>
            if negb (is_nil v') || wasNull then
              _ ← (if negb (IsList op) then
                     match v' with
                     | VList l => check_elements fieldName field l
                     | _ => of_error (CheckFieldCriteria fieldName field v')
                     end
                   else Ok tt);
              let result := <[fieldName := v']> result in
              if IsList op && bool_decide (Type_ field = "date") && negb (is_empty_string v') && negb (edit b) then
                match ToTimestamp v' with
                | inl ts => Ok (<[fieldName +:+ "TS" := VInt64 ts]> result)
                | inr _ => Ok result
                end
              else Ok result
            else Ok result
        end
  end.

Definition copy_meta (k : string) (input : option obj) (result : obj) : obj :=
  if IsAPIObjectEmpty (mget input k) then result else <[k := mget input k]> result.

Definition copyInputs (b : Builder) (conv : converter) (schema : Schema) (input : option obj) (op : Operation) : res obj :=
  result ← foldR (copyInput b conv schema op) (range (default ∅ input)) ∅;
  if IsList op && negb (edit b) && negb (export b)
  then Ok (copy_meta "id" input (copy_meta "type" input result)) else Ok result.

(** ** checkDefaultAndRequired *)
Definition check_field (conv : converter) (op : Operation) (result : obj) (e : string * Field) : res obj :=
  let '(fieldName, field) := e in
  let blank := match result !! fieldName with None => true | Some v => is_empty_string v end in
  let result := if bool_decide (op = OpCreate) && blank && negb (is_nil (Default field))
                then <[fieldName := Default field]> result else result in
  let hasKey := bool_decide (is_Some (result !! fieldName)) in
  _ ← (if bool_decide (op = OpCreate) && fieldMatchesOp field OpCreate && Required field then
         if negb hasKey then Err (NewFieldAPIError MissingRequired fieldName "")
         else if IsArrayType (Type_ field) then
           slice ← convertArray conv (Type_ field) (default VNil (result !! fieldName)) op;
           if bool_decide (length slice = 0%nat) then Err (NewFieldAPIError MissingRequired fieldName "") else Ok tt
         else Ok tt
       else Ok tt);
  if IsList op && fieldMatchesOp field OpList && IsReferenceType (Type_ field) && negb hasKey
  then Ok (<[fieldName := VNil]> result)
  else if IsList op && fieldMatchesOp field OpList && negb hasKey && negb (is_nil (Default field))
  then Ok (<[fieldName := Default field]> result)
  else Ok result.

(** The key under which the edit form shows a field that is not set. *)
Definition edit_key (name : string) (field : Field) : string :=
  let desc := if decide (Description field = "") then "" else Description field +:+ " " in
  "zzz#(" +:+ desc +:+ ")(" +:+ Type_ field +:+ ")" +:+ name.

Definition populate_field (conv : converter) (result : obj) (e : string * Field) : res obj :=
  let '(name, field) := e in
  if negb (Update field) then Ok (if decide (name = "name") then result else delete name result)
  else match result !! name with
       | Some v =>
           if is_nil (Default field) then Ok result
           else eq ← of_go (iface_eq (Default field) v);
                if (eq : bool) then Ok (<[edit_key name field := v]> (delete name result)) else Ok result
       | None =>
           if is_nil (Default field) then
             match conv (Type_ field) VNil OpList with
             | Ok val => Ok (<[edit_key name field := val]> result)
             | Err _ => Ok result
             | Crash => Crash
             | NoFuel => NoFuel
             end
           else Ok (<[edit_key name field := Default field]> result)
       end.
Definition populateMissingFieldsForEdit (conv : converter) (schema : Schema) (result : obj) : res obj :=
  foldR (populate_field conv) (range (ResourceFields schema)) result.

Definition drop_field (conv : converter) (schema : Schema) (result : obj) (e : string * value) : res obj :=
  let '(name, existingVal) := e in
  let field := field_of schema name in
  if negb (Create field) then Ok (delete name result)
  else
    eq ← of_go (iface_eq (Default field) existingVal);
    if (eq : bool) then Ok (delete name result)
    else
      same ← match conv (Type_ field) VNil OpList with
             | Ok val => of_go (iface_eq val existingVal)
             | Err _ => Ok false
             | Crash => Crash
             | NoFuel => NoFuel
             end;
      if (same : bool) || IsAPIObjectEmpty existingVal then Ok (delete name result) else Ok result.
Definition dropDefaultsAndReadOnly (conv : converter) (schema : Schema) (result : obj) : res obj :=
  foldR (drop_field conv schema) (range result) result.

Definition checkDefaultAndRequired (b : Builder) (conv : converter) (schema : Schema) (op : Operation) (result : obj)
  : res obj :=
  result ← foldR (check_field conv op) (range (ResourceFields schema)) result;
  result ← (if IsList op && edit b then populateMissingFieldsForEdit conv schema result else Ok result);
  if IsList op && export b then dropDefaultsAndReadOnly conv schema result else Ok result.

Definition copyFields (b : Builder) (conv : converter) (schema : Schema) (input : option obj) (op : Operation) : res obj :=
  result ← copyInputs b conv schema input op;
  checkDefaultAndRequired b conv schema op result.

Definition construct (b : Builder) (conv : converter) (schema : Schema) (input : option obj) (op : Operation) : res obj :=
  result ← copyFields b conv schema input op;
  if bool_decide (op = OpCreate) || bool_decide (op = OpUpdate) then
    match Validator b schema with
    | Some validate => _ ← of_error (validate result); Ok result
    | None => Ok result
    end
  else Ok result.

Definition convertType (b : Builder) (conv : converter) (fieldType : string) (v : value) (op : Operation) : res value :=
  match Schemas_Schema (BSchemas b) (BVersion b) fieldType with
  | None => Err (NewAPIError InvalidType ("Failed to find type " +:+ fieldType))
  | Some schema =>
      match as_map v with
      | None => Err (NewAPIError InvalidFormat ("Value can not be converted to type " +:+ fieldType +:+ ": " +:+ Sprint v))
      | Some m => r ← construct b conv schema m op; Ok (VMap r)
      end
  end.

(** [fuel] bounds the nesting of the conversions. *)
Fixpoint convert (b : Builder) (fuel : nat) (fieldType : string) (v : value) (op : Operation) : res value :=
  match fuel with
  | O => NoFuel
  | S fuel' =>
      if is_nil v then Ok v
      else if IsMapType fieldType then m ← convertMap (convert b fuel') fieldType v op; Ok (of_map m)
      else if IsArrayType fieldType then l ← convertArray (convert b fuel') fieldType v op; Ok (VList l)
      else if IsReferenceType fieldType then convertReferenceType b fieldType v
      else
        simple ← ConvertSimple fieldType v op;
        match simple with
        | Some v' => Ok v'
        | None => convertType b (convert b fuel') fieldType v op
        end
  end.

Definition Construct (b : Builder) (fuel : nat) (schema : Schema) (input : option obj) (op : Operation) : res obj :=
  construct b (convert b fuel) schema input op.

(** ** Where the fields of a result come from *)

(** The value of the field [k] was converted from the input. *)
Definition from_input (conv : converter) (schema : Schema) (input : option obj) (op : Operation) (k : string) (v : value) : Prop :=
  ∃ f w, ResourceFields schema !! k = Some f ∧ fieldMatchesOp f op = true ∧ mlookup input k = Some w ∧
         conv (Type_ f) w op = Ok v ∧
         (IsList op = false → match v with
                              | VList l => Forall (λ x, x ≠ VNil ∧ CheckFieldCriteria k f x = None) l
                              | _ => CheckFieldCriteria k f v = None
                              end).
(** The time stamp that goes with a date. *)
Definition is_timestamp (schema : Schema) (op : Operation) (k : string) : Prop :=
  IsList op = true ∧ ∃ d f, ResourceFields schema !! d = Some f ∧ Type_ f = "date" ∧ k = d +:+ "TS".

Lemma check_elements_Ok name f l r :
  check_elements name f l = Ok r → Forall (λ x, x ≠ VNil ∧ CheckFieldCriteria name f x = None) l.
Proof.
  unfold check_elements. generalize tt. induction l as [|x l IH]; intros u; simpl; [done|].
  destruct (is_nil x) eqn:Hx; [done|]. destruct (CheckFieldCriteria name f x) eqn:Hc; [done|]. simpl.
  intros Hr. constructor; [|by eapply IH]. split; [by intros ->|done].
Qed.

Lemma copyInput_keys b conv schema input op result k0 w0 result' :
  mlookup input k0 = Some w0 → copyInput b conv schema op result (k0, w0) = Ok result' →
  ∀ k v, result' !! k = Some v → result !! k = Some v ∨ from_input conv schema input op k v ∨ is_timestamp schema op k.
Proof.
  intros Hw. unfold copyInput. destruct (ResourceFields schema !! k0) as [f|] eqn:Hf; [|naive_solver].
  destruct (fieldMatchesOp f op) eqn:Hm; simpl; [|naive_solver].
  destruct (conv (Type_ f) w0 op) as [v'| | |] eqn:Hc; try done.
  destruct (negb (is_nil v') || _); [|naive_solver]. intros (u & Hu & Hr)%bind_Ok k v Hk.
  assert (from_input conv schema input op k0 v') as Hfrom.
  { exists f, w0. split_and!; try done. intros Hl. rewrite Hl in Hu. simpl in Hu.
    destruct v'; try (by eapply check_elements_Ok);
      match goal with |- ?c = None => destruct c; done end. }
  assert ((<[k0 := v']> result) !! k = Some v → result !! k = Some v ∨ from_input conv schema input op k v) as Hins.
  { rewrite lookup_insert. destruct (decide (k0 = k)) as [<-|]; [intros [= <-]; by right|by left]. }
  destruct (IsList op && bool_decide (Type_ f = "date") && _ && _) eqn:Hts; [|naive_solver].
  apply andb_prop in Hts as [[[Hlist Hdate%bool_decide_eq_true]%andb_prop _]%andb_prop _].
  destruct (ToTimestamp v') as [ts|]; [|naive_solver]. injection Hr as <-.
  rewrite lookup_insert in Hk. case_decide as Hd; [|naive_solver].
  right. right. split; [done|]. exists k0, f. done.
Qed.

Lemma copyInputs_keys b conv schema input op result :
  copyInputs b conv schema input op = Ok result →
  ∀ k v, result !! k = Some v → from_input conv schema input op k v ∨ is_timestamp schema op k ∨
                               IsList op = true ∧ (k = "type" ∨ k = "id").
Proof.
  unfold copyInputs. intros (r & Hr & Hm)%bind_Ok.
  assert (∀ k v, r !! k = Some v → from_input conv schema input op k v ∨ is_timestamp schema op k) as Hkeys.
  { eapply (foldR_inv (λ r : obj, ∀ k v, r !! k = Some v →
              from_input conv schema input op k v ∨ is_timestamp schema op k)); [| |exact Hr]; [done|].
    intros r0 [k0 w0] r1 Hin%elem_of_range IH Hc k v Hk.
    destruct (copyInput_keys b conv schema input op r0 k0 w0 r1) with (k := k) (v := v) as [?|[?|?]]; auto.
    by destruct input. }
  destruct (IsList op && negb (edit b) && negb (export b)) eqn:Hl; [|injection Hm as <-; naive_solver].
  apply andb_prop in Hl as [[Hl _]%andb_prop _]. injection Hm as <-. intros k v. unfold copy_meta.
  destruct (IsAPIObjectEmpty (mget input "id")), (IsAPIObjectEmpty (mget input "type"));
    rewrite ?lookup_insert; repeat case_decide; subst; naive_solver.
Qed.

Lemma check_field_keys conv op result k0 f0 result' :
  check_field conv op result (k0, f0) = Ok result' →
  ∀ k v, result' !! k = Some v → result !! k = Some v ∨
    (k = k0 ∧ v = Default f0 ∧ op = OpCreate) ∨ (k = k0 ∧ IsList op = true ∧ fieldMatchesOp f0 OpList = true).
Proof.
  unfold check_field. intros (u & _ & Hr)%bind_Ok k v Hk.
  set (r1 := if bool_decide (op = OpCreate) && _ && _ then _ else _) in Hr.
  assert (∀ k v, r1 !! k = Some v → result !! k = Some v ∨ (k = k0 ∧ v = Default f0 ∧ op = OpCreate)) as Hr1.
  { intros k' v'. unfold r1. destruct (bool_decide (op = OpCreate) && _ && _) eqn:Hc; [|by left].
    apply andb_prop in Hc as [[Hc%bool_decide_eq_true _]%andb_prop _].
    rewrite lookup_insert. case_decide; naive_solver. }
  clearbody r1. destruct (IsList op && fieldMatchesOp f0 OpList && IsReferenceType _ && _) eqn:H1'.
  - apply andb_prop in H1' as [[[Hl Hm]%andb_prop _]%andb_prop _]. injection Hr as <-.
    rewrite lookup_insert in Hk. case_decide; [subst; naive_solver|]. apply Hr1 in Hk. naive_solver.
  - clear H1'. destruct (IsList op && fieldMatchesOp f0 OpList && _ && _) eqn:H2'.
    + apply andb_prop in H2' as [[[Hl Hm]%andb_prop _]%andb_prop _]. injection Hr as <-.
      rewrite lookup_insert in Hk. case_decide; [subst; naive_solver|]. apply Hr1 in Hk. naive_solver.
    + injection Hr as <-. apply Hr1 in Hk. naive_solver.
Qed.

Lemma check_fields_keys conv schema op result result' :
  foldR (check_field conv op) (range (ResourceFields schema)) result = Ok result' →
  ∀ k v, result' !! k = Some v → result !! k = Some v ∨
    ∃ f, ResourceFields schema !! k = Some f ∧
      (v = Default f ∧ op = OpCreate ∨ IsList op = true ∧ fieldMatchesOp f OpList = true).
Proof.
  intros Hf. eapply (foldR_inv (λ r : obj, ∀ k v, r !! k = Some v → result !! k = Some v ∨
    ∃ f, ResourceFields schema !! k = Some f ∧
      (v = Default f ∧ op = OpCreate ∨ IsList op = true ∧ fieldMatchesOp f OpList = true))); [| |exact Hf]; [by left|].
  intros r0 [k0 f0] r1 Hin%elem_of_range IH Hc k v Hk.
  destruct (check_field_keys conv op r0 k0 f0 r1 Hc k v Hk) as [?|[(->&?&?)|(->&?&?)]]; [by apply IH| |];
    right; exists f0; naive_solver.
Qed.

Lemma populate_keys conv schema result result' :
  populateMissingFieldsForEdit conv schema result = Ok result' →
  ∀ k, is_Some (result' !! k) → is_Some (result !! k) ∨ HasPrefix k "zzz#" = true.
Proof.
  intros Hf. eapply (foldR_inv (λ r : obj, ∀ k, is_Some (r !! k) → is_Some (result !! k) ∨ HasPrefix k "zzz#" = true));
    [| |exact Hf]; [by left|].
  assert (∀ n f, HasPrefix (edit_key n f) "zzz#" = true) as Hkey by done.
  intros r0 [n f] r1 _ IH. unfold populate_field. intros Hp k Hk.
  assert (is_Some (r0 !! k) ∨ HasPrefix k "zzz#" = true); [|naive_solver]. clear IH. revert Hp.
  destruct (negb (Update f)).
  { case_decide; intros [= <-]; [by left|]. rewrite lookup_delete in Hk. case_decide; [by destruct Hk|by left]. }
  destruct (r0 !! n) as [w|] eqn:Hw; destruct (is_nil (Default f)).
  - intros [= <-]. by left.
  - intros (eq & _ & Hp)%bind_Ok. destruct eq; injection Hp as <-; [|by left].
    rewrite lookup_insert in Hk. case_decide; [subst; by right|]. rewrite lookup_delete in Hk.
    case_decide; [by destruct Hk|by left].
  - destruct (conv _ _ _); intros [= <-]; [|by left]. rewrite lookup_insert in Hk. case_decide; [subst; by right|by left].
  - intros [= <-]. rewrite lookup_insert in Hk. case_decide; [subst; by right|by left].
Qed.

Lemma drop_keys conv schema result result' :
  dropDefaultsAndReadOnly conv schema result = Ok result' → ∀ k, is_Some (result' !! k) → is_Some (result !! k).
Proof.
  intros Hf. eapply (foldR_inv (λ r : obj, ∀ k, is_Some (r !! k) → is_Some (result !! k))); [| |exact Hf]; [done|].
  assert (∀ (r : obj) n k, is_Some (delete n r !! k) → is_Some (r !! k)) as Hdel.
  { intros r n k. rewrite lookup_delete. case_decide; [by intros []|done]. }
  intros r0 [n w] r1 _ IH. unfold drop_field. intros Hp k Hk. apply IH. clear IH. revert Hp.
  destruct (negb (Create _)); [intros [= <-]; by eapply Hdel|].
  intros (eq & _ & Hp)%bind_Ok. destruct eq; [injection Hp as <-; by eapply Hdel|].
  apply bind_Ok in Hp as (same & _ & Hp). destruct (same || _); injection Hp as <-; [by eapply Hdel|done].
Qed.

(** C1: a response never shows a secret.  In what the builder makes of a stored
    resource for a list, a get or the form of a new resource, a field of type
    password has no entry, nor, outside that form, has a write-only one: whatever
    the input holds, with or without the edit and export options.  (The keys
    "type" and "id", the keys of the edit form, and a key that the time stamp of
    a date field uses are set by the builder itself.) *)
Theorem list_hides_secrets b fuel schema input op r k f :
  IsList op = true → Construct b fuel schema input op = Ok r →
  ResourceFields schema !! k = Some f → Type_ f = "password" ∨ op = OpList ∧ WriteOnly f = true →
  k ≠ "type" → k ≠ "id" → HasPrefix k "zzz#" = false →
  (∀ d fd, ResourceFields schema !! d = Some fd → Type_ fd = "date" → k ≠ d +:+ "TS") →
  r !! k = None.
Proof.
  intros Hl. unfold Construct, construct, copyFields, checkDefaultAndRequired.
  intros (r3 & (r0 & Hc & (r1 & Hd & (r2 & He & Hx)%bind_Ok)%bind_Ok)%bind_Ok & Hv)%bind_Ok Hf Hsec Ht Hi Hz Hdate.
  rewrite !bool_decide_false in Hv by (by intros ->). simpl in Hv. injection Hv as ->.
  apply eq_None_not_Some. intros Hk. rewrite Hl in He, Hx. simpl in He, Hx.
  assert (is_Some (r2 !! k)) as Hk2 by (destruct (export b); [by eapply drop_keys|by injection Hx as ->]).
  assert (is_Some (r1 !! k)) as [v Hk1].
  { destruct (edit b); [|by injection He as ->]. destruct (populate_keys _ _ _ _ He k Hk2); [done|congruence]. }
  destruct (check_fields_keys _ _ _ _ _ Hd k v Hk1) as [Hk0|(f' & Hf' & [(_ & ->)|(_ & Hm)])].
  - destruct (copyInputs_keys _ _ _ _ _ _ Hc k v Hk0) as [(f' & w & Hf' & Hm & _)|[(_ & d & fd & Hfd & Hdt & ->)|(_ & [?|?])]].
    + rewrite Hf in Hf'. injection Hf' as <-. destruct op; try done; simpl in Hm.
      * apply andb_prop in Hm as [Hm1%negb_true_iff Hm2%negb_true_iff].
        apply bool_decide_eq_false in Hm1. destruct Hsec as [?|[_ ?]]; congruence.
      * apply negb_true_iff, bool_decide_eq_false in Hm. by destruct Hsec as [?|[? _]].
    + by eapply Hdate.
    + done.
    + done.
  - done.
  - rewrite Hf in Hf'. injection Hf' as <-. simpl in Hm.
    apply andb_prop in Hm as [Hm1%negb_true_iff Hm2%negb_true_iff].
    apply bool_decide_eq_false in Hm1. destruct Hsec as [?|[_ ?]]; congruence.
Qed.

Lemma check_field_required conv result k f result' :
  check_field conv OpCreate result (k, f) = Ok result' → Create f = true → Required f = true → is_Some (result' !! k).
Proof.
  unfold check_field. intros (u & Hu & Hr)%bind_Ok Hc Hreq. simpl in Hr. injection Hr as <-.
  simpl in Hu. rewrite Hc, Hreq in Hu. simpl in Hu.
  destruct (bool_decide (is_Some _)) eqn:Hk; [|done]. by apply bool_decide_eq_true in Hk.
Qed.

Lemma check_field_keeps conv op result e result' k :
  check_field conv op result e = Ok result' → is_Some (result !! k) → is_Some (result' !! k).
Proof.
  destruct e as [k0 f0]. unfold check_field. intros (u & _ & Hr)%bind_Ok Hk. revert Hr.
  assert (∀ (m : obj) v, is_Some (m !! k) → is_Some (<[k0 := v]> m !! k)) as Hins.
  { intros m v Hm. rewrite lookup_insert. case_decide; [done|exact Hm]. }
  set (r1 := if bool_decide (op = OpCreate) && _ && _ then _ else _).
  assert (is_Some (r1 !! k)) by (unfold r1; destruct (_ && _ && _); auto). clearbody r1.
  destruct (_ && _ && _ && _); [intros [= <-]; auto|]. destruct (_ && _ && _ && _); intros [= <-]; auto.
Qed.

(** C2: what a create or an update accepts.  When the builder accepts the input,
    every field of the result is a field of the schema, and its value either was
    sent by the client in a field the operation may set, converted to the type
    of the field and within its limits, or is the default of a field of a new
    resource; every field a new resource requires is there; and the validator of
    the schema agreed. *)
Theorem write_accepts_only_allowed b fuel schema input op r :
  op = OpCreate ∨ op = OpUpdate → Construct b fuel schema input op = Ok r →
  (∀ k v, r !! k = Some v →
     from_input (convert b fuel) schema input op k v ∨
     op = OpCreate ∧ ∃ f, ResourceFields schema !! k = Some f ∧ v = Default f) ∧
  (op = OpCreate → ∀ k f, ResourceFields schema !! k = Some f → Create f = true → Required f = true → is_Some (r !! k)) ∧
  (∀ validate, Validator b schema = Some validate → validate r = None).
Proof.
  intros Hop. assert (IsList op = false) as Hl by by destruct Hop; subst.
  unfold Construct, construct, copyFields, checkDefaultAndRequired. rewrite Hl. simpl.
  intros (r3 & (r0 & Hc & (r1 & Hd & Hx)%bind_Ok)%bind_Ok & Hv)%bind_Ok.
  injection Hx as ->.
  assert (bool_decide (op = OpCreate) || bool_decide (op = OpUpdate) = true) as Hb by by destruct Hop; subst.
  rewrite Hb in Hv. assert (r3 = r ∧ ∀ validate, Validator b schema = Some validate → validate r = None) as [-> Hval].
  { destruct (Validator b schema) as [validate|]; [|by injection Hv as ->].
    apply bind_Ok in Hv as (u & Hu & Hr). injection Hr as ->. split; [done|]. intros ? [= <-].
    by destruct (validate r). }
  split_and!; [|intros -> k f Hf Hcr Hreq|done].
  - intros k v Hk. destruct (check_fields_keys _ _ _ _ _ Hd k v Hk) as [Hk0|(f & Hf & [(-> & ->)|(Hl' & _)])].
    + destruct (copyInputs_keys _ _ _ _ _ _ Hc k v Hk0) as [?|[(Hl' & _)|(Hl' & _)]]; [by left|congruence|congruence].
    + right. split; [done|]. by exists f.
    + congruence.
  - set (Q := λ (e : string * Field) (r : obj), Create e.2 = true → Required e.2 = true → is_Some (r !! e.1)).
    refine (foldR_each Q _ _ _ _ _ _ Hd (k, f) _ Hcr Hreq); [| |by apply elem_of_range].
    + intros r' [k' f'] r'' Hok Hcr' Hreq'. exact (check_field_required _ _ _ _ _ Hok Hcr' Hreq').
    + intros r' a r'' a0 Hq Hok Hcr' Hreq'. eapply check_field_keeps; [exact Hok|]. by apply Hq.
Qed.

(** ** CheckFieldCriteria, declaratively *)

(** The text of a string or a number. *)
Definition text (v : value) : string := match v with VInt64 z => itoa z | _ => as_string v end.

Lemma itoa_nonempty z : itoa z ≠ "".
Proof.
  unfold itoa, DecimalString.NilZero.string_of_int. destruct (Z.to_int z) as [d|d]; [|done]. by destruct d.
Qed.

Lemma ContainsAny_false s chars : ContainsAny s chars = false ↔ ∀ c, str_in c s = true → str_in c chars = false.
Proof.
  induction s as [|d s IH]; simpl; [naive_solver|]. rewrite orb_false_iff, is_byte_in_spec, IH. split.
  - intros [Hd Hs] c. case_bool_decide; [by subst|apply Hs].
  - intros Hall. split; [apply Hall; by rewrite bool_decide_true|]. intros c Hc. apply Hall. by rewrite Hc, orb_true_r.
Qed.

Lemma lt_opt_false z o : lt_opt z o = false ↔ ∀ b, o = Some b → b ≤ z.
Proof. destruct o as [b|]; simpl; [|done]. rewrite Z.ltb_ge. naive_solver. Qed.
Lemma gt_opt_false z o : gt_opt z o = false ↔ ∀ b, o = Some b → z ≤ b.
Proof. destruct o as [b|]; simpl; [|done]. rewrite Z.ltb_ge. naive_solver. Qed.

Lemma and_iff (A A' B B' : Prop) : (A ↔ A') → (B ↔ B') → (A ∧ B ↔ A' ∧ B').
Proof. naive_solver. Qed.

Ltac split_iff := lazymatch goal with |- _ ∧ _ ↔ _ ∧ _ => apply and_iff; [|split_iff] | _ => idtac end.

Lemma if_fail_None (c : bool) (e : error) (rest : option error) :
  (if c then Some e else rest) = None ↔ c = false ∧ rest = None.
Proof. destruct c; naive_solver. Qed.

(** The limits of a field, on a string or a number: the check passes exactly
    when an empty string is allowed, a number lies between Min and Max, the text
    is as long as MinLength and MaxLength say, is one of the options if there
    are any (an empty text of a nullable field excepted), uses only valid and no
    invalid characters. *)
Theorem field_criteria_correct name f v :
  (∃ s, v = VStr s) ∨ (∃ z, v = VInt64 z) →
  CheckFieldCriteria name f v = None ↔
    (text v = "" → Nullable f = true ∨ Default f ≠ VNil) ∧
    (∀ z b, v = VInt64 z → Min f = Some b → b ≤ z) ∧
    (∀ z b, v = VInt64 z → Max f = Some b → z ≤ b) ∧
    (∀ b, MinLength f = Some b → b ≤ Z.of_nat (String.length (text v))) ∧
    (∀ b, MaxLength f = Some b → Z.of_nat (String.length (text v)) ≤ b) ∧
    (Options f ≠ [] → text v ≠ "" ∨ Nullable f = false → text v ∈ Options f) ∧
    (ValidChars f ≠ "" → str_all (λ c, str_in c (ValidChars f)) (text v) = true) ∧
    (∀ c, str_in c (text v) = true → str_in c (InvalidChars f) = false).
Proof.
  intros Hv. set (empty := is_empty_string v).
  assert (is_nil v = false ∧ (match v with VNil => Default f | _ => v end) = v ∧
          (if negb empty then Sprint v else "") = text v ∧ empty = bool_decide (text v = "")) as (Hnil & Hdef & Htext & Hempty).
  { destruct Hv as [[s ->]|[z ->]]; simpl; unfold empty; simpl.
    - destruct s; split_and!; done.
    - split_and!; try done. rewrite bool_decide_false; [done|apply itoa_nonempty]. }
  unfold CheckFieldCriteria. rewrite Hdef, Hnil. fold empty. cbn [orb]. rewrite Htext. rewrite !if_fail_None.
  replace (negb empty || empty) with true by by destruct empty. rewrite !andb_true_l, lt_opt_false, gt_opt_false.
  split_iff.
  - rewrite Hempty, !andb_false_iff, bool_decide_eq_false, negb_false_iff.
    assert (is_nil (Default f) = false ↔ Default f ≠ VNil) as -> by by destruct (Default f).
    destruct (decide (text v = "")); naive_solver.
  - destruct v; try naive_solver. rewrite lt_opt_false. naive_solver.
  - destruct v; try naive_solver. rewrite gt_opt_false. naive_solver.
  - done.
  - done.
  - rewrite Hempty, !andb_false_iff, orb_false_iff, !negb_false_iff, !bool_decide_eq_true.
    destruct (decide (Options f = [])), (decide (text v = "")), (Nullable f), (decide (text v ∈ Options f)); naive_solver.
  - rewrite Hempty, !andb_false_iff, !negb_false_iff, !bool_decide_eq_true.
    assert (str_all (is_byte_in (ValidChars f)) (text v) = str_all (λ c, str_in c (ValidChars f)) (text v)) as ->.
    { generalize (text v). intros s. induction s as [|c s IH]; simpl; [done|]. by rewrite is_byte_in_spec, IH. }
    destruct (decide (ValidChars f = "")), (decide (text v = "")) as [Ht|]; rewrite ?Ht; naive_solver.
  - rewrite <- ContainsAny_false.
    rewrite Hempty. destruct (decide (InvalidChars f = "")) as [Hi|Hi], (decide (text v = "")) as [Ht|Ht].
    all: rewrite ?(bool_decide_true _ Hi), ?(bool_decide_false _ Hi), ?(bool_decide_true _ Ht), ?(bool_decide_false _ Ht).
    all: simpl; rewrite ?Hi, ?Ht; try naive_solver.
    rewrite ContainsAny_false. naive_solver.
Qed.

(** ** Termination *)
(** How deep lists and maps are nested. *)
Fixpoint vdepth (v : value) : nat :=
  match v with
  | VMap m => S (map_fold (λ _ v n, max (vdepth v) n) 0%nat m)
  | VNilMap => 1
  | VList l => S (foldr (λ v n, max (vdepth v) n) 0%nat l)
  | _ => 0
  end.

Lemma vdepth_lookup (m : obj) k v : m !! k = Some v → (vdepth v < vdepth (VMap m))%nat.
Proof.
  intros Hk. simpl. apply Nat.lt_succ_r. revert k v Hk.
  apply (map_fold_weak_ind (λ (r : nat) m, ∀ k v, m !! k = Some v → (vdepth v ≤ r)%nat)).
  - intros k v. by rewrite lookup_empty.
  - intros i x m' r Hi IH k v. rewrite lookup_insert. case_decide; [intros [= ->]; lia|].
    intros Hk%IH. lia.
Qed.

Lemma vdepth_elem l v : v ∈ l → (vdepth v < vdepth (VList l))%nat.
Proof.
  intros Hv. simpl. apply Nat.lt_succ_r. induction l as [|x l IH]; [set_solver|]. simpl.
  apply elem_of_cons in Hv as [->|Hv]; [lia|]. specialize (IH Hv). lia.
Qed.

(** A new resource of this schema has no list it must not leave empty. *)
Definition no_required_arrays (sc : Schema) : Prop :=
  ∀ k f, ResourceFields sc !! k = Some f → Required f && IsArrayType (Type_ f) = false.
(** The schemas a conversion can meet. *)
Definition plain_requirements (b : Builder) (op : Operation) (schema : Schema) : Prop :=
  op = OpCreate → ∀ sc, sc = schema ∨ (∃ t, Schemas_Schema (BSchemas b) (BVersion b) t = Some sc) → no_required_arrays sc.

Lemma copyInputs_fuel b conv schema input op :
  (∀ t k v, mlookup input k = Some v → conv t v op ≠ NoFuel) → copyInputs b conv schema input op ≠ NoFuel.
Proof.
  intros Hc. unfold copyInputs. apply bind_fuel; [|intros r _; by destruct (_ && _ && _)].
  apply foldR_fuel. intros r [k v] Hin%elem_of_range. unfold copyInput.
  destruct (ResourceFields schema !! k) as [f|]; [|done]. destruct (negb (fieldMatchesOp f op)); [done|].
  assert (conv (Type_ f) v op ≠ NoFuel) by (apply (Hc _ k); by destruct input).
  destruct (conv (Type_ f) v op) as [v'| | |]; try done.
  destruct (negb (is_nil v') || _); [|done]. apply bind_fuel.
  - destruct (negb (IsList op)); [|done]. destruct v'; try apply of_error_fuel.
    apply foldR_fuel. intros u x _. destruct (is_nil x); [done|]. apply of_error_fuel.
  - intros u _. destruct (_ && _ && _ && _); [|done]. by destruct (ToTimestamp v').
Qed.

Lemma check_fuel b conv schema op result :
  (op = OpCreate → no_required_arrays schema) → (∀ t, conv t VNil OpList ≠ NoFuel) →
  checkDefaultAndRequired b conv schema op result ≠ NoFuel.
Proof.
  intros Hn Hc. unfold checkDefaultAndRequired. apply bind_fuel; [|intros r1 _; apply bind_fuel; [|intros r2 _]].
  - apply foldR_fuel. intros r [k f] Hin%elem_of_range. unfold check_field. apply bind_fuel.
    + destruct (bool_decide (op = OpCreate) && fieldMatchesOp f OpCreate && Required f) eqn:Hreq; [|done].
      destruct (negb _); [done|]. apply andb_prop in Hreq as [[Hop%bool_decide_eq_true _]%andb_prop Hreq].
      pose proof (Hn Hop k f Hin) as Hna. rewrite Hreq in Hna. simpl in Hna. by rewrite Hna.
    + intros u _. destruct (_ && _ && _ && _); [done|]. by destruct (_ && _ && _ && _).
  - destruct (IsList op && edit b); [|done]. apply foldR_fuel. intros r [k f] _. unfold populate_field.
    destruct (negb (Update f)); [by case_decide|]. destruct (r !! k) as [w|]; destruct (is_nil (Default f)); try done.
    + apply bind_fuel; [apply of_go_fuel|]. by intros [].
    + specialize (Hc (Type_ f)). by destruct (conv (Type_ f) VNil OpList).
  - destruct (IsList op && export b); [|done]. apply foldR_fuel. intros r [k w] _. unfold drop_field.
    destruct (negb (Create _)); [done|]. apply bind_fuel; [apply of_go_fuel|]. intros [] _; [done|]. apply bind_fuel.
    + specialize (Hc (Type_ (field_of schema k))). destruct (conv _ VNil OpList); try done. apply of_go_fuel.
    + intros sm _. by destruct (sm || _).
Qed.

Lemma construct_fuel b conv schema input op :
  (op = OpCreate → no_required_arrays schema) → (∀ t k v, mlookup input k = Some v → conv t v op ≠ NoFuel) →
  (∀ t, conv t VNil OpList ≠ NoFuel) → construct b conv schema input op ≠ NoFuel.
Proof.
  intros Hn Hc Hnil. unfold construct, copyFields. apply bind_fuel.
  - apply bind_fuel; [by apply copyInputs_fuel|]. intros r _. by apply check_fuel.
  - intros r _. destruct (_ || _); [|done]. destruct (Validator b schema); [|done].
    apply bind_fuel; [apply of_error_fuel|done].
Qed.

Lemma ConvertSimple_fuel t v op : ConvertSimple t v op ≠ NoFuel.
Proof.
  assert (∀ check, checked_name check v op ≠ NoFuel) as Hn.
  { intros check. unfold checked_name. case_decide; [done|]. destruct (_ || _); [|done]. by destruct (check _). }
  unfold ConvertSimple.
  repeat match goal with |- (if ?c then _ else _) ≠ _ => destruct c end;
    first [discriminate | apply Hn | apply bind_fuel; [apply of_result_fuel|discriminate]].
Qed.

Lemma convert_fuel b op fuel :
  (op = OpCreate → ∀ sc t, Schemas_Schema (BSchemas b) (BVersion b) t = Some sc → no_required_arrays sc) →
  ∀ t v, (vdepth v < fuel)%nat → convert b fuel t v op ≠ NoFuel.
Proof.
  intros Hn. induction fuel as [|fuel IH]; intros t v Hd; [lia|]. cbn [convert].
  destruct (is_nil v) eqn:Hnil; [done|]. destruct (IsMapType t); [|destruct (IsArrayType t); [|destruct (IsReferenceType t)]].
  - apply bind_fuel; [|done]. unfold convertMap. destruct (as_map v) as [m|] eqn:Hm; [|done].
    apply bind_fuel; [|done]. apply foldR_fuel. intros acc [k x] Hin%elem_of_range. simpl.
    assert (vdepth x < fuel)%nat as Hx.
    { destruct m as [m|]; [|done]. destruct v; try done. injection Hm as ->.
      pose proof (vdepth_lookup m k x Hin). lia. }
    specialize (IH (SubType t) x Hx). by destruct (convert b fuel (SubType t) x op).
  - apply bind_fuel; [|done]. unfold convertArray. destruct v as [| | | | | | | | |l| | |]; try done.
    apply foldR_fuel. intros acc x Hin. apply bind_fuel; [|done]. apply IH. pose proof (vdepth_elem l x Hin). lia.
  - unfold convertReferenceType. destruct (RefValidator b) as [f|]; [|done]. by destruct (f _ _).
  - apply bind_fuel; [apply ConvertSimple_fuel|]. intros [v'|] _; [done|]. unfold convertType.
    destruct (Schemas_Schema _ _ t) as [sc|] eqn:Hsc; [|done]. destruct (as_map v) as [m|] eqn:Hm; [|done].
    assert (0 < fuel)%nat by (destruct v; try done; simpl in Hd; lia).
    apply bind_fuel; [|done]. apply construct_fuel; [naive_solver| |].
    + intros t' k x Hx. apply IH. destruct m as [m|]; [|done]. destruct v; try done. injection Hm as ->.
      pose proof (vdepth_lookup m k x Hx). lia.
    + intros t'. by destruct fuel; [lia|].
Qed.

(** C31: the builder answers, but for creates of schemas with required lists.  For
    every operation other than a create, and for a create when neither the schema
    nor any schema of the registry has a required list field, as much fuel as the
    input is nested is enough: the conversion ends with a result, an error or a
    panic.  The condition on creates is needed: [create_diverges] is a schema
    with a required list for which no fuel is enough. *)
Theorem construct_terminates b fuel schema input op :
  plain_requirements b op schema → (vdepth (of_map input) ≤ fuel)%nat →
  Construct b fuel schema input op ≠ NoFuel.
Proof.
  intros Hp Hd. assert (0 < fuel)%nat by (destruct input; simpl in Hd; lia).
  apply construct_fuel.
  - intros Hop. apply (Hp Hop). by left.
  - intros t k v Hk. destruct input as [m|]; [|done]. apply convert_fuel.
    + intros Hop sc t' Hsc. apply (Hp Hop). right. by exists t'.
    + pose proof (vdepth_lookup m k v Hk). simpl in *. lia.
  - intros t. by destruct fuel; [lia|].
Qed.
End Builder.

(** ** Concrete requests *)
Definition std_k8s : K8sValidation :=
  {| IsDNS1123Label := λ s, if ContainsAny s "_ /" then ["invalid"] else [];
     IsDNS1035Label := λ s, if ContainsAny s "_ /" then ["invalid"] else [];
     IsDNS1123Subdomain := λ s, if ContainsAny s "_ /" then ["invalid"] else [] |}.
Definition plain_builder (s : Schemas) : Builder := mkBuilder (Some v3) s None false false (λ _, None).
Definition user_schema : Schema :=
  plain_schema "user" {[ "name" := typed_field "string"; "secret" := typed_field "password" ]}.
Definition user_input : obj := {[ "name" := VStr "a"; "secret" := VStr "s3" ]}.
Abbreviation run_construct := (@Construct std_format std_range std_k8s).

Lemma list_hides_secrets_witness :
  ∃ r, run_construct (plain_builder (NewSchemas None)) 2 user_schema (Some user_input) OpList = Ok r ∧
       r !! "secret" = None.
Proof.
  destruct (run_construct (plain_builder (NewSchemas None)) 2 user_schema (Some user_input) OpList) as [r| | |] eqn:Hr;
    [|vm_compute in Hr; discriminate Hr..].
  exists r. split; [done|].
  apply (@list_hides_secrets std_format std_range std_k8s (plain_builder (NewSchemas None)) 2 user_schema
           (Some user_input) OpList r "secret" (typed_field "password") eq_refl Hr).
  1: vm_compute; reflexivity. 1: left; reflexivity. 1-2: discriminate. 1: reflexivity.
  intros d fd _ _ Heq. apply (f_equal (λ s, HasSuffix s "TS")) in Heq. by rewrite HasSuffix_app in Heq.
Defined.

Lemma write_accepts_only_allowed_witness :
  ∃ r, run_construct (plain_builder (NewSchemas None)) 2 user_schema (Some user_input) OpCreate = Ok r ∧
       ∀ k v, r !! k = Some v → is_Some (ResourceFields user_schema !! k).
Proof.
  destruct (run_construct (plain_builder (NewSchemas None)) 2 user_schema (Some user_input) OpCreate) as [r| | |] eqn:Hr;
    [|vm_compute in Hr; discriminate Hr..].
  exists r. split; [done|]. intros k v Hk.
  destruct (@write_accepts_only_allowed std_format std_range std_k8s (plain_builder (NewSchemas None)) 2 user_schema
    (Some user_input) OpCreate r (or_introl eq_refl) Hr) as (Hw & _ & _).
  destruct (Hw k v Hk) as [(f & _ & Hf & _)|(_ & f & Hf & _)]; by exists f.
Defined.

Lemma field_criteria_correct_witness :
  let f := mkField "int" VNil false true false false true None (Some 2) (Some 1) (Some 50) [] "" "" "" "" false in
  @CheckFieldCriteria std_format "port" f (VInt64 42) = None.
Proof.
  intros f. apply (@field_criteria_correct std_format "port" f (VInt64 42)); [right; by exists 42|].
  split_and!; try done; simpl; intros; simplify_eq; lia.
Defined.

Lemma construct_terminates_witness :
  run_construct (plain_builder (NewSchemas None)) 1 user_schema (Some user_input) OpCreate ≠ NoFuel.
Proof.
  apply (@construct_terminates std_format std_range std_k8s); [|vm_compute; lia].
  intros _ sc [->|[t Hsc]].
  - assert (map_Forall (λ _ f, Required f && IsArrayType (Type_ f) = false) (ResourceFields user_schema)) as Hf
      by (apply (bool_decide_unpack _); vm_compute; exact I).
    intros k f Hk. exact (Hf k f Hk).
  - exfalso. cbn [BSchemas BVersion plain_builder] in Hsc.
    destruct (doSchema_filed _ _ _ _ (NewSchemas_ok None) Hsc) as [[p Hf] _]. discriminate Hf.
Defined.

(** A required list of the type itself whose default holds an empty object: a
    create never ends, since the default is built from its own default. *)
Definition loop_field : Field :=
  mkField "array[t]" (VList [VMap ∅]) false true false true true None None None None [] "" "" "" "" false.
Definition loop_schema : Schema := (@setupDefaults std_schema_format (NewSchemas None) (plain_schema "t" {[ "f" := loop_field ]})).2.
Definition loop_registry : Schemas := default (NewSchemas None) (@AddSchema std_range std_schema_format 1 (NewSchemas None) loop_schema).
#[local] Existing Instance std_range.
#[local] Existing Instance std_format.
#[local] Existing Instance std_k8s.
Example create_diverges fuel :
  run_construct (plain_builder loop_registry) fuel loop_schema (Some ∅) OpCreate = NoFuel.
Proof.
  assert (∀ conv : string → value → Operation → res value, conv "t" (VMap ∅) OpCreate = NoFuel →
    @construct std_format std_range (plain_builder loop_registry) conv loop_schema (Some ∅) OpCreate = NoFuel) as Hstep.
  { intros conv Hc. vm_compute in Hc |- *. by rewrite Hc. }
  assert (@Schemas_Schema std_range loop_registry (Some v3) "t" = Some loop_schema) as Hsc by (vm_compute; reflexivity).
  apply Hstep. induction fuel as [|fuel IH]; [done|]. cbn [convert]. unfold convertType.
  change (Schemas_Schema (BSchemas (plain_builder loop_registry)) (BVersion (plain_builder loop_registry)) "t")
    with (Schemas_Schema loop_registry (Some v3) "t"). rewrite Hsc. cbn [as_map].
  change (is_nil (VMap ∅)) with false. change (IsMapType "t") with false. change (IsArrayType "t") with false.
  change (IsReferenceType "t") with false. change (ConvertSimple "t" (VMap ∅) OpCreate) with (Ok (A := option value) None).
  cbn [mbind res_bind]. by rewrite (Hstep _ IH).
Qed.
