(* ===== verification/Controller.v ===== *)
(** * The generic controller

    Models controller/generic_controller.go: the handlers registered with a
    controller, the generations that let late handlers see every object again,
    the processing of one work item and what becomes of its key in the queue.

    The informer's store and the handlers are parameters; a handler may change
    the world [W] it runs in, also when it panics.  The calls on the rate limited queue (client-go)
    are recorded in order.  A handler is known by the address of its
    [handlerDef]: the same function may be registered twice. *)

From S2P Require Import Prelude GoStrings Values Errors TypeNames.

Section Controller.
Context {O W : Type}.

Abbreviation HandlerFunc := (W → string → option O → W * go (option O * option error)).

Record handlerDef := mkHandlerDef {
  hptr : nat;                     (* its address *)
  hname : string;
  hgeneration : Z;
  handler : HandlerFunc
}.

(** Keys of the queue: a string, or a generationKey. *)
Inductive queueKey := Key (s : string) | GenerationKey (generation : Z) (key : string).
Inductive queueCall := QAdd (k : queueKey) | QForget (k : queueKey) | QAddRateLimited (k : queueKey) | QDone (k : queueKey).

Record genericController := mkController {
  threadinessOverride : Z;
  generation : Z;
  handlers : list handlerDef;
  queue : list queueCall;
  gname : string;
  running : bool;
  synced : bool;
  workers : Z                     (* the workers [run] was started with *)
}.

Definition with_handlers (g : genericController) (hs : list handlerDef) : genericController :=
  mkController (threadinessOverride g) (generation g) hs (queue g) (gname g) (running g) (synced g) (workers g).
Definition call_queue (g : genericController) (c : list queueCall) : genericController :=
  mkController (threadinessOverride g) (generation g) (handlers g) (queue g ++ c) (gname g) (running g) (synced g) (workers g).

Definition NewGenericController (name : string) : genericController := mkController 0 0 [] [] name false false 0.
Definition SetThreadinessOverride (g : genericController) (count : Z) : genericController :=
  mkController count (generation g) (handlers g) (queue g) (gname g) (running g) (synced g) (workers g).
Definition HandlerCount (g : genericController) : Z := Z.of_nat (length (handlers g)).

Definition Enqueue (g : genericController) (namespace name : string) : genericController :=
  call_queue g [QAdd (Key (if decide (namespace = "") then name else namespace +:+ "/" +:+ name))].

(** AddHandler: [ptr] is the address of the new definition. *)
Definition AddHandler (g : genericController) (ptr : nat) (name : string) (h : HandlerFunc) : genericController :=
  with_handlers g (handlers g ++ [mkHandlerDef ptr name (generation g) h]).

(** The goroutine AddHandler starts, once its context is done.  The loop
    appends [h], the definition to remove, for every handler that is not it. *)
Definition handler_done (g : genericController) (h : handlerDef) : genericController :=
  with_handlers g (foldl (λ hs x, if decide (hptr x ≠ hptr h) then hs ++ [h] else hs) [] (handlers g)).

(** queueObject on a generationKey, or on an object with its key. *)
Definition queueObject (g : genericController) (k : queueKey) : genericController := call_queue g [QAdd k].

(** Sync: [cached] says whether the informer's cache synced. *)
Definition sync (g : genericController) (cached : bool) : genericController * option error :=
  if synced g then (g, None)
  else if cached then
    (mkController (threadinessOverride g) (generation g) (handlers g) (queue g) (gname g) (running g) true (workers g), None)
  else (g, Some (ErrorString ("failed to sync controller " +:+ gname g))).

(** Start: [keys] are the keys of the informer's store. *)
Definition Start (g : genericController) (cached : bool) (keys : list string) (threadiness : Z)
  : genericController * option error :=
  match sync g cached with
  | (g, Some err) => (g, Some err)
  | (g, None) =>
      let w := if negb (running g)
               then (if 0 <? threadinessOverride g then threadinessOverride g else threadiness)
               else workers g in
      let calls := if running g && existsb (λ h, hgeneration h =? generation g) (handlers g)
                   then (λ k, QAdd (GenerationKey (generation g) k)) <$> keys else [] in
      (mkController (threadinessOverride g) (generation g + 1) (handlers g) (queue g ++ calls) (gname g) true (synced g) w, None)
  end.

(** ** Errors *)
(** errors.Cause of github.com/pkg/errors: of the errors the controller meets,
    handlerError has a cause. *)
Fixpoint Cause (e : error) : error :=
  match e with HandlerError _ err => Cause err | _ => e end.
Definition IsConflictError (e : error) : bool := match e with Conflict _ => true | _ => false end.
Definition is_forget (e : error) : bool := match e with ForgetError _ _ => true | _ => false end.

Definition ignoreError (e : error) (checkString : bool) : bool :=
  let e := Cause e in
  if IsConflictError e then true
  else if is_forget e then true
  else checkString && HasSuffix (Error e) "please apply your changes to the latest version and try again".

Definition filterConflictsError (e : error) : option error :=
  if ignoreError e false then None
  else match Cause e with
       | MultiErrors errs => NewErrors (Some <$> filter (λ e, ignoreError e true = false) errs)
       | _ => Some e
       end.

(** ** syncHandler *)
Definition key_string (k : queueKey) : string := match k with Key s => s | GenerationKey _ s => s end.
Definition selected (k : queueKey) (h : handlerDef) : bool :=
  match k with
  | Key _ => true
  | GenerationKey gen _ => negb ((-1 <? gen) && negb (hgeneration h =? gen))
  end.

(** The loop over the handlers: the object a handler returns is what the next
    one sees, and its error does not keep the others from running. *)
Fixpoint run_handlers (s : string) (hs : list handlerDef) (w : W) (obj : option O) (errs : list error)
  : W * go (option O * list error) :=
  match hs with
  | [] => (w, Ret (obj, errs))
  | h :: hs' =>
      match handler h w s obj with
      | (w', Panic) => (w', Panic)
      | (w', Ret (_, Some err)) => run_handlers s hs' w' obj (errs ++ [HandlerError (hname h) err])
      | (w', Ret (Some newObj, None)) => run_handlers s hs' w' (Some newObj) errs
      | (w', Ret (None, None)) => run_handlers s hs' w' obj errs
      end
  end.

(** [GetByKey]: the object of a key, absent, or an error.  A panic of a handler
    ends the loop and is reported as an error. *)
Definition recovered : error := ErrorString "recovered from panic".
Definition syncHandler (g : genericController) (GetByKey : string → result (option O)) (w : W) (k : queueKey)
  : W * option error :=
  match GetByKey (key_string k) with
  | inr err => (w, Some err)
  | inl obj =>
      match run_handlers (key_string k) (filter (λ h, selected k h = true) (handlers g)) w obj [] with
      | (w', Ret (_, errs)) => (w', NewErrors (Some <$> errs))
      | (w', Panic) => (w', Some recovered)
      end
  end.

(** processNextWorkItem on the key it got: what it does with the key. *)
Definition requeue_key (k : queueKey) : queueKey := Key (key_string k).
Definition dropped (err : error) : bool :=
  match err with HandlerError _ e => is_forget e | e => is_forget e end.
Definition processNextWorkItem (g : genericController) (GetByKey : string → result (option O)) (w : W) (k : queueKey)
  : genericController * W :=
  let '(w', err) := syncHandler g GetByKey w k in
  match err with
  | None => (call_queue g [QForget k; QDone k], w')
  | Some e => if dropped e then (call_queue g [QForget k; QDone k], w')
              else (call_queue g [QAddRateLimited (requeue_key k); QDone k], w')
  end.

(** ** Theorems *)

(** The cancellation of one handler.  It does not remove the handler: when
    the controller has [n] handlers with distinct addresses, one of them [h],
    afterwards it has [n - 1] and every one of them is [h] itself. *)
Theorem handler_done_replaces_others (g : genericController) (h : handlerDef) :
  NoDup (hptr <$> handlers g) → h ∈ handlers g →
  handlers (handler_done g h) = replicate (length (handlers g) - 1) h.
Proof.
  intros Hnd Hin. unfold handler_done, with_handlers. simpl.
  assert (∀ l acc, foldl (λ hs x, if decide (hptr x ≠ hptr h) then hs ++ [h] else hs) acc l
            = acc ++ replicate (length (filter (λ x, hptr x ≠ hptr h) l)) h) as Hf.
  { induction l as [|x l IH]; intros acc; simpl; [by rewrite app_nil_r|].
    rewrite IH, filter_cons. case_decide; [|done]. simpl. by rewrite <- app_assoc. }
  rewrite Hf. simpl. f_equal. clear Hf.
  apply list_elem_of_split in Hin as (l1 & l2 & Hl). rewrite Hl in *. clear Hl.
  rewrite fmap_app, fmap_cons, NoDup_app in Hnd. destruct Hnd as (Hn1 & Hdis & Hn2).
  apply NoDup_cons in Hn2 as [Hnot Hn2].
  rewrite filter_app, filter_cons, decide_False by naive_solver.
  rewrite !length_app. simpl.
  assert (∀ l : list handlerDef, hptr h ∉ (hptr <$> l) → filter (λ x, hptr x ≠ hptr h) l = l) as Hid.
  { induction l as [|x l IH]; intros Hx; [done|]. rewrite filter_cons, decide_True by set_solver. f_equal.
    apply IH. set_solver. }
  rewrite !Hid; [lia|done|]. intros Hx. apply (Hdis _ Hx). by left.
Qed.

(** Which errors make the controller drop a key instead of trying it again. *)
Lemma dropped_spec (errs : list error) e :
  Forall (λ e, ∃ n e', e = HandlerError n e') errs → NewErrors (Some <$> errs) = Some e →
  dropped e = true ↔ ∃ n err reason, errs = [HandlerError n (ForgetError err reason)].
Proof.
  unfold NewErrors. rewrite omap_id_Some. intros Hall. destruct errs as [|e1 [|e2 errs]]; [done| |].
  - intros [= <-]. apply Forall_singleton in Hall as (n & e' & ->). simpl. destruct e'; simpl; naive_solver.
  - intros [= <-]. simpl. naive_solver.
Qed.

Lemma run_handlers_errors s hs w obj errs w' obj' errs' :
  Forall (λ e, ∃ n e', e = HandlerError n e') errs → run_handlers s hs w obj errs = (w', Ret (obj', errs')) →
  Forall (λ e, ∃ n e', e = HandlerError n e') errs'.
Proof.
  revert w obj errs. induction hs as [|h hs IH]; intros w obj errs Herrs; simpl; [by intros [= <- <- <-]|].
  destruct (handler h w s obj) as [w1 [[[o|] [e|]]|]]; try done; apply IH; try done;
    (apply Forall_app; split; [done|]; apply Forall_singleton; eauto).
Qed.

(** C26: what becomes of a work item.  When the object was looked up and no handler
    panicked, every selected handler has run in order; the key is forgotten when
    none of them failed, or when exactly one did and asked to be forgotten; in
    every other case, also when several failed and all of them asked to be
    forgotten, the plain key (never the generation) is queued again, rate
    limited.  Either way the item is marked done last. *)
Theorem work_item_outcome g GetByKey w k obj w' obj' errs :
  GetByKey (key_string k) = inl obj →
  run_handlers (key_string k) (filter (λ h, selected k h = true) (handlers g)) w obj [] = (w', Ret (obj', errs)) →
  let forgotten := errs = [] ∨ ∃ n err reason, errs = [HandlerError n (ForgetError err reason)] in
  ∃ calls, processNextWorkItem g GetByKey w k = (call_queue g calls, w') ∧
    (forgotten → calls = [QForget k; QDone k]) ∧
    (¬ forgotten → calls = [QAddRateLimited (Key (key_string k)); QDone k]).
Proof.
  intros Hget Hrun forgotten. unfold processNextWorkItem, syncHandler. rewrite Hget, Hrun.
  assert (Forall (λ e, ∃ n e', e = HandlerError n e') errs) as Hall
    by (eapply run_handlers_errors; [|exact Hrun]; done).
  destruct (NewErrors (Some <$> errs)) as [e|] eqn:He.
  - pose proof (dropped_spec errs e Hall He) as Hd.
    assert (errs ≠ []) as Hne by (by intros ->).
    destruct (dropped e); eexists; (split; [done|]); split; unfold forgotten, requeue_key; naive_solver.
  - assert (errs = []) as ->.
    { apply NewErrors_None in He. destruct errs as [|x errs]; [done|]. by inv He. }
    eexists. split; [done|]. split; [done|]. unfold forgotten. naive_solver.
Qed.

(** Handlers are never of a later generation than the controller. *)
Definition generations_ok (g : genericController) : Prop := Forall (λ h, hgeneration h ≤ generation g) (handlers g).

(** A handler that is added while the controller runs gets to see what is
    already there.  The next Start queues every key of the store once more,
    marked with the current generation; such an item is given to exactly the
    handlers of that generation, the new one among them, and not to those that
    have seen the object before; later handlers belong to a later generation. *)
Theorem late_handler_sees_all g cached keys threadiness ptr name h :
  running g = true → synced g = true → 0 ≤ generation g → generations_ok g →
  let g1 := AddHandler g ptr name h in
  ∃ g2, Start g1 cached keys threadiness = (g2, None) ∧
    queue g2 = queue g ++ ((λ k, QAdd (GenerationKey (generation g) k)) <$> keys) ∧
    generation g2 = generation g + 1 ∧ generations_ok g2 ∧
    (∀ k, let chosen := filter (λ x, selected (GenerationKey (generation g) k) x = true) (handlers g2) in
       chosen = filter (λ x, hgeneration x = generation g) (handlers g2) ∧
       mkHandlerDef ptr name (generation g) h ∈ chosen).
Proof.
  intros Hr Hs Hg Hok g1. unfold Start, sync. simpl. rewrite Hs. simpl. rewrite Hr. simpl.
  assert (existsb (λ h, hgeneration h =? generation g) (handlers g ++ [mkHandlerDef ptr name (generation g) h]) = true) as ->.
  { rewrite existsb_app. simpl. rewrite Z.eqb_refl. by rewrite orb_true_r. }
  eexists. split; [done|]. simpl. split_and!; try done.
  - unfold generations_ok in *. simpl. apply Forall_app. split; [|apply Forall_singleton; simpl; lia].
    eapply Forall_impl; [exact Hok|]. simpl. lia.
  - intros k. assert (∀ l : list handlerDef, filter (λ x, selected (GenerationKey (generation g) k) x = true) l
      = filter (λ x, hgeneration x = generation g) l) as ->.
    { intros l. apply list_filter_iff. intros x. simpl. rewrite (proj2 (Z.ltb_lt (-1) _)) by lia. simpl.
      rewrite negb_involutive. apply Z.eqb_eq. }
    split; [done|]. apply list_elem_of_filter. simpl. split; [done|]. set_solver.
Qed.
End Controller.

Arguments handlerDef : clear implicits.
Arguments genericController : clear implicits.

(** ** A controller with two handlers *)
Definition quiet : nat → string → option nat → nat * go (option nat * option error) :=
  λ w _ o, (S w, Ret (o, None)).
Definition forgetting : nat → string → option nat → nat * go (option nat * option error) :=
  λ w _ o, (S w, Ret (None, Some (ForgetError (ErrorString "stop") ""))).
Definition two_handlers : genericController nat nat :=
  AddHandler (AddHandler (NewGenericController "c") 1 "a" quiet) 2 "b" forgetting.

Lemma work_item_outcome_witness :
  ∃ calls, processNextWorkItem two_handlers (λ _, inl (Some 7%nat)) 0%nat (Key "ns/x") = (call_queue two_handlers calls, 2%nat) ∧
    calls = [QForget (Key "ns/x"); QDone (Key "ns/x")].
Proof.
  destruct (work_item_outcome two_handlers (λ _, inl (Some 7%nat)) 0%nat (Key "ns/x") (Some 7%nat) 2%nat (Some 7%nat)
    [HandlerError "b" (ForgetError (ErrorString "stop") "")] eq_refl eq_refl) as (calls & Hp & Hf & _).
  exists calls. split; [exact Hp|]. apply Hf. right. by repeat eexists.
Defined.

Definition started : genericController nat nat := (Start two_handlers true [] 1).1.
Lemma late_handler_sees_all_witness :
  ∃ g2, Start (AddHandler started 3 "late" quiet) true ["x"] 1 = (g2, None) ∧
        queue g2 = [QAdd (GenerationKey 1 "x")].
Proof.
  destruct (late_handler_sees_all started true ["x"] 1 3 "late" quiet) as (g2 & Hs & Hq & _); [done|done|done| |].
  - repeat constructor; vm_compute; discriminate.
  - by exists g2.
Defined.

(** Two handlers that both ask to be forgotten: the key is tried again. *)
Example both_forget_is_retried :
  let g := AddHandler (AddHandler (NewGenericController "c") 1 "a" forgetting) 2 "b" forgetting in
  queue (processNextWorkItem g (λ _, inl None) 0%nat (Key "x")).1
  = [QAddRateLimited (Key "x"); QDone (Key "x")].
Proof. reflexivity. Qed.

(** Cancelling the first of three handlers leaves two copies of it. *)
Example cancelled_handler_stays :
  let g := AddHandler two_handlers 3 "c" quiet in
  hname <$> handlers (handler_done g (mkHandlerDef 1 "a" 0 quiet)) = ["a"; "a"].
Proof. reflexivity. Qed.
