(* ===== verification/Workers.v ===== *)
(** * A controller at work

    Composes [Controller] with what it runs on: run and runWorker of
    controller/generic_controller.go and the work queue of client-go
    (vendor/k8s.io/client-go/util/workqueue/queue.go).  Any number of workers
    take keys from the queue, while the informer, other goroutines and the timers
    of keys that are tried again add some.

    The controller is a transition system.  A worker takes a key in one step and
    handles it in a later one: the handlers of different workers are put one
    after the other, but anything may happen between the two. *)

From S2P Require Import Prelude GoStrings Values Errors TypeNames Controller.

#[export] Instance queueKey_eq_dec : EqDecision queueKey.
Proof. solve_decision. Defined.
#[export] Instance queueKey_countable : Countable queueKey.
Proof.
  apply (inj_countable' (λ k, match k with Key s => (None, s) | GenerationKey g s => (Some g, s) end)
    (λ p, match p with (None, s) => Key s | (Some g, s) => GenerationKey g s end)). by intros [].
Defined.

(** ** The work queue *)
Record workqueue := mkQueue {
  q_queue : list queueKey;
  q_dirty : gset queueKey;
  q_processing : gset queueKey;
  q_shuttingDown : bool
}.
Definition NewQueue : workqueue := mkQueue [] ∅ ∅ false.
Definition queue_Add (q : workqueue) (item : queueKey) : workqueue :=
  if q_shuttingDown q then q
  else if decide (item ∈ q_dirty q) then q
  else mkQueue (if decide (item ∈ q_processing q) then q_queue q else q_queue q ++ [item])
         ({[ item ]} ∪ q_dirty q) (q_processing q) (q_shuttingDown q).
(** Get waits (None), tells that the queue is shut down, or takes an item. *)
Definition queue_Get (q : workqueue) : option (option queueKey * workqueue) :=
  match q_queue q with
  | item :: queue => Some (Some item, mkQueue queue (q_dirty q ∖ {[ item ]}) ({[ item ]} ∪ q_processing q) (q_shuttingDown q))
  | [] => if q_shuttingDown q then Some (None, q) else None
  end.
Definition queue_Done (q : workqueue) (item : queueKey) : workqueue :=
  mkQueue (if decide (item ∈ q_dirty q) then q_queue q ++ [item] else q_queue q) (q_dirty q) (q_processing q ∖ {[ item ]})
    (q_shuttingDown q).
Definition queue_ShutDown (q : workqueue) : workqueue := mkQueue (q_queue q) (q_dirty q) (q_processing q) true.
(** The items in the queue are those that wait and are not in work. *)
Record queue_ok (q : workqueue) : Prop := {
  qo_queue : ∀ k, k ∈ q_queue q ↔ k ∈ q_dirty q ∧ k ∉ q_processing q;
  qo_once : NoDup (q_queue q)
}.
Lemma queue_Add_dirty q k :
  q_shuttingDown (queue_Add q k) = q_shuttingDown q ∧
  q_dirty (queue_Add q k) = if q_shuttingDown q then q_dirty q else {[ k ]} ∪ q_dirty q.
Proof.
  unfold queue_Add. destruct (q_shuttingDown q) eqn:Hs; [done|]. destruct (decide (k ∈ q_dirty q)); simpl; [|done].
  split; [done|]. apply leibniz_equiv. set_solver.
Qed.
Lemma queue_Add_ok q k : queue_ok q → queue_ok (queue_Add q k) ∧ q_processing (queue_Add q k) = q_processing q.
Proof.
  intros [Hq Hn]. unfold queue_Add. destruct (q_shuttingDown q); [done|]. destruct (decide (k ∈ q_dirty q)) as [Hd|Hd]; [done|].
  split; [|done]. destruct (decide (k ∈ q_processing q)) as [Hp|Hp]; split; simpl.
  - intros k'. rewrite Hq. set_solver.
  - done.
  - intros k'. rewrite elem_of_app, Hq, list_elem_of_singleton. set_solver.
  - apply NoDup_app. split; [done|]. split; [|apply NoDup_singleton]. intros k' Hk' ->%list_elem_of_singleton. by apply Hq in Hk' as [? _].
Qed.
Lemma queue_Done_ok q k : queue_ok q → k ∈ q_processing q → queue_ok (queue_Done q k).
Proof.
  intros [Hq Hn] Hp. unfold queue_Done. destruct (decide (k ∈ q_dirty q)) as [Hd|Hd]; split; simpl.
  - intros k'. rewrite elem_of_app, Hq, list_elem_of_singleton. destruct (decide (k' = k)) as [->|]; set_solver.
  - apply NoDup_app. split; [done|]. split; [|apply NoDup_singleton]. intros k' Hk' ->%list_elem_of_singleton. by apply Hq in Hk' as [_ ?].
  - intros k'. rewrite Hq. destruct (decide (k' = k)) as [->|]; set_solver.
  - done.
Qed.
Lemma queue_Get_ok q k q' : queue_ok q → queue_Get q = Some (Some k, q') →
  queue_ok q' ∧ k ∈ q_dirty q ∧ k ∉ q_processing q ∧ q_processing q' = {[ k ]} ∪ q_processing q ∧ q_dirty q' = q_dirty q ∖ {[ k ]} ∧
  q_shuttingDown q' = q_shuttingDown q.
Proof.
  intros [Hq Hn] Hg. unfold queue_Get in Hg. destruct (q_queue q) as [|x l] eqn:Hl; [by destruct (q_shuttingDown q)|].
  injection Hg as -> <-. apply NoDup_cons in Hn as [Hx Hn]. assert (k ∈ q_dirty q ∧ k ∉ q_processing q) as [Hd Hp] by (apply Hq; by left).
  split; [|by split_and!]. split; [|done]. simpl. intros k'. specialize (Hq k'). rewrite elem_of_cons in Hq.
  destruct (decide (k' = k)) as [->|]; set_solver.
Qed.

(** ** The controller and its workers *)
Section Workers.
Context {O W : Type}.
(** The informer's store is part of the world. *)
Variable GetByKey : W → string → result (option O).

Inductive worker := Idle | Working (k : queueKey) | Stopped.
(** With the keys that wait for the time to be tried again. *)
Record station := mkStation {
  st_g : genericController O W;
  st_queue : workqueue;
  st_delayed : list queueKey;
  st_workers : list worker;
  st_world : W
}.
(** run: as many workers as Start said, all of them at their loop. *)
Definition run (g : genericController O W) (w : W) : station := mkStation g NewQueue [] (replicate (Z.to_nat (workers g)) Idle) w.

(** The calls that [Controller] records.  A rate limited add waits, and a queue
    that shuts down takes none (client-go/util/workqueue/delaying_queue.go).  The
    times are not kept: any key that waits may be the next to be added, and one
    that is added twice may wait twice. *)
Definition queue_call (s : workqueue * list queueKey) (c : queueCall) : workqueue * list queueKey :=
  let '(q, delayed) := s in
  match c with
  | QAdd k => (queue_Add q k, delayed)
  | QForget _ => (q, delayed)
  | QAddRateLimited k => (q, if q_shuttingDown q then delayed else delayed ++ [k])
  | QDone k => (queue_Done q k, delayed)
  end.
Definition new_calls (g g' : genericController O W) : list queueCall := drop (length (queue g)) (queue g').
Definition with_calls (st : station) (g : genericController O W) (ws : list worker) (w : W) : station :=
  let '(q, delayed) := foldl queue_call (st_queue st, st_delayed st) (new_calls (st_g st) g) in mkStation g q delayed ws w.

Inductive label :=
| Notified (key : string)                                   (* an event of the informer, or Enqueue *)
| StoreChanges (w : W)                                      (* the cache, and whatever else *)
| TimerFires (n : nat)
| Takes (i : nat)                                           (* runWorker: the queue gives a key *)
| Handles (i : nat)                                         (* the rest of processNextWorkItem *)
| Quits (i : nat)                                           (* runWorker returns *)
| ShutsDown                                                 (* run: the context is done *)
| StartsAgain (cached : bool) (keys : list string) (threadiness : Z)
| AddsHandler (ptr : nat) (name : string) (h : W → string → option O → W * go (option O * option error)).
Definition step (st : station) (l : label) : option station :=
  match l with
  | Notified key => Some (with_calls st (queueObject (st_g st) (Key key)) (st_workers st) (st_world st))
  | StoreChanges w => Some (mkStation (st_g st) (st_queue st) (st_delayed st) (st_workers st) w)
  | TimerFires n =>
      k ← st_delayed st !! n;
      Some (mkStation (st_g st) (queue_Add (st_queue st) k) (delete n (st_delayed st)) (st_workers st) (st_world st))
  | Takes i =>
      match st_workers st !! i, queue_Get (st_queue st) with
      | Some Idle, Some (Some k, q) => Some (mkStation (st_g st) q (st_delayed st) (<[i := Working k]> (st_workers st)) (st_world st))
      | _, _ => None
      end
  | Handles i =>
      match st_workers st !! i with
      | Some (Working k) =>
          let '(g, w) := processNextWorkItem (st_g st) (GetByKey (st_world st)) (st_world st) k in
          Some (with_calls st g (<[i := Idle]> (st_workers st)) w)
      | _ => None
      end
  | Quits i =>
      match st_workers st !! i, queue_Get (st_queue st) with
      | Some Idle, Some (None, q) => Some (mkStation (st_g st) q (st_delayed st) (<[i := Stopped]> (st_workers st)) (st_world st))
      | _, _ => None
      end
  | ShutsDown => Some (mkStation (st_g st) (queue_ShutDown (st_queue st)) (st_delayed st) (st_workers st) (st_world st))
  | StartsAgain cached keys threadiness =>
      if running (st_g st) then Some (with_calls st (Start (st_g st) cached keys threadiness).1 (st_workers st) (st_world st)) else None
  | AddsHandler ptr name h => Some (with_calls st (AddHandler (st_g st) ptr name h) (st_workers st) (st_world st))
  end.
(** The key a step takes out of the queue. *)
Definition takes (st : station) (l : label) : list queueKey :=
  match l, queue_Get (st_queue st) with Takes _, Some (Some k, _) => [k] | _, _ => [] end.
Fixpoint runs (st : station) (ls : list label) : option (station * list queueKey) :=
  match ls with
  | [] => Some (st, [])
  | l :: ls => st' ← step st l; '(st'', taken) ← runs st' ls; Some (st'', takes st l ++ taken)
  end.
Definition reachable (st : station) : Prop := ∃ g w ls taken, runs (run g w) ls = Some (st, taken).

(** ** The invariant *)
Record station_ok (st : station) : Prop := mkStationOk {
  so_queue : queue_ok (st_queue st);
  so_working : ∀ k, k ∈ q_processing (st_queue st) ↔ ∃ i, st_workers st !! i = Some (Working k);
  so_once : ∀ i j k, st_workers st !! i = Some (Working k) → st_workers st !! j = Some (Working k) → i = j;
  so_stopped : st_workers st ≠ [] → Forall (λ x, x = Stopped) (st_workers st) →
    q_queue (st_queue st) = [] ∧ q_shuttingDown (st_queue st) = true
}.
Lemma run_station_ok g w : station_ok (run g w).
Proof.
  split; simpl.
  - split; simpl; [set_solver|constructor].
  - intros k. split; [set_solver|]. intros [i [Hi _]%lookup_replicate]. done.
  - intros i j k [Hi _]%lookup_replicate. done.
  - destruct (Z.to_nat (workers g)); [done|]. intros _ [Hx _]%Forall_cons. done.
Qed.

(** What the calls of the controller are. *)
Lemma process_calls g G w k g' w' : processNextWorkItem g G w k = (g', w') →
  ∃ x, new_calls g g' = [x; QDone k] ∧ (x = QForget k ∨ x = QAddRateLimited (requeue_key k)).
Proof.
  unfold processNextWorkItem, new_calls. destruct (syncHandler g G w k) as [w1 err].
  destruct err as [e|]; [destruct (dropped e)|]; intros [= <- _]; simpl; rewrite drop_app_length; eauto.
Qed.
Definition is_add (c : queueCall) : Prop := match c with QAdd _ => True | _ => False end.
Lemma Start_calls g cached keys threadiness : Forall is_add (new_calls g (Start g cached keys threadiness).1).
Proof.
  unfold Start, sync, new_calls. destruct (synced g); [|destruct cached; [|simpl; by rewrite drop_all]]; simpl; rewrite drop_app_length;
    (destruct (_ && _); [|done]); apply Forall_fmap, Forall_true; done.
Qed.
Lemma adds_ok l : ∀ q d, Forall is_add l → queue_ok q →
  let '(q', d') := foldl queue_call (q, d) l in
  queue_ok q' ∧ q_processing q' = q_processing q ∧ d' = d ∧ (q_shuttingDown q = true → q' = q) ∧ q_shuttingDown q' = q_shuttingDown q.
Proof.
  induction l as [|c l IH]; intros q d Hl Hq; [done|]. apply Forall_cons in Hl as [Hc Hl]. destruct c as [k| | |]; try done. simpl.
  destruct (queue_Add_ok q k Hq) as [Hq' Hp]. specialize (IH (queue_Add q k) d Hl Hq'). destruct (foldl _ _ l) as [q' d'].
  destruct IH as (H1 & H2 & H3 & H4 & H5). unfold queue_Add in *. destruct (q_shuttingDown q) eqn:Es; [by rewrite H4|].
  split_and!; try done; [congruence|]. rewrite H5. by destruct (decide _).
Qed.
(** New keys leave the workers what they are. *)
Lemma adds_keep st q d g w :
  station_ok st → queue_ok q → q_processing q = q_processing (st_queue st) →
  (q_shuttingDown (st_queue st) = true → q_queue q = q_queue (st_queue st)) →
  (q_shuttingDown (st_queue st) = true → q_shuttingDown q = true) →
  station_ok (mkStation g q d (st_workers st) w).
Proof.
  intros [Hq Hw Ho Hs] Hq' Hp Hsh Hsd. split; simpl; try done; [by rewrite Hp|].
  intros Hne Hall. destruct (Hs Hne Hall) as [He Ht]. by rewrite Hsh, Hsd.
Qed.
Lemma with_calls_keep st g w : station_ok st → Forall is_add (new_calls (st_g st) g) → station_ok (with_calls st g (st_workers st) w).
Proof.
  intros Hok Hl. unfold with_calls. pose proof (adds_ok _ (st_queue st) (st_delayed st) Hl (so_queue _ Hok)) as Ha.
  destruct (foldl _ _ _) as [q d]. destruct Ha as (H1 & H2 & _ & H4 & H5). apply adds_keep; try done; intros Hs; [by rewrite H4|by rewrite H5].
Qed.
Lemma not_all_stopped (ws : list worker) i x : is_Some (ws !! i) → x ≠ Stopped → ¬ Forall (λ x, x = Stopped) (<[i := x]> ws).
Proof.
  intros Hi%lookup_lt_is_Some Hx Hall. rewrite Forall_lookup in Hall. apply Hx, (Hall i). by apply list_lookup_insert_eq.
Qed.
Lemma lookup_insert_worker (ws : list worker) i x j y :
  is_Some (ws !! i) → (<[i := x]> ws !! j = Some y ↔ (j = i ∧ y = x) ∨ (j ≠ i ∧ ws !! j = Some y)).
Proof.
  intros Hi%lookup_lt_is_Some. destruct (decide (j = i)) as [->|Hne].
  - rewrite list_lookup_insert_eq by done. naive_solver.
  - rewrite list_lookup_insert_ne by done. naive_solver.
Qed.
Lemma takes_ok st i k q :
  station_ok st → st_workers st !! i = Some Idle → queue_Get (st_queue st) = Some (Some k, q) →
  station_ok (mkStation (st_g st) q (st_delayed st) (<[i := Working k]> (st_workers st)) (st_world st)).
Proof.
  intros [Hq Hw Ho Hs] Hi Hg. assert (is_Some (st_workers st !! i)) as Hsi by by eexists.
  destruct (queue_Get_ok _ _ _ Hq Hg) as (Hq' & Hd & Hp & Hpe & _). split; simpl.
  - done.
  - intros k'. rewrite Hpe, elem_of_union, elem_of_singleton, Hw. setoid_rewrite (lookup_insert_worker _ i (Working k) _ _ Hsi).
    split; [|naive_solver]. intros [->|[j Hj]]; [by exists i; left|]. exists j. right. split; [congruence|done].
  - intros a b k'. rewrite !lookup_insert_worker by done. intros [[-> Ha]|[Ha1 Ha2]] [[-> Hb]|[Hb1 Hb2]]; [done| | |by eapply Ho].
    + injection Ha as ->. destruct Hp. apply Hw. by exists b.
    + injection Hb as ->. destruct Hp. apply Hw. by exists a.
  - intros _ Hall. by destruct (not_all_stopped _ i (Working k) Hsi ltac:(done) Hall).
Qed.
Lemma handles_ok st i k g w :
  station_ok st → st_workers st !! i = Some (Working k) → (∃ x, new_calls (st_g st) g = [x; QDone k] ∧ (x = QForget k ∨ x = QAddRateLimited (requeue_key k))) →
  station_ok (with_calls st g (<[i := Idle]> (st_workers st)) w).
Proof.
  intros [Hq Hw Ho Hs] Hi (x & Hx & Hc). assert (is_Some (st_workers st !! i)) as Hsi by by eexists.
  assert (∃ d, with_calls st g (<[i := Idle]> (st_workers st)) w = mkStation g (queue_Done (st_queue st) k) d (<[i := Idle]> (st_workers st)) w) as [d ->].
  { unfold with_calls. rewrite Hx. destruct Hc as [-> | ->]; by eexists. }
  split; simpl.
  - apply queue_Done_ok; [done|]. apply Hw. by exists i.
  - intros k'. unfold queue_Done. simpl. rewrite elem_of_difference, not_elem_of_singleton, Hw. setoid_rewrite (lookup_insert_worker _ i Idle _ _ Hsi).
    split.
    + intros [[j Hj] Hne]. exists j. right. split; [|done]. congruence.
    + intros [j [[_ ?]|[Hne Hj]]]; [done|]. split; [by exists j|]. intros ->. by apply Hne, (Ho j i k).
  - intros a b k'. rewrite !lookup_insert_worker by done. intros [[_ ?]|[Ha1 Ha2]] [[_ ?]|[Hb1 Hb2]]; try done. by eapply Ho.
  - intros _ Hall. by destruct (not_all_stopped _ i Idle Hsi ltac:(done) Hall).
Qed.
Lemma quits_ok st i q :
  station_ok st → st_workers st !! i = Some Idle → queue_Get (st_queue st) = Some (None, q) →
  q = st_queue st ∧ station_ok (mkStation (st_g st) q (st_delayed st) (<[i := Stopped]> (st_workers st)) (st_world st)).
Proof.
  intros [Hq Hw Ho Hs] Hi Hg. assert (is_Some (st_workers st !! i)) as Hsi by by eexists.
  unfold queue_Get in Hg. destruct (q_queue (st_queue st)) as [|x l] eqn:Hl; [|done]. destruct (q_shuttingDown (st_queue st)) eqn:Hsd; [|done].
  injection Hg as <-. split; [done|]. split; simpl.
  - done.
  - intros k. rewrite Hw. setoid_rewrite (lookup_insert_worker _ i Stopped _ _ Hsi). split; [|naive_solver].
    intros [j Hj]. exists j. right. split; [congruence|done].
  - intros a b k. rewrite !lookup_insert_worker by done. intros [[_ ?]|[Ha1 Ha2]] [[_ ?]|[Hb1 Hb2]]; try done. by eapply Ho.
  - done.
Qed.
Lemma step_station_ok st l st' : station_ok st → step st l = Some st' → station_ok st'.
Proof.
  intros Hok Hst. destruct l as [key|w|n|i|i|i| |cached keys t|ptr name h]; simpl in Hst.
  - injection Hst as <-. apply with_calls_keep; [done|]. unfold new_calls, queueObject. simpl. rewrite drop_app_length. by repeat constructor.
  - injection Hst as <-. by apply adds_keep; try done; destruct Hok.
  - destruct (st_delayed st !! n) as [k|]; [|done]. injection Hst as <-. destruct (queue_Add_ok (st_queue st) k (so_queue _ Hok)).
    apply adds_keep; [done..| |]; intros Hs; unfold queue_Add; by rewrite Hs.
  - destruct (st_workers st !! i) as [[]|] eqn:Hi; try done. destruct (queue_Get (st_queue st)) as [[[k|] q]|] eqn:Hg; try done.
    injection Hst as <-. by apply takes_ok.
  - destruct (st_workers st !! i) as [[| k|]|] eqn:Hi; try done. destruct (processNextWorkItem _ _ _ _) as [g w] eqn:Hp.
    injection Hst as <-. apply (handles_ok st i k); try done. by eapply process_calls.
  - destruct (st_workers st !! i) as [[]|] eqn:Hi; try done. destruct (queue_Get (st_queue st)) as [[[k|] q]|] eqn:Hg; try done.
    injection Hst as <-. by apply quits_ok.
  - injection Hst as <-. destruct Hok as [[Hq Hn] Hw Ho Hs]. split; simpl; try done. intros Hne Hall. by destruct (Hs Hne Hall).
  - destruct (running _); [|done]. injection Hst as <-. apply with_calls_keep; [done|]. apply Start_calls.
  - injection Hst as <-. apply with_calls_keep; [done|]. unfold new_calls, AddHandler. simpl. by rewrite drop_all.
Qed.
Lemma runs_station_ok ls : ∀ st st' taken, station_ok st → runs st ls = Some (st', taken) → station_ok st'.
Proof.
  induction ls as [|l ls IH]; intros st st' taken Hok Hr; simpl in Hr; [by injection Hr as <- _|].
  destruct (step st l) as [st1|] eqn:Hs; [|done]. simpl in Hr. destruct (runs st1 ls) as [[st2 t]|] eqn:Hr1; [|done]. injection Hr as <- _.
  eapply IH; [|done]. by eapply step_station_ok.
Qed.
Lemma reachable_station_ok st : reachable st → station_ok st.
Proof. intros (g & w & ls & taken & Hr). eapply runs_station_ok; [apply run_station_ok|done]. Qed.

(** ** Nothing is lost

    A key is owed as long as it waits in the queue, is to be queued again when
    the work on it is done, or waits to be tried again. *)
Definition owed (k : queueKey) (st : station) : Prop := k ∈ q_dirty (st_queue st) ∨ k ∈ st_delayed st.
Lemma queue_call_owes k l : ∀ q d,
  let '(q', d') := foldl queue_call (q, d) l in
  (k ∈ q_dirty q → k ∈ q_dirty q') ∧ (k ∈ d → k ∈ d') ∧ q_shuttingDown q' = q_shuttingDown q ∧
  (q_shuttingDown q = false → QAdd k ∈ l ∨ QAddRateLimited k ∈ l → k ∈ q_dirty q' ∨ k ∈ d').
Proof.
  induction l as [|c l IH]; intros q d; [simpl; set_solver|]. simpl. destruct c as [x|x|x|x].
  - specialize (IH (queue_Add q x) d). destruct (foldl _ _ l) as [q' d']. destruct IH as (H1 & H2 & H3 & H4).
    destruct (queue_Add_dirty q x) as [Hs Hd]. rewrite Hs, Hd in *.
    split_and!; [intros Hk; apply H1; destruct (q_shuttingDown q); set_solver|done|done|].
    intros Hsd [Hin|Hin]; [|apply H4; [done|right; set_solver]].
    apply elem_of_cons in Hin as [[= <-]|Hin]; [|by apply H4; auto]. left. apply H1. rewrite Hsd. set_solver.
  - specialize (IH q d). destruct (foldl _ _ l) as [q' d']. destruct IH as (H1 & H2 & H3 & H4). split_and!; try done.
    intros Hsd [Hin|Hin]; apply H4; try done; set_solver.
  - specialize (IH q (if q_shuttingDown q then d else d ++ [x])). destruct (foldl _ _ l) as [q' d']. destruct IH as (H1 & H2 & H3 & H4).
    split_and!; [done| |done|].
    + intros Hk. apply H2. destruct (q_shuttingDown q); [done|set_solver].
    + intros Hsd [Hin|Hin]; [apply H4; [done|left; set_solver]|]. apply elem_of_cons in Hin as [[= <-]|Hin]; [|by apply H4; auto].
      right. apply H2. rewrite Hsd. set_solver.
  - specialize (IH (queue_Done q x) d). destruct (foldl _ _ l) as [q' d']. destruct IH as (H1 & H2 & H3 & H4). split_and!; try done.
    intros Hsd [Hin|Hin]; apply H4; try done; set_solver.
Qed.
Lemma with_calls_owes k st g ws w :
  (owed k st → owed k (with_calls st g ws w)) ∧ q_shuttingDown (st_queue (with_calls st g ws w)) = q_shuttingDown (st_queue st) ∧
  (q_shuttingDown (st_queue st) = false → QAdd k ∈ new_calls (st_g st) g ∨ QAddRateLimited k ∈ new_calls (st_g st) g → owed k (with_calls st g ws w)).
Proof.
  unfold owed, with_calls. pose proof (queue_call_owes k (new_calls (st_g st) g) (st_queue st) (st_delayed st)) as Hc.
  destruct (foldl _ _ _) as [q d]. simpl. naive_solver.
Qed.
Lemma elem_of_delete {A} (l : list A) n x y : l !! n = Some y → x ∈ l → x = y ∨ x ∈ delete n l.
Proof.
  intros Hn Hx. rewrite <- (take_drop_middle l n y Hn) in Hx. rewrite delete_take_drop. set_solver.
Qed.
(** A step does not lose a key: it takes it out of the queue, or the key is still
    owed, but for one that shuts down. *)
Lemma step_owes st l st' k :
  station_ok st → step st l = Some st' → q_shuttingDown (st_queue st') = false →
  q_shuttingDown (st_queue st) = false ∧ (owed k st → k ∈ takes st l ∨ owed k st').
Proof.
  intros Hok Hst Hsd. destruct l as [key|w|n|i|i|i| |cached keys t|ptr name h]; simpl in Hst; unfold takes.
  - injection Hst as <-. destruct (with_calls_owes k st (queueObject (st_g st) (Key key)) (st_workers st) (st_world st)) as (H1 & H2 & _).
    rewrite H2 in Hsd. split; [done|]. by right; apply H1.
  - injection Hst as <-. split; [done|]. by right.
  - destruct (st_delayed st !! n) as [y|] eqn:Hn; [|done]. injection Hst as <-. simpl in Hsd. unfold owed. simpl.
    destruct (queue_Add_dirty (st_queue st) y) as [Hs Hd]. rewrite Hs in Hsd. rewrite Hsd in Hd. split; [done|].
    rewrite Hd. intros [Hk|Hk]; right; [left; set_solver|]. destruct (elem_of_delete _ _ _ _ Hn Hk) as [->|?]; [left; set_solver|by right].
  - destruct (st_workers st !! i) as [[]|]; try done. destruct (queue_Get (st_queue st)) as [[[y|] q]|] eqn:Hg; try done.
    injection Hst as <-. simpl in Hsd. destruct (queue_Get_ok _ _ _ (so_queue _ Hok) Hg) as (_ & _ & _ & _ & Hd & Hs). split; [congruence|].
    unfold owed. simpl. rewrite Hd. intros [Hk|Hk]; [|by right; right]. destruct (decide (k = y)) as [->|]; [left; set_solver|right; left; set_solver].
  - destruct (st_workers st !! i) as [[| y|]|]; try done. destruct (processNextWorkItem _ _ _ _) as [g w]. injection Hst as <-.
    destruct (with_calls_owes k st g (<[i := Idle]> (st_workers st)) w) as (H1 & H2 & _). rewrite H2 in Hsd. split; [done|]. by right; apply H1.
  - destruct (st_workers st !! i) as [[]|] eqn:Hi; try done. destruct (queue_Get (st_queue st)) as [[[y|] q]|] eqn:Hg; try done.
    injection Hst as <-. destruct (quits_ok _ _ _ Hok Hi Hg) as [-> _]. split; [done|]. by right.
  - injection Hst as <-. done.
  - destruct (running _); [|done]. injection Hst as <-.
    destruct (with_calls_owes k st (Start (st_g st) cached keys t).1 (st_workers st) (st_world st)) as (H1 & H2 & _).
    rewrite H2 in Hsd. split; [done|]. by right; apply H1.
  - injection Hst as <-. destruct (with_calls_owes k st (AddHandler (st_g st) ptr name h) (st_workers st) (st_world st)) as (H1 & H2 & _).
    rewrite H2 in Hsd. split; [done|]. by right; apply H1.
Qed.
Lemma runs_owe k ls : ∀ st st' taken,
  station_ok st → runs st ls = Some (st', taken) → q_shuttingDown (st_queue st') = false →
  q_shuttingDown (st_queue st) = false ∧ (owed k st → k ∈ taken ∨ owed k st').
Proof.
  induction ls as [|l ls IH]; intros st st' taken Hok Hr Hsd; simpl in Hr; [injection Hr as <- <-; by split; [|right]|].
  destruct (step st l) as [st1|] eqn:Hs; [|done]. simpl in Hr. destruct (runs st1 ls) as [[st2 t]|] eqn:Hr1; [|done]. injection Hr as <- <-.
  destruct (IH st1 st2 t (step_station_ok _ _ _ Hok Hs) Hr1 Hsd) as [Hsd1 H1].
  destruct (step_owes st l st1 k Hok Hs Hsd1) as [Hsd0 H0]. split; [done|]. intros Hk. rewrite elem_of_app.
  destruct (H0 Hk) as [?|Hk1]; [by left; left|]. destruct (H1 Hk1) as [?|?]; [by left; right|by right].
Qed.

(** C36: a controller at work.  No key is handled by two workers at a time.  While
    the controller does not shut down, a key that an event or Enqueue adds is
    taken up by a worker afterwards or still owed, also when a worker is just
    handling it; a key whose handling failed is owed, unless the handlers said
    to forget it; and when no worker is busy and the queue is empty nothing is
    owed but what waits to be tried again. *)
Theorem workers_lose_nothing st :
  reachable st →
  (∀ i j k, st_workers st !! i = Some (Working k) → st_workers st !! j = Some (Working k) → i = j) ∧
  (∀ key ls st1 st2 taken, step st (Notified key) = Some st1 → runs st1 ls = Some (st2, taken) →
     q_shuttingDown (st_queue st2) = false → Key key ∈ taken ∨ owed (Key key) st2) ∧
  (∀ i k st', st_workers st !! i = Some (Working k) → step st (Handles i) = Some st' → q_shuttingDown (st_queue st') = false →
     QForget k ∈ new_calls (st_g st) (st_g st') ∨ owed (requeue_key k) st') ∧
  ((∀ i k, st_workers st !! i ≠ Some (Working k)) → q_queue (st_queue st) = [] → ∀ k, owed k st → k ∈ st_delayed st).
Proof.
  intros Hok%reachable_station_ok. split_and!.
  - apply Hok.
  - intros key ls st1 st2 taken Hs Hr Hsd. pose proof (step_station_ok _ _ _ Hok Hs) as Hok1.
    destruct (runs_owe (Key key) ls st1 st2 taken Hok1 Hr Hsd) as [Hsd1 Ho]. apply Ho.
    simpl in Hs. injection Hs as <-. destruct (with_calls_owes (Key key) st (queueObject (st_g st) (Key key)) (st_workers st) (st_world st)) as (_ & H2 & H3).
    rewrite H2 in Hsd1. apply H3; [done|]. left. unfold new_calls, queueObject. simpl. rewrite drop_app_length. by left.
  - intros i k st' Hi Hs Hsd. simpl in Hs. rewrite Hi in Hs. destruct (processNextWorkItem _ _ _ _) as [g w] eqn:Hp. injection Hs as <-.
    destruct (process_calls _ _ _ _ _ _ Hp) as (x & Hx & Hc).
    destruct (with_calls_owes (requeue_key k) st g (<[i := Idle]> (st_workers st)) w) as (_ & H2 & H3). rewrite H2 in Hsd.
    assert (st_g (with_calls st g (<[i := Idle]> (st_workers st)) w) = g) as ->.
    { unfold with_calls. by destruct (foldl _ _ _). }
    rewrite Hx in *. destruct Hc as [-> | ->]; [left; by left|right]. apply H3; [done|]. right. by left.
  - intros Hidle Hq k [Hk|Hk]; [|done]. destruct Hok as [[Hqo _] Hw _ _]. exfalso.
    assert (k ∈ q_queue (st_queue st)) as Hin; [|rewrite Hq in Hin; by apply elem_of_nil in Hin]. apply Hqo. split; [done|].
    intros [i Hi]%Hw. by apply (Hidle i k).
Qed.

(** ** Shutting down *)
Definition busy (l : label) : bool := match l with Takes _ | Handles _ | Quits _ => true | _ => false end.
Definition rank (x : worker) : nat := match x with Idle => 1 | Working _ => 2 | Stopped => 0 end.
Fixpoint ranks (ws : list worker) : nat := match ws with [] => 0 | x :: ws => rank x + ranks ws end.
Definition effort (st : station) : nat := 2 * size (q_dirty (st_queue st)) + ranks (st_workers st).
Lemma ranks_insert ws : ∀ i x y, ws !! i = Some y → (ranks (<[i := x]> ws) + rank y = ranks ws + rank x)%nat.
Proof.
  induction ws as [|z ws IH]; intros [|i] x y Hi; try done; simpl in *; [injection Hi as ->; lia|]. specialize (IH i x y Hi). lia.
Qed.
Lemma queue_call_shut l : ∀ q d, q_shuttingDown q = true → q_dirty (foldl queue_call (q, d) l).1 = q_dirty q ∧ q_shuttingDown (foldl queue_call (q, d) l).1 = true.
Proof.
  induction l as [|c l IH]; intros q d Hs; [done|]. destruct c as [x|x|x|x]; simpl; [|apply IH, Hs|apply IH, Hs|by apply (IH (queue_Done q x))].
  destruct (queue_Add_dirty q x) as [Hs' Hd]. rewrite Hs in Hs', Hd. destruct (IH (queue_Add q x) d Hs') as [-> ->]. by rewrite Hd.
Qed.
Lemma with_calls_shut st g ws w : q_shuttingDown (st_queue st) = true →
  q_dirty (st_queue (with_calls st g ws w)) = q_dirty (st_queue st) ∧ q_shuttingDown (st_queue (with_calls st g ws w)) = true ∧
  st_workers (with_calls st g ws w) = ws.
Proof.
  intros Hs. unfold with_calls. pose proof (queue_call_shut (new_calls (st_g st) g) (st_queue st) (st_delayed st) Hs) as Hc.
  destruct (foldl _ _ _) as [q d]. simpl in *. by destruct Hc.
Qed.
Lemma step_shut st l st' : station_ok st → q_shuttingDown (st_queue st) = true → step st l = Some st' →
  q_shuttingDown (st_queue st') = true ∧ ((if busy l then 1 else 0) + effort st' ≤ effort st)%nat.
Proof.
  intros Hok Hsd Hst. unfold effort. destruct l as [key|w|n|i|i|i| |cached keys t|ptr name h]; simpl in Hst |- *.
  - injection Hst as <-. destruct (with_calls_shut st (queueObject (st_g st) (Key key)) (st_workers st) (st_world st) Hsd) as (-> & -> & ->). by split.
  - injection Hst as <-. by split.
  - destruct (st_delayed st !! n) as [k|]; [|done]. injection Hst as <-. simpl.
    destruct (queue_Add_dirty (st_queue st) k) as [-> ->]. rewrite Hsd. by split.
  - destruct (st_workers st !! i) as [[]|] eqn:Hi; try done. destruct (queue_Get (st_queue st)) as [[[k|] q]|] eqn:Hg; try done.
    injection Hst as <-. cbn [st_queue st_workers]. destruct (queue_Get_ok _ _ _ (so_queue _ Hok) Hg) as (_ & Hd & _ & _ & -> & ->). split; [done|].
    pose proof (ranks_insert _ i (Working k) _ Hi) as Hr. simpl in Hr. rewrite size_difference by set_solver. rewrite size_singleton.
    assert (size (q_dirty (st_queue st)) ≠ 0%nat) by (intros Hz%size_empty_inv; set_solver). lia.
  - destruct (st_workers st !! i) as [[| k|]|] eqn:Hi; try done. destruct (processNextWorkItem _ _ _ _) as [g w]. injection Hst as <-.
    destruct (with_calls_shut st g (<[i := Idle]> (st_workers st)) w Hsd) as (-> & -> & ->). split; [done|].
    pose proof (ranks_insert _ i Idle _ Hi) as Hr. simpl in Hr. lia.
  - destruct (st_workers st !! i) as [[]|] eqn:Hi; try done. destruct (queue_Get (st_queue st)) as [[[k|] q]|] eqn:Hg; try done.
    injection Hst as <-. destruct (quits_ok _ _ _ Hok Hi Hg) as [-> _]. cbn [st_queue st_workers]. split; [done|].
    pose proof (ranks_insert _ i Stopped _ Hi) as Hr. simpl in Hr. lia.
  - injection Hst as <-. by split.
  - destruct (running _); [|done]. injection Hst as <-.
    destruct (with_calls_shut st (Start (st_g st) cached keys t).1 (st_workers st) (st_world st) Hsd) as (-> & -> & ->). by split.
  - injection Hst as <-. destruct (with_calls_shut st (AddHandler (st_g st) ptr name h) (st_workers st) (st_world st) Hsd) as (-> & -> & ->). by split.
Qed.
Lemma runs_shut ls : ∀ st st' taken, station_ok st → q_shuttingDown (st_queue st) = true → runs st ls = Some (st', taken) →
  q_shuttingDown (st_queue st') = true ∧ (length (List.filter busy ls) + effort st' ≤ effort st)%nat.
Proof.
  induction ls as [|l ls IH]; intros st st' taken Hok Hsd Hr; simpl in Hr; [injection Hr as <- _; simpl; by split|].
  destruct (step st l) as [st1|] eqn:Hs; [|done]. simpl in Hr. destruct (runs st1 ls) as [[st2 t]|] eqn:Hr1; [|done]. injection Hr as <- _.
  destruct (step_shut _ _ _ Hok Hsd Hs) as [Hsd1 H1]. destruct (IH st1 st2 t (step_station_ok _ _ _ Hok Hs) Hsd1 Hr1) as [Hsd2 H2].
  split; [done|]. simpl. destruct (busy l); simpl; lia.
Qed.
Lemma busy_or_stopped ws : Forall (λ x, x = Stopped) ws ∨ ∃ i x, ws !! i = Some x ∧ x ≠ Stopped.
Proof.
  induction ws as [|x ws [IH|(i & y & Hi & Hy)]]; [by left| |right; by exists (S i), y].
  destruct x; [right; by exists 0%nat, Idle|right; by exists 0%nat, (Working k)|left; by constructor].
Qed.
(** Once the context is done the workers handle what is in the queue, in a bounded
    number of steps whatever else happens, and stop: none can wait for ever, and
    when all have stopped no key is left. *)
Theorem shutdown_drains st ls st' taken :
  reachable st → q_shuttingDown (st_queue st) = true → runs st ls = Some (st', taken) →
  (length (List.filter busy ls) ≤ effort st)%nat ∧
  (Forall (λ x, x = Stopped) (st_workers st') ∨ ∃ l, busy l = true ∧ is_Some (step st' l)) ∧
  (st_workers st' ≠ [] → Forall (λ x, x = Stopped) (st_workers st') → q_dirty (st_queue st') = ∅).
Proof.
  intros Hok%reachable_station_ok Hsd Hr. destruct (runs_shut _ _ _ _ Hok Hsd Hr) as [Hsd' Hle]. pose proof (runs_station_ok _ _ _ _ Hok Hr) as Hok'.
  split; [lia|]. split.
  - destruct (busy_or_stopped (st_workers st')) as [?|(i & x & Hi & Hx)]; [by left|]. right. destruct x as [|k|]; [| |done].
    + destruct (q_queue (st_queue st')) as [|k l] eqn:Hq; [exists (Quits i)|exists (Takes i)]; (split; [done|]); simpl; rewrite Hi; unfold queue_Get;
        rewrite Hq, ?Hsd'; by eexists.
    + exists (Handles i). split; [done|]. simpl. rewrite Hi. destruct (processNextWorkItem _ _ _ _). by eexists.
  - intros Hne Hall. destruct Hok' as [[Hq _] Hw _ Hs]. destruct (Hs Hne Hall) as [He _]. apply leibniz_equiv. intros k. split; [|set_solver].
    intros Hk. assert (k ∈ q_queue (st_queue st')) as Hin; [|rewrite He in Hin; by apply elem_of_nil in Hin]. apply Hq. split; [done|].
    intros [i Hi]%Hw. rewrite Forall_lookup in Hall. by specialize (Hall _ _ Hi).
Qed.
End Workers.

(** ** Example: an event while its key is handled

    Two workers; the handler fails once.  A key is handled, changes meanwhile, and
    is handled again; then it fails, is tried again, and the controller shuts
    down. *)
Section Example.
Definition flaky : nat → string → option nat → nat * go (option nat * option error) := λ n _ obj,
  (S n, Ret (obj, if decide (n = 1%nat) then Some (ErrorString "not now") else None)).
Definition flaky_controller : genericController nat nat :=
  (Start (AddHandler (NewGenericController "pods") 1 "flaky" flaky) true [] 2).1.
Definition stored : nat → string → result (option nat) := λ n _, inl (Some n).
Definition pod_labels : list (label (O := nat) (W := nat)) :=
  [Notified "ns/a"; Takes 0; Notified "ns/a"; Notified "ns/b"; Takes 1; Handles 0; Takes 0; Handles 1].
Definition pod_station : station (O := nat) (W := nat) :=
  match runs stored (run flaky_controller 0%nat) pod_labels with Some (st, _) => st | None => run flaky_controller 0%nat end.
Example retried_and_drained :
  (λ p, (p.2, st_delayed p.1)) <$> runs stored (run flaky_controller 0%nat) pod_labels =
    Some ([Key "ns/a"; Key "ns/b"; Key "ns/a"], [Key "ns/b"]) ∧
  (λ p, (p.2, st_workers p.1, st_world p.1)) <$> runs stored pod_station
      [TimerFires 0; ShutsDown; Notified "ns/c"; Takes 1; Handles 0; Quits 0; Handles 1; Quits 1] =
    Some ([Key "ns/b"], [Stopped; Stopped], 4%nat).
Proof. split; by vm_compute. Qed.
Lemma pod_station_reachable : reachable stored pod_station.
Proof.
  exists flaky_controller, 0%nat, pod_labels. destruct (runs stored (run flaky_controller 0%nat) pod_labels) as [[st taken]|] eqn:Hr;
    [|by vm_compute in Hr]. exists taken. unfold pod_station. by rewrite Hr.
Qed.
Lemma workers_lose_nothing_witness :
  (∀ i j k, st_workers pod_station !! i = Some (Working k) → st_workers pod_station !! j = Some (Working k) → i = j) ∧
  ∃ st, step stored pod_station (Handles 0) = Some st ∧ st_workers st = [Idle; Idle] ∧ ∀ k, owed k st → k ∈ st_delayed st.
Proof.
  destruct (workers_lose_nothing stored pod_station pod_station_reachable) as [Honce _]. split; [exact Honce|].
  destruct (step stored pod_station (Handles 0)) as [st|] eqn:Hs; [|by vm_compute in Hs]. exists st. split; [done|].
  assert (st_workers st = [Idle; Idle]) as Hw by (vm_compute in Hs; by injection Hs as <-). split; [exact Hw|].
  assert (reachable stored st) as Hr.
  { exists flaky_controller, 0%nat, (pod_labels ++ [Handles 0]). destruct (runs stored (run flaky_controller 0%nat) (pod_labels ++ [Handles 0])) as [[st' taken]|] eqn:Hr;
      [|by vm_compute in Hr]. exists taken. f_equal. f_equal. vm_compute in Hr, Hs. injection Hr as <- _. by injection Hs as <-. }
  destruct (workers_lose_nothing stored st Hr) as (_ & _ & _ & Hquiet). apply Hquiet.
  - intros [|[|i]] k Hi; rewrite Hw in Hi; done.
  - vm_compute in Hs. by injection Hs as <-.
Defined.
End Example.
