(* ===== verification/Condition.v ===== *)
(** * Conditions

    Models condition/condition.go: the conditions in the status of an object,
    and how running a function is reported through one of them.

    Objects are handled by pointer and changed in place, and the function that
    is run may return the object it was called for, another one, or none: the
    state is a heap from addresses to the Status.Conditions of the objects.  The
    function, and what [time.Now] formats to at the n-th time it is asked, are
    parameters. *)

From S2P Require Import Prelude GoStrings Errors.
From Stdlib Require Import Ascii.

Record GenericCondition := mkCond {
  CType : string;
  CStatus : string;
  LastUpdateTime : string;
  LastTransitionTime : string;
  CReason : string;
  CMessage : string
}.
#[export] Instance GenericCondition_eq_dec : EqDecision GenericCondition.
Proof. solve_decision. Defined.

(** The zero condition, which reads as empty strings. *)
Definition zero_cond : GenericCondition := mkCond "" "" "" "" "" "".

(** temfileRegexp: ["/tmp/[-_a-zA-Z0-9]+"]. *)
Definition is_word (c : ascii) : bool :=
  is_letter c || is_digit c || bool_decide (c = "-"%char) || bool_decide (c = "_"%char).
Fixpoint skip_word (s : string) : string :=
  match s with
  | "" => ""
  | String c s' => if is_word c then skip_word s' else s
  end.
(** ReplaceAllString; [fuel] bounds the length of the string. *)
Fixpoint redact_go (fuel : nat) (s : string) : string :=
  match fuel with
  | O => s
  | S fuel' =>
      match s with
      | "" => ""
      | String c s' =>
          if HasPrefix s "/tmp/" && match str_drop 5 s with String d _ => is_word d | "" => false end
          then "file_path_redacted" +:+ redact_go fuel' (skip_word (str_drop 5 s))
          else String c (redact_go fuel' s')
      end
  end.
Definition redact (s : string) : string := redact_go (String.length s) s.

(** ** The conditions of one object *)
Section OneObject.
Variable condName : string.

Definition findCond (l : list GenericCondition) : option GenericCondition :=
  snd <$> list_find (λ c, CType c = condName) l.
Definition cond_of (l : list GenericCondition) : GenericCondition := default zero_cond (findCond l).

(** findOrCreateCond, then a change of the condition found. *)
Fixpoint modify_first (f : GenericCondition → GenericCondition) (l : list GenericCondition) : list GenericCondition :=
  match l with
  | [] => []
  | c :: l' => if decide (CType c = condName) then f c :: l' else c :: modify_first f l'
  end.
Definition findOrCreateCond (l : list GenericCondition) : list GenericCondition :=
  match findCond l with Some _ => l | None => l ++ [mkCond condName "Unknown" "" "" "" ""] end.
Definition change_cond (f : GenericCondition → GenericCondition) (l : list GenericCondition) : list GenericCondition :=
  modify_first f (findOrCreateCond l).
End OneObject.

Definition set_status (s now : string) (c : GenericCondition) : GenericCondition :=
  if decide (CStatus c = s) then c else mkCond (CType c) s now (LastTransitionTime c) (CReason c) (CMessage c).
Definition set_message (m now : string) (c : GenericCondition) : GenericCondition :=
  if decide (CMessage c = m) then c else mkCond (CType c) (CStatus c) now (LastTransitionTime c) (CReason c) m.
Definition set_reason (r now : string) (c : GenericCondition) : GenericCondition :=
  if decide (CReason c = r) then c else mkCond (CType c) (CStatus c) now (LastTransitionTime c) r (CMessage c).
(** Reason: SetString without touching the time. *)
Definition put_reason (r : string) (c : GenericCondition) : GenericCondition :=
  mkCond (CType c) (CStatus c) (LastUpdateTime c) (LastTransitionTime c) r (CMessage c).
Definition put_ts (ts : string) (c : GenericCondition) : GenericCondition :=
  mkCond (CType c) (CStatus c) ts (LastTransitionTime c) (CReason c) (CMessage c).

(** ** The heap *)
Section Cond.
Variable now : nat → string.      (* the text of the n-th reading of the clock *)
Variable c : string.              (* the name of the condition *)

Record world := mkWorld { objects : gmap nat (list GenericCondition); ticks : nat }.

(** The condition of an object, read. *)
Definition read (w : world) (p : nat) : GenericCondition := cond_of c (default [] (objects w !! p)).
Definition GetStatus (w : world) (p : nat) : string := CStatus (read w p).
Definition GetReason (w : world) (p : nat) : string := CReason (read w p).
Definition GetMessage (w : world) (p : nat) : string := CMessage (read w p).
Definition GetLastUpdated (w : world) (p : nat) : string := LastUpdateTime (read w p).
Definition IsTrue (w : world) (p : nat) : bool := bool_decide (GetStatus w p = "True").
Definition IsUnknown (w : world) (p : nat) : bool := bool_decide (GetStatus w p = "Unknown").
Definition IsFalse (w : world) (p : nat) : bool := bool_decide (GetStatus w p = "False").

(** A change of the condition of an object; the clock is read once for it. *)
Definition change (f : string → GenericCondition → GenericCondition) (w : world) (p : nat) : world :=
  mkWorld (<[p := change_cond c (f (now (ticks w))) (default [] (objects w !! p))]> (objects w)) (S (ticks w)).

Definition SetStatus (s : string) : world → nat → world := change (set_status s).
Definition Message (m : string) : world → nat → world := change (set_message m).
Definition Reason (r : string) : world → nat → world := change (λ _, put_reason r).
Definition LastUpdated (ts : string) : world → nat → world := change (λ _, put_ts ts).
Definition True_ : world → nat → world := SetStatus "True".
Definition False_ : world → nat → world := SetStatus "False".
Definition Unknown : world → nat → world := SetStatus "Unknown".

Definition CreateUnknownIfNotExists (w : world) (p : nat) : world :=
  match findCond c (default [] (objects w !! p)) with None => Unknown w p | Some _ => w end.
Definition SetMessageIfBlank (m : string) (w : world) (p : nat) : world :=
  if decide (GetMessage w p = "") then Message m w p else w.

Definition error_reason (err : error) : string :=
  match err with
  | ConditionError reason _ => reason
  | ForgetError _ reason => if decide (reason = "") then "Error" else reason
  | _ => "Error"
  end.
Definition ReasonAndMessageFromError (err : error) (w : world) (p : nat) : world :=
  match err with
  | Conflict _ => w
  | _ => change (set_reason (error_reason err)) (Message (Error err) w p) p
  end.

(** The function that is run: it sees the heap, may change it, and returns the
    object to go on with, if any, and an error. *)
Variable f : world → world * option nat * option error.

Definition doInternal (setReturned : bool) (w : world) (obj : nat) : world * nat * option error :=
  let w := if IsFalse w obj then w else Unknown w obj in
  let '(w, newObj, err) := f w in
  let ret := default obj newObj in
  let setObject := if setReturned then ret else obj in
  match err with
  | Some (ForgetError _ _ as err) =>
      (if decide (GetMessage w setObject = "") then ReasonAndMessageFromError err w setObject else w, ret, Some err)
  | Some err => (ReasonAndMessageFromError err (False_ w setObject) setObject, ret, Some err)
  | None => (Message "" (Reason "" (True_ w setObject) setObject) setObject, ret, None)
  end.

Definition do2 (setReturned : bool) (w : world) (obj : nat) : world * nat * bool * option error :=
  let status := GetStatus w obj in
  let ts := GetLastUpdated w obj in
  let reason := GetReason w obj in
  let message := GetMessage w obj in
  let '(w, ret, err) := doInternal setReturned w obj in
  let checkObj := if setReturned then ret else obj in
  let w :=
    if decide (status = GetStatus w checkObj ∧ reason = GetReason w checkObj) then
      let w := if decide (message = GetMessage w checkObj) then w
               else Message (redact (GetMessage w checkObj)) w checkObj in
      if decide (message = GetMessage w checkObj) then LastUpdated ts w checkObj else w
    else w in
  let changed := negb (bool_decide (status = GetStatus w checkObj ∧ ts = GetLastUpdated w checkObj ∧
                                    reason = GetReason w checkObj ∧ message = GetMessage w checkObj)) in
  (w, ret, changed, err).

Definition Do (w : world) (obj : nat) : world * nat * option error :=
  let '(w, ret, _, err) := do2 true w obj in (w, ret, err).
Definition DoUntilTrue (w : world) (obj : nat) : world * nat * option error :=
  if IsTrue w obj then (w, obj, None) else Do w obj.
Definition Once (w : world) (obj : nat) : world * nat * option error :=
  if IsFalse w obj then (w, obj, Some (ForgetError (ErrorString (GetReason w obj)) "")) else DoUntilTrue w obj.

(** Track: the function runs under a copy of the object, and what the condition
    says then is stored with the object it returns.  [is_meta] says which objects
    have metadata. *)
Definition DeepCopyObject (w : world) (obj : nat) : world * nat :=
  let p := fresh (dom (objects w)) in (mkWorld (<[p := default [] (objects w !! obj)]> (objects w)) (ticks w), p).
Definition copy_status (obj : nat) (w : world) (ret : nat) : world := SetStatus (GetStatus w obj) w ret.
Definition copy_updated (obj : nat) (w : world) (ret : nat) : world := LastUpdated (GetLastUpdated w obj) w ret.
Definition copy_reason (obj : nat) (w : world) (ret : nat) : world := Reason (GetReason w obj) w ret.
Definition copy_message (obj : nat) (w : world) (ret : nat) : world := Message (GetMessage w obj) w ret.
Definition Track (Update : world → nat → world * nat * option error) (is_meta : nat → bool) (w : world) (obj : nat) : world * nat * option error :=
  let '(w, obj) := DeepCopyObject w obj in
  let '(w, ret, changed, err) := do2 false w obj in
  if negb changed then (w, ret, err)
  else
    let w := copy_message obj (copy_reason obj (copy_updated obj (copy_status obj w ret) ret) ret) ret in
    if is_meta ret then
      match Update w ret with
      | (w, updated, None) => (w, updated, err)
      | (w, _, Some _) => (w, ret, err)
      end
    else (w, ret, err).

(** ** Lemmas *)
Lemma modify_first_spec g l :
  is_Some (findCond c l) → (∀ x, CType (g x) = CType x) →
  cond_of c (modify_first c g l) = g (cond_of c l).
Proof.
  intros Hs Hg. unfold cond_of, findCond in *. induction l as [|x l IH]; simpl in *; [by destruct Hs|].
  destruct (decide (CType x = c)) as [Hx|Hx]; simpl.
  - rewrite decide_True by by rewrite Hg. done.
  - rewrite decide_False by done. destruct (list_find _ l) as [[i y]|] eqn:Hl; simpl in *; [|by destruct Hs].
    destruct (list_find _ (modify_first c g l)) as [[j z]|]; simpl in *; [by apply IH|by apply IH].
Qed.

(** The condition that a change starts from, and whether it was there. *)
Definition fresh_cond : GenericCondition := mkCond c "Unknown" "" "" "" "".
Definition found (w : world) (p : nat) : Prop := is_Some (findCond c (default [] (objects w !! p))).
Definition cur (w : world) (p : nat) : GenericCondition := default fresh_cond (findCond c (default [] (objects w !! p))).

Lemma read_found w p : found w p → read w p = cur w p.
Proof. unfold found, read, cond_of, cur. intros [x ->]. done. Qed.

Lemma findOrCreateCond_spec l : findCond c (findOrCreateCond c l) = Some (default fresh_cond (findCond c l)).
Proof.
  unfold findOrCreateCond. destruct (findCond c l) as [x|] eqn:Hf; [done|]. unfold findCond in *.
  destruct (list_find _ l) as [[i y]|] eqn:Hl; [done|]. rewrite list_find_app_r by done. simpl. by rewrite decide_True.
Qed.

Lemma findCond_modify g l :
  (∀ x, CType (g x) = CType x) → findCond c (modify_first c g l) = g <$> findCond c l.
Proof.
  intros Hg. unfold findCond. induction l as [|x l IH]; simpl; [done|].
  destruct (decide (CType x = c)) as [Hx|Hx]; simpl.
  - rewrite decide_True by by rewrite Hg. done.
  - rewrite decide_False by done. destruct (list_find _ l) as [[i y]|]; destruct (list_find _ (modify_first c g l)) as [[j z]|];
      simpl in *; congruence.
Qed.

Lemma findCond_change g w p q :
  (∀ t x, CType (g t x) = CType x) →
  findCond c (default [] (objects (change g w p) !! q))
  = if decide (p = q) then Some (g (now (ticks w)) (cur w p)) else findCond c (default [] (objects w !! q)).
Proof.
  intros Hg. unfold change. simpl. case_decide as Hq; [subst q|by rewrite lookup_insert_ne].
  rewrite lookup_insert_eq. simpl. unfold change_cond, cur. rewrite findCond_modify by apply Hg.
  by rewrite findOrCreateCond_spec.
Qed.

Lemma found_change g w p : (∀ t x, CType (g t x) = CType x) → found (change g w p) p.
Proof. intros Hg. unfold found. rewrite findCond_change by done. by rewrite decide_True. Qed.
Lemma cur_change g w p : (∀ t x, CType (g t x) = CType x) → cur (change g w p) p = g (now (ticks w)) (cur w p).
Proof. intros Hg. unfold cur at 1. rewrite findCond_change by done. by rewrite decide_True. Qed.

Lemma set_status_type s t x : CType (set_status s t x) = CType x.
Proof. unfold set_status. by case_decide. Qed.
Lemma set_message_type s t x : CType (set_message s t x) = CType x.
Proof. unfold set_message. by case_decide. Qed.
Lemma set_reason_type s t x : CType (set_reason s t x) = CType x.
Proof. unfold set_reason. by case_decide. Qed.
Hint Resolve set_status_type set_message_type set_reason_type : norman.

(** The changes, on the three fields that report an outcome. *)
Definition summary (x : GenericCondition) : string * string * string := (CStatus x, CReason x, CMessage x).

Lemma summary_set_status s t x : summary (set_status s t x) = (s, CReason x, CMessage x).
Proof. unfold set_status, summary. case_decide; simpl; congruence. Qed.
Lemma summary_set_message m t x : summary (set_message m t x) = (CStatus x, CReason x, m).
Proof. unfold set_message, summary. case_decide; simpl; congruence. Qed.
Lemma summary_set_reason r t x : summary (set_reason r t x) = (CStatus x, r, CMessage x).
Proof. unfold set_reason, summary. case_decide; simpl; congruence. Qed.

(** What no change touches. *)
Definition rest (x : GenericCondition) : string * string := (CType x, LastTransitionTime x).
Lemma rest_set_status s t x : rest (set_status s t x) = rest x.
Proof. unfold set_status. by case_decide. Qed.
Lemma rest_set_message s t x : rest (set_message s t x) = rest x.
Proof. unfold set_message. by case_decide. Qed.
Lemma rest_set_reason s t x : rest (set_reason s t x) = rest x.
Proof. unfold set_reason. by case_decide. Qed.
Lemma cond_ext x y :
  summary x = summary y → rest x = rest y → LastUpdateTime x = LastUpdateTime y → x = y.
Proof. destruct x, y. unfold summary, rest. simpl. congruence. Qed.

(** The summary that reports an outcome. *)
Definition outcome (err : option error) : string * string * string :=
  match err with None => ("True", "", "") | Some e => ("False", error_reason e, Error e) end.
(** Errors that are reported: neither a conflict nor a request to forget. *)
Definition reported (err : option error) : bool :=
  match err with Some (ForgetError _ _) | Some (Conflict _) => false | _ => true end.

Lemma doInternal_spec (setReturned : bool) w obj w1 w2 newObj err :
  w1 = (if IsFalse w obj then w else Unknown w obj) → f w1 = (w2, newObj, err) → reported err = true →
  let setObject := if setReturned then default obj newObj else obj in
  ∃ w3, doInternal setReturned w obj = (w3, default obj newObj, err) ∧ found w3 setObject ∧
        summary (cur w3 setObject) = outcome err ∧ rest (cur w3 setObject) = rest (cur w2 setObject).
Proof.
  intros -> Hf Hr setObject. unfold doInternal. rewrite Hf. fold setObject.
  assert (∀ e, (∀ a b, e ≠ ForgetError a b) → (∀ m, e ≠ Conflict m) →
    let w3 := change (set_reason (error_reason e)) (Message (Error e) (False_ w2 setObject) setObject) setObject in
    found w3 setObject ∧ summary (cur w3 setObject) = ("False", error_reason e, Error e) ∧
    rest (cur w3 setObject) = rest (cur w2 setObject)) as Herr.
  { intros e _ _ w3. split; [apply found_change; auto with norman|]. unfold w3, Message, False_, SetStatus.
    rewrite !cur_change by auto with norman.
    rewrite summary_set_reason, rest_set_reason, rest_set_message, rest_set_status. split; [|done].
    pose proof (summary_set_message (Error e) (now (ticks (change (set_status "False") w2 setObject)))
      (set_status "False" (now (ticks w2)) (cur w2 setObject))) as Hm.
    pose proof (summary_set_status "False" (now (ticks w2)) (cur w2 setObject)) as Hs.
    unfold summary in Hm, Hs |- *. congruence. }
  destruct err as [e|].
  - destruct e; simpl in Hr; try done; eexists; (split; [done|]); apply Herr; done.
  - eexists. split; [done|]. split; [apply found_change; auto with norman|].
    unfold Message, Reason, True_, SetStatus. rewrite !cur_change by auto with norman.
    rewrite summary_set_message, rest_set_message. simpl.
    split; [|exact (rest_set_status "True" (now (ticks w2)) (cur w2 setObject))].
    pose proof (summary_set_status "True" (now (ticks w2)) (cur w2 setObject)) as Hs. unfold summary in Hs. congruence.
Qed.

Lemma read_LastUpdated ts w p : found w p → read (LastUpdated ts w p) p = put_ts ts (read w p).
Proof.
  intros Hw. rewrite !read_found by (done || by apply found_change). unfold LastUpdated. by rewrite cur_change.
Qed.

Lemma read_Message m w p : found w p → found (Message m w p) p ∧ summary (read (Message m w p) p) = (GetStatus w p, GetReason w p, m).
Proof.
  intros Hw. assert (found (Message m w p) p) as Hf by (apply found_change; auto with norman). split; [done|].
  rewrite read_found by done. unfold Message, GetStatus, GetReason. rewrite cur_change by auto with norman.
  rewrite read_found by done. apply summary_set_message.
Qed.

(** What do2 leaves on the object whose condition it sets. *)
Definition reports (err : option error) (w : world) (p : nat) : Prop :=
  found w p ∧ (summary (read w p) = outcome err ∨ summary (read w p) = ((outcome err).1.1, (outcome err).1.2, redact (outcome err).2)).
Lemma do2_reports (setReturned : bool) w obj w2 newObj err :
  f (if IsFalse w obj then w else Unknown w obj) = (w2, newObj, err) → reported err = true →
  ∃ w' changed, do2 setReturned w obj = (w', default obj newObj, changed, err) ∧ reports err w' (if setReturned then default obj newObj else obj).
Proof.
  intros Hf Hr. unfold do2.
  destruct (doInternal_spec setReturned w obj _ w2 newObj err eq_refl Hf Hr) as (w3 & -> & Hfound & Hsum & _).
  set (p := if setReturned then default obj newObj else obj) in *. rewrite <- (read_found w3 p) in Hsum by done.
  eexists _, _. split; [reflexivity|]. case_decide as Hsame; [|split; [done|by left]].
  assert (∀ ts w, found w p → found (LastUpdated ts w p) p ∧ summary (read (LastUpdated ts w p) p) = summary (read w p)) as Hts.
  { intros ts w0 H0. split; [by apply found_change|]. by rewrite read_LastUpdated. }
  destruct (decide (GetMessage w obj = GetMessage w3 p)) as [Hm|Hm].
  - rewrite decide_True by done. destruct (Hts (GetLastUpdated w obj) w3 Hfound) as [H1 H2]. split; [done|]. left. congruence.
  - destruct (read_Message (redact (GetMessage w3 p)) w3 p Hfound) as [Hf4 Hs4].
    assert (summary (read (Message (redact (GetMessage w3 p)) w3 p) p) = ((outcome err).1.1, (outcome err).1.2, redact (outcome err).2)) as Hred.
    { rewrite Hs4. unfold GetStatus, GetReason, GetMessage. unfold summary in Hsum. destruct (outcome err) as [[s r] m]. simpl. congruence. }
    case_decide; [|split; [done|by right]]. destruct (Hts (GetLastUpdated w obj) _ Hf4) as [H1 H2]. split; [done|]. right. congruence.
Qed.
(** Running a function under a condition reports its outcome there: on the
    object that goes on, the condition is True with no reason and message after
    a success, and after a failure (a conflict or a request to forget apart) it
    is False with the reason and the message of the error, or with that message
    and its temporary file names redacted. *)
Theorem condition_reports w obj w2 newObj err :
  f (if IsFalse w obj then w else Unknown w obj) = (w2, newObj, err) → reported err = true →
  ∃ w', Do w obj = (w', default obj newObj, err) ∧
    (summary (read w' (default obj newObj)) = outcome err ∨
     summary (read w' (default obj newObj))
     = ((outcome err).1.1, (outcome err).1.2, redact (outcome err).2)).
Proof.
  intros Hf Hr. destruct (do2_reports true w obj w2 newObj err Hf Hr) as (w' & changed & Hd & _ & Hs).
  exists w'. unfold Do. by rewrite Hd.
Qed.

(** C25: a condition that already reports the outcome is left alone.  When the
    function ends as it did before, touching no condition of the object and
    returning no other object, nothing counts as changed and the whole condition,
    its time of last update included, is as it was: repeated runs do not make
    the object flap. *)
Theorem condition_stable setReturned w obj w2 newObj err x :
  findCond c (default [] (objects w !! obj)) = Some x →
  f (if IsFalse w obj then w else Unknown w obj) = (w2, newObj, err) → reported err = true →
  default obj newObj = obj →
  objects w2 !! obj = objects (if IsFalse w obj then w else Unknown w obj) !! obj →
  summary x = outcome err ∨ summary x = ((outcome err).1.1, (outcome err).1.2, redact (outcome err).2) →
  ∃ w', do2 setReturned w obj = (w', obj, false, err) ∧ read w' obj = x.
Proof.
  intros Hx Hf Hr Hobj Hsame Hsum.
  assert (read w obj = x) as Hread by (unfold read, cond_of; by rewrite Hx).
  assert (rest (cur w2 obj) = rest x) as Hrest2.
  { unfold cur. rewrite Hsame. destruct (IsFalse w obj); [by rewrite Hx|].
    unfold Unknown, SetStatus. rewrite findCond_change by auto with norman. rewrite decide_True by done. simpl.
    rewrite rest_set_status. unfold cur. by rewrite Hx. }
  destruct (doInternal_spec setReturned w obj _ w2 newObj err eq_refl Hf Hr) as (w3 & Hdo & Hfound & Hs3 & Hr3).
  unfold do2. rewrite Hdo. rewrite Hobj in *.
  replace (if setReturned then obj else obj) with obj in * by by destruct setReturned.
  rewrite <- (read_found w3 obj) in Hs3, Hr3 by done.
  assert (GetStatus w obj = GetStatus w3 obj ∧ GetReason w obj = GetReason w3 obj) as Hsr.
  { unfold GetStatus, GetReason. rewrite Hread. unfold summary in *. destruct (outcome err) as [[s r] m].
    simpl in Hsum. destruct Hsum; split; congruence. }
  rewrite decide_True by done.
  set (w4 := if decide (GetMessage w obj = GetMessage w3 obj) then w3 else Message (redact (GetMessage w3 obj)) w3 obj).
  assert (found w4 obj ∧ summary (read w4 obj) = summary x ∧ rest (read w4 obj) = rest x) as (Hf4 & Hs4 & Hr4).
  { unfold w4. case_decide as Hm.
    - split_and!; [done| |congruence]. destruct Hsr as [H1 H2]. unfold GetStatus, GetReason, GetMessage in H1, H2, Hm.
      rewrite Hread in H1, H2, Hm. unfold summary. congruence.
    - destruct (read_Message (redact (GetMessage w3 obj)) w3 obj Hfound) as [Hf4 Hs4]. split_and!; [done| |].
      + rewrite Hs4. destruct Hsr as [<- <-]. unfold GetStatus, GetReason. rewrite Hread.
        unfold GetMessage in *. rewrite Hread in Hm. unfold summary in *. destruct (outcome err) as [[s r] m].
        simpl in Hsum. destruct Hsum; congruence.
      + rewrite read_found by done. unfold Message. rewrite cur_change by auto with norman.
        rewrite rest_set_message, <- (read_found w3 obj) by done. congruence. }
  clearbody w4. assert (GetMessage w obj = GetMessage w4 obj) as Hm4
    by (unfold GetMessage; rewrite Hread; unfold summary in Hs4; congruence).
  rewrite decide_True by done.
  assert (read (LastUpdated (GetLastUpdated w obj) w4 obj) obj = x) as Hfinal.
  { rewrite read_LastUpdated by done. apply cond_ext; [exact Hs4|exact Hr4|]. simpl. unfold GetLastUpdated. by rewrite Hread. }
  eexists. split; [|exact Hfinal]. do 2 f_equal.
  unfold GetStatus, GetReason, GetMessage, GetLastUpdated in *. rewrite Hfinal, Hread.
  by rewrite bool_decide_true.
Qed.

(** Copying a part of a condition leaves the original as it is. *)
Lemma copy_keeps g w p q : (∀ t x, CType (g t x) = CType x) → (∀ t, summary (g t (cur w p)) = summary (cur w p)) → found w p →
  found (change g w q) p ∧ summary (read (change g w q) p) = summary (read w p).
Proof.
  intros Hg Hsum Hp. assert (found (change g w q) p) as Hf by (unfold found; rewrite findCond_change by done; by destruct (decide (q = p)); [|]).
  split; [done|]. rewrite !read_found by done. unfold cur at 1. rewrite findCond_change by done. case_decide as Hq; [subst; simpl; apply Hsum|done].
Qed.
Lemma copied p q w : found w p →
  let w' := copy_message p (copy_reason p (copy_updated p (copy_status p w q) q) q) q in
  found w' q ∧ summary (read w' q) = summary (read w p).
Proof.
  intros Hp.
  assert (GetStatus w p = CStatus (cur w p)) as Hs by (unfold GetStatus; by rewrite read_found).
  destruct (copy_keeps (set_status (GetStatus w p)) w p q (λ t, set_status_type _ t)
    ltac:(intros t; rewrite Hs, summary_set_status; done) Hp) as [Hp1 Hs1]. fold (copy_status p w q) in Hp1, Hs1.
  destruct (copy_keeps (λ _, put_ts (GetLastUpdated (copy_status p w q) p)) (copy_status p w q) p q ltac:(done) ltac:(done) Hp1) as [Hp2 Hs2].
  fold (copy_updated p (copy_status p w q) q) in Hp2, Hs2. set (w2 := copy_updated p (copy_status p w q) q) in *.
  assert (GetReason w2 p = CReason (cur w2 p)) as Hr by (unfold GetReason; by rewrite read_found).
  destruct (copy_keeps (λ _, put_reason (GetReason w2 p)) w2 p q ltac:(done) ltac:(intros t; unfold summary; simpl; by rewrite Hr) Hp2) as [Hp3 Hs3].
  fold (copy_reason p w2 q) in Hp3, Hs3. cbn zeta. set (w3 := copy_reason p w2 q) in *.
  assert (found (copy_message p w3 q) q) as Hq by (apply found_change; auto with norman). split; [done|].
  rewrite read_found by done. unfold copy_message, Message. rewrite cur_change by auto with norman. rewrite summary_set_message.
  unfold w3 at 1 2, copy_reason, Reason. rewrite !cur_change by done. simpl. unfold w2 at 1, copy_updated, LastUpdated. rewrite cur_change by done. simpl.
  unfold copy_status at 1, SetStatus. rewrite cur_change by auto with norman.
  pose proof (summary_set_status (GetStatus w p) (now (ticks w)) (cur w q)) as Hst.
  transitivity (GetStatus w p, GetReason w2 p, GetMessage w3 p); [unfold summary in Hst; congruence|].
  assert (summary (read w2 p) = summary (read w p)) as H2 by (etransitivity; [exact Hs2|exact Hs1]).
  assert (summary (read w3 p) = summary (read w p)) as H3 by (etransitivity; [exact Hs3|exact H2]).
  unfold summary in H2, H3 |- *. unfold GetStatus, GetReason, GetMessage. congruence.
Qed.

(** Track stores what happened.  When the function under a condition fails
    or succeeds (a conflict or a request to forget apart), the object passed
    on reports the outcome, with temporary file names redacted or not; it is
    stored if and only if the condition changed, and what is returned is the
    stored object, if storing succeeds, with the error of the function. *)
Theorem track_stores_outcome Update is_meta w obj w1 copy w2 newObj err :
  DeepCopyObject w obj = (w1, copy) → f (if IsFalse w1 copy then w1 else Unknown w1 copy) = (w2, newObj, err) → reported err = true →
  ∃ w3, reports err w3 copy ∧ let ret := default copy newObj in
    (Track Update is_meta w obj = (w3, ret, err) ∧ (∃ w', do2 false w1 copy = (w', ret, false, err)) ∨
     ∃ w4, reports err w4 ret ∧
       Track Update is_meta w obj
       = if is_meta ret then let '(w5, updated, uerr) := Update w4 ret in (w5, match uerr with None => updated | Some _ => ret end, err)
         else (w4, ret, err)).
Proof.
  intros Hc Hf Hr. destruct (do2_reports false w1 copy w2 newObj err Hf Hr) as (w3 & changed & Hd & Hrep). simpl in Hrep.
  exists w3. split; [done|]. unfold Track. rewrite Hc, Hd. destruct changed; simpl; [|left; by split; [|exists w3]]. right.
  destruct (copied copy (default copy newObj) w3 (proj1 Hrep)) as [Hfound Hsum]. eexists. split; [|reflexivity || idtac].
  - split; [exact Hfound|]. destruct Hrep as [_ Hrep]. by rewrite Hsum.
  - destruct (is_meta _); [|done]. by destruct (Update _ _) as [[w5 updated] [uerr|]].
Qed.
End Cond.

(** ** A function that keeps failing *)
Definition clock (n : nat) : string := itoa (Z.of_nat n).
Definition failing (w : world) : world * option nat * option error := (w, None, Some (ErrorString "cannot open /tmp/a1")).
Definition ready_false : GenericCondition := mkCond "Ready" "False" "yesterday" "" "Error" "cannot open file_path_redacted".
Definition blank_world : world := mkWorld {[ 1%nat := [] ]} 0.
Definition failed_world : world := mkWorld {[ 1%nat := [ready_false] ]} 0.

Lemma condition_reports_witness :
  ∃ w', Do clock "Ready" failing blank_world 1 = (w', 1%nat, Some (ErrorString "cannot open /tmp/a1")) ∧
        CStatus (read "Ready" w' 1) = "False".
Proof.
  destruct (condition_reports clock "Ready" failing blank_world 1
    (Unknown clock "Ready" blank_world 1) None (Some (ErrorString "cannot open /tmp/a1"))) as (w' & Hd & Hs);
    [reflexivity|reflexivity|].
  exists w'. split; [exact Hd|]. destruct Hs as [Hs|Hs]; by injection Hs.
Defined.

Lemma condition_stable_witness :
  ∃ w', do2 clock "Ready" failing false failed_world 1 = (w', 1%nat, false, Some (ErrorString "cannot open /tmp/a1")) ∧
        read "Ready" w' 1 = ready_false.
Proof.
  apply (condition_stable clock "Ready" failing false failed_world 1 failed_world None
    (Some (ErrorString "cannot open /tmp/a1")) ready_false); try reflexivity.
  right. vm_compute. reflexivity.
Defined.

Example redact_paths : redact "a /tmp/x-1_Y b /tmp/ c /tmp/z" = "a file_path_redacted b /tmp/ c file_path_redacted".
Proof. vm_compute. reflexivity. Qed.
