(* ===== verification/Message.v ===== *)
(** * The tunnel's wire format

    Models pkg/remotedialer/message.go: the messages two ends of a tunnel
    exchange, one per websocket frame, and the parts of encoding/binary they
    are written with.  A frame is a byte string.  Go's int64 and uint64 are
    integers kept in range; bit operations are those of [Z]. *)

From S2P Require Import Prelude GoStrings Errors.
From Stdlib Require Import Ascii.

(** ** Bytes *)
Definition byte_of (z : Z) : ascii := ascii_of_N (Z.to_N z).
Definition Z_of_byte (c : ascii) : Z := Z.of_N (N_of_ascii c).

(** ** encoding/binary: varints *)
Definition to_uint64 (z : Z) : Z := z mod 2 ^ 64.

(** PutUvarint: seven bits per byte, the low ones first; the top bit says that
    more follow.  Ten rounds cover every uint64 (7 * 10 >= 64). *)
Fixpoint PutUvarint_go (fuel : nat) (x : Z) : string :=
  match fuel with
  | O => ""
  | S fuel' =>
      if x <? 128 then String (byte_of x) ""
      else String (byte_of (Z.lor (Z.land x 127) 128)) (PutUvarint_go fuel' (Z.shiftr x 7))
  end.
Definition PutUvarint (x : Z) : string := PutUvarint_go 10 x.

(** Zig-zag coding of the signed value. *)
Definition zigzag (x : Z) : Z :=
  let ux := to_uint64 (Z.shiftl x 1) in
  if x <? 0 then to_uint64 (Z.lnot ux) else ux.
Definition PutVarint (x : Z) : string := PutUvarint (zigzag x).

Definition errOverflow : error := ErrorString "binary: varint overflows a 64-bit integer".

(** ReadUvarint: [i] counts the bytes read, [x] and [s] are Go's accumulator and
    shift. The result carries the rest of the input. *)
Fixpoint ReadUvarint_go (i : nat) (x s : Z) (input : string) : result (Z * string) :=
  match input with
  | "" => inr EOF
  | String c rest =>
      let b := Z_of_byte c in
      if b <? 128 then
        if (9 <? Z.of_nat i) || ((Z.of_nat i =? 9) && (1 <? b)) then inr errOverflow
        else inl (Z.lor x (to_uint64 (Z.shiftl b s)), rest)
      else ReadUvarint_go (S i) (Z.lor x (to_uint64 (Z.shiftl (Z.land b 127) s))) (s + 7) rest
  end.
Definition ReadUvarint (input : string) : result (Z * string) := ReadUvarint_go 0 0 0 input.

(** ReadVarint undoes the zig-zag: [x := int64(ux >> 1)], complemented when the
    low bit is set. *)
Definition unzigzag (ux : Z) : Z :=
  let x := Z.shiftr ux 1 in
  if Z.odd ux then Z.lnot x else x.
Definition ReadVarint (input : string) : result (Z * string) :=
  match ReadUvarint input with
  | inl (ux, rest) => inl (unzigzag ux, rest)
  | inr e => inr e
  end.

(** ** Messages *)
Definition Data : Z := 1.
Definition Connect : Z := 2.
Definition ErrorMsg : Z := 3.
Definition AddClient : Z := 4.
Definition RemoveClient : Z := 5.

Record message := mkMessage {
  id : Z;
  merr : option error;
  connID : Z;
  deadline : Z;
  messageType : Z;
  bytes : string;
  body : string;      (* what is left in the frame, for a received message *)
  proto : string;
  address : string
}.

(** The constructors take the id that [nextid] gives. *)
Definition nextid (idCounter : Z) : Z := wrap64 (idCounter + 1).

Definition newMessage (nid connID deadline : Z) (bytes : string) : message :=
  mkMessage nid None connID deadline Data bytes "" "" "".
(** [deadline] is a time.Duration, in nanoseconds. *)
Definition newConnect (nid connID deadline : Z) (proto address : string) : message :=
  mkMessage nid None connID (Z.quot deadline 1000000) Connect (proto +:+ "/" +:+ address) "" proto address.
Definition newErrorMessage (nid connID : Z) (err : error) : message :=
  mkMessage nid (Some err) connID 0 ErrorMsg (Error err) "" "" "".
Definition newAddClient (nid : Z) (client : string) : message :=
  mkMessage nid None 0 0 AddClient client "" "" client.
Definition newRemoveClient (nid : Z) (client : string) : message :=
  mkMessage nid None 0 0 RemoveClient client "" "" client.

(** The header is written into a buffer of 24 bytes: PutVarint panics when it
    runs over the end of what is left of it. *)
Definition header_size : Z := 24.
Definition put_varint_at (buf : string) (x : Z) : go string :=
  let buf' := buf +:+ PutVarint x in
  if Z.of_nat (String.length buf') <=? header_size then Ret buf' else Panic.

Definition has_deadline (t : Z) : bool := (t =? Data) || (t =? Connect).

Definition header (m : message) : go string :=
  b1 ← put_varint_at "" (id m);
  b2 ← put_varint_at b1 (connID m);
  b3 ← put_varint_at b2 (messageType m);
  if has_deadline (messageType m) then put_varint_at b3 (deadline m) else Ret b3.

Definition Bytes (m : message) : go string :=
  h ← header m; Ret (h +:+ bytes m).

(** [ioutil.ReadAll(io.LimitReader(buf, 100))] *)
Definition read_limit : nat := 100.
Definition read_limited (s : string) : string * string :=
  (str_take read_limit s, str_drop read_limit s).

Definition newServerMessage (frame : string) : result message :=
  match ReadVarint frame with
  | inr e => inr e
  | inl (mid, r1) =>
    match ReadVarint r1 with
    | inr e => inr e
    | inl (cid, r2) =>
      match ReadVarint r2 with
      | inr e => inr e
      | inl (mType, r3) =>
        match (if has_deadline mType then ReadVarint r3 else inl (0, r3)) with
        | inr e => inr e
        | inl (dl, r4) =>
          let '(bs, r5) := read_limited r4 in
          if mType =? Connect then
            match Split2 bs "/" with
            | [p; a] => inl (mkMessage mid None cid dl mType bs r5 p a)
            | _ => inr (ErrorString "failed to parse connect address")
            end
          else if (mType =? AddClient) || (mType =? RemoveClient) then
            inl (mkMessage mid None cid dl mType bs r5 "" bs)
          else inl (mkMessage mid None cid dl mType "" r4 "" "")
        end
      end
    end
  end.

(** [Err]: the error an Error message carries, at most 100 bytes of its text. *)
Definition Err (m : message) : error :=
  match merr m with
  | Some e => e
  | None =>
      let str := (read_limited (body m)).1 in
      if decide (str = "EOF") then EOF else ErrorString str
  end.

(** ** Bit lemmas *)
Lemma lor_shift_add (a b s : Z) :
  0 ≤ s → 0 ≤ a < 2 ^ s → 0 ≤ b → Z.lor a (Z.shiftl b s) = a + b * 2 ^ s.
Proof.
  intros Hs Ha Hb. rewrite <- Z.shiftl_mul_pow2 by done.
  rewrite Z.add_nocarry_lxor.
  - apply Z.bits_inj'. intros n Hn. rewrite Z.lor_spec, Z.lxor_spec.
    destruct (Z.lt_ge_cases n s) as [Hlt|Hge].
    + rewrite Z.shiftl_spec_low by done. by destruct (Z.testbit a n).
    + rewrite <- (Z.mod_small a (2 ^ s)), Z.mod_pow2_bits_high by lia.
      by destruct (Z.testbit _ n).
  - apply Z.bits_inj'. intros n Hn. rewrite Z.land_spec, Z.bits_0.
    destruct (Z.lt_ge_cases n s) as [Hlt|Hge].
    + rewrite Z.shiftl_spec_low by done. apply andb_false_r.
    + rewrite <- (Z.mod_small a (2 ^ s)), Z.mod_pow2_bits_high by lia. done.
Qed.

Lemma land_127 x : Z.land x 127 = x mod 128.
Proof. apply (Z.land_ones x 7). lia. Qed.

Lemma lor_128 x : 0 ≤ x < 128 → Z.lor x 128 = x + 128.
Proof. intros H. pose proof (lor_shift_add x 1 7) as E. change (Z.shiftl 1 7) with 128 in E. lia. Qed.

Lemma shiftr_7 x : Z.shiftr x 7 = x / 128.
Proof. by rewrite Z.shiftr_div_pow2. Qed.

Lemma Z_of_byte_of z : 0 ≤ z < 256 → Z_of_byte (byte_of z) = z.
Proof.
  intros H. unfold Z_of_byte, byte_of. rewrite N_ascii_embedding; lia.
Qed.

Lemma to_uint64_id z : 0 ≤ z < 2 ^ 64 → to_uint64 z = z.
Proof. intros H. by apply Z.mod_small. Qed.

Lemma lor_uint64_add a b s :
  0 ≤ s → 0 ≤ a < 2 ^ s → 0 ≤ b → b * 2 ^ s < 2 ^ 64 →
  Z.lor a (to_uint64 (Z.shiftl b s)) = a + b * 2 ^ s.
Proof.
  intros Hs Ha Hb Hub. rewrite to_uint64_id, lor_shift_add; rewrite ?Z.shiftl_mul_pow2; nia.
Qed.

(** ** Varint round trip *)
Lemma varint_head x :
  0 ≤ x → Z_of_byte (byte_of (Z.lor (Z.land x 127) 128)) = x mod 128 + 128.
Proof.
  intros Hx. pose proof (Z.mod_pos_bound x 128). rewrite land_127, lor_128 by lia.
  apply Z_of_byte_of. lia.
Qed.

Lemma ReadUvarint_put fuel x i acc rest :
  fuel ≠ O → 0 ≤ x < 2 ^ (7 * Z.of_nat fuel) → (i + fuel = 10)%nat →
  0 ≤ acc < 2 ^ (7 * Z.of_nat i) → x * 2 ^ (7 * Z.of_nat i) < 2 ^ 64 →
  ReadUvarint_go i acc (7 * Z.of_nat i) (PutUvarint_go fuel x +:+ rest)
  = inl (acc + x * 2 ^ (7 * Z.of_nat i), rest).
Proof.
  revert x i acc. induction fuel as [|fuel IH]; intros x i acc Hf Hx Hi Hacc Hub; [done|].
  assert (0 < 2 ^ (7 * Z.of_nat i)) by (apply Z.pow_pos_nonneg; lia).
  simpl. destruct (Z.ltb_spec x 128) as [Hlt|Hge].
  - simpl. rewrite Z_of_byte_of by lia. destruct (Z.ltb_spec x 128); [|lia].
    destruct ((9 <? Z.of_nat i) || ((Z.of_nat i =? 9) && (1 <? x))) eqn:Hov.
    { exfalso. rewrite orb_true_iff, andb_true_iff, !Z.ltb_lt, Z.eqb_eq in Hov.
      destruct Hov as [?|[Hi9 ?]]; [lia|]. rewrite Hi9 in Hub. lia. }
    by rewrite lor_uint64_add by lia.
  - pose proof (Z.mod_pos_bound x 128 ltac:(lia)) as Hmod.
    pose proof (Z.div_mod x 128 ltac:(lia)) as Hdiv.
    simpl. rewrite varint_head by lia. destruct (Z.ltb_spec (x mod 128 + 128) 128); [lia|].
    rewrite land_127.
    replace ((x mod 128 + 128) mod 128) with (x mod 128)
      by (rewrite <- (Z.mod_mod x 128) at 1 by lia;
          replace (x mod 128 + 128) with (x mod 128 + 1 * 128) by lia;
          by rewrite Z.mod_add by lia).
    assert (Hstep : 2 ^ (7 * Z.of_nat (S i)) = 128 * 2 ^ (7 * Z.of_nat i)).
    { replace (7 * Z.of_nat (S i)) with (7 + 7 * Z.of_nat i) by lia.
      rewrite Z.pow_add_r by lia. done. }
    rewrite lor_uint64_add by nia. rewrite shiftr_7.
    replace (7 * Z.of_nat i + 7) with (7 * Z.of_nat (S i)) by lia.
    rewrite IH.
    + f_equal. f_equal. rewrite Hstep. nia.
    + intros ->. change (7 * Z.of_nat 1) with 7 in Hx. lia.
    + split; [apply Z.div_pos; lia|]. apply Z.div_lt_upper_bound; [lia|].
      replace (7 * Z.of_nat (S fuel)) with (7 + 7 * Z.of_nat fuel) in Hx by lia.
      rewrite Z.pow_add_r in Hx by lia. change (2 ^ 7) with 128 in Hx. lia.
    + lia.
    + rewrite Hstep. nia.
    + rewrite Hstep. nia.
Qed.

Lemma zigzag_spec x : in_int64 x = true → zigzag x = if x <? 0 then - 2 * x - 1 else 2 * x.
Proof.
  rewrite in_int64_spec. unfold int64_min, int64_max, zigzag, to_uint64. intros H.
  rewrite Z.shiftl_mul_pow2 by lia. change (2 ^ 1) with 2.
  destruct (Z.ltb_spec x 0).
  - replace ((x * 2) mod 2 ^ 64) with (x * 2 + 2 ^ 64)
      by (apply (Z.mod_unique _ _ (-1)); lia).
    unfold Z.lnot. symmetry. apply (Z.mod_unique _ _ (-1)); lia.
  - rewrite Z.mod_small; lia.
Qed.

Lemma zigzag_range x : in_int64 x = true → 0 ≤ zigzag x < 2 ^ 64.
Proof.
  intros H. rewrite zigzag_spec by done.
  apply in_int64_spec in H. unfold int64_min, int64_max in H. destruct (Z.ltb_spec x 0); lia.
Qed.

Lemma unzigzag_zigzag x : in_int64 x = true → unzigzag (zigzag x) = x.
Proof.
  intros H. rewrite zigzag_spec by done. unfold unzigzag.
  rewrite Z.shiftr_div_pow2 by lia. change (2 ^ 1) with 2. unfold Z.lnot.
  destruct (Z.ltb_spec x 0).
  - replace (- 2 * x - 1) with (1 + 2 * (- x - 1)) by lia.
    rewrite Z.odd_add_mul_2. cbn [Z.odd]. Z.to_euclidean_division_equations. lia.
  - replace (2 * x) with (0 + 2 * x) at 1 by lia. rewrite Z.odd_add_mul_2. cbn [Z.odd]. Z.to_euclidean_division_equations. lia.
Qed.

Lemma ReadVarint_put x rest :
  in_int64 x = true → ReadVarint (PutVarint x +:+ rest) = inl (x, rest).
Proof.
  intros H. unfold ReadVarint, ReadUvarint, PutVarint, PutUvarint.
  pose proof (zigzag_range x H).
  pose proof (ReadUvarint_put 10 (zigzag x) 0 0 rest) as Hr.
  change (7 * Z.of_nat 0) with 0 in Hr. rewrite Hr; [|lia || done..].
  by rewrite Z.pow_0_r, Z.mul_1_r, Z.add_0_l, unzigzag_zigzag.
Qed.

(** ** Sizes *)
Lemma PutUvarint_length fuel x k :
  0 ≤ x < 2 ^ (7 * Z.of_nat k) → (1 ≤ k)%nat →
  (String.length (PutUvarint_go fuel x) ≤ k)%nat.
Proof.
  revert x k. induction fuel as [|fuel IH]; intros x k Hx Hk; simpl; [lia|].
  destruct (Z.ltb_spec x 128) as [Hlt|Hge]; [done|].
  destruct k as [|[|k]]; [lia|simpl in Hx; lia|].
  simpl. apply le_n_S, IH; [|lia]. rewrite shiftr_7.
  replace (7 * Z.of_nat (S (S k))) with (7 + 7 * Z.of_nat (S k)) in Hx by lia.
  rewrite Z.pow_add_r in Hx by lia. change (2 ^ 7) with 128 in Hx.
  split; [apply Z.div_pos; lia|apply Z.div_lt_upper_bound; lia].
Qed.

(** A value of at most [7 * k - 1] bits takes at most [k] bytes. *)
Lemma PutVarint_length x k :
  (1 ≤ k ≤ 10)%nat → in_int64 x = true → - 2 ^ (7 * Z.of_nat k - 1) ≤ x < 2 ^ (7 * Z.of_nat k - 1) →
  (String.length (PutVarint x) ≤ k)%nat.
Proof.
  intros Hk Hi Hx. apply PutUvarint_length; [|lia].
  assert (2 ^ (7 * Z.of_nat k) = 2 * 2 ^ (7 * Z.of_nat k - 1)) as ->.
  { rewrite <- Z.pow_succ_r by lia. f_equal. lia. }
  rewrite zigzag_spec by done. destruct (Z.ltb_spec x 0); lia.
Qed.

Lemma PutVarint_length_10 x : in_int64 x = true → (String.length (PutVarint x) ≤ 10)%nat.
Proof.
  intros H. apply PutVarint_length; [lia|done|].
  apply in_int64_spec in H. unfold int64_min, int64_max in H. change (7 * Z.of_nat 10 - 1) with 69. lia.
Qed.

(** ** The header *)
Definition header_bytes (m : message) : string :=
  PutVarint (id m) +:+ PutVarint (connID m) +:+ PutVarint (messageType m) +:+
  (if has_deadline (messageType m) then PutVarint (deadline m) else "").

Lemma put_varint_at_spec buf x :
  put_varint_at buf x =
  if (String.length (buf +:+ PutVarint x) <=? 24)%nat then Ret (buf +:+ PutVarint x) else Panic.
Proof.
  unfold put_varint_at, header_size.
  destruct (Z.leb_spec (Z.of_nat (String.length (buf +:+ PutVarint x))) 24),
           (Nat.leb_spec (String.length (buf +:+ PutVarint x)) 24); done || lia.
Qed.

(** The header is the four varints in order, or a panic when they need more than
    the 24 bytes of the buffer. *)
Lemma header_spec m :
  header m = if (String.length (header_bytes m) <=? 24)%nat then Ret (header_bytes m) else Panic.
Proof.
  unfold header, header_bytes.
  set (a := PutVarint (id m)). set (b := PutVarint (connID m)).
  set (c := PutVarint (messageType m)). set (d := PutVarint (deadline m)).
  rewrite put_varint_at_spec. fold a. rewrite !str_length_app. simpl (String.length "").
  destruct (Nat.leb_spec (0 + String.length a) 24); simpl.
  2: { destruct (Nat.leb_spec (String.length a + (String.length b + (String.length c +
         String.length (if has_deadline (messageType m) then d else "")))) 24); [lia|done]. }
  rewrite put_varint_at_spec. fold b. rewrite str_length_app.
  destruct (Nat.leb_spec (String.length a + String.length b) 24); simpl.
  2: { destruct (Nat.leb_spec (String.length a + (String.length b + (String.length c +
         String.length (if has_deadline (messageType m) then d else "")))) 24); [lia|done]. }
  rewrite put_varint_at_spec. fold c. rewrite !str_length_app.
  destruct (Nat.leb_spec (String.length a + String.length b + String.length c) 24); simpl.
  2: { destruct (Nat.leb_spec (String.length a + (String.length b + (String.length c +
         String.length (if has_deadline (messageType m) then d else "")))) 24); [lia|done]. }
  destruct (has_deadline (messageType m)).
  - rewrite put_varint_at_spec. fold d. rewrite !str_length_app, !str_app_assoc, <- !Nat.add_assoc. done.
  - rewrite str_app_nil_r, !str_app_assoc. simpl (String.length "").
    rewrite Nat.add_0_r. destruct (Nat.leb_spec (String.length a + (String.length b + String.length c)) 24); [done|lia].
Qed.

(** What is decoded from the frame of a message: its id, its connection, its
    type, its deadline where the type has one, and its payload: the first 100
    bytes parsed as [proto/address] for Connect, as the client's name for
    AddClient and RemoveClient, the unread body for the others. *)
Definition delivered (m : message) : result message :=
  let dl := if has_deadline (messageType m) then deadline m else 0 in
  let '(bs, rest) := read_limited (bytes m) in
  if messageType m =? Connect then
    match Split2 bs "/" with
    | [p; a] => inl (mkMessage (id m) None (connID m) dl (messageType m) bs rest p a)
    | _ => inr (ErrorString "failed to parse connect address")
    end
  else if (messageType m =? AddClient) || (messageType m =? RemoveClient) then
    inl (mkMessage (id m) None (connID m) dl (messageType m) bs rest "" bs)
  else inl (mkMessage (id m) None (connID m) dl (messageType m) "" (bytes m) "" "").

Definition int64_message (m : message) : bool :=
  in_int64 (id m) && in_int64 (connID m) && in_int64 (messageType m) && in_int64 (deadline m).

Lemma int64_message_inv m :
  int64_message m = true →
  in_int64 (id m) = true ∧ in_int64 (connID m) = true ∧
  in_int64 (messageType m) = true ∧ in_int64 (deadline m) = true.
Proof. unfold int64_message. rewrite !andb_true_iff. tauto. Qed.

Lemma newServerMessage_header m :
  int64_message m = true → newServerMessage (header_bytes m +:+ bytes m) = delivered m.
Proof.
  intros (Hi & Hc & Ht & Hd)%int64_message_inv.
  unfold newServerMessage, header_bytes, delivered.
  rewrite !str_app_assoc, !ReadVarint_put by done.
  destruct (has_deadline (messageType m)) eqn:Hh; [|done].
  by rewrite ReadVarint_put.
Qed.

Lemma Bytes_inv m frame : Bytes m = Ret frame → frame = header_bytes m +:+ bytes m.
Proof.
  unfold Bytes. rewrite header_spec. destruct (_ <=? 24)%nat; simpl; [|done]. by intros [= <-].
Qed.

Lemma Bytes_fits (m : message) (d : Z) :
  in_int64 (id m) = true → 0 ≤ connID m < 2 ^ 34 → 1 ≤ messageType m ≤ 5 →
  in_int64 d = true → deadline m = Z.quot d 1000000 →
  Bytes m = Ret (header_bytes m +:+ bytes m) ∧ (String.length (header_bytes m) ≤ 24)%nat.
Proof.
  intros Hi Hc Ht Hd Hdl.
  assert (String.length (header_bytes m) ≤ 24)%nat as Hlen.
  { unfold header_bytes. rewrite !str_length_app.
    pose proof (PutVarint_length_10 _ Hi).
    apply in_int64_spec in Hd. unfold int64_min, int64_max in Hd.
    assert (- 2 ^ 44 ≤ deadline m < 2 ^ 44) by (rewrite Hdl; Z.to_euclidean_division_equations; lia).
    assert (∀ z, - 2 ^ 62 ≤ z < 2 ^ 62 → in_int64 z = true) as H64
      by (intros; apply in_int64_spec; unfold int64_min, int64_max; lia).
    pose proof (PutVarint_length (connID m) 5 ltac:(lia) (H64 (connID m) ltac:(lia)) ltac:(simpl; lia)).
    pose proof (PutVarint_length (messageType m) 1 ltac:(lia) (H64 (messageType m) ltac:(lia)) ltac:(simpl; lia)).
    pose proof (PutVarint_length (deadline m) 8 ltac:(lia) (H64 (deadline m) ltac:(lia)) ltac:(simpl; lia)).
    destruct (has_deadline (messageType m)); simpl; lia. }
  split; [|done]. unfold Bytes. rewrite header_spec.
  by destruct (Nat.leb_spec (String.length (header_bytes m)) 24); [|lia].
Qed.

(** The 24 bytes of the header buffer are enough for any id, any connection
    below 2^34, any of the five types and any deadline computed from a
    time.Duration (at most int64 nanoseconds, sent in milliseconds): [Bytes]
    does not panic. *)
Theorem header_fits (m : message) (d : Z) :
  in_int64 (id m) = true → 0 ≤ connID m < 2 ^ 34 → 1 ≤ messageType m ≤ 5 →
  in_int64 d = true → deadline m = Z.quot d 1000000 →
  Bytes m = Ret (header_bytes m +:+ bytes m) ∧ (String.length (header_bytes m) ≤ 24)%nat.
Proof. apply Bytes_fits. Qed.

Lemma header_fits_witness :
  Bytes (newMessage (2 ^ 63 - 1) (2 ^ 34 - 1) (Z.quot (2 ^ 63 - 1) 1000000) "x")
  = Ret (header_bytes (newMessage (2 ^ 63 - 1) (2 ^ 34 - 1) (Z.quot (2 ^ 63 - 1) 1000000) "x") +:+ "x")
  ∧ (String.length (header_bytes (newMessage (2 ^ 63 - 1) (2 ^ 34 - 1) (Z.quot (2 ^ 63 - 1) 1000000) "x")) ≤ 24)%nat.
Proof.
  apply (header_fits (newMessage (2 ^ 63 - 1) (2 ^ 34 - 1) (Z.quot (2 ^ 63 - 1) 1000000) "x") (2 ^ 63 - 1));
    done || (simpl; lia).
Defined.

(** The buffer is not enough for every int64: an id and a connection of ten
    bytes each with a deadline of four bytes overrun it. *)
Example header_overrun :
  Bytes (newMessage (2 ^ 62) (2 ^ 62) (2 ^ 20) "x") = Panic.
Proof. by vm_compute. Qed.

(** The payload of a Connect frame: what is left of the address once 100 bytes
    are read. *)
Lemma delivered_connect m p a :
  messageType m = Connect → bytes m = p +:+ "/" +:+ a → str_in "/" p = false →
  (String.length p < read_limit)%nat →
  ∃ m', delivered m = inl m' ∧ id m' = id m ∧ connID m' = connID m ∧ messageType m' = Connect
    ∧ deadline m' = deadline m ∧ proto m' = p
    ∧ address m' = str_take (read_limit - String.length p - 1) a.
Proof.
  intros Ht Hb Hp Hlen. unfold delivered. rewrite Ht, Hb. simpl (has_deadline Connect).
  unfold read_limited. rewrite str_take_app_ge by lia.
  assert (str_take (read_limit - String.length p) ("/" +:+ a)
          = String "/" (str_take (read_limit - String.length p - 1) a)) as ->.
  { destruct (read_limit - String.length p)%nat as [|n] eqn:E; [lia|]. simpl.
    by rewrite Nat.sub_0_r. }
  simpl (Connect =? Connect). rewrite Split2_app by done. cbn. by eexists.
Qed.

(** A Connect request reaches the other end with its connection id, its
    deadline in milliseconds and its protocol, and with its address up to the
    100 bytes of payload that are read: an address that fits is delivered
    whole. *)
Theorem connect_roundtrip (nid cid d : Z) (p a : string) :
  in_int64 nid = true → 0 ≤ cid < 2 ^ 34 → in_int64 d = true →
  str_in "/" p = false → (String.length p < read_limit)%nat →
  ∃ frame m', Bytes (newConnect nid cid d p a) = Ret frame
    ∧ newServerMessage frame = inl m' ∧ messageType m' = Connect
    ∧ id m' = nid ∧ connID m' = cid ∧ deadline m' = Z.quot d 1000000 ∧ proto m' = p
    ∧ address m' = str_take (read_limit - String.length p - 1) a
    ∧ ((String.length p + 1 + String.length a ≤ read_limit)%nat → address m' = a).
Proof.
  intros Hn Hc Hd Hp Hlen.
  assert (int64_message (newConnect nid cid d p a) = true) as H64.
  { apply in_int64_spec in Hd. unfold int64_message. simpl. rewrite Hn. simpl.
    rewrite andb_true_r, andb_true_iff, !in_int64_spec. unfold int64_min, int64_max in *.
    Z.to_euclidean_division_equations. lia. }
  destruct (Bytes_fits (newConnect nid cid d p a) d) as [HB _]; try done.
  destruct (delivered_connect (newConnect nid cid d p a) p a) as (m' & Hm & H1 & H2 & H3 & H4 & H5 & H6);
    [done..|].
  eexists _, m'. split; [exact HB|]. rewrite newServerMessage_header by done.
  repeat (split; [done|]). intros Hall. rewrite H6. apply str_take_ge. lia.
Qed.

Lemma connect_roundtrip_witness :
  ∃ frame m', Bytes (newConnect 1 2 15000000000 "tcp" "10.0.0.1:443") = Ret frame
    ∧ newServerMessage frame = inl m' ∧ messageType m' = Connect
    ∧ id m' = 1 ∧ connID m' = 2 ∧ deadline m' = Z.quot 15000000000 1000000 ∧ proto m' = "tcp"
    ∧ address m' = str_take (read_limit - String.length "tcp" - 1) "10.0.0.1:443"
    ∧ ((String.length "tcp" + 1 + String.length "10.0.0.1:443" ≤ read_limit)%nat → address m' = "10.0.0.1:443").
Proof.
  apply (connect_roundtrip 1 2 15000000000 "tcp" "10.0.0.1:443"); try done.
  by apply Nat.ltb_lt.
Defined.

(** The error an Error message carries arrives as io.EOF when its text is
    EOF, and otherwise as an error with the first 100 bytes of its text. *)
Theorem error_roundtrip (nid cid : Z) (e : error) :
  in_int64 nid = true → 0 ≤ cid < 2 ^ 34 →
  ∃ frame m', Bytes (newErrorMessage nid cid e) = Ret frame
    ∧ newServerMessage frame = inl m' ∧ messageType m' = ErrorMsg ∧ connID m' = cid
    ∧ Err m' = (if decide (str_take read_limit (Error e) = "EOF") then EOF
                else ErrorString (str_take read_limit (Error e))).
Proof.
  intros Hn Hc.
  assert (int64_message (newErrorMessage nid cid e) = true) as H64.
  { unfold int64_message. simpl. rewrite Hn. simpl.
    rewrite !andb_true_r. apply in_int64_spec. unfold int64_min, int64_max. lia. }
  destruct (Bytes_fits (newErrorMessage nid cid e) 0) as [HB _]; try done.
  eexists _, _. split; [exact HB|]. rewrite newServerMessage_header by done.
  split; [done|]. done.
Qed.

Lemma error_roundtrip_witness :
  ∃ frame m', Bytes (newErrorMessage 9 4 EOF) = Ret frame
    ∧ newServerMessage frame = inl m' ∧ messageType m' = ErrorMsg ∧ connID m' = 4
    ∧ Err m' = (if decide (str_take read_limit (Error EOF) = "EOF") then EOF
                else ErrorString (str_take read_limit (Error EOF))).
Proof. apply (error_roundtrip 9 4 EOF); done. Defined.

(** [m] can be sent, and the other end decodes it into a message with the same
    id, connection, type and deadline for which [P] holds. *)
Definition arrives (m : message) (P : message → Prop) : Prop :=
  ∃ frame m', Bytes m = Ret frame ∧ newServerMessage frame = inl m' ∧
    id m' = id m ∧ connID m' = connID m ∧ messageType m' = messageType m ∧ deadline m' = deadline m ∧ P m'.

Lemma millis_int64 d : in_int64 d = true → in_int64 (Z.quot d 1000000) = true.
Proof.
  rewrite !in_int64_spec. unfold int64_min, int64_max. intros Hd. Z.to_euclidean_division_equations. lia.
Qed.
Lemma conn_int64 cid : 0 ≤ cid < 2 ^ 34 → in_int64 cid = true.
Proof. intros Hc. apply in_int64_spec. unfold int64_min, int64_max. lia. Qed.

Lemma arrives_other m d P :
  in_int64 (id m) = true → 0 ≤ connID m < 2 ^ 34 → messageType m ∈ [Data; ErrorMsg; AddClient; RemoveClient] →
  in_int64 d = true → deadline m = Z.quot d 1000000 → (has_deadline (messageType m) = false → deadline m = 0) →
  (∀ m', delivered m = inl m' → P m') → arrives m P.
Proof.
  intros Hi Hc Ht Hd Hdl H0 HP.
  assert (1 ≤ messageType m ≤ 5 ∧ messageType m ≠ Connect) as [Hr Hnc].
  { rewrite !elem_of_cons, elem_of_nil in Ht. unfold Connect. destruct Ht as [->|[->|[->|[->|[]]]]]; unfold Data, ErrorMsg, AddClient, RemoveClient; lia. }
  destruct (Bytes_fits m d Hi Hc Hr Hd Hdl) as [HB _].
  assert (int64_message m = true) as H64.
  { unfold int64_message. rewrite Hi, Hdl, millis_int64, conn_int64 by done. simpl. rewrite andb_true_r.
    apply in_int64_spec. unfold int64_min, int64_max. lia. }
  assert (∃ m', delivered m = inl m' ∧ id m' = id m ∧ connID m' = connID m ∧ messageType m' = messageType m ∧
    deadline m' = if has_deadline (messageType m) then deadline m else 0) as (m' & Hm & H1 & H2 & H3 & H4).
  { unfold delivered. destruct (read_limited (bytes m)) as [bs rest].
    destruct (Z.eqb_spec (messageType m) Connect); [done|]. destruct (_ || _); by eexists. }
  exists (header_bytes m +:+ bytes m), m'. rewrite newServerMessage_header by done. split_and!; auto.
  rewrite H4. destruct (has_deadline _); [done|]. symmetry. by apply H0.
Qed.

(** C27: what each kind of message becomes at the other end of a tunnel.  For
    every int64 id, every connection below 2^34 and every deadline, the frame of
    each of the five kinds is written without a panic and decoded with the same
    id, connection, type and deadline in milliseconds (a time.Duration cut to
    milliseconds), and
    - Data: with the whole payload, whatever its length;
    - Connect, for a protocol of less than 100 bytes without a slash: with the
      protocol, and with what fits of the address into 100 bytes of both, which
      is all of it when it fits; a protocol that does not fit gives an error;
    - Error: with the first 100 bytes of the text as the error, and io.EOF
      arrives as io.EOF;
    - AddClient and RemoveClient: with the first 100 bytes of the name of the
      client, which is the name when it is not longer. *)
Theorem message_roundtrip (nid cid d : Z) :
  in_int64 nid = true → 0 ≤ cid < 2 ^ 34 → in_int64 d = true →
  (∀ payload, arrives (newMessage nid cid (Z.quot d 1000000) payload) (λ m', body m' = payload)) ∧
  (∀ p a, str_in "/" p = false → (String.length p < 100)%nat →
     arrives (newConnect nid cid d p a) (λ m',
       proto m' = p ∧ address m' = str_take (100 - String.length p - 1) a ∧
       ((String.length p + 1 + String.length a ≤ 100)%nat → address m' = a))) ∧
  (∀ p a, str_in "/" p = false → (100 ≤ String.length p)%nat →
     ∃ frame, Bytes (newConnect nid cid d p a) = Ret frame ∧
       newServerMessage frame = inr (ErrorString "failed to parse connect address")) ∧
  (∀ e, arrives (newErrorMessage nid cid e) (λ m',
     (Error e = "EOF" → Err m' = EOF) ∧
     (str_take 100 (Error e) ≠ "EOF" → Err m' = ErrorString (str_take 100 (Error e))))) ∧
  (∀ client,
     let named m' := address m' = str_take 100 client ∧ ((String.length client ≤ 100)%nat → address m' = client) in
     arrives (newAddClient nid client) named ∧ arrives (newRemoveClient nid client) named).
Proof.
  intros Hn Hc Hd. split_and!.
  - intros payload. apply (arrives_other _ d); try done; [set_solver|]. by intros m' [= <-].
  - intros p a Hp Hlen. destruct (connect_roundtrip nid cid d p a) as (frame & m' & HB & Hm & H1 & H2 & H3 & H4 & H5 & H6 & H7); try done.
    by exists frame, m'.
  - intros p a Hp Hlen. destruct (Bytes_fits (newConnect nid cid d p a) d) as [HB _]; try done.
    eexists. split; [exact HB|]. rewrite newServerMessage_header.
    + unfold delivered, read_limited. cbn [bytes newConnect messageType].
      rewrite str_take_app_le, Split2_None by (apply str_in_take, Hp || (unfold read_limit; lia)). done.
    + unfold int64_message. cbn. by rewrite Hn, conn_int64, millis_int64.
  - intros e. apply (arrives_other _ 0); try done; [set_solver|]. intros m' [= <-]. unfold Err. cbn [merr body newErrorMessage bytes].
    unfold read_limited. cbn [fst]. split; intros He; [by rewrite He|]. by rewrite decide_False.
  - intros client named. split; (apply (arrives_other _ 0); try done; [set_solver|]); intros m' Hm;
      injection Hm as <-; (split; [reflexivity|]); intros Hl; exact (str_take_ge 100 client Hl).
Qed.

Lemma message_roundtrip_witness :
  arrives (newMessage 7 3 250 "hello") (λ m', body m' = "hello") ∧
  arrives (newConnect 7 3 250000000 "tcp" "10.0.0.1:443") (λ m', proto m' = "tcp" ∧ address m' = "10.0.0.1:443") ∧
  arrives (newErrorMessage 7 3 EOF) (λ m', Err m' = EOF) ∧
  arrives (newAddClient 7 "c-1") (λ m', address m' = "c-1").
Proof.
  destruct (message_roundtrip 7 3 250000000) as (Hd & Hc & _ & He & Ha); [reflexivity|lia|reflexivity|].
  assert (∀ m (P Q : message → Prop), arrives m P → (∀ m', P m' → Q m') → arrives m Q) as Hweak
    by (unfold arrives; naive_solver).
  split_and!.
  - exact (Hd "hello").
  - apply (Hweak _ _ _ (Hc "tcp" "10.0.0.1:443" eq_refl ltac:(simpl; lia))). intros m' (Hp & _ & Hw). split; [exact Hp|].
    apply Hw. simpl. lia.
  - apply (Hweak _ _ _ (He EOF)). intros m' [Hw _]. apply Hw. reflexivity.
  - apply (Hweak _ _ _ (proj1 (Ha "c-1"))). intros m' [_ Hw]. apply Hw. simpl. lia.
Defined.

(** ** Ranges of decoded values *)
Lemma lor_uint64 a b : 0 ≤ a < 2 ^ 64 → 0 ≤ b < 2 ^ 64 → 0 ≤ Z.lor a b < 2 ^ 64.
Proof.
  intros Ha Hb. split; [apply Z.lor_nonneg; lia|].
  destruct (Z.eq_dec (Z.lor a b) 0) as [->|Hne]; [lia|].
  apply Z.log2_lt_pow2; [pose proof (proj2 (Z.lor_nonneg a b)); lia|].
  rewrite Z.log2_lor by lia. apply Z.max_lub_lt.
  - destruct (Z.eq_dec a 0) as [->|]; [done|apply Z.log2_lt_pow2; lia].
  - destruct (Z.eq_dec b 0) as [->|]; [done|apply Z.log2_lt_pow2; lia].
Qed.

Lemma to_uint64_range z : 0 ≤ to_uint64 z < 2 ^ 64.
Proof. apply Z.mod_pos_bound. lia. Qed.

Lemma ReadUvarint_range i x s input ux rest :
  0 ≤ x < 2 ^ 64 → ReadUvarint_go i x s input = inl (ux, rest) → 0 ≤ ux < 2 ^ 64.
Proof.
  revert i x s. induction input as [|c input IH]; intros i x s Hx; simpl; [done|].
  destruct (Z_of_byte c <? 128).
  - destruct (_ || _); [done|]. intros [= <- _]. by apply lor_uint64, to_uint64_range.
  - apply IH. by apply lor_uint64, to_uint64_range.
Qed.

Lemma unzigzag_range ux : 0 ≤ ux < 2 ^ 64 → in_int64 (unzigzag ux) = true.
Proof.
  intros H. apply in_int64_spec. unfold unzigzag, int64_min, int64_max, Z.lnot.
  rewrite Z.shiftr_div_pow2 by lia. change (2 ^ 1) with 2.
  destruct (Z.odd ux); Z.to_euclidean_division_equations; lia.
Qed.

Lemma ReadVarint_range input x rest : ReadVarint input = inl (x, rest) → in_int64 x = true.
Proof.
  unfold ReadVarint, ReadUvarint.
  destruct (ReadUvarint_go 0 0 0 input) as [[ux r]|] eqn:E; [|done]. intros [= <- _].
  eapply unzigzag_range, ReadUvarint_range; [|exact E]. lia.
Qed.

Lemma newServerMessage_connID frame m :
  newServerMessage frame = inl m → in_int64 (connID m) = true.
Proof.
  unfold newServerMessage.
  destruct (ReadVarint frame) as [[i r1]|]; [|done].
  destruct (ReadVarint r1) as [[cid r2]|] eqn:E; [|done]. apply ReadVarint_range in E.
  destruct (ReadVarint r2) as [[t r3]|]; [|done].
  destruct (if has_deadline t then ReadVarint r3 else inl (0, r3)) as [[dl r4]|]; [|done].
  simpl. destruct (t =? Connect).
  - destruct (Split2 _ _) as [|? [|? [|]]]; try done. by intros [= <-].
  - destruct (_ || _); by intros [= <-].
Qed.

(** A frame with a deadline of at most 20 bits, or none, fits for every id and
    every connection. *)
Lemma Bytes_fits_small m :
  in_int64 (id m) = true → in_int64 (connID m) = true → 1 ≤ messageType m ≤ 5 →
  - 2 ^ 20 ≤ deadline m < 2 ^ 20 → Bytes m = Ret (header_bytes m +:+ bytes m).
Proof.
  intros Hi Hc Ht Hd.
  assert (∀ z, - 2 ^ 62 ≤ z < 2 ^ 62 → in_int64 z = true) as H64
    by (intros; apply in_int64_spec; unfold int64_min, int64_max; lia).
  assert (String.length (header_bytes m) ≤ 24)%nat as Hlen.
  { unfold header_bytes. rewrite !str_length_app.
    pose proof (PutVarint_length_10 _ Hi). pose proof (PutVarint_length_10 _ Hc).
    pose proof (PutVarint_length (messageType m) 1 ltac:(lia) (H64 (messageType m) ltac:(lia)) ltac:(simpl; lia)).
    pose proof (PutVarint_length (deadline m) 3 ltac:(lia) (H64 (deadline m) ltac:(lia)) ltac:(simpl; lia)).
    destruct (has_deadline (messageType m)); simpl; lia. }
  unfold Bytes. rewrite header_spec.
  by destruct (Nat.leb_spec (String.length (header_bytes m)) 24); [|lia].
Qed.
