(* ===== verification/Tunnel.v ===== *)
(** * Tunnel sessions

    Models pkg/remotedialer/connection.go, session.go and client_dialer.go: a
    session multiplexes connections over one websocket.

    A connection is a shared object: the session's [conns] map and the reader
    that holds the net.Conn point to the same one, and it outlives its entry in
    the map.  So the session keeps the connections in a store [heap] indexed by
    pointers, and [conns] maps connection ids to pointers.

    The websocket is represented by the frames written to it ([out], newest
    last) and by [ws_err], the error its writes return once it is broken.
    Closing a closed channel and sending on a closed channel are panics. *)

From S2P Require Import Prelude GoStrings Values Errors Message.
From Stdlib Require Import Ascii.

(** ** Connections *)
Record connection := mkConnection {
  c_proto : string;
  c_address : string;
  c_connID : Z;
  c_err : option error;
  c_buf : list string;        (* the channel's contents, oldest first *)
  c_closed : bool;            (* the channel is closed *)
  c_readBuf : string;
  c_writeDeadline : option Z  (* None: the zero time *)
}.

(** [make(chan []byte, 1024)] *)
Definition chan_cap : nat := 1024.

Definition newConnection (connID : Z) (proto address : string) : connection :=
  mkConnection proto address connID None [] false "" None.

Definition set_err (c : connection) (e : option error) : connection :=
  mkConnection (c_proto c) (c_address c) (c_connID c) e (c_buf c) (c_closed c) (c_readBuf c) (c_writeDeadline c).
Definition set_buf (c : connection) (b : list string) : connection :=
  mkConnection (c_proto c) (c_address c) (c_connID c) (c_err c) b (c_closed c) (c_readBuf c) (c_writeDeadline c).
Definition set_readBuf (c : connection) (b : string) : connection :=
  mkConnection (c_proto c) (c_address c) (c_connID c) (c_err c) (c_buf c) (c_closed c) b (c_writeDeadline c).

(** [close(c.buf)] *)
Definition close_buf (c : connection) : go connection :=
  if c_closed c then Panic
  else Ret (mkConnection (c_proto c) (c_address c) (c_connID c) (c_err c) (c_buf c) true (c_readBuf c) (c_writeDeadline c)).

(** doTunnelClose: the first caller records its error and closes the channel. *)
Definition doTunnelClose (c : connection) (err : option error) : go connection :=
  match c_err c with
  | Some _ => Ret c
  | None => close_buf (set_err c (Some (default ErrClosedPipe err)))
  end.

(** chanWriter.Write.  When the channel is full the writer waits for at most 15
    seconds: [WouldBlock] stands for the wait, and the timeout for its end when
    no reader made room. *)
Inductive write_result :=
| Written (n : nat)
| WriteErr (e : error)
| WouldBlock.

Definition backed_up : error := ErrorString "backed up reader".

Definition chanWriter_Write (c : connection) (buf : string) : go (connection * write_result) :=
  match c_err c with
  | Some e => Ret (c, WriteErr e)
  | None =>
      if c_closed c then Panic
      else if (length (c_buf c) <? chan_cap)%nat
           then Ret (set_buf c (c_buf c ++ [buf]), Written (String.length buf))
           else Ret (c, WouldBlock)
  end.

(** copyData: [copy(b, c.readBuf)] for a buffer of [n] bytes. *)
Definition copyData (c : connection) (n : nat) : connection * string :=
  (set_readBuf c (str_drop n (c_readBuf c)), str_take n (c_readBuf c)).

Inductive read_result :=
| ReadOk (data : string)
| ReadErr (e : error)
| ReadBlock.

(** Read into a buffer of [n] bytes. *)
Definition Read (c : connection) (n : nat) : connection * read_result :=
  if (n =? 0)%nat then (c, ReadOk "")
  else
    let '(c1, d) := copyData c n in
    if (0 <? String.length d)%nat then (c1, ReadOk d)
    else
      match c_buf c1 with
      | next :: rest =>
          let '(c2, d') := copyData (set_readBuf (set_buf c1 rest) next) n in (c2, ReadOk d')
      | [] => if c_closed c1 then (c1, ReadErr (default EOF (c_err c1))) else (c1, ReadBlock)
      end.

Definition SetWriteDeadline (c : connection) (t : option Z) : connection :=
  mkConnection (c_proto c) (c_address c) (c_connID c) (c_err c) (c_buf c) (c_closed c) (c_readBuf c) t.
Definition SetReadDeadline (c : connection) (t : option Z) : connection := c.
Definition SetDeadline (c : connection) (t : option Z) : connection :=
  SetWriteDeadline (SetReadDeadline c t) t.

(** ** Sessions *)
Abbreviation ptr := nat.

Record Session := mkSession {
  nextConnID : Z;
  clientKey : string;
  sessionKey : Z;
  conns : gmap Z ptr;
  remoteClientKeys : option (gmap string (gset Z));   (* None: the nil map *)
  auth : option (string → string → bool);
  client : bool;
  heap : gmap ptr connection;
  next_ptr : ptr;
  out : list message;
  ws_err : option error;
  ws_closed : bool;                                   (* s.conn.conn.Close() was called *)
  idCounter : Z;
  dials : list (ptr * message)                        (* goroutines running clientDial *)
}.

Definition NewClientSession (auth : option (string → string → bool)) (ids : Z) : Session :=
  mkSession 0 "client" 0 ∅ None auth true ∅ 0 [] None false ids [].
Definition newSession (sessionKey : Z) (clientKey : string) (ids : Z) : Session :=
  mkSession 1 clientKey sessionKey ∅ (Some ∅) None false ∅ 0 [] None false ids [].

Definition with_conns (s : Session) (cs : gmap Z ptr) (h : gmap ptr connection) : Session :=
  mkSession (nextConnID s) (clientKey s) (sessionKey s) cs (remoteClientKeys s) (auth s) (client s)
    h (next_ptr s) (out s) (ws_err s) (ws_closed s) (idCounter s) (dials s).
Definition with_remote (s : Session) (r : option (gmap string (gset Z))) : Session :=
  mkSession (nextConnID s) (clientKey s) (sessionKey s) (conns s) r (auth s) (client s)
    (heap s) (next_ptr s) (out s) (ws_err s) (ws_closed s) (idCounter s) (dials s).
Definition update_conn (s : Session) (p : ptr) (c : connection) : Session :=
  with_conns s (conns s) (<[p := c]> (heap s)).

(** writeMessage: the constructor draws the next id from the process-wide
    counter, the frame is encoded and handed to the websocket. *)
Definition writeMessage (s : Session) (mk : Z → message) : go (Session * option error) :=
  let nid := nextid (idCounter s) in
  _ ← Bytes (mk nid);
  Ret (mkSession (nextConnID s) (clientKey s) (sessionKey s) (conns s) (remoteClientKeys s) (auth s)
         (client s) (heap s) (next_ptr s)
         (match ws_err s with None => out s ++ [mk nid] | Some _ => out s end)
         (ws_err s) (ws_closed s) nid (dials s),
       ws_err s).

(** writeErr *)
Definition writeErr (s : Session) (cid : Z) (err : option error) : go Session :=
  match err with
  | None => Ret s
  | Some e => '(s', _) ← writeMessage s (λ nid, newErrorMessage nid cid e); Ret s'
  end.

(** tunnelClose of the connection at [p]: write the error, then close. *)
Definition tunnelClose (s : Session) (p : ptr) (err : option error) : go Session :=
  match heap s !! p with
  | None => Panic
  | Some c =>
      s' ← writeErr s (c_connID c) err;
      c' ← doTunnelClose c err;
      Ret (update_conn s' p c')
  end.

Definition closeConnection (s : Session) (cid : Z) (err : option error) : go Session :=
  let p := conns s !! cid in
  let s' := with_conns s (delete cid (conns s)) (heap s) in
  match p with
  | Some p => tunnelClose s' p err
  | None => Ret s'
  end.

(** connection.Close *)
Definition Connection_Close (s : Session) (p : ptr) : go Session :=
  match heap s !! p with
  | None => Panic
  | Some c => closeConnection s (c_connID c) (Some EOF)
  end.

(** connection.Write: [now] is time.Now, times are in nanoseconds. *)
Definition Connection_Write (s : Session) (p : ptr) (b : string) (now : Z) : go (Session * (nat * option error)) :=
  match heap s !! p with
  | None => Panic
  | Some c =>
      match c_err c with
      | Some e => Ret (s, (0%nat, Some e))
      | None =>
          let dl := match c_writeDeadline c with None => 0 | Some t => Z.quot (t - now) 1000000 end in
          '(s', err) ← writeMessage s (λ nid, newMessage nid (c_connID c) dl b);
          Ret (s', (String.length b, err))
      end
  end.

(** parseAddress: [client/sessionKey]. *)
Definition parseAddress (address : string) : result (string * Z) :=
  match Split2 address "/" with
  | [k; n] =>
      match ParseInt n with
      | Some v => inl (k, v)
      | None => inr (ErrorString "strconv.Atoi: parsing error")
      end
  | _ => inr (ErrorString "not / separated")
  end.

Definition invalid_remote (address : string) (e : error) : error :=
  ErrorString ("invalid remote Session " +:+ address +:+ ": " +:+ Error e).

(** addRemoteClient: writing to the nil map would panic; serveMessage only calls
    it when the map is not nil. *)
Definition addRemoteClient (s : Session) (address : string) : go (Session * option error) :=
  match parseAddress address with
  | inr e => Ret (s, Some (invalid_remote address e))
  | inl (k, n) =>
      match remoteClientKeys s with
      | None => Panic
      | Some rk =>
          let keys := default ∅ (rk !! k) in
          Ret (with_remote s (Some (<[k := {[n]} ∪ keys]> rk)), None)
      end
  end.

Definition removeRemoteClient (s : Session) (address : string) : Session * option error :=
  match parseAddress address with
  | inr e => (s, Some (invalid_remote address e))
  | inl (k, n) =>
      let rk := remoteClientKeys s in
      let keys := default ∅ (rk ≫= (.!! k)) ∖ {[n]} in
      (with_remote s
         ((λ m, if decide (keys = ∅) then delete k m else <[k := keys]> m) <$> rk), None)
  end.

(** clientConnect: a new connection object, then a goroutine that dials. *)
Definition alloc_conn (s : Session) (cid : Z) (c : connection) (d : list (ptr * message)) : Session :=
  mkSession (nextConnID s) (clientKey s) (sessionKey s) (<[cid := next_ptr s]> (conns s))
    (remoteClientKeys s) (auth s) (client s) (<[next_ptr s := c]> (heap s)) (S (next_ptr s))
    (out s) (ws_err s) (ws_closed s) (idCounter s) d.

Definition clientConnect (s : Session) (m : message) : Session :=
  alloc_conn s (connID m) (newConnection (connID m) (proto m) (address m))
    (dials s ++ [(next_ptr s, m)]).

(** serverConnect: [atomic.AddInt64(&s.nextConnID, 1)], then the Connect request. *)
Definition serverConnect (s : Session) (dl : Z) (proto address : string) : go (Session * result ptr) :=
  let cid := wrap64 (nextConnID s + 1) in
  let p := next_ptr s in
  let s1 := mkSession cid (clientKey s) (sessionKey s) (conns s) (remoteClientKeys s) (auth s)
              (client s) (heap s) (next_ptr s) (out s) (ws_err s) (ws_closed s) (idCounter s) (dials s) in
  let s2 := alloc_conn s1 cid (newConnection cid proto address) (dials s) in
  '(s3, err) ← writeMessage s2 (λ nid, newConnect nid cid dl proto address);
  match err with
  | Some e => s4 ← closeConnection s3 cid (Some e); Ret (s4, inr e)
  | None => Ret (s3, inl p)
  end.

Definition disconnect_err : error := ErrorString "tunnel disconnect".

(** Close: [order] is the order in which the map is ranged over. *)
Definition Close (s : Session) (order : list ptr) : go Session :=
  s' ← foldM (λ s p, tunnelClose s p (Some disconnect_err)) order s;
  Ret (with_conns s' ∅ (heap s')).

Definition client_name (k : string) (n : Z) : string := k +:+ "/" +:+ itoa n.

Definition set_ws_closed (s : Session) : Session :=
  mkSession (nextConnID s) (clientKey s) (sessionKey s) (conns s) (remoteClientKeys s) (auth s)
    (client s) (heap s) (next_ptr s) (out s) (ws_err s) true (idCounter s) (dials s).

Definition sessionAdded (s : Session) (k : string) (n : Z) : go Session :=
  '(s', err) ← writeMessage s (λ nid, newAddClient nid (client_name k n));
  Ret (match err with Some _ => set_ws_closed s' | None => s' end).
Definition sessionRemoved (s : Session) (k : string) (n : Z) : go Session :=
  '(s', err) ← writeMessage s (λ nid, newRemoveClient nid (client_name k n));
  Ret (match err with Some _ => set_ws_closed s' | None => s' end).

(** [io.Copy(conn.tunnelWriter(), message)].  A write that finds the channel
    full ends with the timeout's error; a wait that ends because a reader made
    room is the run in which that read comes first. *)
Fixpoint copy_chunks (c : connection) (chunks : list string) : go (connection * option error) :=
  match chunks with
  | [] => Ret (c, None)
  | b :: rest =>
      '(c', r) ← chanWriter_Write c b;
      match r with
      | Written _ => copy_chunks c' rest
      | WriteErr e => Ret (c', Some e)
      | WouldBlock => Ret (c', Some backed_up)
      end
  end.

(** ** Invariant *)

(** The channel is closed exactly when an error is recorded, and holds at most
    what its capacity allows. *)
Definition conn_ok (c : connection) : Prop :=
  (c_closed c = true ↔ is_Some (c_err c)) ∧ (length (c_buf c) ≤ chan_cap)%nat
  ∧ in_int64 (c_connID c) = true.

Record session_ok (s : Session) : Prop := mkSessionOk {
  ok_conn : ∀ p c, heap s !! p = Some c → conn_ok c;
  ok_conns : ∀ cid p, conns s !! cid = Some p → ∃ c, heap s !! p = Some c ∧ c_connID c = cid;
  ok_fresh : ∀ p, is_Some (heap s !! p) → (p < next_ptr s)%nat;
  ok_ids : in_int64 (idCounter s) = true
}.

(** [s'] has the connections of [s]: only the websocket side differs. *)
Definition same_conns (s s' : Session) : Prop :=
  conns s' = conns s ∧ heap s' = heap s ∧ next_ptr s' = next_ptr s
  ∧ remoteClientKeys s' = remoteClientKeys s ∧ auth s' = auth s ∧ nextConnID s' = nextConnID s
  ∧ in_int64 (idCounter s') = true.

Lemma same_conns_ok s s' : same_conns s s' → session_ok s → session_ok s'.
Proof.
  intros (Hc & Hh & Hn & _ & _ & _ & Hi) [H1 H2 H3 H4].
  split; [rewrite Hh|rewrite Hc, Hh|rewrite Hh, Hn|]; done.
Qed.

Lemma writeMessage_ok s mk :
  Bytes (mk (nextid (idCounter s))) = Ret (header_bytes (mk (nextid (idCounter s))) +:+ bytes (mk (nextid (idCounter s)))) →
  ∃ s', writeMessage s mk = Ret (s', ws_err s) ∧ same_conns s s'.
Proof.
  intros HB. unfold writeMessage. rewrite HB. eexists. split; [done|].
  repeat (split; [done|]). apply wrap64_range.
Qed.

Lemma nextid_range z : in_int64 (nextid z) = true.
Proof. apply wrap64_range. Qed.

Lemma writeError_ok s cid e :
  in_int64 cid = true →
  ∃ s', writeMessage s (λ nid, newErrorMessage nid cid e) = Ret (s', ws_err s) ∧ same_conns s s'.
Proof.
  intros Hc. apply writeMessage_ok, Bytes_fits_small; simpl;
    [apply nextid_range|done|unfold ErrorMsg; lia|lia].
Qed.

Lemma writeErr_ok s cid err :
  in_int64 cid = true → in_int64 (idCounter s) = true →
  ∃ s', writeErr s cid err = Ret s' ∧ same_conns s s'.
Proof.
  intros Hc Hi. destruct err as [e|]; [|by exists s].
  destruct (writeError_ok s cid e Hc) as (s' & Hw & Hs). exists s'. simpl. by rewrite Hw.
Qed.

Lemma doTunnelClose_ok c err :
  conn_ok c → ∃ c', doTunnelClose c err = Ret c' ∧ conn_ok c' ∧ c_connID c' = c_connID c
    ∧ is_Some (c_err c') ∧ c_closed c' = true ∧ c_buf c' = c_buf c ∧ c_readBuf c' = c_readBuf c
    ∧ (∀ e, c_err c = Some e → c' = c).
Proof.
  intros (Hcl & Hb & Hi). unfold doTunnelClose. destruct (c_err c) as [e|] eqn:He.
  - exists c. repeat split; try done; rewrite ?He; try tauto; naive_solver.
  - unfold close_buf. simpl. destruct (c_closed c) eqn:E.
    { destruct (proj1 Hcl eq_refl). done. }
    eexists. repeat split; try done; naive_solver.
Qed.

Lemma update_conn_ok s p c c' :
  session_ok s → heap s !! p = Some c → conn_ok c' → c_connID c' = c_connID c →
  session_ok (update_conn s p c').
Proof.
  intros [H1 H2 H3 H4] Hp Hc' Hid. split; simpl.
  - intros q d. rewrite lookup_insert. case_decide; [by intros [= <-]|apply H1].
  - intros cid q Hq. rewrite lookup_insert. destruct (H2 _ _ Hq) as (d & Hd & <-).
    case_decide; simplify_eq; eauto.
  - intros q. rewrite lookup_insert. case_decide; [subst|]; eauto.
  - done.
Qed.

Lemma delete_conn_ok s cid :
  session_ok s → session_ok (with_conns s (delete cid (conns s)) (heap s)).
Proof.
  intros [H1 H2 H3 H4]. split; try done. simpl.
  intros cid' p [_ Hp]%lookup_delete_Some. eauto.
Qed.

Lemma tunnelClose_ok s p c err :
  session_ok s → heap s !! p = Some c →
  ∃ s' c', tunnelClose s p err = Ret s' ∧ session_ok s' ∧ conns s' = conns s
    ∧ heap s' = <[p := c']> (heap s) ∧ is_Some (c_err c') ∧ remoteClientKeys s' = remoteClientKeys s.
Proof.
  intros Hs Hp. destruct (ok_conn s Hs _ _ Hp) as [Hcl [Hb Hi]].
  destruct (writeErr_ok s (c_connID c) err Hi (ok_ids s Hs)) as (s1 & Hw & Hsame).
  destruct (doTunnelClose_ok c err) as (c' & Hd & Hc' & Hid & He & _); [done|].
  unfold tunnelClose. rewrite Hp, Hw. simpl. rewrite Hd. eexists _, c'. split; [done|].
  pose proof (same_conns_ok _ _ Hsame Hs) as Hs1.
  destruct Hsame as (HC & HH & _ & HR & _).
  split; [|by simpl; rewrite HC, HH]. eapply update_conn_ok; eauto. by rewrite HH.
Qed.

Lemma closeConnection_ok s cid err :
  session_ok s → ∃ s', closeConnection s cid err = Ret s' ∧ session_ok s'
    ∧ conns s' = delete cid (conns s) ∧ remoteClientKeys s' = remoteClientKeys s
    ∧ (∀ p, conns s !! cid = Some p → ∃ c, heap s' !! p = Some c ∧ is_Some (c_err c)).
Proof.
  intros Hs. unfold closeConnection.
  pose proof (delete_conn_ok s cid Hs) as Hs1.
  destruct (conns s !! cid) as [p|] eqn:Hp; [|by eexists].
  destruct (ok_conns s Hs _ _ Hp) as (c & Hc & _).
  destruct (tunnelClose_ok _ p c err Hs1 Hc) as (s' & c' & Ht & Hs' & HC & HH & He & HR).
  exists s'. repeat (split; [done|]). intros q [= <-]. exists c'. by rewrite HH, lookup_insert_eq.
Qed.

Lemma chanWriter_ok c b :
  conn_ok c → ∃ c' r, chanWriter_Write c b = Ret (c', r) ∧ conn_ok c' ∧ c_connID c' = c_connID c.
Proof.
  intros (Hcl & Hb & Hi). unfold chanWriter_Write. destruct (c_err c) as [e|] eqn:He.
  - eexists _, _. split; [done|]. repeat split; try done; rewrite ?He; naive_solver.
  - destruct (c_closed c) eqn:E; [destruct (proj1 Hcl eq_refl); done|].
    destruct (Nat.ltb_spec (length (c_buf c)) chan_cap).
    + eexists _, _. split; [done|]. repeat split; simpl; try done; rewrite ?He, ?E; try naive_solver.
      rewrite length_app. simpl. lia.
    + eexists _, _. split; [done|]. repeat split; try done; rewrite ?He, ?E; naive_solver.
Qed.

Lemma copy_chunks_ok chunks c :
  conn_ok c → ∃ c' err, copy_chunks c chunks = Ret (c', err) ∧ conn_ok c' ∧ c_connID c' = c_connID c.
Proof.
  revert c. induction chunks as [|b rest IH]; intros c Hc; [by eexists _, _|].
  destruct (chanWriter_ok c b Hc) as (c1 & r & Hw & Hc1 & Hid). simpl. rewrite Hw. simpl.
  destruct r; [|by eexists _, _..].
  destruct (IH c1 Hc1) as (c2 & err & H & H2 & Hid2). eexists _, _. split; [done|].
  split; [done|congruence].
Qed.

Lemma Read_ok c n : conn_ok c → conn_ok (Read c n).1 ∧ c_connID (Read c n).1 = c_connID c.
Proof.
  intros (Hcl & Hb & Hi). unfold Read. destruct (n =? 0)%nat; [done|]. simpl.
  destruct (0 <? _)%nat; [done|].
  destruct (c_buf c) as [|next rest] eqn:E; simpl.
  - destruct (c_closed c) eqn:Ec; simpl; (split; [|done]); repeat split; simpl;
      rewrite ?E, ?Ec; simpl; try naive_solver; lia.
  - split; [|done]. repeat split; simpl; try tauto. simpl in Hb. lia.
Qed.

Lemma clientConnect_ok s m :
  session_ok s → in_int64 (connID m) = true → session_ok (clientConnect s m).
Proof.
  intros [H1 H2 H3 H4] Hm. split; simpl.
  - intros q c. rewrite lookup_insert. case_decide; [intros [= <-]|apply H1].
    repeat split; simpl; try done; (lia || naive_solver).
  - intros cid q. rewrite !lookup_insert. case_decide.
    + intros [= <-]. rewrite decide_True by done. eexists. split; [done|]. by simpl.
    + intros Hq. destruct (H2 _ _ Hq) as (c & Hc & Hid).
      rewrite decide_False; [eauto|]. intros <-.
      specialize (H3 (next_ptr s) (ex_intro _ c Hc)). lia.
  - intros q. rewrite lookup_insert. case_decide; [lia|]. intros Hq%H3. lia.
  - done.
Qed.

Lemma with_remote_ok s r : session_ok s → session_ok (with_remote s r).
Proof. intros [H1 H2 H3 H4]. by split. Qed.

(** ** Serving a frame *)
Section Serve.
(** The pieces in which io.Copy hands the body of a Data message to the
    channel: documented to be the body, in order. *)
Context (io_chunks : string → list string).

Definition not_found_err (s : Session) (cid : Z) : error :=
  ErrorString ("connection not found " +:+ clientKey s +:+ "/" +:+ itoa (sessionKey s) +:+ "/" +:+ itoa cid).

Definition serveMessage (s : Session) (frame : string) : go (Session * option error) :=
  match newServerMessage frame with
  | inr e => Ret (s, Some e)
  | inl m =>
      if messageType m =? Connect then
        match auth s with
        | Some f => if f (proto m) (address m) then Ret (clientConnect s m, None)
                    else Ret (s, Some (ErrorString "connect not allowed"))
        | None => Ret (s, Some (ErrorString "connect not allowed"))
        end
      else if (messageType m =? AddClient) && bool_decide (is_Some (remoteClientKeys s)) then
        addRemoteClient s (address m)
      else if messageType m =? RemoveClient then
        Ret (removeRemoteClient s (address m))
      else
        match conns s !! connID m with
        | None =>
            if messageType m =? Data then
              '(s', _) ← writeMessage s (λ nid, newErrorMessage nid (connID m) (not_found_err s (connID m)));
              Ret (s', None)
            else Ret (s, None)
        | Some p =>
            match heap s !! p with
            | None => Panic
            | Some c =>
                if messageType m =? Data then
                  '(c', err) ← copy_chunks c (io_chunks (body m));
                  let s' := update_conn s p c' in
                  match err with
                  | Some e => s'' ← closeConnection s' (connID m) (Some e); Ret (s'', None)
                  | None => Ret (s', None)
                  end
                else if messageType m =? ErrorMsg then
                  s' ← closeConnection s (connID m) (Some (Err m)); Ret (s', None)
                else Ret (s, None)
            end
        end
  end.

(** ** What happens to a session

    The calls other goroutines make on a session and its connections, each one
    under the lock the code takes. *)
Inductive event :=
| EvFrame (frame : string)                         (* Serve: a frame arrives *)
| EvRead (p : ptr) (n : nat)                       (* connection.Read *)
| EvWrite (p : ptr) (b : string) (now : Z)         (* connection.Write *)
| EvConnClose (p : ptr)                            (* connection.Close *)
| EvTunnelClose (p : ptr) (e : error)              (* clientDial: the dial failed *)
| EvPipeClose (p : ptr) (e : option error)         (* pipe: doTunnelClose, then writeErr *)
| EvServerConnect (dl : Z) (proto address : string)
| EvClose (order : list ptr)                       (* Session.Close *)
| EvWsBreak (e : error).                           (* the websocket starts to fail *)

Definition pipe_err (e : option error) : error := default EOF e.

(** client_dialer.go, [pipe]: both directions end in [close]; the error is
    written once no more I/O is happening. *)
Definition pipe_close (s : Session) (p : ptr) (e : option error) : go Session :=
  match heap s !! p with
  | None => Panic
  | Some c =>
      c' ← doTunnelClose c (Some (pipe_err e));
      writeErr (update_conn s p c') (c_connID c) (Some (pipe_err e))
  end.

Definition run_event (s : Session) (ev : event) : go Session :=
  match ev with
  | EvFrame frame => '(s', _) ← serveMessage s frame; Ret s'
  | EvRead p n =>
      match heap s !! p with
      | None => Panic
      | Some c => Ret (update_conn s p (Read c n).1)
      end
  | EvWrite p b now => '(s', _) ← Connection_Write s p b now; Ret s'
  | EvConnClose p => Connection_Close s p
  | EvTunnelClose p e => tunnelClose s p (Some e)
  | EvPipeClose p e => pipe_close s p e
  | EvServerConnect dl pr ad => '(s', _) ← serverConnect s dl pr ad; Ret s'
  | EvClose order => Close s order
  | EvWsBreak e =>
      Ret (mkSession (nextConnID s) (clientKey s) (sessionKey s) (conns s) (remoteClientKeys s)
             (auth s) (client s) (heap s) (next_ptr s) (out s) (Some e) (ws_closed s)
             (idCounter s) (dials s))
  end.

(** An event is possible in a state: the pointers it names were handed out by
    the session, Close ranges over the connections there are, and the header of
    the frames it may write fits (see [header_fits]). *)
Definition ev_ok (s : Session) (ev : event) : Prop :=
  match ev with
  | EvRead p _ | EvConnClose p | EvTunnelClose p _ | EvPipeClose p _ => is_Some (heap s !! p)
  | EvWrite p _ now => ∃ c, heap s !! p = Some c ∧
      match c_writeDeadline c with
      | None => True
      | Some t => 0 ≤ c_connID c < 2 ^ 34 ∧ in_int64 (t - now) = true
      end
  | EvServerConnect dl _ _ => 0 ≤ nextConnID s < 2 ^ 34 - 1 ∧ in_int64 dl = true
  | EvClose order => order ≡ₚ (map_to_list (conns s)).*2
  | EvFrame _ | EvWsBreak _ => True
  end.

Lemma serveMessage_ok s frame :
  session_ok s → ∃ s' err, serveMessage s frame = Ret (s', err) ∧ session_ok s'.
Proof.
  intros Hs. unfold serveMessage.
  destruct (newServerMessage frame) as [m|e] eqn:Hm; [|by eexists _, _].
  apply newServerMessage_connID in Hm.
  destruct (messageType m =? Connect).
  { destruct (auth s) as [f|]; [|by eexists _, _].
    destruct (f _ _); [|by eexists _, _]. eexists _, _. split; [done|]. by apply clientConnect_ok. }
  destruct ((messageType m =? AddClient) && bool_decide (is_Some (remoteClientKeys s))) eqn:Ha.
  { apply andb_true_iff in Ha as [_ [rk Hrk]%bool_decide_eq_true].
    unfold addRemoteClient. destruct (parseAddress (address m)) as [[k n]|e]; [|by eexists _, _].
    rewrite Hrk. eexists _, _. split; [done|]. by apply with_remote_ok. }
  destruct (messageType m =? RemoveClient).
  { unfold removeRemoteClient. destruct (parseAddress (address m)) as [[k n]|e]; [|by eexists _, _].
    eexists _, _. split; [done|]. by apply with_remote_ok. }
  destruct (conns s !! connID m) as [p|] eqn:Hp.
  - destruct (ok_conns s Hs _ _ Hp) as (c & Hc & Hid). rewrite Hc.
    destruct (messageType m =? Data).
    + destruct (copy_chunks_ok (io_chunks (body m)) c (ok_conn s Hs _ _ Hc)) as (c' & err & Hcp & Hc' & Hid').
      rewrite Hcp. simpl.
      assert (session_ok (update_conn s p c')) as Hu by (eapply update_conn_ok; eauto).
      destruct err as [e|]; [|by eexists _, _].
      destruct (closeConnection_ok _ (connID m) (Some e) Hu) as (s' & -> & Hs' & _). by eexists _, _.
    + destruct (messageType m =? ErrorMsg); [|by eexists _, _].
      destruct (closeConnection_ok s (connID m) (Some (Err m)) Hs) as (s' & -> & Hs' & _). by eexists _, _.
  - destruct (messageType m =? Data); [|by eexists _, _].
    destruct (writeError_ok s (connID m) (not_found_err s (connID m)) Hm) as (s' & -> & Hsame).
    eexists _, _. split; [done|]. by eapply same_conns_ok.
Qed.

Lemma foldM_tunnelClose_ok order s :
  session_ok s → Forall (λ p, is_Some (heap s !! p)) order →
  ∃ s', foldM (λ s p, tunnelClose s p (Some disconnect_err)) order s = Ret s' ∧ session_ok s'
    ∧ conns s' = conns s ∧ (∀ p, p ∈ order → ∃ c, heap s' !! p = Some c ∧ is_Some (c_err c))
    ∧ (∀ p c, heap s !! p = Some c → is_Some (c_err c) → ∃ c', heap s' !! p = Some c' ∧ is_Some (c_err c')).
Proof.
  revert s. induction order as [|p order IH]; intros s Hs Hf.
  { exists s. do 3 (split; [done|]). split; [by intros ? ?%not_elem_of_nil|eauto]. }
  inv Hf. destruct H1 as [c Hc].
  destruct (tunnelClose_ok s p c (Some disconnect_err) Hs Hc) as (s1 & c' & Ht & Hs1 & HC & HH & He & _).
  simpl. rewrite Ht. simpl.
  destruct (IH s1) as (s' & Hf & Hs' & HC' & Hall & Hmono); [done| |].
  { eapply Forall_impl; [done|]. intros q Hq. rewrite HH, lookup_insert. case_decide; eauto. }
  exists s'. repeat (split; [done || congruence|]). split.
  - intros q [->|Hq]%elem_of_cons; [|auto]. eapply Hmono; [|exact He]. by rewrite HH, lookup_insert_eq.
  - intros q d Hq Hd. destruct (decide (p = q)) as [->|Hne].
    + eapply Hmono; [|exact He]. by rewrite HH, lookup_insert_eq.
    + eapply Hmono; [|exact Hd]. by rewrite HH, lookup_insert_ne.
Qed.

Lemma serverConnect_ok s dl pr ad :
  session_ok s → 0 ≤ nextConnID s < 2 ^ 34 - 1 → in_int64 dl = true →
  ∃ s' r, serverConnect s dl pr ad = Ret (s', r) ∧ session_ok s' ∧ nextConnID s' = nextConnID s + 1.
Proof.
  intros Hs Hn Hdl.
  assert (in_int64 (nextConnID s + 1) = true) as H64
    by (apply in_int64_spec; unfold int64_min, int64_max; lia).
  unfold serverConnect. rewrite (wrap64_id _ H64).
  set (s1 := mkSession _ _ _ _ _ _ _ _ _ _ _ _ _ _).
  assert (session_ok s1) as Hs1 by (by destruct Hs).
  set (s2 := alloc_conn _ _ _ _).
  assert (session_ok s2) as Hs2.
  { pose proof (clientConnect_ok s1 (newConnect 0 (nextConnID s + 1) 0 pr ad) Hs1 H64) as [? ? ? ?]. by split. }
  destruct (writeMessage_ok s2 (λ nid, newConnect nid (nextConnID s + 1) dl pr ad)) as (s3 & Hw & Hsame).
  { eapply Bytes_fits; simpl; [apply nextid_range|lia|unfold Connect; lia|exact Hdl|done]. }
  rewrite Hw. simpl. pose proof (same_conns_ok _ _ Hsame Hs2) as Hs3.
  destruct Hsame as (HC & HH & HP & HR & HA & HN & _).
  destruct (ws_err s) as [e|]; [|by eexists _, _].
  destruct (closeConnection_ok s3 (nextConnID s + 1) (Some e) Hs3) as (s4 & Hcc & Hs4 & _).
  rewrite Hcc. eexists _, _. split; [done|]. split; [done|].
  revert Hcc. unfold closeConnection, tunnelClose. destruct (conns s3 !! _) as [p|].
  - simpl. destruct (heap s3 !! p) as [c|]; [|done]. simpl.
    unfold writeMessage. simpl. destruct (Bytes _); simpl; [|done].
    destruct (doTunnelClose c _); simpl; [|done]. intros [= <-]. simpl. by rewrite HN.
  - intros [= <-]. simpl. by rewrite HN.
Qed.

Lemma run_event_ok s ev :
  session_ok s → ev_ok s ev → ∃ s', run_event s ev = Ret s' ∧ session_ok s'.
Proof.
  intros Hs Hev. destruct ev as [frame|p n|p b now|p|p e|p e|dl pr ad|order|e]; simpl in *.
  - destruct (serveMessage_ok s frame Hs) as (s' & err & -> & Hs'). by eexists.
  - destruct Hev as [c Hc]. rewrite Hc. eexists. split; [done|].
    destruct (Read_ok c n (ok_conn s Hs _ _ Hc)). by eapply update_conn_ok.
  - destruct Hev as (c & Hc & Hd). unfold Connection_Write. rewrite Hc.
    destruct (c_err c); [by eexists|].
    destruct (ok_conn s Hs _ _ Hc) as (_ & _ & Hi).
    assert (∃ s', writeMessage s (λ nid, newMessage nid (c_connID c)
      (match c_writeDeadline c with None => 0 | Some t => Z.quot (t - now) 1000000 end) b) = Ret (s', ws_err s)
      ∧ same_conns s s') as (s' & Hw & Hsame).
    { apply writeMessage_ok. destruct (c_writeDeadline c) as [t|].
      - destruct Hd as [H1 H2]. eapply Bytes_fits; simpl;
          [apply nextid_range|done|unfold Data; lia|exact H2|done].
      - apply Bytes_fits_small; simpl; [apply nextid_range|done|unfold Data; lia|lia]. }
    rewrite Hw. eexists. split; [done|]. by eapply same_conns_ok.
  - destruct Hev as [c Hc]. unfold Connection_Close. rewrite Hc.
    destruct (closeConnection_ok s (c_connID c) (Some EOF) Hs) as (s' & -> & Hs' & _). by eexists.
  - destruct Hev as [c Hc].
    destruct (tunnelClose_ok s p c (Some e) Hs Hc) as (s' & c' & -> & Hs' & _). by eexists.
  - destruct Hev as [c Hc]. unfold pipe_close. rewrite Hc.
    destruct (doTunnelClose_ok c (Some (pipe_err e)) (ok_conn s Hs _ _ Hc)) as (c' & Hd & Hc' & Hid & _).
    rewrite Hd. simpl. pose proof (update_conn_ok _ _ _ _ Hs Hc Hc' Hid) as Hu.
    destruct (ok_conn s Hs _ _ Hc) as (_ & _ & Hi).
    destruct (writeErr_ok (update_conn s p c') (c_connID c) (Some (pipe_err e)) Hi (ok_ids _ Hu)) as (s' & Hw & Hsame).
    simpl in Hw. rewrite Hw. eexists. split; [done|]. by eapply same_conns_ok.
  - destruct Hev as [Hn Hdl]. destruct (serverConnect_ok s dl pr ad Hs Hn Hdl) as (s' & r & -> & Hs' & _). by eexists.
  - destruct (foldM_tunnelClose_ok order s Hs) as (s' & Hf & Hs' & _).
    { apply Forall_forall. intros p Hp. rewrite Hev in Hp.
      apply list_elem_of_fmap in Hp as ([cid q] & -> & Hq%elem_of_map_to_list).
      destruct (ok_conns s Hs _ _ Hq) as (c & Hc & _). by eexists. }
    unfold Close. rewrite Hf. eexists. split; [done|]. destruct Hs' as [H1 H2 H3 H4].
    split; simpl; done.
  - eexists. split; [done|]. by destruct Hs.
Qed.
End Serve.

(** ** Reachable states *)
Inductive fresh_session : Session → Prop :=
| fresh_server sk ck ids : in_int64 ids = true → fresh_session (newSession sk ck ids)
| fresh_client a ids : in_int64 ids = true → fresh_session (NewClientSession a ids).

Inductive steps (io_chunks : string → list string) (s0 : Session) : Session → Prop :=
| steps_refl : steps io_chunks s0 s0
| steps_step s ev s' :
    steps io_chunks s0 s → ev_ok s ev → run_event io_chunks s ev = Ret s' → steps io_chunks s0 s'.

Lemma fresh_ok s : fresh_session s → session_ok s.
Proof.
  intros Hf. destruct Hf as [sk ck ids H|a ids H];
    (split; simpl; [by intros ??|by intros ??|by intros ? [??]|done]).
Qed.

Lemma steps_ok io s0 s : fresh_session s0 → steps io s0 s → session_ok s.
Proof.
  intros Hf Hst. induction Hst as [|s ev s' _ IH Hev Hrun]; [by apply fresh_ok|].
  destruct (run_event_ok io s ev IH Hev) as (s'' & Hr & Hok). congruence.
Qed.

(** C8: whatever frames arrive and however reads, writes, dials, closes and
    websocket failures interleave, a session never panics (it closes no channel
    twice, sends on no closed channel, overruns no header), and in every state
    it reaches the channel of a connection is closed exactly when the connection
    has recorded its error, and [conns] only names live connections of that
    id. *)
Theorem tunnel_safe (io_chunks : string → list string) (s0 s : Session) (ev : event) :
  fresh_session s0 → steps io_chunks s0 s → ev_ok s ev →
  session_ok s ∧ ∃ s', run_event io_chunks s ev = Ret s' ∧ session_ok s'.
Proof.
  intros Hf Hst Hev. pose proof (steps_ok _ _ _ Hf Hst) as Hs.
  split; [done|]. by apply run_event_ok.
Qed.

(** A server session dials, the peer answers with data and then with an error. *)
Definition demo_session : Session :=
  match run_event (λ b, [b]) (newSession 42 "c1" 0) (EvServerConnect 5000000 "tcp" "h:80") with
  | Ret s => s | Panic => newSession 42 "c1" 0 end.

Lemma tunnel_safe_witness :
  session_ok demo_session ∧
  ∃ s', run_event (λ b, [b]) demo_session
          (EvFrame (header_bytes (newMessage 1 2 0 "hi") +:+ "hi")) = Ret s' ∧ session_ok s'.
Proof.
  apply (tunnel_safe (λ b, [b]) (newSession 42 "c1" 0) demo_session); [by constructor| |done].
  apply (steps_step _ _ (newSession 42 "c1" 0) (EvServerConnect 5000000 "tcp" "h:80"));
    [constructor|simpl; split; [lia|done]|by vm_compute].
Defined.

(** ** A connection is a byte queue *)
Definition cat (l : list string) : string := foldr String.append "" l.

(** The bytes accepted from the tunnel and not read yet. *)
Definition pending (c : connection) : string := c_readBuf c +:+ cat (c_buf c).

Lemma cat_app l l' : cat (l ++ l') = cat l +:+ cat l'.
Proof. induction l as [|s l IH]; [done|]. simpl. by rewrite IH, str_app_assoc. Qed.

Lemma write_pending c b c' n :
  chanWriter_Write c b = Ret (c', Written n) → pending c' = pending c +:+ b ∧ n = String.length b.
Proof.
  unfold chanWriter_Write. destruct (c_err c); [done|]. destruct (c_closed c); [done|].
  destruct (_ <? _)%nat; [|done]. intros [= <- <-]. split; [|done].
  unfold pending. simpl. rewrite cat_app. simpl. by rewrite str_app_nil_r, str_app_assoc.
Qed.

Lemma write_other c b c' r :
  chanWriter_Write c b = Ret (c', r) → (∀ n, r ≠ Written n) → c' = c.
Proof.
  unfold chanWriter_Write. destruct (c_err c); [by intros [= <- <-]|]. destruct (c_closed c); [done|].
  destruct (_ <? _)%nat; [|by intros [= <- <-]]. intros [= <- <-] H. by destruct (H (String.length b)).
Qed.

Lemma str_length_0 s : String.length s = 0%nat → s = "".
Proof. by destruct s. Qed.

Lemma str_take_empty n s : (n ≠ 0)%nat → String.length (str_take n s) = 0%nat → s = "".
Proof. rewrite str_length_take. intros H1 H2. apply str_length_0. lia. Qed.

(** A read takes a prefix of what is pending; it reports the end only when
    nothing is pending and the channel is closed. *)
Lemma read_pending c n c' r :
  Read c n = (c', r) →
  match r with
  | ReadOk d => pending c = d +:+ pending c' ∧ (String.length d ≤ n)%nat
  | ReadErr e => pending c = "" ∧ pending c' = "" ∧ c_closed c = true ∧ e = default EOF (c_err c)
  | ReadBlock => pending c = "" ∧ pending c' = "" ∧ c_closed c = false
  end ∧ c_err c' = c_err c ∧ c_closed c' = c_closed c.
Proof.
  unfold Read. destruct (Nat.eqb_spec n 0) as [->|Hn].
  { intros [= <- <-]. simpl. split; [split; [done|lia]|done]. }
  simpl. destruct (Nat.ltb_spec 0 (String.length (str_take n (c_readBuf c)))) as [Hlt|Hge].
  { intros [= <- <-]. split; [|done]. unfold pending. simpl.
    rewrite <- str_app_assoc, str_take_drop. split; [done|]. rewrite str_length_take. lia. }
  assert (c_readBuf c = "") as Hrb by (eapply str_take_empty; [done|lia]).
  unfold pending. rewrite Hrb. destruct (c_buf c) as [|next rest] eqn:Hb; simpl.
  - destruct (c_closed c) eqn:Hc; intros [= <- <-]; simpl; rewrite ?Hb, ?Hrb; by destruct n.
  - intros [= <- <-]. simpl. split; [|done].
    rewrite <- str_app_assoc, str_take_drop. split; [done|]. rewrite str_length_take. lia.
Qed.

(** The calls on one connection, with the bytes sent and received so far. *)
Inductive conn_op := OpWrite (b : string) | OpRead (n : nat) | OpClose (e : option error).

Record conn_trace := mkTrace {
  t_conn : connection; t_sent : string; t_recv : string; t_end : option error }.

Definition run_op (t : conn_trace) (op : conn_op) : go conn_trace :=
  let c := t_conn t in
  match op with
  | OpWrite b =>
      '(c', r) ← chanWriter_Write c b;
      Ret (match r with
           | Written _ => mkTrace c' (t_sent t +:+ b) (t_recv t) (t_end t)
           | _ => mkTrace c' (t_sent t) (t_recv t) (t_end t)
           end)
  | OpRead n =>
      let '(c', r) := Read c n in
      Ret (match r with
           | ReadOk d => mkTrace c' (t_sent t) (t_recv t +:+ d) (t_end t)
           | ReadErr e => mkTrace c' (t_sent t) (t_recv t) (Some e)
           | ReadBlock => mkTrace c' (t_sent t) (t_recv t) (t_end t)
           end)
  | OpClose e => c' ← doTunnelClose c e; Ret (mkTrace c' (t_sent t) (t_recv t) (t_end t))
  end.

Definition trace_ok (t : conn_trace) : Prop :=
  conn_ok (t_conn t) ∧ t_sent t = t_recv t +:+ pending (t_conn t) ∧
  (is_Some (t_end t) → t_sent t = t_recv t ∧ c_closed (t_conn t) = true ∧ pending (t_conn t) = "").

Lemma run_op_ok t op : trace_ok t → ∃ t', run_op t op = Ret t' ∧ trace_ok t'.
Proof.
  intros (Hc & Hf & He). destruct t as [c sent recv fin]. simpl in *.
  destruct op as [b|n|e]; simpl.
  - destruct (chanWriter_ok c b Hc) as (c' & r & Hw & Hc' & _). rewrite Hw. simpl.
    destruct r as [n|e|].
    + eexists. split; [done|]. destruct (write_pending _ _ _ _ Hw) as [Hp _].
      split; [done|]. simpl. rewrite Hp, Hf, str_app_assoc. split; [done|].
      intros Hs. destruct (He Hs) as (_ & Hcl & _). exfalso.
      revert Hw. unfold chanWriter_Write. destruct Hc as [Hiff _].
      destruct (proj1 Hiff Hcl) as [e' ->]. done.
    + eexists. split; [done|]. rewrite (write_other _ _ _ _ Hw) by done. done.
    + eexists. split; [done|]. rewrite (write_other _ _ _ _ Hw) by done. done.
  - destruct (Read c n) as [c' r] eqn:Hr. destruct (Read_ok c n Hc) as [Hc' _]. rewrite Hr in Hc'.
    destruct (read_pending _ _ _ _ Hr) as [Hp [Herr Hcl]].
    eexists. split; [done|]. destruct r as [d|e|]; simpl.
    + destruct Hp as [Hp _]. split; [done|]. simpl. rewrite Hf, Hp, str_app_assoc.
      split; [done|]. intros Hs. destruct (He Hs) as (Heq & Hcl' & Hemp).
      rewrite Hemp in Hp. destruct d; [|done]. simpl in Hp. rewrite <- Hp, !str_app_nil_r.
      by rewrite Hcl.
    + destruct Hp as (Hp & Hp' & Hcl' & _). split; [done|]. simpl.
      rewrite Hp', Hf, Hp, str_app_nil_r, Hcl. done.
    + destruct Hp as (Hp & Hp' & Hcl'). split; [done|]. simpl. rewrite Hp', Hf, Hp. split; [done|].
      intros Hs. destruct (He Hs) as (_ & Hcl2 & _). congruence.
  - destruct (doTunnelClose_ok c e Hc) as (c' & Hd & Hc' & _ & _ & Hcl & Hb & Hrb & _).
    rewrite Hd. eexists. split; [done|]. split; [done|]. simpl. unfold pending in *.
    rewrite Hb, Hrb. split; [done|]. intros Hs. by destruct (He Hs) as (? & _ & ?).
Qed.

(** C9: a connection delivers its bytes in order and without loss.  However
    writes from the tunnel, reads and closes interleave, no call panics, the
    bytes accepted are exactly the bytes read followed by the bytes still
    pending, and a reader is told of the end only after it has read every byte
    that was accepted. *)
Theorem connection_fifo (cid : Z) (pr ad : string) (ops : list conn_op) :
  in_int64 cid = true →
  ∃ t, foldM run_op ops (mkTrace (newConnection cid pr ad) "" "" None) = Ret t
    ∧ t_sent t = t_recv t +:+ pending (t_conn t)
    ∧ (is_Some (t_end t) → t_recv t = t_sent t).
Proof.
  intros Hcid.
  assert (trace_ok (mkTrace (newConnection cid pr ad) "" "" None)) as Ht.
  { split; [|split; [done|by intros [??]]]. simpl.
    repeat split; simpl; try done; (lia || naive_solver). }
  revert Ht. generalize (mkTrace (newConnection cid pr ad) "" "" None).
  induction ops as [|op ops IH]; intros t Ht.
  - exists t. destruct Ht as (_ & H1 & H2). split; [done|]. split; [done|].
    intros Hs. symmetry. by apply H2.
  - destruct (run_op_ok t op Ht) as (t1 & Hop & Ht1). simpl. rewrite Hop. simpl. by apply IH.
Qed.

Lemma connection_fifo_witness :
  ∃ t, foldM run_op [OpWrite "ab"; OpRead 1; OpWrite "c"; OpClose None; OpRead 9; OpRead 9; OpRead 9]
         (mkTrace (newConnection 3 "tcp" "h:80") "" "" None) = Ret t
    ∧ t_sent t = t_recv t +:+ pending (t_conn t)
    ∧ (is_Some (t_end t) → t_recv t = t_sent t).
Proof. apply (connection_fifo 3 "tcp" "h:80"). done. Defined.

(** ** Announcements between peers *)
Lemma parse_client_name k n :
  str_in "/" k = false → in_int64 n = true → parseAddress (client_name k n) = inl (k, n).
Proof.
  intros Hk Hn. unfold parseAddress, client_name.
  change ("/" +:+ itoa n) with (String "/" (itoa n)).
  by rewrite Split2_app, ParseInt_itoa.
Qed.

Lemma delivered_client m name :
  messageType m = AddClient ∨ messageType m = RemoveClient →
  bytes m = name → (String.length name ≤ read_limit)%nat →
  ∃ m', delivered m = inl m' ∧ messageType m' = messageType m ∧ address m' = name.
Proof.
  intros Ht Hb Hl. unfold delivered, read_limited. rewrite Hb, str_take_ge by done.
  destruct Ht as [-> | ->]; simpl; by eexists.
Qed.

Lemma client_frame (mk : Z → string → message) nid name :
  mk = newAddClient ∨ mk = newRemoveClient →
  in_int64 nid = true → (String.length name ≤ read_limit)%nat →
  ∃ frame m', Bytes (mk nid name) = Ret frame ∧ newServerMessage frame = inl m'
    ∧ messageType m' = messageType (mk nid name) ∧ address m' = name.
Proof.
  intros Hmk Hn Hl.
  assert (int64_message (mk nid name) = true ∧ 1 ≤ messageType (mk nid name) ≤ 5
          ∧ id (mk nid name) = nid ∧ connID (mk nid name) = 0 ∧ deadline (mk nid name) = 0
          ∧ bytes (mk nid name) = name
          ∧ (messageType (mk nid name) = AddClient ∨ messageType (mk nid name) = RemoveClient))
    as (H64 & Ht & Hid & Hc & Hd & Hb & Hty).
  { unfold int64_message.
    destruct Hmk as [-> | ->]; simpl; rewrite Hn; unfold AddClient, RemoveClient; repeat split; try done; auto; lia. }
  assert (Bytes (mk nid name) = Ret (header_bytes (mk nid name) +:+ bytes (mk nid name))) as HB.
  { apply Bytes_fits_small; [by rewrite Hid|by rewrite Hc|done|rewrite Hd; lia]. }
  destruct (delivered_client (mk nid name) name Hty Hb Hl) as (m' & Hdel & Ht' & Ha).
  eexists _, m'. split; [exact HB|]. by rewrite newServerMessage_header.
Qed.

(** What one server announces about a client session is what its peer
    records: the frame written by sessionAdded makes the peer know exactly the
    session [n] of client [k] in addition to what it knew, and the frame written
    by sessionRemoved makes it forget exactly that one, dropping the client with
    its last session.  (The client key holds no slash and the name fits in the
    100 bytes the peer reads.) *)
Theorem announce_roundtrip (io_chunks : string → list string) (s : Session) (rk : gmap string (gset Z)) (nid n : Z) (k : string) :
  remoteClientKeys s = Some rk → in_int64 nid = true → in_int64 n = true →
  str_in "/" k = false → (String.length (client_name k n) ≤ read_limit)%nat →
  ∃ fa fr, Bytes (newAddClient nid (client_name k n)) = Ret fa
    ∧ Bytes (newRemoveClient nid (client_name k n)) = Ret fr
    ∧ serveMessage io_chunks s fa
      = Ret (with_remote s (Some (<[k := {[n]} ∪ default ∅ (rk !! k)]> rk)), None)
    ∧ serveMessage io_chunks s fr
      = Ret (with_remote s (Some (let keys := default ∅ (rk !! k) ∖ {[n]} in
                                  if decide (keys = ∅) then delete k rk else <[k := keys]> rk)), None).
Proof.
  intros Hrk Hnid Hn Hk Hl.
  destruct (client_frame newAddClient nid (client_name k n)) as (fa & ma & HBa & Hma & Hta & Haa); auto.
  destruct (client_frame newRemoveClient nid (client_name k n)) as (fr & mr & HBr & Hmr & Htr & Har); auto.
  exists fa, fr. split; [done|]. split; [done|]. simpl in Hta, Htr.
  split; unfold serveMessage; [rewrite Hma, Hta|rewrite Hmr, Htr]; simpl; rewrite ?Hrk; simpl.
  - unfold addRemoteClient. by rewrite Haa, parse_client_name, Hrk.
  - unfold removeRemoteClient. by rewrite Har, parse_client_name, Hrk.
Qed.

Lemma announce_roundtrip_witness :
  ∃ fa fr, Bytes (newAddClient 5 (client_name "node-1" 77)) = Ret fa
    ∧ Bytes (newRemoveClient 5 (client_name "node-1" 77)) = Ret fr
    ∧ serveMessage (λ b, [b]) (newSession 1 "peer" 0) fa
      = Ret (with_remote (newSession 1 "peer" 0) (Some (<["node-1" := {[77]} ∪ default ∅ ((∅ : gmap string (gset Z)) !! "node-1")]> ∅)), None)
    ∧ serveMessage (λ b, [b]) (newSession 1 "peer" 0) fr
      = Ret (with_remote (newSession 1 "peer" 0) (Some (let keys := default ∅ ((∅ : gmap string (gset Z)) !! "node-1") ∖ {[77]} in
                                  if decide (keys = ∅) then delete "node-1" ∅ else <["node-1" := keys]> ∅)), None).
Proof.
  apply (announce_roundtrip (λ b, [b]) (newSession 1 "peer" 0) ∅ 5 77 "node-1"); try done.
  apply Nat.leb_le. by vm_compute.
Defined.

(** A client key with a slash is refused by the peer: the announcement of the
    session ends the peer's Serve loop with an error. *)
Example announce_slash :
  parseAddress (client_name "a/b" 7) = inr (ErrorString "strconv.Atoi: parsing error").
Proof. by vm_compute. Qed.

(** ** Dials are authorized *)
(** By what a server tells sessions apart. *)
Definition session_id (s : Session) : string * Z := (clientKey s, sessionKey s).
Definition same_dials (s s' : Session) : Prop := auth s' = auth s ∧ dials s' = dials s ∧ session_id s' = session_id s.

#[export] Instance same_dials_preorder : PreOrder same_dials.
Proof. split; [done|]. intros ??? (?&?&?) (?&?&?). split_and!; congruence. Qed.

Lemma writeMessage_dials s mk s' e : writeMessage s mk = Ret (s', e) → same_dials s s'.
Proof. unfold writeMessage. destruct (Bytes _); simpl; [|done]. by intros [= <- _]. Qed.

Lemma writeErr_dials s cid err s' : writeErr s cid err = Ret s' → same_dials s s'.
Proof.
  destruct err; simpl; [|by intros [= <-]].
  destruct (writeMessage s _) as [[s1 e1]|] eqn:E; simpl; [|done]. intros [= <-].
  by eapply writeMessage_dials.
Qed.

Lemma tunnelClose_dials s p err s' : tunnelClose s p err = Ret s' → same_dials s s'.
Proof.
  unfold tunnelClose. destruct (heap s !! p) as [c|]; [|done].
  destruct (writeErr s _ err) as [s1|] eqn:E; simpl; [|done].
  destruct (doTunnelClose c err); simpl; [|done]. intros [= <-].
  by apply writeErr_dials in E.
Qed.

Lemma closeConnection_dials s cid err s' : closeConnection s cid err = Ret s' → same_dials s s'.
Proof.
  unfold closeConnection. destruct (conns s !! cid) as [p|]; [|by intros [= <-]].
  intros H%tunnelClose_dials. exact H.
Qed.

Lemma foldM_dials order s s' :
  foldM (λ s p, tunnelClose s p (Some disconnect_err)) order s = Ret s' → same_dials s s'.
Proof.
  revert s. induction order as [|p order IH]; intros s; simpl; [by intros [= <-]|].
  destruct (tunnelClose s p _) as [s1|] eqn:E; simpl; [|done]. intros H.
  etransitivity; [by eapply tunnelClose_dials|by apply IH].
Qed.

Lemma serveMessage_dials io s frame s' e :
  serveMessage io s frame = Ret (s', e) →
  same_dials s s' ∨
  ∃ m f, auth s = Some f ∧ f (proto m) (address m) = true ∧ s' = clientConnect s m.
Proof.
  unfold serveMessage. destruct (newServerMessage frame) as [m|]; [|intros [= <- _]; by left].
  destruct (messageType m =? Connect).
  { destruct (auth s) as [f|] eqn:Ha; [|intros [= <- _]; by left].
    destruct (f _ _) eqn:Hf; intros [= <- _]; [right; eauto 6|by left]. }
  destruct (_ && _).
  { unfold addRemoteClient. destruct (parseAddress _) as [[k n]|]; [|intros [= <- _]; by left].
    destruct (remoteClientKeys s); [|done]. intros [= <- _]. by left. }
  destruct (messageType m =? RemoveClient).
  { unfold removeRemoteClient. destruct (parseAddress _) as [[k n]|]; intros [= <- _]; by left. }
  intros H. left. revert H. destruct (conns s !! connID m) as [p|].
  - destruct (heap s !! p) as [c|]; [|done]. destruct (messageType m =? Data).
    + destruct (copy_chunks c _) as [[c' [e'|]]|]; simpl; [|by intros [= <- _]|done].
      destruct (closeConnection _ _ _) as [s1|] eqn:E; simpl; [|done]. intros [= <- _].
      apply closeConnection_dials in E. exact E.
    + destruct (messageType m =? ErrorMsg); [|by intros [= <- _]].
      destruct (closeConnection _ _ _) as [s1|] eqn:E; simpl; [|done]. intros [= <- _].
      by apply closeConnection_dials in E.
  - destruct (messageType m =? Data); [|by intros [= <- _]].
    destruct (writeMessage s _) as [[s1 e1]|] eqn:E; simpl; [|done]. intros [= <- _].
    by eapply writeMessage_dials.
Qed.

Definition dials_authorized (s : Session) : Prop :=
  Forall (λ d : ptr * message, ∃ f, auth s = Some f ∧ f (proto d.2) (address d.2) = true) (dials s).

Lemma same_dials_authorized s s' : same_dials s s' → dials_authorized s → dials_authorized s'.
Proof. intros (Ha & Hd & _). unfold dials_authorized. by rewrite Ha, Hd. Qed.

Lemma run_event_dials io s ev s' :
  run_event io s ev = Ret s' → auth s' = auth s ∧ session_id s' = session_id s ∧ (dials_authorized s → dials_authorized s').
Proof.
  intros Hr. assert (same_dials s s' ∨ ∃ m f, auth s = Some f ∧ f (proto m) (address m) = true
    ∧ s' = clientConnect s m) as [Hs|(m & f & Ha & Hf & ->)].
  - destruct ev as [frame|p n|p b now|p|p e|p e|dl pr ad|order|e]; simpl in Hr.
    + destruct (serveMessage io s frame) as [[s1 e1]|] eqn:E; simpl in Hr; [|done]. inv Hr.
      by eapply serveMessage_dials.
    + left. destruct (heap s !! p); [|done]. by inv Hr.
    + left. unfold Connection_Write in Hr. destruct (heap s !! p) as [c|]; [|done].
      destruct (c_err c); [by inv Hr|].
      destruct (writeMessage s _) as [[s1 e1]|] eqn:E; simpl in Hr; [|done]. inv Hr.
      by eapply writeMessage_dials.
    + left. unfold Connection_Close in Hr. destruct (heap s !! p); [|done]. by eapply closeConnection_dials.
    + left. by eapply tunnelClose_dials.
    + left. unfold pipe_close in Hr. destruct (heap s !! p) as [c|]; [|done].
      destruct (doTunnelClose c _); simpl in Hr; [|done].
      by apply (writeErr_dials (update_conn s p a) (c_connID c) (Some (pipe_err e))).
    + left. unfold serverConnect in Hr.
      destruct (writeMessage _ _) as [[s3 e3]|] eqn:E; simpl in Hr; [|done].
      apply writeMessage_dials in E. destruct e3 as [e|]; [|by inv Hr].
      destruct (closeConnection s3 _ _) as [s4|] eqn:E4; simpl in Hr; [|done]. inv Hr.
      apply closeConnection_dials in E4. etransitivity; [|exact E4]. exact E.
    + left. unfold Close in Hr. destruct (foldM _ _ _) as [s1|] eqn:E; simpl in Hr; [|done]. inv Hr.
      by apply foldM_dials in E.
    + left. by inv Hr.
  - destruct Hs as (? & ? & ?) eqn:E. split_and!; [done..|by apply same_dials_authorized].
  - split; [done|]. split; [done|]. unfold dials_authorized. simpl. intros Hd. apply Forall_app. split; [done|].
    by repeat constructor; eauto.
Qed.

Lemma steps_dials io s0 s : fresh_session s0 → steps io s0 s → auth s = auth s0 ∧ dials_authorized s.
Proof.
  intros Hf Hst. induction Hst as [|s ev s' _ [IHa IHd] _ Hrun].
  - split; [done|]. destruct Hf; constructor.
  - destruct (run_event_dials _ _ _ _ Hrun) as (Ha & _ & Hd). split; [congruence|auto].
Qed.

(** C28: in every state a session reaches, each dial it has started was
    approved, for that protocol and address, by the authorizer the session was
    created with; a session without an authorizer (every session of a server)
    never dials. *)
Theorem dials_are_authorized (io_chunks : string → list string) (s0 s : Session) :
  fresh_session s0 → steps io_chunks s0 s →
  (∀ p m, (p, m) ∈ dials s → ∃ f, auth s0 = Some f ∧ f (proto m) (address m) = true)
  ∧ (auth s0 = None → dials s = []).
Proof.
  intros Hf Hst. destruct (steps_dials _ _ _ Hf Hst) as [Ha Hd].
  unfold dials_authorized in Hd. rewrite Ha, Forall_forall in Hd.
  split; [intros p m Hin; apply (Hd _ Hin)|]. intros Hnone.
  destruct (dials s) as [|d l]; [done|]. destruct (Hd d) as (f & Hfa & _); [by left|congruence].
Qed.

Lemma dials_are_authorized_witness :
  (∀ p m, (p, m) ∈ dials demo_session → ∃ f, auth (newSession 42 "c1" 0) = Some f ∧ f (proto m) (address m) = true)
  ∧ (auth (newSession 42 "c1" 0) = None → dials demo_session = []).
Proof.
  apply (dials_are_authorized (λ b, [b]) (newSession 42 "c1" 0) demo_session); [by constructor|].
  apply (steps_step _ _ (newSession 42 "c1" 0) (EvServerConnect 5000000 "tcp" "h:80"));
    [constructor|simpl; split; [lia|done]|by vm_compute].
Defined.
