(* ===== verification/Dial.v ===== *)
(** * Dialing through a tunnel

    pkg/remotedialer/client_dialer.go: the goroutine that a session starts for a
    Connect message dials the address and copies bytes in both directions until
    one of them ends.  Two goroutines work on the connection while the session
    goes on: clientDial itself, which copies from the socket to the tunnel, and
    the one that pipe starts for the other direction.  Their steps are those
    between two calls that may block or take a lock; all other goroutines of the
    session and the other end of the socket are the environment. *)

From S2P Require Import Prelude GoStrings Values Errors Message Tunnel.

(** ** What others do to a connection

    They may add to what is pending, until it is closed, and close it. *)
Record evolves (c c' : connection) : Prop := mkEvolves {
  ev_id : c_connID c' = c_connID c;
  ev_deadline : c_writeDeadline c' = c_writeDeadline c;
  ev_pending : ∃ x, pending c' = pending c +:+ x;
  ev_closed : c_closed c = true → c' = c
}.
#[export] Instance evolves_po : PreOrder evolves.
Proof.
  split.
  - intros c. split; try done. exists "". by rewrite str_app_nil_r.
  - intros c1 c2 c3 [I1 D1 [x P1] C1] [I2 D2 [y P2] C2]. split; [congruence|congruence| |].
    + exists (x +:+ y). by rewrite P2, P1, str_app_assoc.
    + intros Hc. pose proof (C1 Hc) as ->. by apply C2.
Qed.
Lemma doTunnelClose_evolves c err c' : conn_ok c → doTunnelClose c err = Ret c' → evolves c c'.
Proof.
  intros Hc Hd. unfold doTunnelClose in Hd. destruct (c_err c) as [e|] eqn:He; [by injection Hd as <-|].
  unfold close_buf in Hd. simpl in Hd. destruct (c_closed c) eqn:Ec; [done|]. injection Hd as <-.
  split; try done; [|by rewrite Ec]. exists "". by rewrite str_app_nil_r.
Qed.
Lemma chanWriter_evolves c b c' r : conn_ok c → chanWriter_Write c b = Ret (c', r) → evolves c c'.
Proof.
  intros Hc Hw. destruct r as [n|e|]; [|by rewrite (write_other _ _ _ _ Hw)..].
  destruct (write_pending _ _ _ _ Hw) as [Hp _]. revert Hw. unfold chanWriter_Write.
  destruct (c_err c) as [|] eqn:He; [done|]. destruct (c_closed c) eqn:Ec; [done|]. destruct (_ <? _)%nat; [|done].
  intros [= <- _]. split; try done; [by exists b|by rewrite Ec].
Qed.
Lemma copy_chunks_evolves l : ∀ c c' err, conn_ok c → copy_chunks c l = Ret (c', err) → evolves c c'.
Proof.
  induction l as [|b l IH]; intros c c' err Hc Hw; simpl in Hw; [by injection Hw as <- _|].
  destruct (chanWriter_ok c b Hc) as (c1 & r & H1 & Hc1 & _). rewrite H1 in Hw. simpl in Hw.
  pose proof (chanWriter_evolves _ _ _ _ Hc H1) as Hev. etransitivity; [exact Hev|].
  destruct r; [by eapply IH|by injection Hw as <- _..].
Qed.

(** The connection at [p] evolves. *)
Definition keeps (p : ptr) (s s' : Session) : Prop := ∀ c, heap s !! p = Some c → ∃ c', heap s' !! p = Some c' ∧ evolves c c'.
#[export] Instance keeps_po p : PreOrder (keeps p).
Proof.
  split.
  - intros s c Hc. by exists c.
  - intros s1 s2 s3 K1 K2 c Hc. destruct (K1 c Hc) as (c' & Hc' & E1). destruct (K2 c' Hc') as (c'' & ? & E2).
    exists c''. split; [done|]. by etransitivity.
Qed.
Lemma keeps_heap p s s' : heap s' = heap s → keeps p s s'.
Proof. intros He c Hc. exists c. by rewrite He. Qed.
Lemma keeps_update p s q c c' : heap s !! q = Some c → evolves c c' → keeps p s (update_conn s q c').
Proof.
  intros Hq Hev d Hd. simpl. rewrite lookup_insert. case_decide as Hpq; [|by exists d].
  subst. exists c'. split; [done|]. congruence.
Qed.
Lemma keeps_other p s q c' : q ≠ p → keeps p s (update_conn s q c').
Proof. intros Hne d Hd. exists d. simpl. by rewrite lookup_insert_ne. Qed.
Lemma writeMessage_heap s mk s' e : writeMessage s mk = Ret (s', e) → heap s' = heap s ∧ conns s' = conns s.
Proof. unfold writeMessage. simpl. by destruct (Bytes _) as [b|]; simpl; [intros [= <- _]|]. Qed.
Lemma writeErr_heap s cid err s' : writeErr s cid err = Ret s' → heap s' = heap s ∧ conns s' = conns s.
Proof.
  unfold writeErr. destruct err as [e|]; [|by intros [= <-]].
  destruct (writeMessage s _) as [[s1 e1]|] eqn:Hw; [|done]. simpl. intros [= <-]. by eapply writeMessage_heap.
Qed.
Lemma tunnelClose_keeps p s q err s' : session_ok s → tunnelClose s q err = Ret s' → keeps p s s'.
Proof.
  intros Hs. unfold tunnelClose. destruct (heap s !! q) as [c|] eqn:Hq; [|done].
  destruct (writeErr s _ err) as [s1|] eqn:Hw; [|done]. simpl. apply writeErr_heap in Hw as [Hh _].
  destruct (doTunnelClose c err) as [c'|] eqn:Hd; [|done]. simpl. intros [= <-].
  transitivity s1; [by apply keeps_heap|]. apply (keeps_update p s1 q c c'); [by rewrite Hh|].
  eapply doTunnelClose_evolves; [|exact Hd]. by eapply ok_conn.
Qed.
Lemma closeConnection_keeps p s cid err s' : session_ok s → closeConnection s cid err = Ret s' → keeps p s s'.
Proof.
  intros Hs. unfold closeConnection. destruct (conns s !! cid) as [q|]; [|intros [= <-]; by apply keeps_heap].
  intros Ht. apply (tunnelClose_keeps p) in Ht; [|by apply delete_conn_ok]. etransitivity; [|exact Ht]. by apply keeps_heap.
Qed.
Lemma closing_keeps p order : ∀ s s', session_ok s → foldM (λ s q, tunnelClose s q (Some disconnect_err)) order s = Ret s' → keeps p s s'.
Proof.
  induction order as [|q order IH]; intros s s' Hs Hf; simpl in Hf; [by injection Hf as <-|].
  destruct (tunnelClose s q _) as [s1|] eqn:Ht; [|done]. simpl in Hf. pose proof (tunnelClose_keeps p _ _ _ _ Hs Ht) as K.
  etransitivity; [exact K|]. apply IH; [|done].
  destruct (heap s !! q) as [c|] eqn:Hq; [|by unfold tunnelClose in Ht; rewrite Hq in Ht].
  destruct (tunnelClose_ok s q c (Some disconnect_err) Hs Hq) as (s2 & c2 & Ht2 & Hs2 & _). congruence.
Qed.
Lemma alloc_keeps p s cid c d : session_ok s → keeps p s (alloc_conn s cid c d).
Proof.
  intros Hs x Hx. exists x. split; [|done]. simpl. rewrite lookup_insert_ne; [done|].
  pose proof (ok_fresh s Hs p (ex_intro _ x Hx)). lia.
Qed.
Lemma serverConnect_keeps p s dl pr ad s' r :
  session_ok s → 0 ≤ nextConnID s < 2 ^ 34 - 1 → in_int64 dl = true → serverConnect s dl pr ad = Ret (s', r) → keeps p s s'.
Proof.
  intros Hs Hn Hdl. unfold serverConnect.
  set (cid := wrap64 (nextConnID s + 1)). set (s1 := mkSession _ _ _ _ _ _ _ _ _ _ _ _ _ _). set (s2 := alloc_conn _ _ _ _).
  assert (in_int64 (nextConnID s + 1) = true) as H64 by (apply in_int64_spec; unfold int64_min, int64_max; lia).
  assert (session_ok s1) as Hs1 by (by destruct Hs).
  assert (session_ok s2) as Hs2.
  { pose proof (clientConnect_ok s1 (newConnect 0 (nextConnID s + 1) 0 pr ad) Hs1 H64) as [? ? ? ?].
    subst s2 cid. rewrite (wrap64_id _ H64). by split. }
  assert (keeps p s s2) as K2 by exact (alloc_keeps p s1 cid (newConnection cid pr ad) (dials s) Hs1).
  destruct (writeMessage_ok s2 (λ nid, newConnect nid cid dl pr ad)) as (s3 & Hw & Hsame).
  { subst cid. rewrite (wrap64_id _ H64).
    eapply Bytes_fits; simpl; [apply nextid_range|lia|unfold Connect; lia|exact Hdl|done]. }
  rewrite Hw. simpl. pose proof (same_conns_ok _ _ Hsame Hs2) as Hs3. destruct Hsame as (_ & Hh & _).
  assert (keeps p s s3) as K3 by (etransitivity; [exact K2|by apply keeps_heap]).
  destruct (ws_err s) as [e|]; [|by intros [= <- _]].
  destruct (closeConnection s3 cid (Some e)) as [s4|] eqn:Hc; [|done]. simpl. intros [= <- _].
  etransitivity; [exact K3|]. by eapply closeConnection_keeps.
Qed.
Lemma serveMessage_keeps io p s frame s' e : session_ok s → serveMessage io s frame = Ret (s', e) → keeps p s s'.
Proof.
  intros Hs. unfold serveMessage. destruct (newServerMessage frame) as [m|]; [|by intros [= <- _]].
  destruct (_ =? Connect).
  { destruct (auth s) as [f|]; [destruct (f _ _)|]; intros [= <- _]; [by apply alloc_keeps|done..]. }
  destruct (_ && _).
  { unfold addRemoteClient. destruct (parseAddress _) as [[k n]|]; [|by intros [= <- _]].
    destruct (remoteClientKeys s); [|done]. intros [= <- _]. by apply keeps_heap. }
  destruct (_ =? RemoveClient).
  { unfold removeRemoteClient. destruct (parseAddress _) as [[k n]|]; intros [= <- _]; by apply keeps_heap. }
  destruct (conns s !! connID m) as [q|].
  - destruct (heap s !! q) as [c|] eqn:Hq; [|done]. pose proof (ok_conn s Hs _ _ Hq) as Hc. destruct (_ =? Data).
    + destruct (copy_chunks_ok (io (body m)) c Hc) as (c' & err & Hcp & Hc' & Hid). rewrite Hcp. simpl.
      pose proof (keeps_update p s q c c' Hq (copy_chunks_evolves _ _ _ _ Hc Hcp)) as K.
      destruct err as [e'|]; [|by intros [= <- _]].
      destruct (closeConnection _ _ _) as [s2|] eqn:Hcl; [|done]. simpl. intros [= <- _].
      etransitivity; [exact K|]. eapply closeConnection_keeps; [|exact Hcl]. by eapply update_conn_ok.
    + destruct (_ =? ErrorMsg); [|by intros [= <- _]].
      destruct (closeConnection _ _ _) as [s2|] eqn:Hcl; [|done]. simpl. intros [= <- _]. by eapply closeConnection_keeps.
  - destruct (_ =? Data); [|by intros [= <- _]].
    destruct (writeMessage s _) as [[s1 e1]|] eqn:Hw; [|done]. simpl. intros [= <- _]. apply keeps_heap. by eapply writeMessage_heap.
Qed.

(** The calls on the connection itself, which only its goroutines make. *)
Definition others (p : ptr) (ev : event) : Prop :=
  match ev with
  | EvRead q _ | EvWrite q _ _ | EvConnClose q | EvTunnelClose q _ | EvPipeClose q _ => q ≠ p
  | EvFrame _ | EvServerConnect _ _ _ | EvClose _ | EvWsBreak _ => True
  end.
Lemma run_event_keeps io p s ev s' : session_ok s → ev_ok s ev → others p ev → run_event io s ev = Ret s' → keeps p s s'.
Proof.
  intros Hs Hok Ho Hr. destruct ev as [frame|q n|q b now|q|q e|q e|dl pr ad|order|e]; simpl in *.
  - destruct (serveMessage io s frame) as [[s1 e1]|] eqn:Hm; [|done]. simpl in Hr. injection Hr as <-. by eapply serveMessage_keeps.
  - destruct (heap s !! q); [|done]. injection Hr as <-. by apply keeps_other.
  - destruct (Connection_Write s q b now) as [[s1 r]|] eqn:Hw; [|done]. simpl in Hr. injection Hr as <-.
    unfold Connection_Write in Hw. destruct (heap s !! q) as [c|]; [|done]. destruct (c_err c); [by injection Hw as <- _|].
    destruct (writeMessage s _) as [[s2 e2]|] eqn:Hm; [|done]. simpl in Hw. injection Hw as <- _. apply keeps_heap. by eapply writeMessage_heap.
  - unfold Connection_Close in Hr. destruct (heap s !! q); [|done]. by eapply closeConnection_keeps.
  - by eapply tunnelClose_keeps.
  - unfold pipe_close in Hr. destruct (heap s !! q) as [c|]; [|done]. destruct (doTunnelClose c _) as [c'|]; [|done]. simpl in Hr.
    apply (writeErr_heap (update_conn s q c') (c_connID c) (Some (pipe_err e))) in Hr as [Hh _].
    transitivity (update_conn s q c'); [by apply keeps_other|by apply keeps_heap].
  - destruct (serverConnect s dl pr ad) as [[s1 r]|] eqn:Hc; [|done]. simpl in Hr. injection Hr as <-. destruct Hok.
    by eapply serverConnect_keeps.
  - unfold Close in Hr. destruct (foldM _ order s) as [s1|] eqn:Hf; [|done]. simpl in Hr. injection Hr as <-.
    transitivity s1; [by eapply closing_keeps|by apply keeps_heap].
  - injection Hr as <-. by apply keeps_heap.
Qed.

(** ** The two goroutines

    The socket: what its reads will return, its end once that is read, what was
    written to it. *)
Record socket := mkSocket { sk_in : list string; sk_end : option error; sk_sent : string; sk_closed : bool }.
(** io.Copy(server, client), then [close]. *)
Inductive copier :=
| Unstarted
| ReadTunnel
| WriteSocket (d : string)
| CloseTunnelA (err : option error)
| CloseSocketA
| DoneA.
(** clientDial: the dial, io.Copy(client, server), [close], the wait for the
    other goroutine, the error and what is deferred. *)
Inductive caller :=
| Dialing
| DialFailed (err : error)
| ReadSocket
| WriteTunnel (d : string)
| CloseTunnelB (err : option error)
| CloseSocketB (err : error)
| Waiting (err : error)
| Report (err : error)
| CloseSocket
| CloseConn
| Finished.
(** With what the tunnel has delivered and what was read of it, whether a write
    to the socket failed, what arrived at the socket and what the tunnel took of
    it. *)
Record dial := mkDial {
  d_session : Session;
  d_socket : socket;
  d_copier : copier;
  d_caller : caller;
  d_got : string;
  d_read : string;
  d_lost : bool;
  d_arrived : string;
  d_up : string
}.
Definition with_session (d : dial) (s : Session) : dial :=
  mkDial s (d_socket d) (d_copier d) (d_caller d) (d_got d) (d_read d) (d_lost d) (d_arrived d) (d_up d).
Definition with_copier (d : dial) (c : copier) : dial :=
  mkDial (d_session d) (d_socket d) c (d_caller d) (d_got d) (d_read d) (d_lost d) (d_arrived d) (d_up d).
Definition with_caller (d : dial) (c : caller) : dial :=
  mkDial (d_session d) (d_socket d) (d_copier d) c (d_got d) (d_read d) (d_lost d) (d_arrived d) (d_up d).
Definition with_socket (d : dial) (k : socket) : dial :=
  mkDial (d_session d) k (d_copier d) (d_caller d) (d_got d) (d_read d) (d_lost d) (d_arrived d) (d_up d).
Definition has_read (d : dial) (x : string) : dial :=
  mkDial (d_session d) (d_socket d) (d_copier d) (d_caller d) (d_got d) (d_read d +:+ x) (d_lost d) (d_arrived d) (d_up d).
Definition loses (d : dial) : dial :=
  mkDial (d_session d) (d_socket d) (d_copier d) (d_caller d) (d_got d) (d_read d) true (d_arrived d) (d_up d).
Definition sends_up (d : dial) (x : string) : dial :=
  mkDial (d_session d) (d_socket d) (d_copier d) (d_caller d) (d_got d) (d_read d) (d_lost d) (d_arrived d) (d_up d +:+ x).
Definition sent (k : socket) (x : string) : socket := mkSocket (sk_in k) (sk_end k) (sk_sent k +:+ x) (sk_closed k).
Definition shut (k : socket) : socket := mkSocket (sk_in k) (sk_end k) (sk_sent k) true.
Definition use_of_closed : error := ErrorString "use of closed network connection".
(** io.Copy does not report the end of what it reads. *)
Definition copy_error (e : error) : option error := match e with EOF => None | _ => Some e end.
(** The buffer of io.Copy. *)
Definition copy_buffer : nat := 32 * 1024.

Section Dial.
Variables (io_chunks : string → list string) (p : ptr).

(** A step of the other goroutine; [w] is what a write to the socket does: all
    of it, or an error after some bytes.  None: it waits, or has ended. *)
Definition copier_step (w : option (nat * error)) (d : dial) : option (go dial) :=
  match heap (d_session d) !! p with
  | None => Some Panic
  | Some c =>
      match d_copier d with
      | Unstarted | DoneA => None
      | ReadTunnel =>
          let '(c', r) := Read c copy_buffer in
          let d' := with_session d (update_conn (d_session d) p c') in
          match r with
          | ReadOk x => Some (Ret (with_copier (has_read d' x) (WriteSocket x)))
          | ReadErr e => Some (Ret (with_copier d' (CloseTunnelA (copy_error e))))
          | ReadBlock => None
          end
      | WriteSocket x =>
          if decide (x = "") then Some (Ret (with_copier d ReadTunnel))
          else if sk_closed (d_socket d) then Some (Ret (with_copier (loses d) (CloseTunnelA (Some use_of_closed))))
          else match w with
          | None => Some (Ret (with_copier (with_socket d (sent (d_socket d) x)) ReadTunnel))
          | Some (k, e) => Some (Ret (with_copier (loses (with_socket d (sent (d_socket d) (str_take k x)))) (CloseTunnelA (Some e))))
          end
      | CloseTunnelA err =>
          Some (c' ← doTunnelClose c (Some (pipe_err err));
                Ret (with_copier (with_session d (update_conn (d_session d) p c')) CloseSocketA))
      | CloseSocketA => Some (Ret (with_copier (with_socket d (shut (d_socket d))) DoneA))
      end
  end.
(** A step of clientDial; [dialed] is how the dial ended. *)
Definition caller_step (dialed : option error) (now : Z) (d : dial) : option (go dial) :=
  let s := d_session d in
  match heap s !! p with
  | None => Some Panic
  | Some c =>
      match d_caller d with
      | Finished => None
      | Dialing =>
          match dialed with
          | Some e => Some (Ret (with_caller d (DialFailed e)))
          | None => Some (Ret (with_caller (with_copier d ReadTunnel) ReadSocket))
          end
      | DialFailed e => Some (s' ← tunnelClose s p (Some e); Ret (with_caller (with_session d s') CloseConn))
      | ReadSocket =>
          let k := d_socket d in
          if sk_closed k then Some (Ret (with_caller d (CloseTunnelB (Some use_of_closed))))
          else match sk_in k, sk_end k with
          | x :: l, _ => Some (Ret (with_caller (with_socket d (mkSocket l (sk_end k) (sk_sent k) (sk_closed k))) (WriteTunnel x)))
          | [], Some e => Some (Ret (with_caller d (CloseTunnelB (copy_error e))))
          | [], None => None
          end
      | WriteTunnel x =>
          Some ('(s', r) ← Connection_Write s p x now;
                Ret match r.2 with
                    | None => with_caller (sends_up (with_session d s') x) ReadSocket
                    | Some e => with_caller (with_session d s') (CloseTunnelB (Some e))
                    end)
      | CloseTunnelB err =>
          Some (c' ← doTunnelClose c (Some (pipe_err err));
                Ret (with_caller (with_session d (update_conn s p c')) (CloseSocketB (pipe_err err))))
      | CloseSocketB err => Some (Ret (with_caller (with_socket d (shut (d_socket d))) (Waiting err)))
      | Waiting err => match d_copier d with DoneA => Some (Ret (with_caller d (Report err))) | _ => None end
      | Report err => Some (s' ← writeErr s (c_connID c) (Some err); Ret (with_caller (with_session d s') CloseSocket))
      | CloseSocket => Some (Ret (with_caller (with_socket d (shut (d_socket d))) CloseConn))
      | CloseConn => Some (s' ← Connection_Close s p; Ret (with_caller (with_session d s') Finished))
      end
  end.
(** A step of either. *)
Inductive own : dial → dial → Prop :=
| own_copier w d d' : copier_step w d = Some (Ret d') → own d d'
| own_caller dialed now d d' : caller_step dialed now d = Some (Ret d') → own d d'.
(** The environment: the session's other goroutines and the other end of the
    socket, which sends something or ends. *)
Inductive environment : dial → dial → Prop :=
| env_session ev s' c c' x d :
    ev_ok (d_session d) ev → others p ev → run_event io_chunks (d_session d) ev = Ret s' →
    heap (d_session d) !! p = Some c → heap s' !! p = Some c' → pending c' = pending c +:+ x →
    environment d (mkDial s' (d_socket d) (d_copier d) (d_caller d) (d_got d +:+ x) (d_read d) (d_lost d) (d_arrived d) (d_up d))
| env_arrives x d : x ≠ "" → sk_end (d_socket d) = None →
    environment d (mkDial (d_session d) (mkSocket (sk_in (d_socket d) ++ [x]) None (sk_sent (d_socket d)) (sk_closed (d_socket d)))
                     (d_copier d) (d_caller d) (d_got d) (d_read d) (d_lost d) (d_arrived d +:+ x) (d_up d))
| env_ends e d : sk_end (d_socket d) = None →
    environment d (with_socket d (mkSocket (sk_in (d_socket d)) (Some e) (sk_sent (d_socket d)) (sk_closed (d_socket d)))).
(** A run, with the number of own steps. *)
Inductive run : nat → dial → dial → Prop :=
| run_refl d : run 0 d d
| run_own n d d' d'' : run n d d' → own d' d'' → run (S n) d d''
| run_env n d d' d'' : run n d d' → environment d' d'' → run n d d''.

(** The start: the session has accepted a Connect message and made the
    connection. *)
Definition dial_start (s : Session) : dial := mkDial s (mkSocket [] None "" false) Unstarted Dialing "" "" false "" "".
Definition starts (s : Session) : Prop :=
  session_ok s ∧ ∃ c, heap s !! p = Some c ∧ c_writeDeadline c = None ∧ pending c = "".

(** ** The invariant *)
Definition ended (c : connection) (d : dial) : Prop :=
  (∃ y, d_read d = sk_sent (d_socket d) +:+ y) ∧
  (d_lost d = false → d_read d = sk_sent (d_socket d) ∧ pending c = "" ∧ c_closed c = true).
Definition copier_ok (c : connection) (d : dial) : Prop :=
  match d_copier d with
  | Unstarted => sk_sent (d_socket d) = "" ∧ d_read d = "" ∧ d_lost d = false
  | ReadTunnel => d_read d = sk_sent (d_socket d) ∧ d_lost d = false
  | WriteSocket x => d_read d = sk_sent (d_socket d) +:+ x ∧ d_lost d = false
  | CloseTunnelA _ => ended c d
  | CloseSocketA => c_closed c = true ∧ ended c d
  | DoneA => c_closed c = true ∧ sk_closed (d_socket d) = true ∧ ended c d
  end.
Definition started (d : dial) : Prop := d_copier d ≠ Unstarted.
Definition over (d : dial) : Prop := d_copier d = Unstarted ∨ d_copier d = DoneA.
Definition taken (d : dial) (x : string) : Prop := d_arrived d = d_up d +:+ x +:+ cat (sk_in (d_socket d)).
Definition caller_ok (c : connection) (d : dial) : Prop :=
  match d_caller d with
  | Dialing => d_copier d = Unstarted ∧ taken d ""
  | DialFailed _ => d_copier d = Unstarted ∧ taken d ""
  | ReadSocket => started d ∧ taken d ""
  | WriteTunnel x => started d ∧ x ≠ "" ∧ taken d x
  | CloseTunnelB _ => started d ∧ ∃ x, taken d x
  | CloseSocketB _ => started d ∧ c_closed c = true ∧ ∃ x, taken d x
  | Waiting _ => started d ∧ c_closed c = true ∧ sk_closed (d_socket d) = true ∧ ∃ x, taken d x
  | Report _ | CloseSocket => d_copier d = DoneA ∧ c_closed c = true ∧ ∃ x, taken d x
  | CloseConn | Finished => over d ∧ c_closed c = true ∧ ∃ x, taken d x
  end.
Record dial_ok (d : dial) (c : connection) : Prop := mkDialOk {
  dk_session : session_ok (d_session d);
  dk_alive : heap (d_session d) !! p = Some c;
  dk_deadline : c_writeDeadline c = None;
  dk_got : d_got d = d_read d +:+ pending c;
  dk_copier : copier_ok c d;
  dk_caller : caller_ok c d;
  dk_chunks : Forall (λ x, x ≠ "") (sk_in (d_socket d))
}.
Definition good (d : dial) : Prop := ∃ c, dial_ok d c.
Definition good_step (r : option (go dial)) : Prop := match r with Some (Ret d) => good d | Some Panic => False | None => True end.

(** A connection whose channel is closed is not changed by closing it. *)
Lemma close_updates d c err :
  dial_ok d c → ∃ c', doTunnelClose c err = Ret c' ∧ session_ok (update_conn (d_session d) p c') ∧ c_closed c' = true ∧
    pending c' = pending c ∧ c_writeDeadline c' = None ∧ c_connID c' = c_connID c.
Proof.
  intros [Hs Hp Hdl _ _ _ _]. pose proof (ok_conn _ Hs _ _ Hp) as Hc.
  destruct (doTunnelClose_ok c err Hc) as (c' & Hd & Hc' & Hid & _ & Hcl & Hb & Hr & _).
  exists c'. split; [done|]. split; [by eapply update_conn_ok|]. unfold pending. rewrite Hb, Hr. split_and!; try done.
  rewrite (ev_deadline _ _ (doTunnelClose_evolves _ _ _ Hc Hd)). done.
Qed.
(** The phases of one goroutine do not depend on what the other one does, but
    for the sides that are closed. *)
Lemma ended_closed c c' d : ended c d → pending c' = pending c → c_closed c' = true → ended c' d.
Proof. intros [Hy Hl] Hp Hcl. split; [done|]. intros Hn. rewrite Hp. destruct (Hl Hn) as (? & ? & _). done. Qed.
Lemma copier_closed c c' d : copier_ok c d → pending c' = pending c → c_closed c' = true → copier_ok c' d.
Proof.
  unfold copier_ok. intros Hk Hp Hcl. destruct (d_copier d); try done.
  - by eapply ended_closed.
  - split; [done|]. eapply ended_closed; naive_solver.
  - split_and!; try naive_solver. eapply ended_closed; naive_solver.
Qed.
Lemma caller_closed c c' d : caller_ok c d → c_closed c' = true → caller_ok c' d.
Proof. unfold caller_ok. intros Hk Hcl. destruct (d_caller d); naive_solver. Qed.
Lemma update_alive s c c' : heap s !! p = Some c → heap (update_conn s p c') !! p = Some c'.
Proof. intros _. simpl. by rewrite lookup_insert_eq. Qed.

Lemma Read_deadline c n : c_writeDeadline (Read c n).1 = c_writeDeadline c.
Proof.
  unfold Read. destruct (_ =? 0)%nat; [done|]. simpl. destruct (0 <? _)%nat; [done|]. destruct (c_buf c); [by destruct (c_closed c)|done].
Qed.
(** What a phase depends on. *)
Lemma caller_same c c' d d' :
  caller_ok c d → (c_closed c = true → c_closed c' = true) →
  d_caller d' = d_caller d → d_up d' = d_up d → d_arrived d' = d_arrived d → sk_in (d_socket d') = sk_in (d_socket d) →
  (sk_closed (d_socket d) = true → sk_closed (d_socket d') = true) →
  (d_copier d' = d_copier d ∨ started d ∧ started d' ∧ d_copier d ≠ DoneA) → caller_ok c' d'.
Proof.
  unfold caller_ok, started, over, taken. intros Hl Hcl -> -> -> -> Hsk Hk. destruct (d_caller d); destruct Hk as [Hk|Hk]; rewrite ?Hk; naive_solver.
Qed.
Lemma copier_same c c' d d' :
  copier_ok c d → pending c' = pending c ∨ c_closed c = false → (c_closed c = true → c' = c) →
  d_copier d' = d_copier d → d_read d' = d_read d → sk_sent (d_socket d') = sk_sent (d_socket d) → d_lost d' = d_lost d →
  (sk_closed (d_socket d) = true → sk_closed (d_socket d') = true) → copier_ok c' d'.
Proof.
  unfold copier_ok, ended. intros Hk Hp Hcl -> -> -> -> Hsk.
  destruct (d_copier d); destruct (c_closed c) eqn:Ec; try rewrite (Hcl eq_refl) in *; try rewrite Ec; naive_solver.
Qed.
Lemma copier_step_ok w d c : dial_ok d c → good_step (copier_step w d).
Proof.
  intros Hd. pose proof Hd as [Hs Hp Hdl Hg Hk Hl Hf]. unfold copier_step. rewrite Hp.
  pose proof (ok_conn _ Hs _ _ Hp) as Hc.
  unfold copier_ok in Hk. destruct (d_copier d) as [| |x|err| |] eqn:Ek; try done.
  - destruct (Read c copy_buffer) as [c' r] eqn:Hr. destruct (Read_ok c copy_buffer Hc) as [Hc' Hid]. rewrite Hr in Hc', Hid. simpl in *.
    pose proof (update_conn_ok _ _ _ _ Hs Hp Hc' Hid) as Hs'. destruct (read_pending _ _ _ _ Hr) as [Hrp [_ Hcl]].
    assert (c_writeDeadline c' = None) as Hdl' by (by rewrite <- (Read_deadline c copy_buffer), Hr in Hdl).
    destruct r as [x|e|]; [| |done]; exists c'; (split; simpl; [done|by rewrite lookup_insert_eq|done| | | |done]).
    + destruct Hrp as [Hrp _]. by rewrite Hg, Hrp, str_app_assoc.
    + unfold copier_ok. simpl. destruct Hk as [Hk Hn]. by rewrite Hk.
    + eapply caller_same; [exact Hl|by rewrite Hcl|done..|]. right. unfold started. simpl. by rewrite Ek.
    + destruct Hrp as (Hp1 & Hp2 & _). by rewrite Hg, Hp1, Hp2.
    + destruct Hrp as (Hp1 & Hp2 & Hcl1 & _). unfold copier_ok, ended. simpl. destruct Hk as [Hk Hn].
      split; [exists ""; by rewrite str_app_nil_r|]. intros _. split_and!; [done|done|congruence].
    + eapply caller_same; [exact Hl|by rewrite Hcl|done..|]. right. unfold started. simpl. by rewrite Ek.
  - destruct Hk as [Hk Hn].
    assert (∀ d', d_caller d' = d_caller d → d_up d' = d_up d → d_arrived d' = d_arrived d → sk_in (d_socket d') = sk_in (d_socket d) →
      d_socket d' = d_socket d ∨ sk_closed (d_socket d') = sk_closed (d_socket d) → started d' → caller_ok c d') as Hl'.
    { intros d' ? ? ? ? He Hst. eapply caller_same; [exact Hl|done..|by destruct He as [->| ->]|]. right. unfold started. by rewrite Ek. }
    destruct (decide (x = "")) as [->|Hx].
    { exists c. split; try done; [|by apply Hl'; auto]. unfold copier_ok. simpl. by rewrite Hk, str_app_nil_r. }
    destruct (sk_closed (d_socket d)) eqn:Esk.
    { exists c. split; try done; [|by apply Hl'; auto]. unfold copier_ok, ended. simpl. split; [by exists x|done]. }
    destruct w as [[k e]|]; exists c; (split; try done); try (apply Hl'; try done; by right).
    unfold copier_ok, ended. simpl. split; [|done]. exists (str_drop k x). by rewrite Hk, str_app_assoc, str_take_drop.
  - destruct (close_updates d c (Some (pipe_err err)) Hd) as (c' & -> & Hs' & Hcl & Hpe & Hdl' & _). simpl.
    exists c'. split; simpl; try done; [by rewrite lookup_insert_eq|by rewrite Hpe| |].
    + unfold copier_ok. simpl. split; [done|]. by eapply ended_closed.
    + eapply caller_same; [exact Hl|done..|]. right. unfold started. simpl. by rewrite Ek.
  - exists c. split; try done.
    + unfold copier_ok, ended in *. simpl. naive_solver.
    + eapply caller_same; [exact Hl|done..|]. right. unfold started. simpl. by rewrite Ek.
Qed.

Lemma tunnelClose_updates d c err :
  dial_ok d c → ∃ s' c', tunnelClose (d_session d) p err = Ret s' ∧ session_ok s' ∧ heap s' !! p = Some c' ∧ c_closed c' = true ∧
    pending c' = pending c ∧ c_writeDeadline c' = None.
Proof.
  intros Hd. pose proof Hd as [Hs Hp _ _ _ _ _].
  destruct (tunnelClose_ok _ p c err Hs Hp) as (s' & _ & Ht & Hs' & _).
  exists s'. unfold tunnelClose in Ht |- *. rewrite Hp in Ht |- *.
  destruct (writeErr _ _ err) as [s1|]; [|done]. simpl in Ht |- *.
  destruct (close_updates d c err Hd) as (c' & Hc & _ & Hcl & Hpe & Hdl & _). rewrite Hc in Ht |- *. simpl in *.
  exists c'. split_and!; try done. injection Ht as <-. simpl. by rewrite lookup_insert_eq.
Qed.
Lemma write_updates d c b now :
  dial_ok d c → ∃ s' r, Connection_Write (d_session d) p b now = Ret (s', r) ∧ session_ok s' ∧ heap s' = heap (d_session d) ∧
    (c_closed c = true → is_Some r.2).
Proof.
  intros [Hs Hp Hdl _ _ _ _]. destruct (ok_conn _ Hs _ _ Hp) as (Hcl & _ & Hi).
  unfold Connection_Write. rewrite Hp, Hdl. destruct (c_err c) as [e|] eqn:He; [by eexists _, _|].
  edestruct (writeMessage_ok (d_session d) (λ nid, newMessage nid (c_connID c) 0 b)) as (s' & -> & Hsame).
  { apply Bytes_fits_small; simpl; [apply nextid_range|done|unfold Data; lia|lia]. }
  eexists s', _. split; [done|]. split; [by eapply same_conns_ok|]. destruct Hsame as (_ & Hh & _). split; [done|].
  intros Hc. by destruct (proj1 Hcl Hc).
Qed.
Lemma report_updates d c err :
  dial_ok d c → ∃ s', writeErr (d_session d) (c_connID c) (Some err) = Ret s' ∧ session_ok s' ∧ heap s' = heap (d_session d).
Proof.
  intros [Hs Hp _ _ _ _ _]. destruct (ok_conn _ Hs _ _ Hp) as (_ & _ & Hi).
  destruct (writeErr_ok (d_session d) (c_connID c) (Some err) Hi (ok_ids _ Hs)) as (s' & Hw & Hsame).
  exists s'. split; [done|]. split; [by eapply same_conns_ok|]. by destruct Hsame as (_ & Hh & _).
Qed.
Lemma leave_updates d c :
  dial_ok d c → c_closed c = true → ∃ s', Connection_Close (d_session d) p = Ret s' ∧ session_ok s' ∧ heap s' !! p = Some c.
Proof.
  intros [Hs Hp _ _ _ _ _] Hcl. unfold Connection_Close. rewrite Hp.
  destruct (closeConnection_ok (d_session d) (c_connID c) (Some EOF) Hs) as (s' & Hc & Hs' & _).
  exists s'. split; [done|]. split; [done|]. destruct (closeConnection_keeps p _ _ _ _ Hs Hc c Hp) as (c' & Hc' & Hev).
  by rewrite <- (ev_closed _ _ Hev Hcl).
Qed.
(** A step of clientDial that leaves the connection and the socket as they are. *)
Lemma caller_moves d c d' :
  dial_ok d c → caller_ok c d' → session_ok (d_session d') → heap (d_session d') !! p = Some c → d_copier d' = d_copier d →
  d_got d' = d_got d → d_read d' = d_read d → d_lost d' = d_lost d →
  sk_sent (d_socket d') = sk_sent (d_socket d) → (sk_closed (d_socket d) = true → sk_closed (d_socket d') = true) →
  Forall (λ x, x ≠ "") (sk_in (d_socket d')) → good d'.
Proof.
  intros [Hs Hp Hdl Hg Hk Hl Hf] Hl' Hs' Hp' Hc Hg' Hr Hlo Hse Hsk Hf'. exists c.
  split; try done; [by rewrite Hg', Hr|]. eapply copier_same; try done. by left.
Qed.
(** One that closes the connection. *)
Lemma caller_closes d c c' s' pc :
  dial_ok d c → session_ok s' → heap s' !! p = Some c' → c_closed c' = true → pending c' = pending c → c_writeDeadline c' = None →
  caller_ok c' (with_caller (with_session d s') pc) → good (with_caller (with_session d s') pc).
Proof.
  intros [Hs Hp Hdl Hg Hk Hl Hf] Hs' Hp' Hcl Hpe Hdl' Hl'. exists c'. split; try done; simpl; [by rewrite Hpe|].
  eapply (copier_closed c c' (with_caller (with_session d s') pc)); done.
Qed.
Lemma caller_step_ok dialed now d c : dial_ok d c → good_step (caller_step dialed now d).
Proof.
  intros Hd. pose proof Hd as [Hs Hp Hdl Hg Hk Hl Hf]. unfold caller_step. rewrite Hp.
  unfold caller_ok in Hl. destruct (d_caller d) as [|err| |x|err|err|err|err| | |] eqn:El; try done.
  - destruct Hl as [Hu Ht]. destruct dialed as [e|]; [by apply (caller_moves d c)|].
    unfold copier_ok in Hk. rewrite Hu in Hk. destruct Hk as (Hk1 & Hk2 & Hk3). exists c. split; try done.
    unfold copier_ok. simpl. by rewrite Hk1, Hk2.
  - destruct Hl as [Hu Ht]. destruct (tunnelClose_updates d c (Some err) Hd) as (s' & c' & -> & Hs' & Hp' & Hcl & Hpe & Hdl').
    simpl. eapply caller_closes; try done. unfold caller_ok, over. simpl. eauto.
  - destruct Hl as [Hst Ht]. destruct (sk_closed (d_socket d)) eqn:Esk.
    { eapply caller_moves; try done. unfold caller_ok, started. simpl. eauto. }
    destruct (sk_in (d_socket d)) as [|x l] eqn:Ein.
    + destruct (sk_end (d_socket d)) as [e|]; [|done]. eapply caller_moves; try done; [|by simpl; rewrite Ein].
      unfold caller_ok, started. simpl. eauto.
    + apply Forall_cons in Hf as [Hx Hf]. eapply caller_moves; try done; [|by simpl; rewrite Esk].
      unfold caller_ok, started, taken in *. simpl. by rewrite Ein in Ht.
  - destruct Hl as (Hst & Hx & Ht). destruct (write_updates d c x now Hd) as (s' & r & -> & Hs' & Hh & _). simpl.
    destruct r as [n [e|]]; simpl; (eapply caller_moves; try done; [|by simpl; rewrite Hh]); unfold caller_ok, started, taken in *; simpl.
    + eauto.
    + by rewrite Ht, str_app_assoc.
  - destruct Hl as [Hst Ht]. destruct (close_updates d c (Some (pipe_err err)) Hd) as (c' & -> & Hs' & Hcl & Hpe & Hdl' & _). simpl.
    eapply caller_closes; try done. simpl. by rewrite lookup_insert_eq.
  - destruct Hl as (Hst & Hcl & Ht). eapply caller_moves; try done.
  - destruct Hl as (Hst & Hcl & Hsk & Ht). destruct (d_copier d) eqn:Ek; try done. eapply caller_moves; try done. 
  - destruct Hl as (Hst & Hcl & Ht). destruct (report_updates d c err Hd) as (s' & -> & Hs' & Hh). simpl.
    eapply caller_moves; try done. simpl. by rewrite Hh.
  - destruct Hl as (Hst & Hcl & Ht). eapply caller_moves; try done. unfold caller_ok, over. simpl. eauto.
  - destruct Hl as (Hst & Hcl & Ht). destruct (leave_updates d c Hd Hcl) as (s' & -> & Hs' & Hp'). simpl. by eapply caller_moves.
Qed.

Lemma environment_ok d d' c : dial_ok d c → environment d d' → good d'.
Proof.
  intros Hd He. pose proof Hd as [Hs Hp Hdl Hg Hk Hl Hf]. destruct He as [ev s' c0 c' x d Hok Ho Hr Hc0 Hc' Hx|x d Hx Hen|e d Hen].
  - assert (c0 = c) as -> by congruence.
    destruct (run_event_ok io_chunks _ ev Hs Hok) as (s'' & Hr' & Hs'). assert (s'' = s') as -> by congruence.
    destruct (run_event_keeps io_chunks p _ ev s' Hs Hok Ho Hr c Hp) as (c'' & Hc'' & Hev). assert (c'' = c') as -> by congruence.
    exists c'. split; simpl; try done.
    + by rewrite (ev_deadline _ _ Hev).
    + by rewrite Hg, Hx, str_app_assoc.
    + eapply copier_same; [exact Hk| |by apply (ev_closed _ _ Hev)|done..].
      destruct (c_closed c) eqn:Ec; [left; by rewrite (ev_closed _ _ Hev Ec)|by right].
    + eapply caller_same; [exact Hl| |done..|by left]. intros Hcl. by rewrite (ev_closed _ _ Hev Hcl).
  - exists c. split; simpl; try done; [|by apply Forall_app; repeat constructor].
    assert (∀ y, taken d y → d_arrived d +:+ x = d_up d +:+ y +:+ cat (sk_in (d_socket d) ++ [x])) as Ht.
    { intros y Hy. by rewrite cat_app, Hy, !str_app_assoc; simpl; rewrite str_app_nil_r. }
    unfold caller_ok, over, started in *. unfold taken at 1 2 3 4 5 6 7 8. simpl. destruct (d_caller d); naive_solver.
  - by exists c; split.
Qed.
Lemma own_ok d d' c : dial_ok d c → own d d' → good d'.
Proof.
  intros Hd Ho. destruct Ho as [w d d' Hst|di now d d' Hst].
  - pose proof (copier_step_ok w d c Hd) as Hg. by rewrite Hst in Hg.
  - pose proof (caller_step_ok di now d c Hd) as Hg. by rewrite Hst in Hg.
Qed.
Lemma dial_start_ok s : starts s → good (dial_start s).
Proof. intros (Hs & c & Hp & Hdl & Hpe). by exists c; split. Qed.
Lemma run_ok n d d' : good d → run n d d' → good d'.
Proof. intros Hg. induction 1 as [|n d d' d'' _ IH Ho|n d d' d'' _ IH He]; [done| |]; destruct (IH Hg) as [c Hc]; [by eapply own_ok|by eapply environment_ok]. Qed.

(** ** It delivers

    Whatever the session and the socket do, neither goroutine panics.  What is
    written to the socket is a prefix of what the tunnel delivered, and all of it
    when the copying to the socket has ended without a failed write; what was sent
    through the tunnel is a prefix of what arrived at the socket.  When clientDial
    has returned, its connection is closed and the other goroutine has ended, if
    it was started. *)
Theorem dial_delivers s n d :
  starts s → run n (dial_start s) d →
  (∀ w, copier_step w d ≠ Some Panic) ∧ (∀ dialed now, caller_step dialed now d ≠ Some Panic) ∧
  (∃ y, d_got d = sk_sent (d_socket d) +:+ y) ∧
  (d_copier d = DoneA → d_lost d = false → d_got d = sk_sent (d_socket d)) ∧
  (∃ y, d_arrived d = d_up d +:+ y) ∧
  (d_caller d = Finished → over d ∧ ∃ c, heap (d_session d) !! p = Some c ∧ c_closed c = true).
Proof.
  intros Hst Hr. destruct (run_ok n _ d (dial_start_ok s Hst) Hr) as [c Hd].
  split; [intros w Hw; pose proof (copier_step_ok w d c Hd) as Hg; by rewrite Hw in Hg|].
  split; [intros di now Hw; pose proof (caller_step_ok di now d c Hd) as Hg; by rewrite Hw in Hg|].
  destruct Hd as [Hs Hp Hdl Hg Hk Hl Hf]. unfold copier_ok, ended in Hk. split_and!.
  - assert (∃ y, d_read d = sk_sent (d_socket d) +:+ y) as [y Hy].
    { destruct (d_copier d); [exists ""; by destruct Hk as (-> & -> & _)|exists ""; destruct Hk as [-> _]; by rewrite str_app_nil_r|
        by destruct Hk as [-> _]; eexists|naive_solver..]. }
    exists (y +:+ pending c). by rewrite Hg, Hy, str_app_assoc.
  - intros Hdone Hlost. rewrite Hdone in Hk. destruct Hk as (_ & _ & _ & Hk). destruct (Hk Hlost) as (Hrd & Hpe & _).
    by rewrite Hg, Hpe, str_app_nil_r.
  - assert (∃ x, taken d x) as [x Hx] by (unfold caller_ok in Hl; destruct (d_caller d); naive_solver). by eexists.
  - intros Hfi. unfold caller_ok in Hl. rewrite Hfi in Hl. naive_solver.
Qed.

(** ** It ends *)
Fixpoint chunks_size (l : list string) : nat := match l with [] => 0 | x :: l => S (String.length x + chunks_size l) end.
Definition backlog (c : connection) : nat := 3 * (String.length (c_readBuf c) + chunks_size (c_buf c)).
Definition copier_rank (c : connection) (k : copier) : nat :=
  match k with
  | Unstarted | WriteSocket _ => 4 + backlog c
  | ReadTunnel => 3 + backlog c
  | CloseTunnelA _ => 2
  | CloseSocketA => 1
  | DoneA => 0
  end.
Definition caller_rank (k : caller) : nat :=
  match k with
  | Dialing => 12 | DialFailed _ => 11 | ReadSocket => 8 | WriteTunnel _ => 7 | CloseTunnelB _ => 6 | CloseSocketB _ => 5
  | Waiting _ => 4 | Report _ => 3 | CloseSocket => 2 | CloseConn => 1 | Finished => 0
  end.
Definition effort (d : dial) (c : connection) : nat := copier_rank c (d_copier d) + caller_rank (d_caller d).

Lemma read_backlog c n c' x : (n ≠ 0)%nat → Read c n = (c', ReadOk x) → (backlog c' + 3 ≤ backlog c)%nat.
Proof.
  intros Hn. unfold Read. rewrite (proj2 (Nat.eqb_neq n 0) Hn). simpl.
  destruct (Nat.ltb_spec 0 (String.length (str_take n (c_readBuf c)))) as [Hlt|_].
  - intros [= <- _]. unfold backlog. simpl. pose proof (f_equal String.length (str_take_drop n (c_readBuf c))) as He.
    rewrite str_length_app in He. lia.
  - destruct (c_buf c) as [|y l] eqn:Eb; [by destruct (c_closed c)|]. intros [= <- _]. unfold backlog. simpl. rewrite Eb. simpl.
    pose proof (f_equal String.length (str_take_drop n y)) as He. rewrite str_length_app in He. lia.
Qed.
Lemma copier_decreases w d c d' c' :
  dial_ok d c → c_closed c = true → copier_step w d = Some (Ret d') → heap (d_session d') !! p = Some c' →
  c_closed c' = true ∧ (effort d' c' < effort d c)%nat.
Proof.
  intros Hd Hcl Hst Hp'. pose proof Hd as [Hs Hp _ _ _ _ _]. unfold copier_step in Hst. rewrite Hp in Hst. unfold effort.
  destruct (d_copier d) as [| |x|err| |] eqn:Ek; try done.
  - destruct (Read c copy_buffer) as [c1 r] eqn:Hr. destruct (read_pending _ _ _ _ Hr) as [_ [_ Hcl1]].
    destruct r as [x|e|]; [| |done]; injection Hst as <-; simpl in Hp'; rewrite lookup_insert_eq in Hp'; injection Hp' as <-;
      (split; [congruence|]); simpl; [|lia].
    pose proof (read_backlog c copy_buffer c1 x ltac:(done) Hr). lia.
  - destruct (decide (x = "")); [|destruct (sk_closed _); [|destruct w as [[k e]|]]]; injection Hst as <-; simpl in *;
      assert (c' = c) as -> by congruence; (split; [done|lia]).
  - destruct (close_updates d c (Some (pipe_err err)) Hd) as (c1 & He & _ & Hcl1 & _). rewrite He in Hst. simpl in Hst. injection Hst as <-.
    simpl in Hp'. rewrite lookup_insert_eq in Hp'. injection Hp' as <-. simpl. split; [done|lia].
  - injection Hst as <-. simpl in *. assert (c' = c) as -> by congruence. split; [done|lia].
Qed.
Lemma caller_decreases dialed now d c d' :
  dial_ok d c → c_closed c = true → caller_step dialed now d = Some (Ret d') →
  heap (d_session d') !! p = Some c ∧ (effort d' c < effort d c)%nat.
Proof.
  intros Hd Hcl Hst. pose proof Hd as [Hs Hp _ _ _ Hl _]. pose proof (ok_conn _ Hs _ _ Hp) as Hc.
  unfold caller_step in Hst. rewrite Hp in Hst. unfold effort.
  unfold caller_ok in Hl. destruct (d_caller d) as [|err| |x|err|err|err|err| | |] eqn:El; try done.
  - destruct Hl as [Hu _]. destruct dialed as [e|]; injection Hst as <-; simpl in *; rewrite Hu; simpl; (split; [done|lia]).
  - destruct (tunnelClose _ _ _) as [s1|] eqn:He; [|done]. simpl in Hst. injection Hst as <-. simpl. split; [|lia].
    destruct (tunnelClose_keeps p _ _ _ _ Hs He c Hp) as (c1 & Hp1 & Hev). by rewrite <- (ev_closed _ _ Hev Hcl).
  - destruct (sk_closed _); [|destruct (sk_in _); [destruct (sk_end _); [|done]|]]; injection Hst as <-; simpl; (split; [done|lia]).
  - destruct (write_updates d c x now Hd) as (s1 & r & He & _ & Hh & Herr). rewrite He in Hst. simpl in Hst.
    destruct (Herr Hcl) as [e Hr]. rewrite Hr in Hst. injection Hst as <-. simpl. rewrite Hh. split; [done|lia].
  - destruct (doTunnelClose c _) as [c1|] eqn:He; [|done]. simpl in Hst. injection Hst as <-. simpl. rewrite lookup_insert_eq.
    rewrite (ev_closed _ _ (doTunnelClose_evolves _ _ _ Hc He) Hcl). split; [done|lia].
  - injection Hst as <-. simpl. split; [done|lia].
  - destruct (d_copier d) eqn:Ek; try done. injection Hst as <-. simpl. rewrite Ek. simpl. split; [done|lia].
  - destruct (report_updates d c err Hd) as (s1 & He & _ & Hh). rewrite He in Hst. simpl in Hst. injection Hst as <-. simpl. rewrite Hh.
    split; [done|lia].
  - injection Hst as <-. simpl. split; [done|lia].
  - destruct (leave_updates d c Hd Hcl) as (s1 & He & _ & Hp1). rewrite He in Hst. simpl in Hst. injection Hst as <-. simpl. split; [done|lia].
Qed.
Lemma environment_effort d d' c : dial_ok d c → c_closed c = true → environment d d' → heap (d_session d') !! p = Some c ∧ effort d' c = effort d c.
Proof.
  intros [Hs Hp _ _ _ _ _] Hcl He. destruct He as [ev s' c0 c' x d Hok Ho Hr Hc0 Hc' Hx|x d _ _|e d _]; [|done..].
  destruct (run_event_keeps io_chunks p _ ev s' Hs Hok Ho Hr c Hp) as (c'' & Hc'' & Hev). simpl.
  by rewrite <- (ev_closed _ _ Hev Hcl).
Qed.

(** Whether one of them can go on: always, but for a dial that has not ended (it
    ends when the environment says how) and while both sides are open and
    silent. *)
Definition can_go (d : dial) : Prop := (∃ w, is_Some (copier_step w d)) ∨ ∃ dialed now, is_Some (caller_step dialed now d).
Definition silent (d : dial) (c : connection) : Prop :=
  d_copier d = ReadTunnel ∧ d_caller d = ReadSocket ∧ pending c = "" ∧ c_closed c = false ∧
  sk_in (d_socket d) = [] ∧ sk_end (d_socket d) = None ∧ sk_closed (d_socket d) = false.
Lemma copier_goes d c :
  heap (d_session d) !! p = Some c → started d → d_copier d ≠ DoneA →
  is_Some (copier_step None d) ∨ d_copier d = ReadTunnel ∧ pending c = "" ∧ c_closed c = false.
Proof.
  intros Hp Hst Hne. unfold copier_step. rewrite Hp. destruct (d_copier d) as [| |x| | |] eqn:Ek; try done; [| |by left; eexists..].
  - destruct (Read c copy_buffer) as [c1 r] eqn:Hr. destruct (read_pending _ _ _ _ Hr) as [Hx _].
    destruct r; [by left; eexists..|]. right. by destruct Hx as (? & _ & ?).
  - left. destruct (decide _); [by eexists|]. destruct (sk_closed _); by eexists.
Qed.
Theorem dial_progress s n d :
  starts s → run n (dial_start s) d →
  d_caller d = Finished ∨ can_go d ∨ ∃ c, heap (d_session d) !! p = Some c ∧ silent d c.
Proof.
  intros Hst Hr. destruct (run_ok n _ d (dial_start_ok s Hst) Hr) as [c Hd]. pose proof Hd as [Hs Hp _ _ Hk Hl _].
  assert (∀ x, caller_step None 0 d = Some x → can_go d) as Hgo by (intros x Hx; right; by exists None, 0, x).
  unfold caller_ok in Hl. unfold caller_step in Hgo. rewrite Hp in Hgo.
  destruct (d_caller d) as [|err| |x|err|err|err|err| | |] eqn:El; try (right; left; by eapply Hgo); [| |by left].
  - destruct (sk_closed (d_socket d)) eqn:Esk; [right; left; by eapply Hgo|].
    destruct (sk_in (d_socket d)) eqn:Ein; [|right; left; by eapply Hgo].
    destruct (sk_end (d_socket d)) eqn:Een; [right; left; by eapply Hgo|]. destruct Hl as [Hsd Ht].
    destruct (copier_goes d c Hp Hsd) as [Hc|(Hc1 & Hc2 & Hc3)].
    + intros Hdone. unfold copier_ok in Hk. rewrite Hdone in Hk. destruct Hk as (_ & Hk & _). congruence.
    + right; left; left. by exists None.
    + right; right. exists c. done.
  - destruct Hl as (Hsd & Hcl & Hsk & _). right; left. assert (d_copier d = DoneA ∨ d_copier d ≠ DoneA) as [Hdone|Hne] by (destruct (d_copier d); auto).
    { eapply Hgo. by rewrite Hdone. }
    destruct (copier_goes d c Hp Hsd Hne) as [Hc|(_ & _ & Hc3)]; [left; by exists None|congruence].
Qed.

(** C20: once the connection is closed, from either side or by the session, the
    two goroutines of a dial take no more than [effort] steps, whatever else
    happens; they can take one until clientDial has returned; and then both have
    ended, and unless a write to the socket failed all that the tunnel delivered
    was written to it. *)
Theorem dial_ends s n d m d' c :
  starts s → run n (dial_start s) d → heap (d_session d) !! p = Some c → c_closed c = true →
  run m d d' →
  (m ≤ effort d c)%nat ∧ (d_caller d' = Finished ∨ can_go d') ∧
  (d_caller d' = Finished → over d' ∧ (d_copier d' = DoneA → d_lost d' = false → d_got d' = sk_sent (d_socket d'))).
Proof.
  intros Hst Hr Hp Hcl Hm. destruct (run_ok n _ d (dial_start_ok s Hst) Hr) as [c0 Hd].
  assert (c0 = c) as -> by (destruct Hd; congruence).
  assert (∃ c', dial_ok d' c' ∧ c_closed c' = true ∧ (m + effort d' c' ≤ effort d c)%nat) as (c' & Hd' & Hcl' & Hle).
  { clear Hr. induction Hm as [d|m d d1 d2 _ IH Ho|m d d1 d2 _ IH He]; [exists c; split; [done|]; split; [done|lia]| |];
      destruct (IH Hp Hd) as (c1 & Hd1 & Hcl1 & Hle).
    - destruct (own_ok _ _ _ Hd1 Ho) as [c2 Hd2]. pose proof Hd2 as [_ Hp2 _ _ _ _ _]. exists c2. split; [done|].
      destruct Ho as [w d1 d2 Hs1|di now d1 d2 Hs1].
      + destruct (copier_decreases _ _ _ _ _ Hd1 Hcl1 Hs1 Hp2). split; [done|lia].
      + destruct (caller_decreases _ _ _ _ _ Hd1 Hcl1 Hs1) as [Hp3 ?]. assert (c2 = c1) as -> by congruence. split; [done|lia].
    - destruct (environment_ok _ _ _ Hd1 He) as [c2 Hd2]. pose proof Hd2 as [_ Hp2 _ _ _ _ _].
      destruct (environment_effort _ _ _ Hd1 Hcl1 He) as [Hp3 Heq]. assert (c2 = c1) as -> by congruence.
      exists c1. split; [done|]. split; [done|lia]. }
  split; [lia|]. assert (∃ k, run k (dial_start s) d') as [k Hk].
  { clear -Hr Hm. induction Hm as [d|m d d1 d2 _ IH Ho|m d d1 d2 _ IH He]; [by exists n| |]; destruct (IH Hr) as [k Hk];
      [exists (S k); by eapply run_own|exists k; by eapply run_env]. }
  destruct (dial_delivers s k d' Hst Hk) as (_ & _ & _ & Hall & _ & Hfin).
  split; [|intros Hf; destruct (Hfin Hf) as [Ho _]; by split].
  destruct (dial_progress s k d' Hst Hk) as [?|[?|(c2 & Hp2 & _ & _ & _ & Ho & _)]]; [by left|by right|].
  destruct Hd'. congruence.
Qed.
End Dial.
(** What clientConnect makes is such a start. *)
Lemma clientConnect_starts s m :
  session_ok s → in_int64 (connID m) = true → starts (next_ptr s) (clientConnect s m).
Proof.
  intros Hs Hm. split; [by apply clientConnect_ok|]. eexists. simpl. rewrite lookup_insert_eq. done.
Qed.

(** ** Example: a request and its answer through the tunnel

    The socket is sent what arrives in a frame, its answer is sent as a frame;
    the socket ends, and its end is reported once by pipe and once more when
    clientDial closes the connection, which is still in the table. *)
Inductive action := TheCopier | TheCaller | Frame (f : string) | Arrives (x : string) | Ends (e : error).
Definition act (p : ptr) (d : dial) (a : action) : go dial :=
  match a with
  | TheCopier => default Panic (copier_step p None d)
  | TheCaller => default Panic (caller_step p None 0 d)
  | Frame f => '(s, _) ← serveMessage (λ b, [b]) (d_session d) f; Ret (with_session d s)
  | Arrives x => Ret (with_socket d (mkSocket (sk_in (d_socket d) ++ [x]) None (sk_sent (d_socket d)) (sk_closed (d_socket d))))
  | Ends e => Ret (with_socket d (mkSocket (sk_in (d_socket d)) (Some e) (sk_sent (d_socket d)) (sk_closed (d_socket d))))
  end.
Definition asked : Session := clientConnect (NewClientSession (Some (λ _ _, true)) 0) (newConnect 1 7 0 "tcp" "db:5432").
Definition hello : message := newMessage 2 7 0 "hi".
Example answered_and_closed :
  match foldM (act 0) [TheCaller; Frame (header_bytes hello +:+ "hi"); TheCopier; TheCopier; Arrives "yo"; TheCaller; TheCaller; Ends EOF;
                       TheCaller; TheCaller; TheCopier; TheCaller; TheCopier; TheCopier; TheCaller; TheCaller; TheCaller; TheCaller]
          (dial_start asked) with
  | Ret d => sk_sent (d_socket d) = "hi" ∧ d_caller d = Finished ∧ d_copier d = DoneA ∧
      (λ m, (messageType m, bytes m)) <$> out (d_session d) = [(Data, "yo"); (ErrorMsg, "EOF"); (ErrorMsg, "EOF")]
  | Panic => False
  end.
Proof. by vm_compute. Qed.

(** The peer sends two bytes and closes; both goroutines end. *)
Definition dialed_once : dial := match act 0 (dial_start asked) TheCaller with Ret d => d | Panic => dial_start asked end.
Definition served (s : Session) (m : message) (text : string) : Session :=
  match serveMessage (λ b, [b]) s (header_bytes m +:+ text) with Ret (s, _) => s | Panic => s end.
Definition after_hello : Session := served (d_session dialed_once) hello "hi".
Definition after_close : Session := served after_hello (newErrorMessage 3 7 EOF) "EOF".
Definition closed_dial : dial := mkDial after_close (mkSocket [] None "" false) ReadTunnel ReadSocket "hi" "" false "" "".
Definition closed_connection : connection := mkConnection "tcp" "db:5432" 7 (Some EOF) ["hi"] true "" None.
Definition last_actions : list action :=
  [TheCopier; TheCopier; TheCopier; TheCopier; TheCopier; TheCaller; TheCaller; TheCaller; TheCaller; TheCaller; TheCaller; TheCaller].
Definition ended_dial : dial := match foldM (act 0) last_actions closed_dial with Ret d => d | Panic => closed_dial end.
Lemma acts_run p l : ∀ k d0 d d', run (λ b, [b]) p k d0 d → Forall (λ a, a = TheCopier ∨ a = TheCaller) l → foldM (act p) l d = Ret d' →
  run (λ b, [b]) p (length l + k) d0 d'.
Proof.
  induction l as [|a l IH]; intros k d0 d d' Hr Hl Hf; simpl in *; [congruence|].
  apply Forall_cons in Hl as [Ha Hl]. destruct (act p d a) as [d1|] eqn:Hd; [|done]. simpl in Hf.
  replace (S (length l + k)) with (length l + S k)%nat by lia. apply (IH (S k) d0 d1 d'); [|done|done].
  eapply run_own; [exact Hr|]. destruct Ha as [->| ->]; unfold act in Hd.
  - destruct (copier_step p None d) as [r|] eqn:Hs; [|done]. simpl in Hd. subst r. by eapply own_copier.
  - destruct (caller_step p None 0 d) as [r|] eqn:Hs; [|done]. simpl in Hd. subst r. by eapply own_caller.
Qed.
Lemma dial_ends_witness :
  (12 ≤ effort closed_dial closed_connection)%nat ∧ d_caller ended_dial = Finished ∧ d_got ended_dial = sk_sent (d_socket ended_dial).
Proof.
  assert (starts 0 asked) as Hst.
  { apply (clientConnect_starts (NewClientSession (Some (λ _ _, true)) 0)); [by apply fresh_ok; constructor|done]. }
  assert (run (λ b, [b]) 0 1 (dial_start asked) closed_dial) as Hr.
  { eapply (run_env _ _ _ _ (mkDial after_hello (mkSocket [] None "" false) ReadTunnel ReadSocket "hi" "" false "" "")).
    - eapply (run_env _ _ _ _ dialed_once).
      + eapply run_own; [apply run_refl|]. eapply (own_caller _ None 0). by vm_compute.
      + eapply (env_session _ _ (EvFrame (header_bytes hello +:+ "hi")) after_hello _ _ "hi" dialed_once); by vm_compute.
    - eapply (env_session _ _ (EvFrame (header_bytes (newErrorMessage 3 7 EOF) +:+ "EOF")) after_close _ _ ""); by vm_compute. }
  destruct (dial_ends (λ b, [b]) 0 asked 1 closed_dial 12 ended_dial closed_connection) as (Hm & _ & Hf).
  - exact Hst.
  - exact Hr.
  - by vm_compute.
  - done.
  - apply (acts_run 0 last_actions 0 closed_dial closed_dial); [apply run_refl|repeat (apply Forall_cons; split; [by (left + right)|]); done|by vm_compute].
  - assert (d_caller ended_dial = Finished) as Hfin by (by vm_compute). split; [exact Hm|]. split; [exact Hfin|].
    destruct (Hf Hfin) as [_ Hall]. apply Hall; by vm_compute.
Defined.
