(* ===== verification/Manager.v ===== *)
(** * Session manager and tunnel server

    Models pkg/remotedialer/session_manager.go, dialer.go, and the state and
    decisions of server.go and peer.go: the sessions of the clients and peers
    connected to a server, the listeners told about them, the choice of the
    session a dial goes through, and peer authentication.

    Sessions are shared objects (the manager's maps, the listeners and the
    goroutine serving the websocket point to them), so they live in a store
    indexed by pointers.  The order in which Go ranges over a map is an argument
    of the operations that depend on it. *)

From S2P Require Import Prelude GoStrings Values Errors Message Tunnel.
From Stdlib Require Import Ascii.

Record sessionManager := mkManager {
  sessions : gmap ptr Session;
  next_session : ptr;
  clients : gmap string (list ptr);
  peers : gmap string (list ptr);
  listeners : gset ptr
}.

Definition newSessionManager : sessionManager := mkManager ∅ 0 ∅ ∅ ∅.

Definition with_sessions (sm : sessionManager) (h : gmap ptr Session) : sessionManager :=
  mkManager h (next_session sm) (clients sm) (peers sm) (listeners sm).

(** Call sessionAdded or sessionRemoved on the listener at [l]. *)
Definition notify (f : Session → string → Z → go Session) (sm : sessionManager) (l : ptr) (k : string) (n : Z)
  : go sessionManager :=
  match sessions sm !! l with
  | None => Panic
  | Some s => s' ← f s k n; Ret (with_sessions sm (<[l := s']> (sessions sm)))
  end.

Definition removeListener (sm : sessionManager) (l : ptr) : sessionManager :=
  mkManager (sessions sm) (next_session sm) (clients sm) (peers sm) (listeners sm ∖ {[l]}).

(** The sessions in the order of a range over [clients], then over [peers]. *)
Definition ranged (entries : list (string * list ptr)) : list (string * ptr) :=
  entries ≫= λ e, (e.1,.) <$> e.2.

Definition addListener (sm : sessionManager) (l : ptr) (corder porder : list (string * list ptr))
  : go sessionManager :=
  let sm1 := mkManager (sessions sm) (next_session sm) (clients sm) (peers sm) ({[l]} ∪ listeners sm) in
  foldM (λ sm (e : string * ptr),
           match sessions sm !! e.2 with
           | None => Panic
           | Some s => notify sessionAdded sm l e.1 (sessionKey s)
           end) (ranged corder ++ ranged porder) sm1.

(** A Dialer closes over the session, the prefix and the deadline. *)
Record Dialer := mkDialer { d_session : ptr; d_prefix : string; d_deadline : Z }.

Definition toDialer (s : ptr) (prefix : string) (dl : Z) : Dialer := mkDialer s prefix dl.

(** The protocol a dialer asks its session to connect with. *)
Definition dial_proto (prefix proto : string) : string :=
  if decide (prefix = "") then proto else prefix +:+ "::" +:+ proto.

Definition dial (sm : sessionManager) (d : Dialer) (proto address : string) : go (sessionManager * result ptr) :=
  match sessions sm !! d_session d with
  | None => Panic
  | Some s =>
      '(s', r) ← serverConnect s (d_deadline d) (dial_proto (d_prefix d) proto) address;
      Ret (with_sessions sm (<[d_session d := s']> (sessions sm)), r)
  end.

(** Does the peer session at [p] know the client [k]? *)
Definition knows (sm : sessionManager) (k : string) (p : ptr) : bool :=
  match sessions sm !! p with
  | Some s => bool_decide (default ∅ (remoteClientKeys s ≫= (.!! k)) ≠ ∅)
  | None => false
  end.

Definition no_session_err (k : string) : error := ErrorString ("failed to find Session for client " +:+ k).

Definition getDialer (sm : sessionManager) (k : string) (dl : Z) (porder : list (string * list ptr))
  : result Dialer :=
  match default [] (clients sm !! k) with
  | p :: _ => inl (toDialer p "" dl)
  | [] =>
      match list_find (λ e : string * ptr, knows sm k e.2 = true) (ranged porder) with
      | Some (_, (_, p)) => inl (toDialer p k dl)
      | None => inr (no_session_err k)
      end
  end.

(** add: [rnd] is rand.Int63(), [ids] the message counter, [lorder] the order of
    the range over the listeners. *)
Definition add (sm : sessionManager) (k : string) (peer : bool) (rnd ids : Z) (lorder : list ptr)
  : go (sessionManager * ptr) :=
  let p := next_session sm in
  let h := <[p := newSession rnd k ids]> (sessions sm) in
  let sm1 :=
    if peer
    then mkManager h (S p) (clients sm) (<[k := default [] (peers sm !! k) ++ [p]]> (peers sm)) (listeners sm)
    else mkManager h (S p) (<[k := default [] (clients sm !! k) ++ [p]]> (clients sm)) (peers sm) (listeners sm) in
  sm2 ← foldM (λ sm l, notify sessionAdded sm l k rnd) lorder sm1;
  Ret (sm2, p).

(** One store of [remove]: the sessions of that client with another key stay. *)
Definition drop_session (h : gmap ptr Session) (store : gmap string (list ptr)) (k : string) (key : Z)
  : gmap string (list ptr) :=
  let newSessions :=
    filter (λ p, sessionKey <$> h !! p ≠ Some key)
           (default [] (store !! k)) in
  match newSessions with
  | [] => delete k store
  | _ => <[k := newSessions]> store
  end.

Definition remove (sm : sessionManager) (p : ptr) (lorder corder : list ptr) : go sessionManager :=
  match sessions sm !! p with
  | None => Panic
  | Some s =>
      let sm1 := mkManager (sessions sm) (next_session sm)
                   (drop_session (sessions sm) (clients sm) (clientKey s) (sessionKey s))
                   (drop_session (sessions sm) (peers sm) (clientKey s) (sessionKey s))
                   (listeners sm) in
      sm2 ← foldM (λ sm l, notify sessionRemoved sm l (clientKey s) (sessionKey s)) lorder sm1;
      match sessions sm2 !! p with
      | None => Panic
      | Some s2 => s3 ← Close s2 corder; Ret (with_sessions sm2 (<[p := s3]> (sessions sm2)))
      end
  end.

(** dialer.go *)
Definition HasSession (sm : sessionManager) (k : string) (porder : list (string * list ptr)) : bool :=
  match getDialer sm k 0 porder with inl _ => true | inr _ => false end.

Definition Dial (sm : sessionManager) (k : string) (dl : Z) (proto address : string)
  (porder : list (string * list ptr)) : go (sessionManager * result ptr) :=
  match getDialer sm k dl porder with
  | inr e => Ret (sm, inr e)
  | inl d => dial sm d proto address
  end.

(** ** peer.go and server.go *)
Record peer := mkPeer { peer_url : string; peer_id : string; peer_token : string }.
#[export] Instance peer_eq_dec : EqDecision peer.
Proof. solve_decision. Defined.

Definition peer_equals (p q : peer) : bool :=
  bool_decide (peer_url p = peer_url q) && bool_decide (peer_id p = peer_id q)
  && bool_decide (peer_token p = peer_token q).

(** The server's peers; [started] and [cancelled] count the goroutines of
    [peer.start] that were launched and whose context was cancelled. *)
Record Server := mkServer {
  PeerID : string; PeerToken : string;
  s_peers : gmap string peer;
  started : list peer; cancelled : list peer
}.

Definition AddPeer (sv : Server) (url id token : string) : Server :=
  if decide (PeerID sv = "" ∨ PeerToken sv = "") then sv
  else
    let p := mkPeer url id token in
    match s_peers sv !! id with
    | Some q =>
        if peer_equals q p then sv
        else mkServer (PeerID sv) (PeerToken sv) (<[id := p]> (s_peers sv))
               (started sv ++ [p]) (cancelled sv ++ [q])
    | None => mkServer (PeerID sv) (PeerToken sv) (<[id := p]> (s_peers sv))
                (started sv ++ [p]) (cancelled sv)
    end.

Definition RemovePeer (sv : Server) (id : string) : Server :=
  mkServer (PeerID sv) (PeerToken sv) (delete id (s_peers sv)) (started sv)
    (match s_peers sv !! id with Some q => cancelled sv ++ [q] | None => cancelled sv end).

(** Server.auth: [id] and [token] are the request's tunnel headers, [authorizer]
    what the configured Authorizer answers for the request. *)
Definition Server_auth (sv : Server) (id token : string) (authorizer : string * bool * option error)
  : string * bool * bool * option error :=
  let fallback := let '(k, authed, err) := authorizer in (k, authed, false, err) in
  if decide (id ≠ "" ∧ token ≠ "") then
    match s_peers sv !! id with
    | Some p => if decide (peer_token p = token) then (id, true, true, None) else fallback
    | None => fallback
    end
  else fallback.

(** peer.start: the dialer of a peer's session takes the protocol apart again. *)
Definition peer_route (network : string) : result (string * string) :=
  match Split2 network "::" with
  | [k; p] => inl (k, p)
  | _ => inr (ErrorString ("invalid clientKey/proto: " +:+ network))
  end.

(** ** Invariant *)

(** [s'] is the session [s] with more frames written: same identity, same
    connections, same knowledge of remote clients. *)
Definition ident (s s' : Session) : Prop :=
  clientKey s' = clientKey s ∧ sessionKey s' = sessionKey s
  ∧ remoteClientKeys s' = remoteClientKeys s ∧ conns s' = conns s ∧ (session_ok s → session_ok s').

#[export] Instance ident_preorder : PreOrder ident.
Proof.
  split; [intros s; by split_and!|].
  intros x y z (?&?&?&?&?) (?&?&?&?&?). split_and!; try congruence; auto.
Qed.

Definition store_ok (sm : sessionManager) (store : gmap string (list ptr)) : Prop :=
  ∀ k l, store !! k = Some l → l ≠ [] ∧
    ∀ p, p ∈ l → ∃ s, sessions sm !! p = Some s ∧ clientKey s = k.

Record manager_ok (sm : sessionManager) : Prop := mkManagerOk {
  mok_sessions : ∀ p s, sessions sm !! p = Some s → session_ok s ∧ (p < next_session sm)%nat;
  mok_clients : store_ok sm (clients sm);
  mok_peers : store_ok sm (peers sm);
  mok_listeners : ∀ l, l ∈ listeners sm → is_Some (sessions sm !! l)
}.

(** [sm'] differs from [sm] only in frames written by its sessions. *)
Definition same_registry (sm sm' : sessionManager) : Prop :=
  clients sm' = clients sm ∧ peers sm' = peers sm ∧ listeners sm' = listeners sm
  ∧ next_session sm' = next_session sm
  ∧ ∀ p, option_Forall2 ident (sessions sm !! p) (sessions sm' !! p).

#[export] Instance same_registry_preorder : PreOrder same_registry.
Proof.
  split; [intros sm; split_and!; try done; intros p; by destruct (sessions sm !! p); constructor|].
  intros x y z (?&?&?&?&Hxy) (?&?&?&?&Hyz). split_and!; try congruence.
  intros p. specialize (Hxy p). specialize (Hyz p).
  destruct Hxy as [s s' Hi|]; inv Hyz; constructor. by etransitivity.
Qed.

Lemma same_registry_ok sm sm' : same_registry sm sm' → manager_ok sm → manager_ok sm'.
Proof.
  intros (Hc & Hp & Hl & Hn & Hs) [H1 H2 H3 H4].
  assert (∀ p s, sessions sm !! p = Some s → ∃ s', sessions sm' !! p = Some s' ∧ ident s s') as Hfw.
  { intros p s Hps. specialize (Hs p). rewrite Hps in Hs. inv Hs. eauto. }
  split.
  - intros p s' Hps. specialize (Hs p). rewrite Hps in Hs. inv Hs.
    symmetry in H. destruct (H1 _ _ H) as [Hok Hlt]. rewrite Hn. split; [|done].
    destruct H5 as (_ & _ & _ & _ & Hkeep). auto.
  - rewrite Hc. intros k l Hk. destruct (H2 k l Hk) as [Hne Hall]. split; [done|].
    intros p Hpl. destruct (Hall p Hpl) as (s & Hps & Hck).
    destruct (Hfw _ _ Hps) as (s' & Hs' & Hi). exists s'. split; [done|].
    destruct Hi as (-> & _). done.
  - rewrite Hp. intros k l Hk. destruct (H3 k l Hk) as [Hne Hall]. split; [done|].
    intros p Hpl. destruct (Hall p Hpl) as (s & Hps & Hck).
    destruct (Hfw _ _ Hps) as (s' & Hs' & Hi). exists s'. split; [done|].
    destruct Hi as (-> & _). done.
  - rewrite Hl. intros l Hll. destruct (H4 l Hll) as [s Hps].
    destruct (Hfw _ _ Hps) as (s' & Hs' & _). by eexists.
Qed.

(** Writing an announcement never panics and keeps the session's identity. *)
Lemma announce_ok (f : Session → string → Z → go Session) s k n :
  f = sessionAdded ∨ f = sessionRemoved → ∃ s', f s k n = Ret s' ∧ ident s s'.
Proof.
  intros Hf.
  assert (∀ mk : Z → message,
    (mk = (λ nid, newAddClient nid (client_name k n)) ∨ mk = (λ nid, newRemoveClient nid (client_name k n))) →
    ∃ s1, writeMessage s mk = Ret (s1, ws_err s) ∧ ident s s1) as Hw.
  { intros mk Hmk. destruct (writeMessage_ok s mk) as (s1 & Hw & Hsame).
    { apply Bytes_fits_small; destruct Hmk as [-> | ->]; simpl;
        try apply nextid_range; try done; unfold AddClient, RemoveClient; lia. }
    exists s1. split; [done|].
    assert (clientKey s1 = clientKey s ∧ sessionKey s1 = sessionKey s) as [? ?].
    { revert Hw. unfold writeMessage. destruct (Bytes _); simpl; [|done]. by intros [= <-]. }
    pose proof Hsame as (HC & _ & _ & HR & _). split_and!; try done. intros Hok. by apply same_conns_ok with s. }
  destruct Hf as [-> | ->]; unfold sessionAdded, sessionRemoved;
    [destruct (Hw (λ nid, newAddClient nid (client_name k n))) as (s1 & -> & Hi); [by left|]
    |destruct (Hw (λ nid, newRemoveClient nid (client_name k n))) as (s1 & -> & Hi); [by right|]];
    simpl; eexists; (split; [done|]); destruct (ws_err s); try done;
    destruct Hi as (?&?&?&?&Hok); split_and!; try done; intros Hs; destruct (Hok Hs); by split.
Qed.

Lemma notify_ok f sm l k n :
  f = sessionAdded ∨ f = sessionRemoved → is_Some (sessions sm !! l) →
  ∃ sm', notify f sm l k n = Ret sm' ∧ same_registry sm sm'.
Proof.
  intros Hf [s Hs]. unfold notify. rewrite Hs.
  destruct (announce_ok f s k n Hf) as (s' & -> & Hi). eexists. split; [done|].
  split_and!; try done. intros p. simpl. rewrite lookup_insert. case_decide as Hp; [subst|].
  - rewrite Hs. by constructor.
  - by destruct (sessions sm !! p); constructor.
Qed.

Lemma same_registry_is_Some sm sm' p :
  same_registry sm sm' → is_Some (sessions sm !! p) → is_Some (sessions sm' !! p).
Proof. intros (_&_&_&_&Hs) [s Hp]. specialize (Hs p). rewrite Hp in Hs. inv Hs. by eexists. Qed.

(** A loop over listeners (or over the known sessions) only writes frames. *)
Lemma notify_loop {A} (body : sessionManager → A → go sessionManager) (l : list A) sm0 sm :
  same_registry sm0 sm →
  (∀ sm1 a, a ∈ l → same_registry sm0 sm1 → ∃ sm2, body sm1 a = Ret sm2 ∧ same_registry sm1 sm2) →
  ∃ sm', foldM body l sm = Ret sm' ∧ same_registry sm sm'.
Proof.
  revert sm. induction l as [|a l IH]; intros sm H0 Hbody; simpl; [by exists sm|].
  destruct (Hbody sm a) as (sm1 & -> & H1); [by left|done|]. simpl.
  destruct (IH sm1) as (sm2 & -> & H2).
  - by etransitivity.
  - intros sm2 b Hb. apply Hbody. by right.
  - exists sm2. split; [done|]. by etransitivity.
Qed.

Lemma elem_of_ranged entries k p :
  (k, p) ∈ ranged entries ↔ ∃ l, (k, l) ∈ entries ∧ p ∈ l.
Proof.
  unfold ranged. rewrite list_elem_of_bind. split.
  - intros ([k' l] & (q & [= <- <-] & Hq)%list_elem_of_fmap & He). eauto.
  - intros (l & He & Hp). exists (k, l). split; [|done]. apply list_elem_of_fmap. eauto.
Qed.

Lemma ranged_peers (store : gmap string (list ptr)) porder k p :
  porder ≡ₚ map_to_list store →
  (k, p) ∈ ranged porder ↔ ∃ l, store !! k = Some l ∧ p ∈ l.
Proof.
  intros Hperm. rewrite elem_of_ranged. setoid_rewrite Hperm.
  by setoid_rewrite elem_of_map_to_list.
Qed.

(** The manager finds a session for a client exactly when there is one.
    Whatever the order in which peers are ranged over, a dialer goes either
    through the first session the client itself registered, or, when it has
    none, with the client's key as prefix through a connected peer that
    announced a session of that client; and the lookup fails only if the client
    has no session here and no connected peer knows it. *)
Theorem get_dialer_correct (sm : sessionManager) (k : string) (dl : Z) (porder : list (string * list ptr)) :
  manager_ok sm → porder ≡ₚ map_to_list (peers sm) →
  match getDialer sm k dl porder with
  | inl d => d_deadline d = dl ∧
      ((d_prefix d = "" ∧ ∃ rest s, clients sm !! k = Some (d_session d :: rest)
          ∧ sessions sm !! d_session d = Some s ∧ clientKey s = k)
       ∨ (d_prefix d = k ∧ clients sm !! k = None ∧
          ∃ pk l, peers sm !! pk = Some l ∧ d_session d ∈ l ∧ knows sm k (d_session d) = true))
  | inr e => e = no_session_err k ∧ clients sm !! k = None ∧
      ∀ pk l p, peers sm !! pk = Some l → p ∈ l → knows sm k p = false
  end.
Proof.
  intros Hok Hperm. unfold getDialer.
  destruct (clients sm !! k) as [l|] eqn:Hk.
  - destruct (mok_clients sm Hok k l Hk) as [Hne Hall]. destruct l as [|p rest]; [done|]. simpl.
    split; [done|]. left. split; [done|]. destruct (Hall p) as (s & ? & ?); [by left|]. eauto 6.
  - simpl. destruct (list_find _ (ranged porder)) as [[i [pk p]]|] eqn:Hf.
    + apply list_find_Some in Hf as (Hin & Hkn & _). simpl. split; [done|]. right. split; [done|].
      split; [done|]. apply list_elem_of_lookup_2 in Hin.
      apply (ranged_peers _ _ _ _ Hperm) in Hin as (l & ? & ?). eauto.
    + split; [done|]. split; [done|]. intros pk l p Hpk Hp.
      apply list_find_None in Hf. rewrite Forall_forall in Hf.
      specialize (Hf (pk, p)). simpl in Hf. apply not_true_is_false, Hf.
      apply (ranged_peers _ _ _ _ Hperm). eauto.
Qed.

(** ** Registering and removing sessions *)
Lemma store_ok_insert sm h k l store :
  store_ok sm store → (∀ p s, sessions sm !! p = Some s → h !! p = Some s) →
  l ≠ [] → (∀ p, p ∈ l → ∃ s, h !! p = Some s ∧ clientKey s = k) →
  ∀ n c pe li, store_ok (mkManager h n c pe li) (<[k := l]> store).
Proof.
  intros Hst Hh Hne Hl n c pe li k' l'. rewrite lookup_insert. case_decide.
  - intros [= <-]. subst. split; [done|]. apply Hl.
  - intros Hk'. destruct (Hst _ _ Hk') as [? Hall]. split; [done|].
    intros p Hp. destruct (Hall p Hp) as (s & Hs & Hck). exists s. split; [|done]. by apply Hh.
Qed.

Lemma store_ok_mono sm h store :
  store_ok sm store → (∀ p s, sessions sm !! p = Some s → h !! p = Some s) →
  ∀ n c pe li, store_ok (mkManager h n c pe li) store.
Proof.
  intros Hst Hh n c pe li k l Hk. destruct (Hst _ _ Hk) as [? Hall]. split; [done|].
  intros p Hp. destruct (Hall p Hp) as (s & Hs & Hck). exists s. split; [|done]. by apply Hh.
Qed.

Lemma default_store_ok sm store k p :
  store_ok sm store → p ∈ default [] (store !! k) → ∃ s, sessions sm !! p = Some s ∧ clientKey s = k.
Proof.
  intros Hst. destruct (store !! k) as [l|] eqn:E; simpl; [|by intros ?%not_elem_of_nil].
  destruct (Hst _ _ E) as [_ Hall]. apply Hall.
Qed.

Lemma add_ok sm k peer rnd ids lorder :
  manager_ok sm → in_int64 ids = true → lorder ≡ₚ elements (listeners sm) →
  ∃ sm', add sm k peer rnd ids lorder = Ret (sm', next_session sm) ∧ manager_ok sm'
    ∧ (if peer then clients sm' = clients sm ∧ peers sm' = <[k := default [] (peers sm !! k) ++ [next_session sm]]> (peers sm)
       else peers sm' = peers sm ∧ clients sm' = <[k := default [] (clients sm !! k) ++ [next_session sm]]> (clients sm)).
Proof.
  intros Hok Hids Hl. unfold add.
  set (h := <[next_session sm := newSession rnd k ids]> (sessions sm)).
  set (sm1 := if peer then _ else _).
  pose proof Hok as [H1 H2 H3 H4].
  assert (sessions sm !! next_session sm = None) as Hfresh.
  { destruct (sessions sm !! next_session sm) eqn:E; [|done]. apply H1 in E as [_ ?]. lia. }
  assert (∀ p s, sessions sm !! p = Some s → h !! p = Some s) as Hh.
  { intros p s Hp. unfold h. rewrite lookup_insert_ne; [done|]. congruence. }
  assert (∀ store, store_ok sm store → ∀ p, p ∈ default [] (store !! k) ++ [next_session sm] →
            ∃ s, h !! p = Some s ∧ clientKey s = k) as Hnew.
  { intros store Hst p [Hp|Hp%list_elem_of_singleton]%elem_of_app.
    - destruct (default_store_ok _ _ _ _ Hst Hp) as (s & Hs & ?). eauto.
    - subst p. unfold h. rewrite lookup_insert_eq. eauto. }
  assert (manager_ok sm1) as Hok1.
  { assert (∀ p s, h !! p = Some s → session_ok s ∧ (p < S (next_session sm))%nat) as Hs.
    { intros p s. unfold h. rewrite lookup_insert. case_decide.
      - intros [= <-]. split; [apply fresh_ok; by constructor|lia].
      - intros Hp. destruct (H1 _ _ Hp). split; [done|lia]. }
    assert (∀ l, l ∈ listeners sm → is_Some (h !! l)) as Hli.
    { intros l [s Hls]%H4. exists s. by apply Hh. }
    destruct peer; unfold sm1; split; simpl; try done.
    - by apply (store_ok_mono sm).
    - apply (store_ok_insert sm); try done; [by destruct (default [] _)|by apply Hnew].
    - apply (store_ok_insert sm); try done; [by destruct (default [] _)|by apply Hnew].
    - by apply (store_ok_mono sm). }
  destruct (notify_loop (λ sm l, notify sessionAdded sm l k rnd) lorder sm1 sm1) as (sm2 & Hf & Hreg).
  { done. }
  { intros sm' l Hin Hreg'. apply notify_ok; [by left|]. eapply same_registry_is_Some; [done|].
    apply (mok_listeners _ Hok1). rewrite Hl in Hin. apply elem_of_elements in Hin.
    by unfold sm1; destruct peer. }
  rewrite Hf. exists sm2. split; [done|]. split; [by eapply same_registry_ok|].
  destruct Hreg as (HC & HP & _). rewrite HC, HP. unfold sm1. by destruct peer.
Qed.

Lemma drop_session_ok sm store k key :
  store_ok sm store → store_ok sm (drop_session (sessions sm) store k key)
  ∧ (∀ k', k' ≠ k → drop_session (sessions sm) store k key !! k' = store !! k')
  ∧ ∀ p, p ∈ default [] (drop_session (sessions sm) store k key !! k) ↔
         p ∈ default [] (store !! k) ∧ sessionKey <$> sessions sm !! p ≠ Some key.
Proof.
  intros Hst. unfold drop_session.
  destruct (filter _ (default [] (store !! k))) as [|q l] eqn:Hfl.
  - split; [|split].
    + intros k' l'. rewrite lookup_delete. case_decide; [done|apply Hst].
    + intros k' Hne. by rewrite lookup_delete_ne.
    + intros p. rewrite lookup_delete_eq. simpl. split; [by intros ?%not_elem_of_nil|].
      intros [Hp Hk]. assert (p ∈ @nil ptr) as ?%not_elem_of_nil; [|done].
      rewrite <- Hfl. by apply list_elem_of_filter.
  - assert (∀ p, p ∈ q :: l ↔ p ∈ default [] (store !! k) ∧ sessionKey <$> sessions sm !! p ≠ Some key) as Hin.
    { intros p. rewrite <- Hfl, list_elem_of_filter. tauto. }
    split; [|split].
    + intros k' l'. rewrite lookup_insert. case_decide as Hk.
      * intros [= <-]. split; [done|]. intros p [Hp _]%Hin. subst k'.
        by eapply default_store_ok.
      * apply Hst.
    + intros k' Hne. by rewrite lookup_insert_ne.
    + intros p. rewrite lookup_insert_eq. simpl. apply Hin.
Qed.

Lemma Close_ok s order :
  session_ok s → order ≡ₚ (map_to_list (conns s)).*2 → ∃ s', Close s order = Ret s' ∧ session_ok s' ∧ conns s' = ∅.
Proof.
  intros Hs Hord. destruct (run_event_ok (λ b, [b]) s (EvClose order) Hs Hord) as (s' & Hr & Hok).
  exists s'. simpl in Hr. split; [done|]. split; [done|].
  unfold Close in Hr. destruct (foldM _ _ _); [|done]. by inv Hr.
Qed.

Lemma tunnelClose_key s p e s' : tunnelClose s p e = Ret s' → session_id s' = session_id s.
Proof.
  unfold tunnelClose. destruct (heap s !! p) as [c|]; [|done]. unfold writeErr, writeMessage.
  destruct e as [e|]; [destruct (Bytes _); simpl; [|done]|simpl];
    destruct (doTunnelClose c _); simpl; [|done| |done]; by intros [= <-].
Qed.

Lemma Close_key s order s' : Close s order = Ret s' → session_id s' = session_id s.
Proof.
  unfold Close. destruct (foldM _ order s) as [s1|] eqn:E; [|done]. intros [= <-]. simpl.
  revert s E. induction order as [|p order IH]; intros s; simpl; [by intros [= <-]|].
  destruct (tunnelClose s p _) as [s2|] eqn:Et; [|done]. simpl. intros H.
  rewrite (IH _ H). by eapply tunnelClose_key.
Qed.

Lemma remove_ok sm p s lorder corder :
  manager_ok sm → sessions sm !! p = Some s → lorder ≡ₚ elements (listeners sm) →
  corder ≡ₚ (map_to_list (conns s)).*2 →
  ∃ sm', remove sm p lorder corder = Ret sm' ∧ manager_ok sm'
    ∧ clients sm' = drop_session (sessions sm) (clients sm) (clientKey s) (sessionKey s)
    ∧ peers sm' = drop_session (sessions sm) (peers sm) (clientKey s) (sessionKey s)
    ∧ ∃ s', sessions sm' !! p = Some s' ∧ conns s' = ∅.
Proof.
  intros Hok Hp Hl Hc. unfold remove. rewrite Hp.
  set (sm1 := mkManager _ _ _ _ _).
  assert (manager_ok sm1) as Hok1.
  { destruct Hok as [H1 H2 H3 H4]. split; try done; simpl.
    - by destruct (drop_session_ok sm (clients sm) (clientKey s) (sessionKey s) H2).
    - by destruct (drop_session_ok sm (peers sm) (clientKey s) (sessionKey s) H3). }
  destruct (notify_loop (λ sm l, notify sessionRemoved sm l (clientKey s) (sessionKey s)) lorder sm1 sm1)
    as (sm2 & -> & Hreg); [done| |].
  { intros sm' l Hin Hreg'. apply notify_ok; [by right|]. eapply same_registry_is_Some; [done|].
    apply (mok_listeners _ Hok1). rewrite Hl in Hin. by apply elem_of_elements in Hin. }
  simpl. pose proof (same_registry_ok _ _ Hreg Hok1) as Hok2.
  pose proof Hreg as (HC & HP & HL & HN & HS).
  assert (∃ s2, sessions sm2 !! p = Some s2 ∧ ident s s2) as (s2 & Hs2p & Hck & Hsk & Hrk & Hcn & _)
    by (specialize (HS p); simpl in HS; rewrite Hp in HS; inv HS; eauto).
  rewrite Hs2p. destruct (mok_sessions _ Hok2 _ _ Hs2p) as [Hs2 Hlt].
  destruct (Close_ok s2 corder Hs2) as (s3 & Hcl & Hs3 & Hemp); [by rewrite Hcn|].
  rewrite Hcl. eexists. split; [done|].
  split; [|by simpl; rewrite lookup_insert_eq; eauto].
  apply Close_key in Hcl. injection Hcl as Hcl _.
  assert (∀ store, store_ok sm2 store → ∀ n c pe li,
    store_ok (mkManager (<[p := s3]> (sessions sm2)) n c pe li) store) as Hst.
  { intros store Hst n c pe li k l Hk. destruct (Hst k l Hk) as [? Hall]. split; [done|].
    intros q Hq. destruct (Hall q Hq) as (sq & Hsq & Hkq). simpl. rewrite lookup_insert.
    case_decide; simplify_eq; eauto. }
  destruct Hok2 as [K1 K2 K3 K4]. split; simpl.
  - intros q sq. rewrite lookup_insert. case_decide; [intros [= <-]; by subst|apply K1].
  - by apply Hst.
  - by apply Hst.
  - intros l Hll. rewrite lookup_insert. case_decide; [by eexists|auto].
Qed.

(** Registering a session keeps the manager consistent (every listed
    pointer is a live session of the client it is listed under, no client is
    listed with no session), touches no other client, tells every listener
    without a panic, and from then on a dial to that client finds a session
    whatever the order peers are searched in. *)
Theorem add_session_correct (sm : sessionManager) (k : string) (peer : bool) (rnd ids : Z) (lorder : list ptr) :
  manager_ok sm → in_int64 ids = true → lorder ≡ₚ elements (listeners sm) →
  ∃ sm' p, add sm k peer rnd ids lorder = Ret (sm', p) ∧ manager_ok sm'
    ∧ (∀ k', k' ≠ k → clients sm' !! k' = clients sm !! k' ∧ peers sm' !! k' = peers sm !! k')
    ∧ p ∈ default [] ((if peer then peers sm' else clients sm') !! k)
    ∧ (peer = false → ∀ porder, HasSession sm' k porder = true).
Proof.
  intros Hok Hids Hl. destruct (add_ok sm k peer rnd ids lorder Hok Hids Hl) as (sm' & Ha & Hok' & Hreg).
  exists sm', (next_session sm). split; [done|]. split; [done|].
  destruct peer; destruct Hreg as [Hx Hy]; rewrite Hx, Hy; (split_and!;
    [intros k' Hne; by rewrite lookup_insert_ne
    |rewrite lookup_insert_eq; simpl; apply elem_of_app; right; by left|]); [done|].
  intros _ porder. unfold HasSession, getDialer. rewrite Hy, lookup_insert_eq. simpl.
  by destruct (default [] (clients sm !! k)).
Qed.

Lemma add_session_correct_witness :
  ∃ sm' p, add newSessionManager "c1" false 99 0 [] = Ret (sm', p) ∧ manager_ok sm'
    ∧ (∀ k', k' ≠ "c1" → clients sm' !! k' = clients newSessionManager !! k' ∧ peers sm' !! k' = peers newSessionManager !! k')
    ∧ p ∈ default [] ((if false then peers sm' else clients sm') !! "c1")
    ∧ (false = false → ∀ porder, HasSession sm' "c1" porder = true).
Proof.
  apply (add_session_correct newSessionManager "c1" false 99 0 []); [|done|done].
  by split.
Defined.

Definition demo_manager : sessionManager :=
  match add newSessionManager "c1" false 99 0 [] with Ret (sm, _) => sm | Panic => newSessionManager end.

Lemma demo_manager_ok : manager_ok demo_manager.
Proof.
  destruct (add_ok newSessionManager "c1" false 99 0 []) as (sm' & Ha & Hok & _); [|done|done|].
  - by split.
  - unfold demo_manager. by rewrite Ha.
Qed.

Lemma get_dialer_correct_witness :
  match getDialer demo_manager "c1" 5 [] with
  | inl d => d_deadline d = 5 ∧
      ((d_prefix d = "" ∧ ∃ rest s, clients demo_manager !! "c1" = Some (d_session d :: rest)
          ∧ sessions demo_manager !! d_session d = Some s ∧ clientKey s = "c1")
       ∨ (d_prefix d = "c1" ∧ clients demo_manager !! "c1" = None ∧
          ∃ pk l, peers demo_manager !! pk = Some l ∧ d_session d ∈ l ∧ knows demo_manager "c1" (d_session d) = true))
  | inr e => e = no_session_err "c1" ∧ clients demo_manager !! "c1" = None ∧
      ∀ pk l p, peers demo_manager !! pk = Some l → p ∈ l → knows demo_manager "c1" p = false
  end.
Proof. apply (get_dialer_correct demo_manager "c1" 5 []); [apply demo_manager_ok|done]. Defined.

(** Removing a session takes it out of the clients and the peers, leaves
    every other client as it was, keeps the manager consistent, tells the
    listeners, and closes all the connections that ran over it; nothing of this
    panics. *)
Theorem remove_session_correct (sm : sessionManager) (p : ptr) (s : Session) (lorder corder : list ptr) :
  manager_ok sm → sessions sm !! p = Some s → lorder ≡ₚ elements (listeners sm) →
  corder ≡ₚ (map_to_list (conns s)).*2 →
  ∃ sm', remove sm p lorder corder = Ret sm' ∧ manager_ok sm'
    ∧ p ∉ default [] (clients sm' !! clientKey s) ∧ p ∉ default [] (peers sm' !! clientKey s)
    ∧ (∀ k, k ≠ clientKey s → clients sm' !! k = clients sm !! k ∧ peers sm' !! k = peers sm !! k)
    ∧ ∃ s', sessions sm' !! p = Some s' ∧ conns s' = ∅.
Proof.
  intros Hok Hp Hl Hc. destruct (remove_ok sm p s lorder corder Hok Hp Hl Hc) as (sm' & Hr & Hok' & HC & HP & Hs').
  exists sm'. split; [done|]. split; [done|]. rewrite HC, HP.
  destruct Hok as [_ Hcl Hpe _].
  destruct (drop_session_ok sm _ (clientKey s) (sessionKey s) Hcl) as (_ & Hc1 & Hc2).
  destruct (drop_session_ok sm _ (clientKey s) (sessionKey s) Hpe) as (_ & Hp1 & Hp2).
  split_and!; [| |by auto|done].
  - rewrite Hc2. intros [_ Hk]. by rewrite Hp in Hk.
  - rewrite Hp2. intros [_ Hk]. by rewrite Hp in Hk.
Qed.

Lemma remove_session_correct_witness :
  let s := default (newSession 0 "" 0) (sessions demo_manager !! 0%nat) in
  ∃ sm', remove demo_manager 0 [] [] = Ret sm' ∧ manager_ok sm'
    ∧ 0%nat ∉ default [] (clients sm' !! clientKey s) ∧ 0%nat ∉ default [] (peers sm' !! clientKey s)
    ∧ (∀ k, k ≠ clientKey s → clients sm' !! k = clients demo_manager !! k ∧ peers sm' !! k = peers demo_manager !! k)
    ∧ ∃ s', sessions sm' !! 0%nat = Some s' ∧ conns s' = ∅.
Proof.
  intros s. apply (remove_session_correct demo_manager 0 s [] []); [apply demo_manager_ok|done|done|done].
Defined.

(** ** Routing through a peer *)
Lemma Index_two_bytes c s t :
  str_in c s = false → Index (s +:+ String c (String c t)) (String c (String c "")) = Some (String.length s).
Proof.
  induction s as [|d s IH]; simpl.
  - intros _. destruct (ascii_dec c c); [|done]. by destruct t.
  - intros [Hd%bool_decide_eq_false Hs]%orb_false_elim.
    destruct (ascii_dec c d); [done|]. by rewrite IH.
Qed.

(** A dial that goes through a peer reaches the client it was meant for:
    the peer takes the protocol apart into exactly the client key and the
    protocol the dialer put together (for a non-empty key without a colon). *)
Theorem peer_route_roundtrip (k proto : string) :
  k ≠ "" → str_in ":" k = false → peer_route (dial_proto k proto) = inl (k, proto).
Proof.
  intros Hne Hk. unfold dial_proto, peer_route. rewrite decide_False by done.
  change ("::" +:+ proto) with (String ":" (String ":" proto)).
  unfold Split2. rewrite Index_two_bytes by done.
  rewrite str_take_app, str_drop_add, str_drop_app. by destruct proto.
Qed.

Lemma peer_route_roundtrip_witness : peer_route (dial_proto "node-1" "tcp") = inl ("node-1", "tcp").
Proof. apply (peer_route_roundtrip "node-1" "tcp"); done. Defined.

(** A key that ends in a colon is routed to another client. *)
Example peer_route_colon : peer_route (dial_proto "a:" "tcp") = inl ("a", ":tcp").
Proof. by vm_compute. Qed.

(** ** Peers of a server *)
Inductive peer_op := OpAddPeer (url id token : string) | OpRemovePeer (id : string).
Definition run_peer_op (sv : Server) (op : peer_op) : Server :=
  match op with
  | OpAddPeer u i t => AddPeer sv u i t
  | OpRemovePeer i => RemovePeer sv i
  end.

Definition peers_ok (sv : Server) : Prop :=
  started sv ≡ₚ cancelled sv ++ (map_to_list (s_peers sv)).*2
  ∧ ∀ id p, s_peers sv !! id = Some p → peer_id p = id.

Lemma map_to_list_insert_perm (m : gmap string peer) id p q :
  m !! id = Some q → q :: (map_to_list (<[id := p]> m)).*2 ≡ₚ p :: (map_to_list m).*2.
Proof.
  intros Hq. rewrite <- (insert_delete_id m id q Hq) at 2.
  rewrite <- insert_delete_eq, !map_to_list_insert by apply lookup_delete_eq. simpl.
  apply Permutation_swap.
Qed.

Lemma run_peer_op_ok sv op : peers_ok sv → peers_ok (run_peer_op sv op).
Proof.
  intros [Hperm Hids]. destruct op as [u i t|i]; simpl.
  - unfold AddPeer. case_decide; [done|]. destruct (s_peers sv !! i) as [q|] eqn:Hq.
    + destruct (peer_equals q _); [done|]. split; simpl.
      * rewrite Hperm, <- !app_assoc. apply Permutation_app_head. simpl.
        rewrite (map_to_list_insert_perm _ _ _ _ Hq). by rewrite Permutation_app_comm.
      * intros i' p. rewrite lookup_insert. case_decide; [by intros [= <-]|apply Hids].
    + split; simpl.
      * rewrite Hperm, map_to_list_insert by done. simpl.
        rewrite <- app_assoc. apply Permutation_app_head. by rewrite Permutation_app_comm.
      * intros i' p. rewrite lookup_insert. case_decide; [by intros [= <-]|apply Hids].
  - split; simpl.
    + rewrite Hperm. destruct (s_peers sv !! i) as [q|] eqn:Hq.
      * rewrite <- app_assoc. apply Permutation_app_head.
        rewrite <- (insert_delete_id _ _ _ Hq) at 1.
        by rewrite map_to_list_insert by apply lookup_delete_eq.
      * by rewrite delete_id.
    + intros i' p [_ Hp]%lookup_delete_Some. by apply Hids.
Qed.

(** Whatever peers are added, replaced and removed, the connection loops
    that were started and not cancelled are exactly one for each peer the server
    knows, each under its own id: no loop leaks and none is cancelled twice. *)
Theorem peer_loops_balanced (pid ptoken : string) (ops : list peer_op) :
  let sv := foldl run_peer_op (mkServer pid ptoken ∅ [] []) ops in
  started sv ≡ₚ cancelled sv ++ (map_to_list (s_peers sv)).*2
  ∧ ∀ id p, s_peers sv !! id = Some p → peer_id p = id.
Proof.
  intros sv. assert (peers_ok sv) as Hok; [|done].
  unfold sv. assert (peers_ok (mkServer pid ptoken ∅ [] [])) as H0.
  { split; [done|]. by intros ??. }
  revert H0. generalize (mkServer pid ptoken ∅ [] []).
  induction ops as [|op ops IH]; intros s0 H0; simpl; [done|]. by apply IH, run_peer_op_ok.
Qed.
