(* ===== verification/Gateway.v ===== *)
(** * The tunnel server at work

    Models what composes [Tunnel] and [Manager] in pkg/remotedialer: ServeHTTP
    (server.go), which authenticates a connection, registers its session, serves
    it and removes it; the loop of Session.Serve (session.go); and the loop of a
    peer (peer.go), whose client session listens to the sessions of the server.

    Any number of connections are served at a time, while other goroutines dial
    through the sessions, use the connections and add and remove peers: the
    server is a transition system whose steps are what the code does between
    two operations that block, with its locks.  The websockets and the
    authorizer are the environment. *)

From S2P Require Import Prelude GoStrings Values Errors Message Tunnel Manager.

(** ** Session.Serve *)
(** What NextReader returns. *)
Inductive incoming := NextReaderError (err : error) | OtherMessage | BinaryMessage (frame : string).
Definition errWrongMessageType : error := ErrorString "wrong websocket message type".
(** One turn of the loop: the session, and the results if it ends. *)
Definition Serve_once (io_chunks : string → list string) (s : Session) (i : incoming) : go (Session * option (Z * error)) :=
  match i with
  | NextReaderError err => Ret (s, Some (400, err))
  | OtherMessage => Ret (s, Some (400, errWrongMessageType))
  | BinaryMessage frame =>
      '(s, err) ← serveMessage io_chunks s frame;
      Ret (s, match err with Some err => Some (500, err) | None => None end)
  end.
(** The loop, on the messages that arrive. *)
Fixpoint Serve (io_chunks : string → list string) (s : Session) (l : list incoming) : go (Session * option (Z * error)) :=
  match l with
  | [] => Ret (s, None)
  | i :: l => '(s, r) ← Serve_once io_chunks s i; match r with Some _ => Ret (s, r) | None => Serve io_chunks s l end
  end.

(** ** client.go *)
(** connectToProxy: [dialed] is the error of the dial and [onConnect] what the
    callback returns, if there is one; it returns once Serve has. *)
Definition connectToProxy (io_chunks : string → list string) (dialed : option error) (onConnect : option (option error))
    (auth : option (string → string → bool)) (ids : Z) (l : list incoming) (corder : list ptr) : go (option (option error * option Session)) :=
  match dialed, onConnect with
  | Some err, _ | None, Some (Some err) => Ret (Some (Some err, None))
  | None, _ =>
      '(session, r) ← Serve io_chunks (NewClientSession auth ids) l;
      match r with
      | None => Ret None
      | Some (_, err) => session ← Close session corder; Ret (Some (Some err, Some session))
      end
  end.

(** ** The server *)
(** The calls on a ResponseWriter, and the status that is sent: that of the
    first of them. *)
Inductive rw_call := RwWrite (b : string) | RwWriteHeader (code : Z).
Definition response_status (calls : list rw_call) : Z := match calls with RwWriteHeader code :: _ => code | _ => 200 end.
Definition DefaultErrorWriter (code : Z) (err : error) : list rw_call := [RwWrite (Error err); RwWriteHeader code].
(** A connection that is served: under which key, whether as a peer, and
    whether its Serve has returned. *)
Record serving := mkServing { sv_key : string; sv_peer : bool; sv_stopped : option (Z * error) }.
Record Gateway := mkGateway {
  gw_server : Server;
  gw_manager : sessionManager;
  gw_serving : gmap ptr serving;
  gw_linked : gmap ptr (option (Z * error))     (* sessions of peer.start *)
}.
Definition with_manager (gw : Gateway) (sm : sessionManager) : Gateway := mkGateway (gw_server gw) sm (gw_serving gw) (gw_linked gw).
Definition New (PeerID PeerToken : string) : Gateway := mkGateway (mkServer PeerID PeerToken ∅ [] []) newSessionManager ∅ ∅.

Definition errFailedAuth : error := ErrorString "failed authentication".
Definition upgrade_error (clientKey : string) (err : error) : error :=
  ErrorString ("Error during upgrade for host [" +:+ clientKey +:+ "]: " +:+ Error err).
Inductive answer := Refused (code : Z) (err : error) | Accepted (p : ptr).
(** ServeHTTP until it serves: [authorizer] is what the Authorizer says of
    the request, [upgrade] the error of the upgrade. *)
Definition ServeHTTP_begin (gw : Gateway) (id token : string) (authorizer : string * bool * option error) (upgrade : option error)
    (rnd ids : Z) (lorder : list ptr) : go (Gateway * answer) :=
  match Server_auth (gw_server gw) id token authorizer with
  | (_, _, _, Some err) => Ret (gw, Refused 400 err)
  | (_, false, _, None) => Ret (gw, Refused 401 errFailedAuth)
  | (clientKey, true, peer, None) =>
      match upgrade with
      | Some err => Ret (gw, Refused 400 (upgrade_error clientKey err))
      | None =>
          '(sm, p) ← add (gw_manager gw) clientKey peer rnd ids lorder;
          Ret (mkGateway (gw_server gw) sm (<[p := mkServing clientKey peer None]> (gw_serving gw)) (gw_linked gw), Accepted p)
      end
  end.
(** A message of a session that is served, by ServeHTTP or for a peer. *)
Definition change_session (gw : Gateway) (p : ptr) (s : Session) : Gateway :=
  with_manager gw (with_sessions (gw_manager gw) (<[p := s]> (sessions (gw_manager gw)))).
Definition stop (gw : Gateway) (p : ptr) (r : option (Z * error)) : Gateway :=
  mkGateway (gw_server gw) (gw_manager gw)
    (alter (λ sv, mkServing (sv_key sv) (sv_peer sv) r) p (gw_serving gw)) (alter (λ _, r) p (gw_linked gw)).
Definition receive (io_chunks : string → list string) (gw : Gateway) (p : ptr) (i : incoming) : go Gateway :=
  match sessions (gw_manager gw) !! p with
  | None => Panic
  | Some s => '(s, r) ← Serve_once io_chunks s i; Ret (stop (change_session gw p s) p r)
  end.
(** The deferred removal, once Serve has returned. *)
Definition ServeHTTP_end (gw : Gateway) (p : ptr) (lorder corder : list ptr) : go Gateway :=
  sm ← remove (gw_manager gw) p lorder corder;
  Ret (mkGateway (gw_server gw) sm (delete p (gw_serving gw)) (gw_linked gw)).
(** peer.start: the session of a connection to the peer, and its end. *)
Definition peer_connected (gw : Gateway) (ids : Z) (corder porder : list (string * list ptr)) : go Gateway :=
  let sm := gw_manager gw in
  let p := next_session sm in
  let session := NewClientSession (Some (λ _ _, true)) ids in
  sm ← addListener (mkManager (<[p := session]> (sessions sm)) (S p) (clients sm) (peers sm) (listeners sm)) p corder porder;
  Ret (mkGateway (gw_server gw) sm (gw_serving gw) (<[p := None]> (gw_linked gw))).
Definition peer_ended (gw : Gateway) (p : ptr) (corder : list ptr) : go Gateway :=
  let sm := removeListener (gw_manager gw) p in
  match sessions sm !! p with
  | None => Panic
  | Some s => s ← Close s corder;
              Ret (mkGateway (gw_server gw) (with_sessions sm (<[p := s]> (sessions sm))) (gw_serving gw) (delete p (gw_linked gw)))
  end.

(** ** Its steps *)
Inductive gw_event :=
| GRequest (id token : string) (authorizer : string * bool * option error) (upgrade : option error) (rnd ids : Z) (lorder : list ptr)
| GReceive (p : ptr) (i : incoming)
| GEnd (p : ptr) (lorder corder : list ptr)
| GPeerConnected (ids : Z) (corder porder : list (string * list ptr))
| GPeerEnded (p : ptr) (corder : list ptr)
| GUse (p : ptr) (ev : event)                     (* what others do with a session *)
| GDial (k : string) (dl : Z) (proto address : string) (porder : list (string * list ptr))
| GAddPeer (url id token : string)
| GRemovePeer (id : string).

Section Steps.
Variable io_chunks : string → list string.
Definition run_gw (gw : Gateway) (ev : gw_event) : go Gateway :=
  match ev with
  | GRequest id token authorizer upgrade rnd ids lorder => '(gw, _) ← ServeHTTP_begin gw id token authorizer upgrade rnd ids lorder; Ret gw
  | GReceive p i => receive io_chunks gw p i
  | GEnd p lorder corder => ServeHTTP_end gw p lorder corder
  | GPeerConnected ids corder porder => peer_connected gw ids corder porder
  | GPeerEnded p corder => peer_ended gw p corder
  | GUse p ev => match sessions (gw_manager gw) !! p with
                 | None => Panic
                 | Some s => s ← run_event io_chunks s ev; Ret (change_session gw p s)
                 end
  | GDial k dl proto address porder => '(sm, _) ← Dial (gw_manager gw) k dl proto address porder; Ret (with_manager gw sm)
  | GAddPeer url id token => Ret (mkGateway (AddPeer (gw_server gw) url id token) (gw_manager gw) (gw_serving gw) (gw_linked gw))
  | GRemovePeer id => Ret (mkGateway (RemovePeer (gw_server gw) id) (gw_manager gw) (gw_serving gw) (gw_linked gw))
  end.

(** A step is possible: it is the turn of the goroutine, the orders are those
    of ranges over the maps, and the numbers of connections do not exceed what
    the header of a frame can hold. *)
Definition session_at (gw : Gateway) (p : ptr) : option Session := sessions (gw_manager gw) !! p.
Definition gw_ev_ok (gw : Gateway) (ev : gw_event) : Prop :=
  let sm := gw_manager gw in
  match ev with
  | GRequest _ _ _ _ _ ids lorder => in_int64 ids = true ∧ lorder ≡ₚ elements (listeners sm)
  | GReceive p _ => (∃ k b, gw_serving gw !! p = Some (mkServing k b None)) ∨ gw_linked gw !! p = Some None
  | GEnd p lorder corder => (∃ k b r, gw_serving gw !! p = Some (mkServing k b (Some r))) ∧ lorder ≡ₚ elements (listeners sm) ∧
      ∃ s, session_at gw p = Some s ∧ corder ≡ₚ (map_to_list (conns s)).*2
  | GPeerConnected ids corder porder => in_int64 ids = true ∧ corder ≡ₚ map_to_list (clients sm) ∧ porder ≡ₚ map_to_list (peers sm)
  | GPeerEnded p corder => (∃ r, gw_linked gw !! p = Some (Some r)) ∧ ∃ s, session_at gw p = Some s ∧ corder ≡ₚ (map_to_list (conns s)).*2
  | GUse p ev => ∃ s, session_at gw p = Some s ∧ ev_ok s ev
  | GDial _ dl _ _ porder => in_int64 dl = true ∧ porder ≡ₚ map_to_list (peers sm) ∧
      ∀ p s, session_at gw p = Some s → 0 ≤ nextConnID s < 2 ^ 34 - 1
  | GAddPeer _ _ _ | GRemovePeer _ => True
  end.

(** ** What holds in every state *)
(** The session is in the table of its kind, under the key. *)
Definition listed (gw : Gateway) (p : ptr) (k : string) (peer : bool) : Prop :=
  p ∈ default [] ((if peer then peers (gw_manager gw) else clients (gw_manager gw)) !! k).
(** Another session was given the same random key as this one, for the same
    client, and is not served: the removal of a session takes all sessions of its
    key out of the tables. *)
Definition id_at (gw : Gateway) (p : ptr) : option (string * Z) := session_id <$> session_at gw p.
Definition displaced (gw : Gateway) (p : ptr) : Prop :=
  ∃ q, q ≠ p ∧ is_Some (session_at gw q) ∧ id_at gw q = id_at gw p ∧ gw_serving gw !! q = None.
Definition all_listed (gw : Gateway) : Prop :=
  ∀ p k b r, gw_serving gw !! p = Some (mkServing k b r) → listed gw p k b ∨ displaced gw p.
Record gateway_ok (gw : Gateway) : Prop := {
  gok_manager : manager_ok (gw_manager gw);
  gok_clients : ∀ k l p, clients (gw_manager gw) !! k = Some l → p ∈ l → ∃ r, gw_serving gw !! p = Some (mkServing k false r);
  gok_peers : ∀ k l p, peers (gw_manager gw) !! k = Some l → p ∈ l → ∃ r, gw_serving gw !! p = Some (mkServing k true r);
  gok_serving : ∀ p, is_Some (gw_serving gw !! p) ∨ is_Some (gw_linked gw !! p) → is_Some (session_at gw p);
  gok_listeners : ∀ p, p ∈ listeners (gw_manager gw) ↔ is_Some (gw_linked gw !! p);
  gok_listed : all_listed gw
}.

(** A step keeps the tables complete: sessions keep their identity and are not
    served again; what is served was served before, and lost its place only to
    another session, or is listed. *)
Lemma listed_step gw gw' :
  (∀ p, is_Some (gw_serving gw !! p) → is_Some (session_at gw p)) →
  (∀ q, is_Some (session_at gw q) → id_at gw' q = id_at gw q) →
  (∀ q, is_Some (session_at gw q) → gw_serving gw !! q = None → gw_serving gw' !! q = None) →
  (∀ p k b r, gw_serving gw' !! p = Some (mkServing k b r) →
     listed gw' p k b ∨
     (∃ r0, gw_serving gw !! p = Some (mkServing k b r0)) ∧ (listed gw p k b → listed gw' p k b ∨ displaced gw' p)) →
  all_listed gw → all_listed gw'.
Proof.
  intros Hat Hid Hno Hnew Hall p k b r Hp. destruct (Hnew p k b r Hp) as [?|[[r0 Hp0] Hl]]; [by left|].
  destruct (Hall p k b r0 Hp0) as [Hlist|(q & Hne & Hq & Hi & Hsv)]; [by apply Hl|]. right. exists q.
  assert (is_Some (session_at gw p)) as Hsp by (apply Hat; by eexists).
  split_and!; [done| |by rewrite !Hid by done|by apply Hno].
  pose proof (Hid q Hq) as He. unfold id_at in He. destruct Hq as [s Hq]. rewrite Hq in He.
  destruct (session_at gw' q); [by eexists|done].
Qed.
Lemma listed_same gw gw' :
  clients (gw_manager gw') = clients (gw_manager gw) → peers (gw_manager gw') = peers (gw_manager gw) →
  (∀ p, is_Some (gw_serving gw !! p) → is_Some (session_at gw p)) →
  (∀ q, is_Some (session_at gw q) → id_at gw' q = id_at gw q) →
  (∀ p, gw_serving gw !! p = None → gw_serving gw' !! p = None) →
  (∀ p sv, gw_serving gw' !! p = Some sv → ∃ r, gw_serving gw !! p = Some (mkServing (sv_key sv) (sv_peer sv) r)) →
  all_listed gw → all_listed gw'.
Proof.
  intros HC HP Hat Hid Hno Hsv. apply listed_step; [done|done|by auto|]. intros p k b r Hp. right.
  apply Hsv in Hp. split; [done|]. unfold listed. rewrite HC, HP. by left.
Qed.

(** ** The operations of the manager keep its tables *)
Definition same_tables (sm sm' : sessionManager) : Prop :=
  clients sm' = clients sm ∧ peers sm' = peers sm ∧ listeners sm' = listeners sm ∧ next_session sm' = next_session sm ∧
  dom (sessions sm') = dom (sessions sm) ∧ ∀ q, session_id <$> sessions sm' !! q = session_id <$> sessions sm !! q.
#[local] Instance same_tables_preorder : PreOrder same_tables.
Proof. split; [done|]. intros ??? (?&?&?&?&?&?) (?&?&?&?&?&?). split_and!; congruence. Qed.
Lemma notify_tables f sm l k n sm' : f = sessionAdded ∨ f = sessionRemoved → notify f sm l k n = Ret sm' → same_tables sm sm'.
Proof.
  intros Hf. unfold notify. destruct (sessions sm !! l) as [s|] eqn:Hl; [|done].
  destruct (announce_ok f s k n Hf) as (s' & -> & Hk & Hn & _). intros [= <-]. split_and!; try done; simpl.
  - rewrite dom_insert_L. apply elem_of_dom_2 in Hl. set_solver.
  - intros q. rewrite lookup_insert. case_decide; [subst|done]. rewrite Hl. simpl. unfold session_id. by rewrite Hk, Hn.
Qed.
Lemma foldM_tables {A} (body : sessionManager → A → go sessionManager) l sm sm' :
  (∀ sm a sm', body sm a = Ret sm' → same_tables sm sm') → foldM body l sm = Ret sm' → same_tables sm sm'.
Proof.
  intros Hb. revert sm. induction l as [|a l IH]; intros sm; simpl; [by intros [= ->]|].
  destruct (body sm a) as [sm1|] eqn:Ha; [|done]. simpl. intros Hl. etransitivity; [by eapply Hb|by apply IH].
Qed.
Lemma add_tables sm k peer rnd ids lorder sm' p : add sm k peer rnd ids lorder = Ret (sm', p) →
  listeners sm' = listeners sm ∧ dom (sessions sm') = {[p]} ∪ dom (sessions sm) ∧
  ∀ q, q ≠ next_session sm → session_id <$> sessions sm' !! q = session_id <$> sessions sm !! q.
Proof.
  unfold add. destruct (foldM _ lorder _) as [sm2|] eqn:Hf; [|done]. simpl. intros [= <- <-].
  destruct (foldM_tables _ _ _ _ (λ sm l sm', notify_tables _ sm l _ _ sm' (or_introl eq_refl)) Hf) as (_ & _ & -> & _ & -> & Hid).
  split; [by destruct peer|]. split; [destruct peer; simpl; by rewrite dom_insert_L|].
  intros q Hq. rewrite Hid. destruct peer; simpl; by rewrite lookup_insert_ne.
Qed.
Lemma remove_tables sm p lorder corder sm' : remove sm p lorder corder = Ret sm' →
  listeners sm' = listeners sm ∧ dom (sessions sm') = dom (sessions sm) ∧
  ∀ q, session_id <$> sessions sm' !! q = session_id <$> sessions sm !! q.
Proof.
  unfold remove. destruct (sessions sm !! p) as [s|]; [|done]. destruct (foldM _ lorder _) as [sm2|] eqn:Hf; [|done].
  destruct (foldM_tables _ _ _ _ (λ sm l sm', notify_tables _ sm l _ _ sm' (or_intror eq_refl)) Hf) as (_ & _ & Hl & _ & Hd & Hid).
  cbn [mbind go_bind]. destruct (sessions sm2 !! p) as [s2|] eqn:Hp; [|done]. destruct (Close s2 corder) as [s3|] eqn:Hcl; [|done].
  cbn [mbind go_bind]. intros [= <-]. split; [done|]. split.
  - simpl. rewrite dom_insert_L, Hd. apply elem_of_dom_2 in Hp. rewrite Hd in Hp. simpl in *. set_solver.
  - intros q. simpl. rewrite lookup_insert. case_decide; [subst|by rewrite Hid].
    etransitivity; [|exact (Hid q)]. rewrite Hp. simpl. by rewrite (Close_key _ _ _ Hcl).
Qed.
Lemma change_session_ok sm p s s' : manager_ok sm → sessions sm !! p = Some s → session_ok s' → session_id s' = session_id s →
  manager_ok (with_sessions sm (<[p := s']> (sessions sm))).
Proof.
  intros [H1 H2 H3 H4] Hp Hs [= Hk _].
  assert (∀ store, store_ok sm store → store_ok (with_sessions sm (<[p := s']> (sessions sm))) store) as Hst.
  { intros store Hst k l Hkl. destruct (Hst k l Hkl) as [Hne Hall]. split; [done|]. intros q Hq. destruct (Hall q Hq) as (sq & Hsq & Hkq).
    simpl. destruct (decide (p = q)) as [<-|Hne']; [rewrite lookup_insert_eq|rewrite lookup_insert_ne by done; by eauto].
    exists s'. split; [done|]. congruence. }
  split; simpl; [|by apply Hst|by apply Hst|].
  - intros q sq. rewrite lookup_insert. case_decide; [intros [= <-]; subst; split; [done|by eapply H1]|apply H1].
  - intros l Hl. rewrite lookup_insert. case_decide; [by eexists|by apply H4].
Qed.
Lemma Serve_once_ok s i : session_ok s → ∃ s' r, Serve_once io_chunks s i = Ret (s', r) ∧ session_ok s' ∧ session_id s' = session_id s.
Proof.
  intros Hs. destruct i as [err| |frame]; simpl; [by eexists _, _..|].
  destruct (serveMessage_ok io_chunks s frame Hs) as (s' & err & Hm & Hs'). rewrite Hm. eexists _, _. split; [done|]. split; [done|].
  assert (run_event io_chunks s (EvFrame frame) = Ret s') as Hr by (simpl; by rewrite Hm). by apply run_event_dials in Hr as (_ & Hk & _).
Qed.

Section Preserved.
Variable gw : Gateway.
Hypothesis Hok : gateway_ok gw.
Lemma change_ok p s s' : session_at gw p = Some s → session_ok s' → session_id s' = session_id s → gateway_ok (change_session gw p s').
Proof.
  destruct Hok as [Hm Hc Hp Hs Hl Hli]. intros Hat Hs' Hk. split; simpl; [by eapply change_session_ok|done..| |done|].
  - intros q Hq. unfold session_at. simpl. rewrite lookup_insert. case_decide; [by eexists|by apply Hs].
  - revert Hli. apply listed_same; [done|done|by auto| |done|intros q [k b r] Hq; by exists r].
    intros q _. unfold id_at, session_at. simpl. rewrite lookup_insert. case_decide; [subst|done].
    unfold session_at in Hat. rewrite Hat. simpl. by rewrite Hk.
Qed.
Lemma stop_ok p r : gateway_ok (stop gw p r).
Proof.
  destruct Hok as [Hm Hc Hp Hs Hl Hli].
  assert (∀ q sv, gw_serving gw !! q = Some sv → ∃ r', gw_serving (stop gw p r) !! q = Some (mkServing (sv_key sv) (sv_peer sv) r')) as Hst.
  { intros q sv Hq. simpl. rewrite lookup_alter. case_decide; subst; rewrite Hq; simpl; [by eexists|]. destruct sv. by eexists. }
  split; simpl; [done| | | | |].
  - intros k l q Hk Hq. destruct (Hc k l q Hk Hq) as [r' Hr]. by apply Hst in Hr.
  - intros k l q Hk Hq. destruct (Hp k l q Hk Hq) as [r' Hr]. by apply Hst in Hr.
  - intros q Hq. apply Hs. simpl in Hq. rewrite !lookup_alter in Hq. destruct (decide (p = q)) as [<-|]; rewrite ?fmap_is_Some in Hq; exact Hq.
  - intros q. rewrite Hl, lookup_alter. destruct (decide (p = q)) as [<-|]; by rewrite ?fmap_is_Some.
  - revert Hli. apply listed_same; [done|done|by auto|done| |].
    + intros q Hq. simpl. rewrite lookup_alter. case_decide; [subst; by rewrite Hq|done].
    + intros q sv. simpl. rewrite lookup_alter. case_decide; [|intros Hq; destruct sv; by eexists].
      subst. intros (sv' & Hsv & ->)%fmap_Some. exists (sv_stopped sv'). by destruct sv'.
Qed.
End Preserved.

(** Each kind of step. *)
Section EachStep.
Variable gw : Gateway.
Hypothesis Hok : gateway_ok gw.
Lemma request_ok id token authorizer upgrade rnd ids lorder :
  in_int64 ids = true → lorder ≡ₚ elements (listeners (gw_manager gw)) →
  ∃ gw' a, ServeHTTP_begin gw id token authorizer upgrade rnd ids lorder = Ret (gw', a) ∧ gateway_ok gw' ∧
    ∀ p, gw_serving gw' !! p = gw_serving gw !! p ∨
         upgrade = None ∧ ∃ k b, gw_serving gw' !! p = Some (mkServing k b None) ∧ Server_auth (gw_server gw) id token authorizer = (k, true, b, None).
Proof.
  intros Hids Hl. unfold ServeHTTP_begin. destruct (Server_auth _ _ _ _) as [[[k authed] peer] err] eqn:Ha.
  destruct err as [err|]; [destruct authed; by eexists _, _; split; [|split; [|left]]|].
  destruct authed; [|by eexists _, _; split; [|split; [|left]]].
  destruct upgrade as [err|]; [by eexists _, _; split; [|split; [|left]]|].
  destruct Hok as [Hm Hc Hp Hs Hli Hall].
  destruct (add_ok (gw_manager gw) k peer rnd ids lorder Hm Hids Hl) as (sm & Hadd & Hm' & Htab).
  rewrite Hadd. pose proof Hadd as (Hl' & Hd' & Hid')%add_tables. eexists _, _. split; [done|].
  assert (gw_serving gw !! next_session (gw_manager gw) = None) as Hfresh.
  { destruct (gw_serving gw !! _) as [sv|] eqn:E; [|done]. destruct (Hs (next_session (gw_manager gw))) as [s Hsp]; [by left; eexists|].
    apply (mok_sessions _ Hm) in Hsp as [_ ?]. lia. }
  assert (∀ q sv, gw_serving gw !! q = Some sv →
    <[next_session (gw_manager gw) := mkServing k peer None]> (gw_serving gw) !! q = Some sv) as Hkeep.
  { intros q sv Hq. rewrite lookup_insert_ne; [done|congruence]. }
  split.
  - assert (∀ (b : bool) (store : gmap string (list ptr)), (∀ k l p, store !! k = Some l → p ∈ l → ∃ r, gw_serving gw !! p = Some (mkServing k b r)) →
      ∀ k' l p, (if decide (b = peer) then <[k := default [] (store !! k) ++ [next_session (gw_manager gw)]]> store else store) !! k' = Some l → p ∈ l →
      ∃ r, <[next_session (gw_manager gw) := mkServing k peer None]> (gw_serving gw) !! p = Some (mkServing k' b r)) as Hins.
    { intros b store Hst k' l q Hk' Hq. case_decide as Hb; [subst b|by destruct (Hst _ _ _ Hk' Hq) as [r Hr]; eauto].
      apply lookup_insert_Some in Hk' as [[<- <-]|[_ Hk']]; [|by destruct (Hst _ _ _ Hk' Hq) as [r Hr]; eauto].
      apply elem_of_app in Hq as [Hq|Hq%list_elem_of_singleton].
      - destruct (store !! k) as [l|] eqn:Hkl; [|by apply elem_of_nil in Hq]. destruct (Hst _ _ _ Hkl Hq) as [r Hr]. eauto.
      - subst q. exists None. by rewrite lookup_insert_eq. }
    split; simpl; [done|..].
    + intros k' l q Hk'. apply (Hins false (clients (gw_manager gw)) Hc k' l q). destruct peer; destruct Htab as [H1 H2]; [by rewrite <- H1|by rewrite <- H2].
    + intros k' l q Hk'. apply (Hins true (peers (gw_manager gw)) Hp k' l q). destruct peer; destruct Htab as [H1 H2]; [by rewrite <- H2|by rewrite <- H1].
    + intros q Hq. unfold session_at. simpl. apply elem_of_dom. rewrite Hd'. destruct (decide (q = next_session (gw_manager gw))) as [->|Hne]; [set_solver|].
      rewrite lookup_insert_ne in Hq by done. apply Hs in Hq. unfold session_at in Hq. apply elem_of_dom in Hq. set_solver.
    + intros q. by rewrite Hl'.
    + assert (∀ q, is_Some (session_at gw q) → q ≠ next_session (gw_manager gw)) as Hold.
      { intros q [sq Hq]. apply (mok_sessions _ Hm) in Hq as [_ ?]. lia. }
      revert Hall. apply listed_step; [by auto|intros q Hq; apply Hid'; by apply Hold|..].
      * intros q Hq Hno. simpl. rewrite lookup_insert_ne; [done|]. intros <-. by apply (Hold _ Hq).
      * intros q k' b r. simpl. rewrite lookup_insert. unfold listed. simpl. intros Hq.
        case_decide as Hqn; [injection Hq as <- <- <-; left; subst q|right; split; [by eexists|left]].
        { destruct peer; destruct Htab as [_ ->]; rewrite lookup_insert_eq; simpl; apply elem_of_app; right; by left. }
        destruct peer, b; destruct Htab as [H1 H2]; rewrite ?H1, ?H2; try done;
          rewrite lookup_insert; case_decide; subst; try done; simpl; apply elem_of_app; by left.
  - intros q. simpl. destruct (decide (q = next_session (gw_manager gw))) as [->|Hne]; [|left; by rewrite lookup_insert_ne].
    right. split; [done|]. exists k, peer. by rewrite lookup_insert_eq.
Qed.

Lemma gw_receive_ok p i :
  is_Some (gw_serving gw !! p) ∨ is_Some (gw_linked gw !! p) → ∃ gw', receive io_chunks gw p i = Ret gw' ∧ gateway_ok gw'.
Proof.
  intros Hp. destruct (gok_serving _ Hok p Hp) as [s Hs]. unfold receive. unfold session_at in Hs. rewrite Hs.
  destruct (mok_sessions _ (gok_manager _ Hok) _ _ Hs) as [Hsok _].
  destruct (Serve_once_ok s i Hsok) as (s' & r & -> & Hs' & Hk). eexists. split; [done|]. apply stop_ok. by apply (change_ok gw Hok p s).
Qed.

(** What is left in a table when a session is removed. *)
Lemma dropped_in store p s k l q : store_ok (gw_manager gw) store → session_at gw p = Some s →
  drop_session (sessions (gw_manager gw)) store (clientKey s) (sessionKey s) !! k = Some l → q ∈ l →
  q ≠ p ∧ ∃ l', store !! k = Some l' ∧ q ∈ l'.
Proof.
  intros Hst Hp Hk Hq. destruct (drop_session_ok (gw_manager gw) store (clientKey s) (sessionKey s) Hst) as (_ & Hne & Heq).
  destruct (decide (k = clientKey s)) as [->|Hkk].
  - specialize (Heq q). rewrite Hk in Heq. apply Heq in Hq as [Hq Hsk]. split; [intros ->; unfold session_at in Hp; by rewrite Hp in Hsk|].
    destruct (store !! clientKey s) as [l'|]; [by exists l'|by apply elem_of_nil in Hq].
  - rewrite Hne in Hk by done. split; [|by exists l]. intros ->. destruct (Hst k l Hk) as [_ Hall]. destruct (Hall p Hq) as (s' & Hs' & Hck).
    unfold session_at in Hp. congruence.
Qed.
(** A listed session keeps its place, unless it has the key of the removed one. *)
Lemma kept_or_displaced store p s k q : store_ok (gw_manager gw) store → session_at gw p = Some s → q ∈ default [] (store !! k) →
  q ∈ default [] (drop_session (sessions (gw_manager gw)) store (clientKey s) (sessionKey s) !! k) ∨ id_at gw p = id_at gw q.
Proof.
  intros Hst Hp Hq. destruct (drop_session_ok (gw_manager gw) store (clientKey s) (sessionKey s) Hst) as (_ & Hne & Heq).
  destruct (decide (k = clientKey s)) as [->|Hkk]; [|left; by rewrite Hne].
  destruct (default_store_ok _ _ _ _ Hst Hq) as (sq & Hsq & Hck).
  destruct (decide (sessionKey sq = sessionKey s)) as [Hk|Hk]; [right|left].
  - unfold id_at. rewrite Hp. unfold session_at. rewrite Hsq. simpl. unfold session_id. by rewrite Hck, Hk.
  - apply Heq. split; [done|]. rewrite Hsq. simpl. congruence.
Qed.
Lemma end_ok p lorder corder s : lorder ≡ₚ elements (listeners (gw_manager gw)) → session_at gw p = Some s → corder ≡ₚ (map_to_list (conns s)).*2 →
  ∃ gw', ServeHTTP_end gw p lorder corder = Ret gw' ∧ gateway_ok gw' ∧ gw_serving gw' = delete p (gw_serving gw).
Proof.
  intros Hlo Hat Hco. unfold ServeHTTP_end. destruct Hok as [Hm Hc Hp Hs Hli Hall].
  destruct (remove_ok (gw_manager gw) p s lorder corder Hm Hat Hlo Hco) as (sm & Hr & Hm' & HC & HP & _).
  rewrite Hr. apply remove_tables in Hr as (Hl & Hd & Hid). eexists. split; [done|]. split; [|done].
  split; simpl; [done|..].
  - intros k l q. rewrite HC. intros Hk Hq. destruct (dropped_in (clients (gw_manager gw)) p s k l q (mok_clients _ Hm) Hat Hk Hq) as (Hne & l' & Hkl & Hql).
    destruct (Hc _ _ _ Hkl Hql) as [r Hsv]. exists r. by rewrite lookup_delete_ne.
  - intros k l q. rewrite HP. intros Hk Hq. destruct (dropped_in (peers (gw_manager gw)) p s k l q (mok_peers _ Hm) Hat Hk Hq) as (Hne & l' & Hkl & Hql).
    destruct (Hp _ _ _ Hkl Hql) as [r Hsv]. exists r. by rewrite lookup_delete_ne.
  - intros q Hq. unfold session_at. simpl. apply elem_of_dom. rewrite Hd. apply elem_of_dom. apply Hs.
    destruct Hq as [[sv [_ Hq]%lookup_delete_Some]|Hq]; [left; by eexists|by right].
  - intros q. by rewrite Hl.
  - revert Hall. apply listed_step; [by auto|intros q _; apply Hid|..].
    + intros q _ Hno. simpl. by rewrite lookup_delete, Hno; case_decide.
    + intros q k b r. simpl. rewrite lookup_delete_Some. intros [Hpq Hq]. right. split; [by eexists|]. intros Hlist.
      destruct (kept_or_displaced (if b then peers (gw_manager gw) else clients (gw_manager gw)) p s k q) as [Hk|Hk];
        [destruct b; [apply (mok_peers _ Hm)|apply (mok_clients _ Hm)]|done|exact Hlist|left|right].
      * unfold listed. simpl. destruct b; by rewrite ?HP, ?HC.
      * exists p. split_and!; [done| | |simpl; apply lookup_delete_eq].
        -- unfold session_at. simpl. apply elem_of_dom. rewrite Hd. apply elem_of_dom. by exists s.
        -- unfold id_at, session_at. simpl. rewrite !Hid. exact Hk.
Qed.

Lemma connected_ok ids corder porder : in_int64 ids = true →
  corder ≡ₚ map_to_list (clients (gw_manager gw)) → porder ≡ₚ map_to_list (peers (gw_manager gw)) →
  ∃ gw', peer_connected gw ids corder porder = Ret gw' ∧ gateway_ok gw' ∧ gw_serving gw' = gw_serving gw.
Proof.
  intros Hids Hco Hpo. unfold peer_connected, addListener. destruct Hok as [Hm Hc Hp Hs Hli Hall]. cbn [sessions next_session clients peers listeners].
  set (p := next_session (gw_manager gw)). set (sm1 := mkManager _ _ _ _ _).
  assert (sessions (gw_manager gw) !! p = None) as Hfresh.
  { destruct (sessions (gw_manager gw) !! p) eqn:E; [|done]. apply (mok_sessions _ Hm) in E as [_ ?]. unfold p in *. lia. }
  assert (∀ q s, sessions (gw_manager gw) !! q = Some s → sessions sm1 !! q = Some s) as Hkeep.
  { intros q s Hq. simpl. rewrite lookup_insert_ne; [done|congruence]. }
  assert (manager_ok sm1) as Hm1.
  { destruct Hm as [H1 H2 H3 H4]. split; simpl.
    - intros q s. rewrite lookup_insert. case_decide; [intros [= <-]; subst; split; [apply fresh_ok; by constructor|unfold p; lia]|].
      intros Hq. destruct (H1 _ _ Hq). split; [done|unfold p in *; lia].
    - by apply (store_ok_mono (gw_manager gw)).
    - by apply (store_ok_mono (gw_manager gw)).
    - intros l. rewrite lookup_insert. case_decide; [by eexists|]. intros [->%elem_of_singleton|Hl]%elem_of_union; [done|by apply H4]. }
  assert (∀ sm, same_registry sm1 sm → is_Some (sessions sm !! p)) as Hnew.
  { intros sm Hreg. eapply same_registry_is_Some; [exact Hreg|]. simpl. rewrite lookup_insert_eq. by eexists. }
  destruct (notify_loop (λ sm (e : string * ptr), match sessions sm !! e.2 with None => Panic | Some s => notify sessionAdded sm p e.1 (sessionKey s) end)
    (ranged corder ++ ranged porder) sm1 sm1) as (sm2 & Hf & Hreg); [done| |].
  { intros sm [k q] Hin Hreg. simpl.
    assert (is_Some (sessions sm !! q)) as [sq Hsq].
    { eapply same_registry_is_Some; [exact Hreg|].
      apply elem_of_app in Hin as [Hin|Hin]; [apply (ranged_peers _ _ _ _ Hco) in Hin as (l & Hk & Hq)|apply (ranged_peers _ _ _ _ Hpo) in Hin as (l & Hk & Hq)].
      - destruct (mok_clients _ Hm1 k l Hk) as [_ Hsk]. destruct (Hsk q Hq) as (s & Hs' & _). by eexists.
      - destruct (mok_peers _ Hm1 k l Hk) as [_ Hsk]. destruct (Hsk q Hq) as (s & Hs' & _). by eexists. }
    rewrite Hsq. apply notify_ok; [by left|by apply Hnew]. }
  rewrite Hf. eexists. split; [done|]. split; [|done]. destruct Hreg as (HC & HP & HL & HN & HS).
  assert (∀ q, is_Some (sessions (gw_manager gw) !! q) → session_id <$> sessions sm2 !! q = session_id <$> sessions (gw_manager gw) !! q) as Hid.
  { intros q [sq Hq]. specialize (HS q). rewrite (Hkeep _ _ Hq) in HS. inversion HS as [? s' (Hk & Hn & _)|]; subst.
    rewrite Hq. simpl. unfold session_id. by rewrite Hk, Hn. }
  split; simpl.
  - by eapply same_registry_ok; [by split_and!|].
  - by rewrite HC.
  - by rewrite HP.
  - intros q Hq. unfold session_at. simpl. apply (same_registry_is_Some sm1); [by split_and!|]. simpl.
    destruct (decide (q = p)) as [->|Hne]; [rewrite lookup_insert_eq; by eexists|]. rewrite lookup_insert_ne by done.
    apply Hs. destruct Hq as [Hq|Hq]; [by left|right]. by rewrite lookup_insert_ne in Hq.
  - intros q. rewrite HL. simpl. rewrite elem_of_union, elem_of_singleton, Hli. destruct (decide (q = p)) as [->|Hne].
    + rewrite lookup_insert_eq. split; [by eexists|by left].
    + rewrite lookup_insert_ne by done. naive_solver.
  - revert Hall. apply listed_same; [exact HC|exact HP|by auto|exact Hid|done|intros q [k b r] Hq; by exists r].
Qed.
Lemma ended_ok p corder s : session_at gw p = Some s → corder ≡ₚ (map_to_list (conns s)).*2 →
  ∃ gw', peer_ended gw p corder = Ret gw' ∧ gateway_ok gw' ∧ gw_serving gw' = gw_serving gw.
Proof.
  intros Hat Hco. unfold peer_ended. destruct Hok as [Hm Hc Hp Hs Hli Hall]. cbn [sessions removeListener]. unfold session_at in Hat. rewrite Hat.
  destruct (mok_sessions _ Hm _ _ Hat) as [Hsok _]. destruct (Close_ok s corder Hsok Hco) as (s' & Hcl & Hs' & _). rewrite Hcl.
  pose proof (Close_key _ _ _ Hcl) as Hk. eexists. split; [done|]. split; [|done].
  pose proof (change_session_ok _ _ _ _ Hm Hat Hs' Hk) as [H1 H2 H3 H4]. split; simpl; [|done..| | |].
  - split; simpl; [done..|]. intros l [Hl _]%elem_of_difference. by apply H4.
  - intros q Hq. unfold session_at. simpl. rewrite lookup_insert. case_decide; [by eexists|]. apply Hs.
    destruct Hq as [Hq|Hq]; [by left|right]. by rewrite lookup_delete_ne in Hq.
  - intros q. rewrite elem_of_difference, elem_of_singleton, Hli. destruct (decide (q = p)) as [->|Hne].
    + rewrite lookup_delete_eq. split; [naive_solver|by intros [? ?]].
    + rewrite lookup_delete_ne by done. naive_solver.
  - revert Hall. apply listed_same; [done|done|by auto| |done|intros q [k b r] Hq; by exists r].
    intros q _. unfold id_at, session_at. simpl. rewrite lookup_insert. case_decide; [subst|done]. rewrite Hat. simpl. by rewrite Hk.
Qed.

Lemma dial_ok k dl proto address porder : in_int64 dl = true → porder ≡ₚ map_to_list (peers (gw_manager gw)) →
  (∀ p s, session_at gw p = Some s → 0 ≤ nextConnID s < 2 ^ 34 - 1) →
  ∃ sm r, Dial (gw_manager gw) k dl proto address porder = Ret (sm, r) ∧ gateway_ok (with_manager gw sm).
Proof.
  intros Hdl Hpo Hids. unfold Dial. pose proof (gok_manager _ Hok) as Hm.
  pose proof (get_dialer_correct (gw_manager gw) k dl porder Hm Hpo) as Hg. destruct (getDialer _ _ _ _) as [d|e]; [|by eexists _, _; destruct gw].
  destruct Hg as [Hdd Hg]. assert (∃ s, session_at gw (d_session d) = Some s) as [s Hs].
  { destruct Hg as [(_ & rest & s & _ & Hs & _)|(_ & _ & pk & l & Hpk & Hin & _)]; [by exists s|].
    destruct (mok_peers _ Hm pk l Hpk) as [_ Hall]. destruct (Hall _ Hin) as (s & Hs & _). by exists s. }
  unfold dial. pose proof Hs as Hs0. unfold session_at in Hs0. rewrite Hs0. destruct (mok_sessions _ Hm _ _ Hs0) as [Hsok _].
  rewrite Hdd. destruct (serverConnect_ok s dl (dial_proto (d_prefix d) proto) address Hsok (Hids _ _ Hs) Hdl) as (s' & r & Hc & Hs' & _).
  rewrite Hc. eexists _, _. split; [done|]. apply (change_ok gw Hok (d_session d) s); [done..|].
  assert (run_event io_chunks s (EvServerConnect dl (dial_proto (d_prefix d) proto) address) = Ret s') as Hr by (simpl; by rewrite Hc).
  by apply run_event_dials in Hr as (_ & Hk & _).
Qed.
End EachStep.

(** The states the server reaches. *)
Inductive gw_reachable PeerID PeerToken : Gateway → Prop :=
| gw_new : gw_reachable PeerID PeerToken (New PeerID PeerToken)
| gw_step gw ev gw' : gw_reachable PeerID PeerToken gw → gw_ev_ok gw ev → run_gw gw ev = Ret gw' → gw_reachable PeerID PeerToken gw'.
(** A connection that is served in [gw'] was already served in [gw], or the
    event is its request, and that was authenticated. *)
Definition authenticated (gw : Gateway) (ev : gw_event) (gw' : Gateway) : Prop := ∀ p sv, gw_serving gw' !! p = Some sv →
  (∃ r, gw_serving gw !! p = Some (mkServing (sv_key sv) (sv_peer sv) r)) ∨
  ∃ id token authorizer rnd ids lorder, ev = GRequest id token authorizer None rnd ids lorder ∧
    Server_auth (gw_server gw) id token authorizer = (sv_key sv, true, sv_peer sv, None).
Lemma same_authenticated gw ev gw' :
  (∀ p sv, gw_serving gw' !! p = Some sv → ∃ r, gw_serving gw !! p = Some (mkServing (sv_key sv) (sv_peer sv) r)) → authenticated gw ev gw'.
Proof. intros Hs p sv Hp. left. by apply Hs. Qed.
Lemma kept_authenticated gw ev gw' : gw_serving gw' ⊆ gw_serving gw → authenticated gw ev gw'.
Proof. intros Hs. apply same_authenticated. intros p [k b r] Hp. exists r. by eapply lookup_weaken. Qed.
Lemma stop_authenticated gw ev p r gw1 : gw_serving gw1 = gw_serving gw → authenticated gw ev (stop gw1 p r).
Proof.
  intros Hg. apply same_authenticated. intros q sv. simpl. rewrite Hg, lookup_alter. case_decide; [|intros Hq; destruct sv; by eexists].
  subst. intros (sv' & Hsv & ->)%fmap_Some. exists (sv_stopped sv'). by destruct sv'.
Qed.
Lemma gw_step_ok gw ev : gateway_ok gw → gw_ev_ok gw ev → ∃ gw', run_gw gw ev = Ret gw' ∧ gateway_ok gw' ∧ authenticated gw ev gw'.
Proof.
  intros Hok Hev. destruct ev as [id token authorizer upgrade rnd ids lorder|p i|p lorder corder|ids corder porder|p corder|p ev|k dl proto address porder|url id token|id];
    cbn [run_gw gw_ev_ok] in *.
  - destruct Hev as [Hids Hl]. destruct (request_ok gw Hok id token authorizer upgrade rnd ids lorder Hids Hl) as (gw' & a & -> & Hok' & Hau).
    exists gw'. split; [done|]. split; [done|]. intros p sv Hp. destruct (Hau p) as [He|(-> & k & b & He & Hs)]; rewrite He in Hp.
    + left. exists (sv_stopped sv). by destruct sv.
    + right. injection Hp as <-. by eexists _, _, _, _, _, _.
  - destruct (gw_receive_ok gw Hok p i) as (gw' & Hr & Hok'); [destruct Hev as [(k & b & Hp)|Hp]; [left|right]; by eexists|].
    exists gw'. split; [done|]. split; [done|]. unfold receive in Hr. destruct (sessions _ !! p) as [s|]; [|done].
    destruct (Serve_once io_chunks s i) as [[s' r]|]; [|done]. injection Hr as <-. by apply stop_authenticated.
  - destruct Hev as (_ & Hl & s & Hs & Hc). destruct (end_ok gw Hok p lorder corder s Hl Hs Hc) as (gw' & -> & Hok' & Hsv).
    exists gw'. split; [done|]. split; [done|]. apply kept_authenticated. rewrite Hsv. apply delete_subseteq.
  - destruct Hev as (Hids & Hc & Hp). destruct (connected_ok gw Hok ids corder porder Hids Hc Hp) as (gw' & -> & Hok' & Hsv).
    exists gw'. split; [done|]. split; [done|]. apply kept_authenticated. by rewrite Hsv.
  - destruct Hev as (_ & s & Hs & Hc). destruct (ended_ok gw Hok p corder s Hs Hc) as (gw' & -> & Hok' & Hsv).
    exists gw'. split; [done|]. split; [done|]. apply kept_authenticated. by rewrite Hsv.
  - destruct Hev as (s & Hs & Hev). unfold session_at in Hs. rewrite Hs. destruct (mok_sessions _ (gok_manager _ Hok) _ _ Hs) as [Hsok _].
    destruct (run_event_ok io_chunks s ev Hsok Hev) as (s' & Hr & Hs'). rewrite Hr. pose proof Hr as (_ & Hk & _)%run_event_dials.
    eexists. split; [done|]. split; [by apply (change_ok gw Hok p s)|by apply kept_authenticated].
  - destruct Hev as (Hdl & Hp & Hids). destruct (dial_ok gw Hok k dl proto address porder Hdl Hp Hids) as (sm & r & -> & Hok').
    eexists. split; [done|]. split; [done|by apply kept_authenticated].
  - eexists. split; [done|]. split; [by destruct Hok|by apply kept_authenticated].
  - eexists. split; [done|]. split; [by destruct Hok|by apply kept_authenticated].
Qed.

(** C29: The tunnel server does not panic, and its tables list the authenticated
    connections.  Whatever arrives from any number of clients and peers, and
    however their requests, frames, ends and the uses of their sessions
    interleave, the next step of the server returns.  Every session in the table
    of clients or of peers is that of a connection being served, which was
    authenticated for the key it is listed under; and every connection being
    served is in the table of its kind under its key, unless another session,
    which is no longer served, was given the same random key for the same client
    ([displaced]): the removal of a session removes all of its key.  Exactly the
    sessions of connected peers are told of other sessions. *)
Theorem gateway_safe PeerID PeerToken gw ev : gw_reachable PeerID PeerToken gw → gw_ev_ok gw ev →
  gateway_ok gw ∧ ∃ gw', run_gw gw ev = Ret gw' ∧ gateway_ok gw' ∧ authenticated gw ev gw'.
Proof.
  intros Hr Hev. assert (gateway_ok gw) as Hok; [|split; [done|by apply gw_step_ok]]. clear Hev.
  induction Hr as [|gw1 ev1 gw2 Hr IH Hev Hrun].
  - split; simpl; [by split|done|done| | |by intros ????]; intros q; [by intros [[? ?]|[? ?]]|]. rewrite lookup_empty. split; [set_solver|by intros [? ?]].
  - destruct (gw_step_ok gw1 ev1 IH Hev) as (gw3 & Hrun' & Hok & _). congruence.
Qed.
End Steps.

(** ** Examples *)
Lemma gateway_safe_witness :
  (∃ gw', run_gw (λ b, [b]) (New "" "") (GRequest "" "" ("c1", true, None) None 99 0 []) = Ret gw' ∧ gateway_ok gw') ∧
  (match run_gw (λ b, [b]) (New "" "") (GRequest "" "" ("c1", true, None) None 99 0 []) with
   | Ret gw => clients (gw_manager gw) !! "c1" | Panic => None end) = Some [0%nat].
Proof.
  split; [|vm_compute; reflexivity].
  destruct (gateway_safe (λ b, [b]) "" "" (New "" "") (GRequest "" "" ("c1", true, None) None 99 0 [])) as [_ (gw' & Hr & Hok & _)].
  - apply gw_new.
  - split; [reflexivity|]. vm_compute. reflexivity.
  - exists gw'. split; [exact Hr|exact Hok].
Defined.

Definition run_all (gw : Gateway) (evs : list gw_event) : go Gateway := foldM (run_gw (λ b, [b])) evs gw.
(** A client connects, sends something that is no frame, and is gone. *)
Example bad_frame_ends :
  (λ gw, (clients (gw_manager gw) !! "c1", size (gw_serving gw))) <$>
    run_all (New "" "") [GRequest "" "" ("c1", true, None) None 99 0 []; GReceive 0 OtherMessage; GEnd 0 [] []]
  = Ret (None, 0%nat).
Proof. vm_compute. reflexivity. Qed.
Example unauthenticated_refused :
  (λ r, r.2) <$> ServeHTTP_begin (New "" "") "peer" "guess" ("", false, None) None 99 0 [] = Ret (Refused 401 errFailedAuth).
Proof. vm_compute. reflexivity. Qed.
(** The body goes out before the status is set: a refusal has status 200. *)
Example refusals_are_200 : response_status (DefaultErrorWriter 401 errFailedAuth) = 200.
Proof. reflexivity. Qed.
(** The session of a peer is told of the clients there are. *)
Example peer_is_told :
  (λ gw, (λ s, length (out s)) <$> sessions (gw_manager gw) !! 1%nat) <$>
    run_all (New "me" "t") [GRequest "" "" ("c1", true, None) None 99 0 []; GPeerConnected 0 [("c1", [0%nat])] []]
  = Ret (Some 1%nat).
Proof. vm_compute. reflexivity. Qed.
