(* ===== verification/Pings.v ===== *)
(** * Keeping a tunnel alive

    The times of a tunnel (pkg/remotedialer): the deadlines of wsconn.go, the
    goroutine of startPings and stopPings (session.go, session_windows.go), and
    the loop of Session.Serve over a websocket that may time out, which composes
    [Gateway].  A time is a number of nanoseconds.

    The network is a list of frames with the time at which each is read.  Frames
    that came with an earlier one are read from a buffer, which has no deadline.
    A message is one frame, read whole. *)

From S2P Require Import Prelude GoStrings Values Errors Message Tunnel Manager Gateway.

(** ** types.go *)
Definition PingWaitDuration : Z := 10 * Second.
Definition PingWriteInterval : Z := 5 * Second.

(** ** wsconn.go *)
Inductive wsframe := PingFrame | PongFrame | TextFrame | BinaryFrame (data : string) | Broken (err : error).
(** The deadlines, and the frames that were written. *)
Record wsConn := mkWsConn { w_read : Z; w_write : option Z; w_sent : list wsframe }.
Definition set_read_deadline (w : wsConn) (t : Z) : wsConn := mkWsConn t (w_write w) (w_sent w).
Definition set_write_deadline (w : wsConn) (t : Z) : wsConn := mkWsConn (w_read w) (Some t) (w_sent w).
(** A frame is written, or the websocket says why not. *)
Definition write_frame (w : wsConn) (f : wsframe) (failed : option error) : wsConn * option error :=
  match failed with
  | Some err => (w, Some err)
  | None => (mkWsConn (w_read w) (w_write w) (w_sent w ++ [f]), None)
  end.
(** setupDeadline: the first deadline, and the handlers of pings and pongs.  An
    error of writing a pong is dropped. *)
Definition setupDeadline (w : wsConn) (now : Z) : wsConn := set_read_deadline w (now + PingWaitDuration).
Definition ping_handler (w : wsConn) (now : Z) (failed : option error) : wsConn :=
  set_read_deadline (write_frame w PongFrame failed).1 (now + PingWaitDuration).
Definition pong_handler (w : wsConn) (now : Z) : wsConn := set_read_deadline w (now + PingWaitDuration).
Definition newWSConn (now : Z) : wsConn := setupDeadline (mkWsConn 0 None []) now.
Definition WriteMessage (w : wsConn) (now : Z) (f : wsframe) (failed : option error) : wsConn * option error :=
  write_frame (set_write_deadline w (now + PingWaitDuration)) f failed.

(** A frame that is read: when, from the buffer or not, and whether a pong that
    answers it could not be written. *)
Record reading := mkReading { r_time : Z; r_buffered : bool; r_frame : wsframe; r_failed : option error }.
Definition in_time (w : wsConn) (r : reading) : bool := r_buffered r || (r_time r <? w_read w).
Definition is_control (f : wsframe) : bool := match f with PingFrame | PongFrame => true | _ => false end.

Section Pings.
Context (io_chunks : string → list string).
(** The error of a read after its deadline. *)
Variable timeout : error.

(** The next message; pings and pongs are handled meanwhile.  When nothing else
    arrives the deadline passes. *)
Fixpoint NextReader (w : wsConn) (l : list reading) : wsConn * incoming * list reading :=
  match l with
  | [] => (w, NextReaderError timeout, [])
  | r :: l =>
      if negb (in_time w r) then (w, NextReaderError timeout, l)
      else match r_frame r with
           | PingFrame => NextReader (ping_handler w (r_time r) (r_failed r)) l
           | PongFrame => NextReader (pong_handler w (r_time r)) l
           | TextFrame => (w, OtherMessage, l)
           | BinaryFrame data => (w, BinaryMessage data, l)
           | Broken err => (w, NextReaderError err, l)
           end
  end.
(** The loop of Serve; [None] when it does not end within the fuel. *)
Fixpoint Serve_conn (fuel : nat) (w : wsConn) (s : Session) (l : list reading) : option (go (wsConn * Session * (Z * error))) :=
  match fuel with
  | O => None
  | S fuel =>
      let '(w, i, l) := NextReader w l in
      match Serve_once io_chunks s i with
      | Panic => Some Panic
      | Ret (s, Some r) => Some (Ret (w, s, r))
      | Ret (s, None) => Serve_conn fuel w s l
      end
  end.

(** ** startPings and stopPings *)
Record pinger := mkPinger {
  p_root : bool;            (* the goroutine of session_windows.go has a context to derive its own from *)
  p_started : bool;
  p_cancelled : bool;
  p_returned : bool;
  p_tick : bool;            (* the channel of a ticker holds one tick *)
  p_written : nat           (* writes of a ping *)
}.
Definition no_pinger : pinger := mkPinger false false false false false 0.
Definition startPings (p : pinger) : pinger := mkPinger false true false false false (p_written p).
Definition startPingsWhileWindows (p : pinger) : pinger := mkPinger true true false false false (p_written p).
(** stopPings cancels, and returns when the goroutine has. *)
Definition stopPings_cancels (p : pinger) : pinger :=
  if p_started p then mkPinger (p_root p) true true (p_returned p) (p_tick p) (p_written p) else p.
Definition stopPings_returns (p : pinger) : bool := negb (p_started p) || p_returned p.
Inductive pevent :=
| Ticks                     (* every PingWriteInterval *)
| RootDone                  (* the context given to ServeWhileWindows is done *)
| SelectsDone               (* the goroutine returns *)
| SelectsTick.              (* it writes a ping, and logs an error *)
Definition pstep (p : pinger) (e : pevent) : option pinger :=
  let '(mkPinger root started cancelled returned tick written) := p in
  if negb started then None
  else match e with
  | Ticks => if returned then None else Some (mkPinger root true cancelled returned true written)
  | RootDone => if root then Some (mkPinger root true true returned tick written) else None
  | SelectsDone => if cancelled && negb returned then Some (mkPinger root true cancelled true tick written) else None
  | SelectsTick => if tick && negb returned then Some (mkPinger root true cancelled returned false (S written)) else None
  end.
Fixpoint psteps (p : pinger) (l : list pevent) : option pinger :=
  match l with [] => Some p | e :: l => p ← pstep p e; psteps p l end.
(** A client starts to ping before it serves.  The context of ServeWhileWindows
    only ends the pings: the loop ends when the peer does not hear them. *)
Definition Serve_pinging (fuel : nat) (w : wsConn) (s : Session) (p : pinger) (l : list reading) :=
  (if client s then startPings p else p, Serve_conn fuel w s l).
Definition ServeWhileWindows (fuel : nat) (w : wsConn) (s : Session) (p : pinger) (l : list reading) :=
  (if client s then startPingsWhileWindows p else p, Serve_conn fuel w s l).

(** ** What a session hears

    The messages of the frames up to the deadline, with the end of the
    connection, and those there would be without a deadline. *)
Fixpoint heard (w : wsConn) (l : list reading) : list incoming :=
  match l with
  | [] => [NextReaderError timeout]
  | r :: l =>
      if negb (in_time w r) then [NextReaderError timeout]
      else match r_frame r with
           | PingFrame => heard (ping_handler w (r_time r) (r_failed r)) l
           | PongFrame => heard (pong_handler w (r_time r)) l
           | TextFrame => [OtherMessage]
           | BinaryFrame data => BinaryMessage data :: heard w l
           | Broken err => [NextReaderError err]
           end
  end.
Fixpoint said_by_peer (l : list reading) : list incoming :=
  match l with
  | [] => [NextReaderError timeout]
  | r :: l =>
      match r_frame r with
      | PingFrame | PongFrame => said_by_peer l
      | TextFrame => [OtherMessage]
      | BinaryFrame data => BinaryMessage data :: said_by_peer l
      | Broken err => [NextReaderError err]
      end
  end.
Lemma NextReader_heard l : ∀ w,
  let '(w', i, l') := NextReader w l in
  (length l' ≤ length l)%nat ∧
  heard w l = i :: match i with BinaryMessage _ => heard w' l' | _ => [] end ∧
  (match i with BinaryMessage _ => length l' < length l | _ => True end)%nat.
Proof.
  induction l as [|r l IH]; intros w; simpl; [done|]. destruct (in_time w r); simpl; [|by split_and!; [lia| |]].
  assert (∀ w, let '(w', i, l') := NextReader w l in
    (length l' ≤ S (length l))%nat ∧ heard w l = i :: match i with BinaryMessage _ => heard w' l' | _ => [] end ∧
    (match i with BinaryMessage _ => length l' < S (length l) | _ => True end)%nat) as Hnext.
  { intros w1. specialize (IH w1). destruct (NextReader w1 l) as [[w' i] l']. destruct IH as (H1 & H2 & H3).
    split_and!; [lia|done|]. destruct i; [done|done|lia]. }
  destruct (r_frame r); [apply Hnext|apply Hnext|split_and!; [lia|done|done]|split_and!; [lia|done|lia]|split_and!; [lia|done|done]].
Qed.
(** Serving a connection ends, and is serving what is heard on it. *)
Lemma Serve_conn_heard fuel : ∀ w s l, (length l < fuel)%nat →
  ∃ w', Serve_conn fuel w s l =
    Some ('(s', r) ← Serve io_chunks s (heard w l); match r with Some r => Ret (w', s', r) | None => Panic end) ∧
  ∀ s', Serve io_chunks s (heard w l) ≠ Ret (s', None).
Proof.
  induction fuel as [|fuel IH]; intros w s l Hl; [lia|]. simpl. pose proof (NextReader_heard l w) as Hn.
  destruct (NextReader w l) as [[w1 i] l1]. destruct Hn as (H1 & H2 & H3). rewrite H2. simpl.
  destruct i as [err| |data]; simpl; [by exists w1|by exists w1|].
  destruct (serveMessage io_chunks s data) as [[s' [err|]]|]; simpl; [by exists w1| |by exists w1].
  destruct (IH w1 s' l1 ltac:(lia)) as (w' & He & Hne). exists w'. by rewrite He.
Qed.

(** ** Alive *)
(** The peer pings at [start] and every [PingWriteInterval] after it, and the
    frames of a ping or pong are read at most [lag] later; so are all frames
    before them, in their order. *)
Fixpoint on_schedule (start lag k : Z) (l : list reading) : Prop :=
  match l with
  | [] => True
  | r :: l =>
      r_time r ≤ start + (k + 1) * PingWriteInterval + lag ∧
      (is_control (r_frame r) = true → start + (k + 1) * PingWriteInterval ≤ r_time r) ∧
      on_schedule start lag (if is_control (r_frame r) then k + 1 else k) l
  end.
Lemma alive_heard start lag l : lag < PingWaitDuration - PingWriteInterval → ∀ k w,
  start + k * PingWriteInterval + PingWaitDuration ≤ w_read w → on_schedule start lag k l → heard w l = said_by_peer l.
Proof.
  intros Hlag. induction l as [|r l IH]; intros k w Hw Hs; [done|]. simpl in Hs |- *. destruct Hs as (Ht & Hc & Hs).
  unfold PingWaitDuration, PingWriteInterval, Second in *.
  assert (in_time w r = true) as -> by (unfold in_time; apply orb_true_iff; right; apply Z.ltb_lt; lia). simpl.
  destruct (r_frame r); try done; simpl in Hc, Hs.
  - apply (IH (k + 1)); [|done]. specialize (Hc eq_refl). simpl. unfold PingWaitDuration, Second. lia.
  - apply (IH (k + 1)); [|done]. specialize (Hc eq_refl). simpl. unfold PingWaitDuration, Second. lia.
  - by rewrite (IH k).
Qed.
(** As long as pings are sent on time and read (or answered and read) within less
    than five seconds the deadlines have no effect: all that the peer said is
    served, as by a websocket without deadlines. *)
Theorem pings_keep_alive fuel s l start lag :
  lag < PingWaitDuration - PingWriteInterval → on_schedule start lag 0 l → (length l < fuel)%nat →
  ∃ w, Serve_conn fuel (newWSConn start) s l =
    Some ('(s', r) ← Serve io_chunks s (said_by_peer l); match r with Some r => Ret (w, s', r) | None => Panic end) ∧
  ∀ s', Serve io_chunks s (said_by_peer l) ≠ Ret (s', None).
Proof.
  intros Hlag Hs Hf. rewrite <- (alive_heard start lag l Hlag 0 (newWSConn start)); [by apply Serve_conn_heard| |done].
  simpl. lia.
Qed.

(** ** Silent *)
Lemma heard_cut t pre r post : ∀ w,
  w_read w ≤ t + PingWaitDuration → Forall (λ x, is_control (r_frame x) = true → r_time x ≤ t) pre →
  r_buffered r = false → t + PingWaitDuration ≤ r_time r →
  heard w (pre ++ r :: post) = heard w pre.
Proof.
  induction pre as [|x pre IH]; intros w Hw Hpre Hb Hr; simpl.
  - unfold in_time. rewrite Hb. simpl. destruct (Z.ltb_spec (r_time r) (w_read w)); [lia|done].
  - apply Forall_cons in Hpre as [Hx Hpre]. destruct (in_time w x); [|done]. simpl.
    destruct (r_frame x); try done; simpl in Hx; [apply IH; [simpl; specialize (Hx eq_refl); lia|done..]..|].
    by rewrite IH.
Qed.
(** A peer that is silent is noticed: ten seconds after its last ping or pong the
    session ends, whatever else it sends and whenever it says more. *)
Theorem silence_ends_session fuel t w s pre r post :
  w_read w ≤ t + PingWaitDuration → Forall (λ x, is_control (r_frame x) = true → r_time x ≤ t) pre →
  r_buffered r = false → t + PingWaitDuration ≤ r_time r → (length pre < fuel)%nat →
  (∃ w', Serve_conn (fuel + S (length post)) w s (pre ++ r :: post) =
     Some ('(s', res) ← Serve io_chunks s (heard w pre); match res with Some res => Ret (w', s', res) | None => Panic end)) ∧
  ∃ served last, heard w pre = served ++ [last] ∧ (∀ i, last ≠ BinaryMessage i) ∧ (length served ≤ length pre)%nat.
Proof.
  intros Hw Hpre Hb Hr Hf. split.
  - destruct (Serve_conn_heard (fuel + S (length post)) w s (pre ++ r :: post)) as (w' & He & _).
    { rewrite length_app. simpl. lia. }
    exists w'. rewrite He. by rewrite (heard_cut t).
  - clear Hw Hpre Hf. revert w. induction pre as [|x pre IH]; intros w; simpl; [by exists [], (NextReaderError timeout)|].
    destruct (in_time w x); simpl; [|by exists [], (NextReaderError timeout); split_and!; [| |simpl; lia]].
    destruct (r_frame x) as [| | |data|err]; simpl.
    + destruct (IH (ping_handler w (r_time x) (r_failed x))) as (sv & i & -> & Hi & Hle). exists sv, i. split_and!; [done..|lia].
    + destruct (IH (pong_handler w (r_time x))) as (sv & i & -> & Hi & Hle). exists sv, i. split_and!; [done..|lia].
    + exists [], OtherMessage. split_and!; [done..|simpl; lia].
    + destruct (IH w) as (sv & i & -> & Hi & Hle). exists (BinaryMessage data :: sv), i. split_and!; [done..|simpl; lia].
    + exists [], (NextReaderError err). split_and!; [done..|simpl; lia].
Qed.

(** ** Stopping the pings *)
Definition count_ticks (l : list pevent) : nat := length (List.filter (λ e, match e with Ticks => true | _ => false end) l).
Lemma psteps_bound l : ∀ p p', psteps p l = Some p' →
  (p_written p' + (if p_tick p' then 1 else 0) ≤ p_written p + (if p_tick p then 1 else 0) + count_ticks l)%nat ∧
  (p_returned p = true → p_returned p' = true ∧ p_written p' = p_written p) ∧
  (p_cancelled p = true → p_cancelled p' = true) ∧ (l ≠ [] → p_started p = true) ∧ p_started p' = p_started p.
Proof.
  induction l as [|e l IH]; intros p p' Hr; simpl in Hr; [injection Hr as <-; simpl; split_and!; try done; lia|].
  destruct (pstep p e) as [p1|] eqn:Hs; [|done]. simpl in Hr. destruct (IH p1 p' Hr) as (H1 & H2 & H3 & H4 & H5). clear IH Hr.
  unfold count_ticks in *. destruct p as [root started cancelled returned tick written]. unfold pstep in Hs.
  destruct started; [|done]. destruct e, root, cancelled, returned, tick; simpl in Hs; try done; injection Hs as <-; simpl in *;
    split_and!; try done; try lia; try tauto.
Qed.
(** Pings end with their session.  A ping is written for a tick, each at most once;
    when stopPings has returned none is written any more; and while it waits the
    goroutine can return in its next step. *)
Theorem pings_stop p l p' : p_tick p = false → psteps (stopPings_cancels p) l = Some p' →
  (p_written p' ≤ p_written p + count_ticks l)%nat ∧
  (stopPings_returns p' = true → ∀ l' p'', psteps p' l' = Some p'' → p_written p'' = p_written p') ∧
  (stopPings_returns p' = false → ∃ p'', pstep p' SelectsDone = Some p'' ∧ stopPings_returns p'' = true).
Proof.
  intros Ht Hr. destruct (psteps_bound l _ _ Hr) as (H1 & _ & H3 & _ & H5). split_and!.
  - unfold stopPings_cancels in H1. destruct (p_started p); simpl in H1; rewrite Ht in H1; destruct (p_tick p'); lia.
  - intros Hret [|e l'] p'' Hr'; [by injection Hr' as <-|]. destruct (psteps_bound _ _ _ Hr') as (_ & K2 & _ & K4 & _).
    unfold stopPings_returns in Hret. rewrite (K4 ltac:(done)) in Hret. by apply K2.
  - destruct p' as [root started cancelled returned tick written]. simpl in *. unfold stopPings_returns. simpl.
    intros [Hst Hre]%orb_false_iff. apply negb_false_iff in Hst as ->. subst returned. unfold stopPings_cancels in H3, H5.
    destruct (p_started p) eqn:Hps; [|congruence]. simpl in H3. rewrite (H3 eq_refl). by eexists.
Qed.
End Pings.

(** ** Example: a client that pings every five seconds and then stops; what it sends
    eleven seconds later is not read.  Messages do not keep a tunnel alive. *)
Section Example.
Definition at_second (t : Z) (f : wsframe) : reading := mkReading (t * Second) false f None.
Definition lost_connection : list reading :=
  [at_second 5 PingFrame; at_second 6 (BinaryFrame "a"); at_second 10 PingFrame; at_second 19 (BinaryFrame "b"); at_second 21 (BinaryFrame "c")].
Example only_pings_keep_alive :
  heard (ErrorString "i/o timeout") (newWSConn 0) lost_connection =
    [BinaryMessage "a"; BinaryMessage "b"; NextReaderError (ErrorString "i/o timeout")] ∧
  on_schedule 0 Second 0 (take 3 lost_connection) ∧ ¬ on_schedule 0 (4 * Second) 0 (take 4 lost_connection ++ [at_second 20 PingFrame]).
Proof.
  split_and!; [reflexivity|unfold lost_connection, at_second, PingWriteInterval, Second; simpl; split_and!; first [done|lia]|].
  unfold lost_connection, at_second, PingWriteInterval, Second. simpl. intros H. decompose [and] H. lia.
Qed.
Example pings_until_stopped :
  (λ p, (p_written p, stopPings_returns p)) <$> psteps (startPings no_pinger) [Ticks; SelectsTick; Ticks; Ticks; SelectsTick] = Some (2%nat, false) ∧
  psteps (startPings no_pinger) [SelectsDone] = None ∧ stopPings_returns (stopPings_cancels no_pinger) = true ∧
  (λ p, (p_written p, stopPings_returns p)) <$> psteps (startPingsWhileWindows no_pinger) [Ticks; RootDone; SelectsTick; SelectsDone] = Some (1%nat, true).
Proof. by vm_compute. Qed.
End Example.
