(* ===== verification/Lifecycle.v ===== *)
(** * Object lifecycle

    Models lifecycle/object.go: the handler that turns the changes of an object
    into calls of Create, Updated and Finalize, marking the object with an
    annotation once it was created and holding its deletion back with a
    finalizer.

    Objects are handled by pointer and changed in place, and the object the
    handler is called with belongs to the cache of the controller: the state is
    a heap of objects together with the state [X] of everything else (the API
    server, what the lifecycle functions work on).  The lifecycle functions and
    the object client are parameters.  An object owns its slices and maps; nil
    and empty ones are told apart, as reflect.DeepEqual does. *)

From S2P Require Import Prelude GoStrings Errors TypeNames.

Record ObjectMeta := mkMeta {
  MNamespace : string;
  MName : string;
  DeletionTimestamp : option string;
  Finalizers : option (list string);
  Annotations : option (gmap string string)
}.
#[export] Instance ObjectMeta_eq_dec : EqDecision ObjectMeta.
Proof. solve_decision. Defined.

Definition set_finalizers (m : ObjectMeta) (l : option (list string)) : ObjectMeta :=
  mkMeta (MNamespace m) (MName m) (DeletionTimestamp m) l (Annotations m).
Definition set_annotations (m : ObjectMeta) (a : option (gmap string string)) : ObjectMeta :=
  mkMeta (MNamespace m) (MName m) (DeletionTimestamp m) (Finalizers m) a.
Definition finalizers_of (m : ObjectMeta) : list string := default [] (Finalizers m).

Definition created : string := "lifecycle.cattle.io/create".
Definition finalizerKey : string := "controller.cattle.io/".
Definition ScopedFinalizerKey : string := "clusterscoped.controller.cattle.io/".

(** meta.Accessor's error on something without metadata. *)
Definition errNotObject : error := ErrorString "object does not implement the Object interfaces".

(** The phases of the life of an object. *)
Inductive phase := New | Ready | Deleting | Done.
#[export] Instance phase_eq_dec : EqDecision phase.
Proof. solve_decision. Defined.

Section Lifecycle.
(** [D] is the rest of an object. *)
Context {X D : Type} `{EqDecision D}.

Record object := mkObject { ometa : option ObjectMeta; odata : D }.
#[export] Instance object_eq_dec : EqDecision object.
Proof. solve_decision. Defined.

Record world := mkWorld { heap : gmap nat object; ext : X }.

(** The functions of the lifecycle and the client may change the heap; a
    result of nil is [None]. *)
Abbreviation call := (world → nat → world * option nat * option error).
Record ObjectLifecycle := mkLifecycle {
  Create : call;
  Finalize : call;
  Updated : call;
  HasCreate : option bool;     (* None: no ObjectLifecycleCondition *)
  HasFinalize : option bool
}.
Record ObjectClient := mkClient {
  client_Update : string → call;
  client_Get : string → string → world → world * option nat * option error
}.
Record objectLifecycleAdapter := mkAdapter {
  aname : string;
  clusterScoped : bool;
  lifecycle : ObjectLifecycle;
  objectClient : ObjectClient
}.

(** ** Objects *)
Definition Accessor (w : world) (p : option nat) : result ObjectMeta :=
  match (q ← p; x ← heap w !! q; ometa x) with Some m => inl m | None => inr errNotObject end.
Definition alloc (w : world) (o : object) : world * nat :=
  let p := fresh (dom (heap w)) in (mkWorld (<[p := o]> (heap w)) (ext w), p).
(** obj.DeepCopyObject(); a dangling pointer does not occur. *)
Definition DeepCopyObject (w : world) (p : nat) : world * nat :=
  match heap w !! p with Some o => alloc w o | None => (w, p) end.
Definition change_meta (f : ObjectMeta → ObjectMeta) (w : world) (p : nat) : world :=
  mkWorld (alter (λ o, mkObject (f <$> ometa o) (odata o)) p (heap w)) (ext w).
Definition DeepEqual (w : world) (p q : nat) : bool := bool_decide (heap w !! p = heap w !! q).

Section Adapter.
Variable o : objectLifecycleAdapter.

Definition createKey : string := created +:+ "." +:+ aname o.
Definition constructFinalizerKey : string :=
  if clusterScoped o then ScopedFinalizerKey +:+ aname o else finalizerKey +:+ aname o.
Definition hasFinalize : bool := default true (HasFinalize (lifecycle o)).
Definition hasCreate : bool := default true (HasCreate (lifecycle o)).
Definition isInitialized (m : ObjectMeta) : bool :=
  bool_decide (default "" (a ← Annotations m; a !! createKey) = "true").

(** update: the original is never nil. *)
Definition update (name : string) (w : world) (orig : nat) (obj : option nat) : world * nat * option error :=
  match obj with
  | None => (w, orig, None)
  | Some obj =>
      if DeepEqual w orig obj then (w, obj, None)
      else let '(w, newObj, err) := client_Update (objectClient o) name w obj in (w, default obj newObj, err)
  end.

(** record: [f] runs on a copy; the name is read from the original after it. *)
Definition record (w : world) (orig : nat) (f : call) : world * nat * option error :=
  match Accessor w (Some orig) with
  | inr err => (w, orig, Some err)
  | inl m =>
      let '(w, obj) := DeepCopyObject w orig in
      let '(w, newObj, err) := f w obj in
      let name := match Accessor w (Some orig) with inl m => MName m | inr _ => "" end in
      match err, newObj with
      | Some err, _ => let '(w, ret, _) := update name w orig newObj in (w, ret, Some err)
      | None, Some newObj => update name w orig (Some newObj)
      | None, None => (w, obj, None)
      end
  end.

Definition maybeDeepCopy (w : world) (old newObj : nat) : world * nat :=
  if decide (old = newObj) then DeepCopyObject w old else (w, newObj).

Definition without (name : string) (l : list string) : list string := filter (λ f, f ≠ name) l.
(** A slice grown by append stays nil when nothing is appended. *)
Definition slice_of (l : list string) : option (list string) := match l with [] => None | _ => Some l end.

(** The loop of removeFinalizer, with [n] rounds left. *)
Fixpoint removeFinalizer_loop (n : nat) (name : string) (w : world) (obj : option nat)
  : world * option nat * option error :=
  match n with
  | O => (w, None, Some (ErrorString ("failed to remove finalizer on " +:+ name)))
  | S n' =>
      match obj, Accessor w obj with
      | Some p, inl m =>
          let w := change_meta (λ m, set_finalizers m (slice_of (without name (finalizers_of m)))) w p in
          match client_Update (objectClient o) (MName m) w p with
          | (w, newObj, None) => (w, newObj, None)
          | (w, _, Some _) =>
              match client_Get (objectClient o) (MNamespace m) (MName m) w with
              | (w, _, Some err) => (w, None, Some err)
              | (w, obj, None) => removeFinalizer_loop n' name w obj
              end
          end
      | _, inr err => (w, None, Some err)
      | None, _ => (w, None, Some errNotObject)
      end
  end.
Definition removeFinalizer (name : string) (w : world) (obj : nat) : world * option nat * option error :=
  removeFinalizer_loop 3 name w (Some obj).

Definition finalize (w : world) (obj : nat) : world * option nat * bool * option error :=
  if negb hasFinalize then (w, Some obj, true, None)
  else match Accessor w (Some obj) with
  | inr err => (w, Some obj, false, Some err)
  | inl m =>
      match DeletionTimestamp m with
      | None => (w, None, true, None)
      | Some _ =>
          if negb (ContainsString (finalizers_of m) constructFinalizerKey) then (w, None, false, None)
          else match record w obj (Finalize (lifecycle o)) with
               | (w, _, Some err) => (w, Some obj, false, Some err)
               | (w, newObj, None) =>
                   let '(w, copy) := maybeDeepCopy w obj newObj in
                   let '(w, ret, err) := removeFinalizer constructFinalizerKey w copy in
                   (w, ret, false, err)
               end
      end
  end.

Definition addFinalizer (w : world) (obj : nat) : world * option nat * option error :=
  match Accessor w (Some obj) with
  | inr err => (w, None, Some err)
  | inl m =>
      if ContainsString (finalizers_of m) constructFinalizerKey then (w, Some obj, None)
      else
        let '(w, copy) := DeepCopyObject w obj in
        let w := change_meta (λ m, set_finalizers m (Some (finalizers_of m ++ [constructFinalizerKey]))) w copy in
        client_Update (objectClient o) (MName m) w copy
  end.

Definition mark_initialized (m : ObjectMeta) : ObjectMeta :=
  set_annotations m (Some (<[createKey := "true"]> (default ∅ (Annotations m)))).
Definition setInitialized (w : world) (obj : nat) : world * option nat * option error :=
  match Accessor w (Some obj) with
  | inr err => (w, None, Some err)
  | inl m => client_Update (objectClient o) (MName m) (change_meta mark_initialized w obj) obj
  end.

(** create: what follows addFinalizer, on the object it returned. *)
Definition create_object (w : world) (obj : option nat) : world * option nat * bool * option error :=
  if negb hasCreate then (w, obj, true, None)
  else match obj with
  | None => (w, None, false, Some errNotObject)
  | Some obj =>
      match record w obj (Create (lifecycle o)) with
      | (w, ret, Some err) => (w, Some ret, false, Some err)
      | (w, ret, None) => let '(w, ret, err) := setInitialized w ret in (w, ret, false, err)
      end
  end.
Definition create (w : world) (obj : nat) : world * option nat * bool * option error :=
  match Accessor w (Some obj) with
  | inr err => (w, Some obj, false, Some err)
  | inl m =>
      if isInitialized m then (w, None, true, None)
      else if hasFinalize then
        match addFinalizer w obj with
        | (w, ret, Some err) => (w, ret, false, Some err)
        | (w, ret, None) => create_object w ret
        end
      else create_object w (Some obj)
  end.

(** What the controller passes: nil, something that is no object, or an object. *)
Inductive input := InNil | InOther | InObject (p : nat).

Definition sync (w : world) (i : input) : world * option nat * option error :=
  match i with
  | InNil | InOther => (w, None, None)
  | InObject obj =>
      match finalize w obj with
      | (w, _, _, Some err) => (w, None, Some err)
      | (w, _, false, None) => (w, None, None)
      | (w, newObj, true, None) =>
          let obj := default obj newObj in
          match create w obj with
          | (w, _, _, Some err) => (w, None, Some err)
          | (w, _, false, None) => (w, None, None)
          | (w, newObj, true, None) =>
              let '(w, ret, err) := record w (default obj newObj) (Updated (lifecycle o)) in (w, Some ret, err)
          end
      end
  end.

(** ** The cache is not changed

    A call is [framed] when it changes no object but the one it is given, and
    returns that one or a new one. *)
Definition framed_result (w w' : world) (p : option nat) (r : option nat) : Prop :=
  dom (heap w) ⊆ dom (heap w') ∧
  (∀ q, q ∈ dom (heap w) → Some q ≠ p → heap w' !! q = heap w !! q) ∧
  (∀ q, r = Some q → q ∈ dom (heap w') ∧ (Some q = p ∨ q ∉ dom (heap w))).
Definition framed (f : call) : Prop :=
  ∀ w p w' r e, f w p = (w', r, e) → p ∈ dom (heap w) → framed_result w w' (Some p) r.
Record adapter_framed : Prop := {
  framed_create : framed (Create (lifecycle o));
  framed_finalize : framed (Finalize (lifecycle o));
  framed_updated : framed (Updated (lifecycle o));
  framed_client : ∀ name, framed (client_Update (objectClient o) name);
  framed_get : ∀ ns name w w' r e, client_Get (objectClient o) ns name w = (w', r, e) → framed_result w w' None r
}.

(** [w'] keeps the objects [S] of [w] as they are; [mine]: an object outside of [S]. *)
Definition keeps (S : gset nat) (w w' : world) : Prop :=
  S ⊆ dom (heap w') ∧ ∀ q, q ∈ S → heap w' !! q = heap w !! q.
Definition mine (S : gset nat) (w : world) (q : nat) : Prop := q ∈ dom (heap w) ∧ q ∉ S.

Lemma keeps_refl S w : S ⊆ dom (heap w) → keeps S w w.
Proof. done. Qed.
Lemma keeps_trans S w1 w2 w3 : keeps S w1 w2 → keeps S w2 w3 → keeps S w1 w3.
Proof. intros [_ H1] [H2 H3]. split; [done|]. intros q Hq. rewrite H3, H1; done. Qed.

Lemma framed_keeps S w w' p r :
  framed_result w w' (Some p) r → S ⊆ dom (heap w) → p ∉ S →
  keeps S w w' ∧ (∀ q, r = Some q → mine S w' q) ∧ (p ∈ dom (heap w) → mine S w' p).
Proof.
  intros (Hd & Hk & Hr) HS Hp. split_and!.
  - split; [set_solver|]. intros q Hq. apply Hk; set_solver.
  - intros q Hq. destruct (Hr q Hq) as [? [[= ->]|?]]; split; set_solver.
  - split; set_solver.
Qed.

Lemma framed_call f S w p w' r e :
  framed f → f w p = (w', r, e) → S ⊆ dom (heap w) → mine S w p →
  keeps S w w' ∧ (∀ q, r = Some q → mine S w' q) ∧ mine S w' p.
Proof.
  intros Hff Hf HS [Hp HpS]. destruct (framed_keeps S w w' p r) as (? & ? & ?); [by eapply Hff|done..|]. auto.
Qed.

Lemma keeps_alloc S w x : S ⊆ dom (heap w) → keeps S w (alloc w x).1 ∧ mine S (alloc w x).1 (alloc w x).2.
Proof.
  intros HS. unfold alloc. simpl. pose proof (is_fresh (dom (heap w))) as Hf.
  unfold keeps, mine. simpl. rewrite dom_insert. split; [split|]; [set_solver| |set_solver].
  intros q Hq. rewrite lookup_insert_ne; [done|]. intros <-. by apply Hf, HS.
Qed.

Lemma keeps_copy S w p w' q :
  S ⊆ dom (heap w) → p ∈ dom (heap w) → DeepCopyObject w p = (w', q) → keeps S w w' ∧ mine S w' q.
Proof.
  intros HS [x Hx]%elem_of_dom. unfold DeepCopyObject. rewrite Hx. intros Ha.
  pose proof (keeps_alloc S w x HS) as Hk. by rewrite Ha in Hk.
Qed.

Lemma keeps_change_meta S w f p :
  S ⊆ dom (heap w) → p ∉ S → keeps S w (change_meta f w p) ∧ dom (heap (change_meta f w p)) = dom (heap w).
Proof.
  intros HS Hp. unfold keeps, change_meta. simpl. rewrite dom_alter_L.
  split; [split; [done|]|done]. intros q Hq. apply lookup_alter_ne. set_solver.
Qed.

Section Keeps.
Context (Hfr : adapter_framed).
Implicit Types (S : gset nat).

Lemma update_keeps S name w orig obj w' q e :
  update name w orig obj = (w', q, e) → S ⊆ dom (heap w) → (∀ p, obj = Some p → mine S w p) →
  keeps S w w' ∧ (is_Some obj → mine S w' q) ∧ (obj = None → q = orig ∧ w' = w).
Proof.
  unfold update. intros Hu HS Hm. destruct obj as [p|]; [|simplify_eq; split_and!; [done|by intros [? ?]|done]].
  destruct (Hm p eq_refl) as [Hp HpS]. destruct (DeepEqual w orig p).
  { simplify_eq. split_and!; [done|done|done]. }
  destruct (client_Update _ _ w p) as [[w1 r] e1] eqn:Hc. injection Hu as <- <- <-.
  apply (framed_call _ S) in Hc as (Hk & Hr & Hp'); [|by apply framed_client|done..].
  split_and!; [done| |done]. intros _. destruct r as [r|]; simpl; eauto.
Qed.

Lemma record_keeps S w p f w' q e :
  framed f → record w p f = (w', q, e) → S ⊆ dom (heap w) → p ∈ dom (heap w) →
  keeps S w w' ∧ (e = None → mine S w' q).
Proof.
  intros Hff Hr HS Hp. unfold record in Hr. destruct (Accessor w (Some p)); [|simplify_eq; by split].
  destruct (DeepCopyObject w p) as [w1 c] eqn:Hc. apply (keeps_copy S) in Hc as [Hk1 Hc]; [|done..].
  destruct (f w1 c) as [[w2 r] e2] eqn:Hf.
  apply (framed_call _ S) in Hf as (Hk2 & Hr2 & Hc2); [|done|by apply Hk1|done].
  assert (keeps S w w2) as Hk by by eapply keeps_trans.
  destruct e2 as [e2|].
  - destruct (update _ w2 p r) as [[w3 q3] e3] eqn:Hu. injection Hr as <- <- <-.
    apply (update_keeps S) in Hu as (Hk3 & _); [|by apply Hk2|done]. split; [by eapply keeps_trans|done].
  - destruct r as [r|]; [|injection Hr as <- <- <-; auto].
    apply (update_keeps S) in Hr as (Hk3 & Hq & _); [|by apply Hk2|done]. split; [by eapply keeps_trans|]. auto.
Qed.

Lemma removeFinalizer_keeps S n name w obj w' r e :
  removeFinalizer_loop n name w obj = (w', r, e) → S ⊆ dom (heap w) → (∀ p, obj = Some p → mine S w p) → keeps S w w'.
Proof.
  revert w obj. induction n as [|n IH]; intros w obj Hr HS Hm; simpl in Hr; [by simplify_eq|].
  destruct obj as [p|]; [|by destruct (Accessor w None); simplify_eq].
  destruct (Accessor w (Some p)) as [m|]; [|by simplify_eq]. destruct (Hm p eq_refl) as [Hp HpS].
  destruct (keeps_change_meta S w (λ m, set_finalizers m (slice_of (without name (finalizers_of m)))) p HS HpS) as [Hk1 Hd1].
  destruct (client_Update _ _ _ p) as [[w1 r1] [e1|]] eqn:Hc;
    (apply (framed_call _ S) in Hc as (Hk2 & _); [|by apply framed_client|by apply Hk1|by split; [rewrite Hd1|]]).
  - assert (keeps S w w1) as Hk by by eapply keeps_trans.
    destruct (client_Get _ _ _ w1) as [[w2 r2] [e2|]] eqn:Hg;
      (apply (framed_get Hfr) in Hg as (Hd & Hk3 & Hr3); assert (keeps S w1 w2) as Hk4
         by (split; [by etrans; [apply Hk|]|]; intros q Hq; apply Hk3; [by apply Hk|done])).
    + simplify_eq. by eapply keeps_trans.
    + apply IH in Hr; [by do 2 (eapply keeps_trans; [done|])|by apply Hk4|].
      intros q ->. destruct (Hr3 q eq_refl) as [? [?|Hn]]; [done|]. split; [done|]. destruct Hk as [Hk _]. set_solver.
  - simplify_eq. by eapply keeps_trans.
Qed.

Lemma finalize_keeps S w p w' r c e :
  finalize w p = (w', r, c, e) → S ⊆ dom (heap w) → p ∈ dom (heap w) →
  keeps S w w' ∧ (c = true → w' = w ∧ (r = None ∨ r = Some p)).
Proof.
  unfold finalize. intros Hf HS Hp. destruct hasFinalize; simpl in Hf; [|simplify_eq; split; [done|auto]].
  destruct (Accessor w (Some p)) as [m|]; [|by simplify_eq]. destruct (DeletionTimestamp m); [|simplify_eq; split; [done|auto]].
  destruct (ContainsString _ _); simpl in Hf; [|by simplify_eq].
  destruct (record w p _) as [[w1 q] [e1|]] eqn:Hr; apply (record_keeps S) in Hr as [Hk Hq];
    try done; try apply (framed_finalize Hfr); [by simplify_eq|].
  destruct (maybeDeepCopy w1 p q) as [w2 q2] eqn:Hm. unfold maybeDeepCopy in Hm.
  assert (keeps S w1 w2 ∧ mine S w2 q2) as [Hk2 Hq2].
  { case_decide; [|simplify_eq; split; [apply keeps_refl, Hk|by apply Hq]].
    eapply keeps_copy; [by apply Hk| |done]. subst q. by apply Hq. }
  unfold removeFinalizer in Hf. destruct (removeFinalizer_loop 3 _ w2 (Some q2)) as [[w3 r3] e3] eqn:Hrf. injection Hf as <- <- <- <-.
  apply (removeFinalizer_keeps S) in Hrf; [|by apply Hk2|naive_solver].
  split; [|done]. by do 2 (eapply keeps_trans; [done|]).
Qed.

Lemma addFinalizer_keeps S w p w' r e :
  addFinalizer w p = (w', r, e) → S ⊆ dom (heap w) → p ∈ dom (heap w) →
  keeps S w w' ∧ (∀ q, r = Some q → q ∈ dom (heap w')).
Proof.
  unfold addFinalizer. intros Hf HS Hp. destruct (Accessor w (Some p)) as [m|]; [|by simplify_eq].
  destruct (ContainsString _ _); [simplify_eq; split; [done|naive_solver]|].
  destruct (DeepCopyObject w p) as [w1 c] eqn:Hc. apply (keeps_copy S) in Hc as [Hk1 [Hc1 Hc2]]; [|done..].
  destruct (keeps_change_meta S w1 (λ m, set_finalizers m (Some (finalizers_of m ++ [constructFinalizerKey]))) c) as [Hk2 Hd2];
    [by apply Hk1|done|].
  apply (framed_call _ S) in Hf as (Hk3 & Hr & _); [|by apply framed_client|by apply Hk2|by split; [rewrite Hd2|]].
  split; [by do 2 (eapply keeps_trans; [done|])|]. intros q Hq. by apply Hr.
Qed.

Lemma setInitialized_keeps S w p w' r e :
  setInitialized w p = (w', r, e) → S ⊆ dom (heap w) → mine S w p → keeps S w w'.
Proof.
  unfold setInitialized. intros Hf HS [Hp HpS]. destruct (Accessor w (Some p)) as [m|]; [|by simplify_eq].
  destruct (keeps_change_meta S w mark_initialized p HS HpS) as [Hk Hd].
  apply (framed_call _ S) in Hf as (Hk3 & _); [|by apply framed_client|by apply Hk|by split; [rewrite Hd|]].
  by eapply keeps_trans.
Qed.

Lemma create_object_keeps S w obj w' r c e :
  create_object w obj = (w', r, c, e) → S ⊆ dom (heap w) → (∀ p, obj = Some p → p ∈ dom (heap w)) →
  keeps S w w' ∧ (c = true → w' = w ∧ r = obj).
Proof.
  unfold create_object. intros Hf HS Hp. destruct hasCreate; simpl in Hf; [|by simplify_eq].
  destruct obj as [p|]; [|by simplify_eq].
  destruct (record w p _) as [[w1 q] [e1|]] eqn:Hr; apply (record_keeps S) in Hr as [Hk Hq];
    eauto; try apply (framed_create Hfr); [by simplify_eq|].
  destruct (setInitialized w1 q) as [[w2 r2] e2] eqn:Hs. injection Hf as <- <- <- <-.
  apply (setInitialized_keeps S) in Hs; [|by apply Hk|by apply Hq]. split; [by eapply keeps_trans|done].
Qed.

Lemma create_keeps S w p w' r c e :
  create w p = (w', r, c, e) → S ⊆ dom (heap w) → p ∈ dom (heap w) →
  keeps S w w' ∧ (c = true → p ∈ dom (heap w') ∧ ∀ q, r = Some q → q ∈ dom (heap w')).
Proof.
  unfold create. intros Hf HS Hp. destruct (Accessor w (Some p)) as [m|]; [|by simplify_eq].
  destruct (isInitialized m); [simplify_eq; split; [done|naive_solver]|]. destruct hasFinalize.
  - destruct (addFinalizer w p) as [[w1 r1] [e1|]] eqn:Ha; pose proof Ha as [Hkd _]%(addFinalizer_keeps (dom (heap w))); try done;
      apply (addFinalizer_keeps S) in Ha as [Hk Hr]; try done; [by simplify_eq|].
    apply (create_object_keeps S) in Hf as [Hk2 Hc]; [|by apply Hk|done]. split; [by eapply keeps_trans|].
    intros Ht. destruct (Hc Ht) as [-> ->]. split; [by apply Hkd|done].
  - apply (create_object_keeps S) in Hf as [Hk2 Hc]; [|done|naive_solver]. split; [done|].
    intros Ht. destruct (Hc Ht) as [-> ->]. naive_solver.
Qed.
End Keeps.

(** What sync keeps, and that what it returns is an object. *)
Lemma sync_keeps S w p w' r e :
  adapter_framed → S ⊆ dom (heap w) → p ∈ dom (heap w) → sync w (InObject p) = (w', r, e) →
  keeps S w w' ∧ (e = None → ∀ q, r = Some q → q ∈ dom (heap w')).
Proof.
  intros Hfr HS Hp Hs. unfold sync in Hs. destruct (finalize w p) as [[[w1 r1] c1] e1] eqn:Hf.
  eapply (finalize_keeps Hfr S) in Hf as [Hk1 Hc1]; [|done..].
  destruct e1; [by destruct c1; simplify_eq|]. destruct c1; [|by simplify_eq]. destruct (Hc1 eq_refl) as [-> Hr1].
  replace (default p r1) with p in Hs by by destruct Hr1 as [-> | ->].
  destruct (create w p) as [[[w2 r2] c2] e2] eqn:Hcr.
  eapply (create_keeps Hfr S) in Hcr as [Hk2 Hc2]; [|done..].
  destruct e2; [by destruct c2; simplify_eq|]. destruct c2; [|by simplify_eq]. destruct (Hc2 eq_refl) as [Hp2 Hr2].
  destruct (record w2 _ _) as [[w3 r3] e3] eqn:Hrec. injection Hs as <- <- <-.
  eapply (record_keeps Hfr S) in Hrec as [Hk3 Hr3]; [|apply (framed_updated Hfr)|by apply Hk2|].
  - split; [by eapply keeps_trans|]. intros He q [= <-]. by destruct (Hr3 He).
  - destruct r2 as [q|]; simpl; auto.
Qed.

(** Handling a change leaves the controller's cache alone.  When the
    lifecycle functions and the client change no object but the one they are
    given and return that one or a new one, sync changes no object that existed
    before the call: the one it is given, which belongs to the cache, and all
    others are as they were, whatever errors occur. *)
Theorem sync_keeps_cache w p w' r e :
  adapter_framed → p ∈ dom (heap w) → sync w (InObject p) = (w', r, e) →
  ∀ q, q ∈ dom (heap w) → heap w' !! q = heap w !! q.
Proof.
  intros Hfr Hp Hs. by destruct (sync_keeps (dom (heap w)) w p w' r e) as [[_ Hk] _].
Qed.

(** ** The life of an object

    The abstract view: an object is new, ready, being deleted (with the
    finalizer of this handler still on it), or done.  Without a Finalize
    function deletion is not looked at. *)
Definition phase_of (m : ObjectMeta) : phase :=
  if hasFinalize && bool_decide (is_Some (DeletionTimestamp m)) then
    if ContainsString (finalizers_of m) constructFinalizerKey then Deleting else Done
  else if isInitialized m then Ready else New.
(** What one successful run does. *)
Definition spec_step (ph : phase) : phase :=
  match ph with
  | New => if hasCreate then Ready else New
  | Ready => Ready
  | Deleting | Done => Done
  end.
Definition key_of (m : ObjectMeta) : string * string := (MNamespace m, MName m).

(** The object at [p] is the one with the key [k], in the phase [ph]. *)
Definition is_at (w : world) (p : nat) (k : string * string) (ph : phase) : Prop :=
  ∃ x m, heap w !! p = Some x ∧ ometa x = Some m ∧ key_of m = k ∧ phase_of m = ph.

Section Refinement.
(** The phase in which the API server has an object; an object it does not have
    is done. *)
Variable sphase : X → string * string → phase.

(** A lifecycle function leaves the key and the phase of the object alone, on
    the server as well as in the object it returns or was given. *)
Definition polite (f : call) : Prop :=
  ∀ w p w' r e k ph, f w p = (w', r, e) → is_at w p k ph →
    sphase (ext w') k = sphase (ext w) k ∧ is_at w' p k ph ∧ ∀ q, r = Some q → is_at w' q k ph.

(** The API server: an update that succeeds stores the object, and what it
    returns agrees with it; one that fails, and a read, change nothing. *)
Record server_ok : Prop := {
  server_update : ∀ w p w' r k ph, is_at w p k ph →
    client_Update (objectClient o) k.2 w p = (w', r, None) →
    sphase (ext w') k = ph ∧ ∃ q, r = Some q ∧ is_at w' q k ph;
  server_error : ∀ w p w' r e k ph, is_at w p k ph →
    client_Update (objectClient o) k.2 w p = (w', r, Some e) →
    sphase (ext w') k = sphase (ext w) k ∧ is_at w' p k ph;
  server_get : ∀ w w' r k,
    client_Get (objectClient o) k.1 k.2 w = (w', r, None) →
    sphase (ext w') k = sphase (ext w) k ∧ ∃ q, r = Some q ∧ is_at w' q k (sphase (ext w) k);
  server_get_error : ∀ w w' r e k,
    client_Get (objectClient o) k.1 k.2 w = (w', r, Some e) → sphase (ext w') k = sphase (ext w) k
}.

Context (Hfr : adapter_framed) (Hsrv : server_ok).

(** The object at [p] and the server agree on the phase. *)
Definition tracks (w : world) (p : nat) (k : string * string) (ph : phase) : Prop :=
  is_at w p k ph ∧ sphase (ext w) k = ph.

Lemma is_at_dom w p k ph : is_at w p k ph → p ∈ dom (heap w).
Proof. intros (x & m & Hx & _). by apply elem_of_dom_2 in Hx. Qed.

Lemma is_at_Accessor w p k ph : is_at w p k ph → ∃ m, Accessor w (Some p) = inl m ∧ key_of m = k ∧ phase_of m = ph.
Proof. intros (x & m & Hx & Hm & Hk & Hp). exists m. unfold Accessor. simpl. rewrite Hx. simpl. by rewrite Hm. Qed.

Lemma is_at_same w w' p k ph : heap w' !! p = heap w !! p → is_at w p k ph → is_at w' p k ph.
Proof. intros Heq (x & m & Hx & Hr). exists x, m. by rewrite Heq. Qed.

Lemma copy_is_at w p w' q k ph :
  DeepCopyObject w p = (w', q) → is_at w p k ph →
  is_at w' q k ph ∧ is_at w' p k ph ∧ ext w' = ext w ∧ p ≠ q ∧ q ∉ dom (heap w).
Proof.
  intros Hc Hp. destruct Hp as (x & m & Hx & Hr). unfold DeepCopyObject, alloc in Hc. rewrite Hx in Hc.
  pose proof (is_fresh (dom (heap w))) as Hf. assert (p ≠ fresh (dom (heap w))) as Hne
    by (intros ->; apply Hf; by apply elem_of_dom_2 in Hx).
  injection Hc as <- <-. split_and!; try done; exists x, m; simpl.
  - by rewrite lookup_insert_eq.
  - by rewrite lookup_insert_ne.
Qed.

Lemma change_is_at w p k ph f ph' :
  is_at w p k ph → (∀ m, key_of m = k → phase_of m = ph → key_of (f m) = k ∧ phase_of (f m) = ph') →
  is_at (change_meta f w p) p k ph'.
Proof.
  intros (x & m & Hx & Hm & Hk & Hp) Hf. destruct (Hf m Hk Hp). exists (mkObject (f <$> ometa x) (odata x)), (f m).
  unfold change_meta. simpl. rewrite lookup_alter_eq, Hx. split_and!; [done|by rewrite Hm|done..].
Qed.

Lemma update_tracks w orig obj k ph w' q e :
  update k.2 w orig obj = (w', q, e) → sphase (ext w) k = ph →
  (∀ p, obj = Some p → is_at w p k ph) → (obj = None → is_at w orig k ph) →
  sphase (ext w') k = ph ∧ (e = None → is_at w' q k ph).
Proof.
  unfold update. intros Hu Hs Hp Ho. destruct obj as [p|]; [|simplify_eq; naive_solver].
  specialize (Hp p eq_refl). destruct (DeepEqual w orig p); [by simplify_eq|].
  destruct (client_Update _ _ w p) as [[w1 r] [e1|]] eqn:Hc; injection Hu as <- <- <-.
  - eapply server_error in Hc as [Hs' _]; [|done..]. split; [by rewrite Hs'|done].
  - eapply server_update in Hc as (Hs' & r' & -> & Hr); [|done..]. done.
Qed.

Lemma record_tracks w p f k ph w' q e :
  framed f → polite f → record w p f = (w', q, e) → tracks w p k ph →
  sphase (ext w') k = ph ∧ (e = None → is_at w' q k ph).
Proof.
  intros Hff Hpo Hr [Hp Hs]. unfold record in Hr. destruct (is_at_Accessor _ _ _ _ Hp) as (m & Hm & _).
  rewrite Hm in Hr. destruct (DeepCopyObject w p) as [w1 c] eqn:Hc.
  apply (copy_is_at _ _ _ _ k ph) in Hc as (Hc & Hp1 & Hx & Hne & _); [|done].
  destruct (f w1 c) as [[w2 r] e2] eqn:Hf. destruct (Hff _ _ _ _ _ Hf (is_at_dom _ _ _ _ Hc)) as (_ & Hk & _).
  assert (is_at w2 p k ph) as Hp2 by (eapply is_at_same; [apply Hk; [by eapply is_at_dom|congruence]|done]).
  destruct (Hpo _ _ _ _ _ k ph Hf Hc) as (Hs2 & Hc2 & Hr2).
  destruct (is_at_Accessor _ _ _ _ Hp2) as (m2 & Hm2 & Hk2 & _). rewrite Hm2 in Hr. rewrite Hx, Hs in Hs2.
  assert (MName m2 = k.2) as Hname by by rewrite <- Hk2. rewrite Hname in Hr. destruct e2 as [e2|].
  - destruct (update _ w2 p r) as [[w3 q3] e3] eqn:Hu. injection Hr as <- <- <-.
    apply (update_tracks _ _ _ k ph) in Hu as [Hs3 _]; done.
  - destruct r as [r|]; [|injection Hr as <- <- <-; done].
    apply (update_tracks _ _ _ k ph) in Hr; [done|done| |done]. naive_solver.
Qed.

Lemma without_spec name l : ContainsString (without name l) name = false.
Proof.
  apply not_true_is_false. intros Hc%ContainsString_spec. unfold without in Hc.
  apply list_elem_of_filter in Hc as [? _]. done.
Qed.

Lemma removeFinalizer_tracks n w q k w' r e :
  removeFinalizer_loop n constructFinalizerKey w (Some q) = (w', r, e) → tracks w q k Deleting →
  sphase (ext w') k = match e with None => Done | Some _ => Deleting end.
Proof.
  revert w q. induction n as [|n IH]; intros w q Hr [Hq Hs]; simpl in Hr; [by simplify_eq|].
  destruct (is_at_Accessor _ _ _ _ Hq) as (m & Hm & Hk & _). rewrite Hm in Hr.
  match type of Hr with context [client_Update _ _ (change_meta ?f w q)] =>
    assert (is_at (change_meta f w q) q k Done) as Hq1 end.
  { eapply change_is_at; [done|]. intros m' Hk' Hp'. split; [done|]. unfold phase_of in *. simpl.
    destruct (hasFinalize && _); [|by destruct (isInitialized m')].
    unfold finalizers_of at 1. simpl. pose proof (without_spec constructFinalizerKey (finalizers_of m')) as Hw.
    destruct (without _ _); simpl in *; [done|by rewrite Hw]. }
  replace (MName m) with k.2 in Hr by by rewrite <- Hk.
  destruct (client_Update _ _ _ q) as [[w1 r1] [e1|]] eqn:Hc.
  - eapply server_error in Hc as [Hs1 _]; [|done..]. simpl in Hs1. rewrite Hs in Hs1.
    replace (MNamespace m) with k.1 in Hr by by rewrite <- Hk.
    destruct (client_Get _ _ _ w1) as [[w2 r2] [e2|]] eqn:Hg.
    + simplify_eq. apply (server_get_error Hsrv) in Hg. by rewrite Hg.
    + apply (server_get Hsrv) in Hg as (Hs2 & q2 & -> & Hq2). rewrite Hs1 in *. by eapply IH.
  - simplify_eq. by eapply server_update in Hc as [Hs1 _].
Qed.

Lemma addFinalizer_tracks w p k w' r e :
  hasFinalize = true → addFinalizer w p = (w', r, e) → tracks w p k New →
  sphase (ext w') k = New ∧ (e = None → ∃ q, r = Some q ∧ is_at w' q k New).
Proof.
  intros HF Ha [Hp Hs]. unfold addFinalizer in Ha. destruct (is_at_Accessor _ _ _ _ Hp) as (m & Hm & Hk & Hph).
  rewrite Hm in Ha. destruct (ContainsString _ _); [simplify_eq; naive_solver|].
  destruct (DeepCopyObject w p) as [w1 c] eqn:Hc.
  apply (copy_is_at _ _ _ _ k New) in Hc as (Hc & _ & Hx & _); [|done].
  match type of Ha with context [client_Update _ _ (change_meta ?f w1 c)] =>
    assert (is_at (change_meta f w1 c) c k New) as Hc1 end.
  { eapply change_is_at; [done|]. intros m' Hk' Hp'. split; [done|]. unfold phase_of in Hp' |- *. simpl.
    destruct (hasFinalize && _); [|exact Hp']. by destruct (ContainsString _ _) in Hp'. }
  replace (MName m) with k.2 in Ha by by rewrite <- Hk. destruct e as [e|].
  - eapply server_error in Ha as [Hs' _]; [|done..]. split; [|done]. rewrite Hs'. simpl. by rewrite Hx.
  - eapply server_update in Ha as (Hs' & q & -> & Hq); [|done..]. eauto.
Qed.

Lemma setInitialized_tracks w p k w' r e :
  setInitialized w p = (w', r, e) → tracks w p k New →
  sphase (ext w') k = match e with None => Ready | Some _ => New end.
Proof.
  intros Ha [Hp Hs]. unfold setInitialized in Ha. destruct (is_at_Accessor _ _ _ _ Hp) as (m & Hm & Hk & Hph).
  rewrite Hm in Ha. assert (is_at (change_meta mark_initialized w p) p k Ready) as Hc1.
  { eapply change_is_at; [done|]. intros m' Hk' Hp'. split; [done|]. unfold phase_of in Hp' |- *. simpl.
    destruct (hasFinalize && _); [by destruct (ContainsString _ _) in Hp'|].
    unfold isInitialized. simpl. by rewrite lookup_insert_eq. }
  replace (MName m) with k.2 in Ha by by rewrite <- Hk. destruct e as [e|].
  - eapply server_error in Ha as [Hs' _]; [|done..]. by rewrite Hs'.
  - by eapply server_update in Ha as (Hs' & _).
Qed.

Lemma finalize_tracks w p k ph w' r c e :
  polite (Finalize (lifecycle o)) → finalize w p = (w', r, c, e) → tracks w p k ph →
  match e with
  | Some _ => sphase (ext w') k = ph
  | None => if c then w' = w ∧ (ph = New ∨ ph = Ready) ∧ (r = None ∨ r = Some p)
            else sphase (ext w') k = Done ∧ (ph = Deleting ∨ ph = Done)
  end.
Proof.
  intros Hpo Hf [Hp Hs]. unfold finalize in Hf. destruct (is_at_Accessor _ _ _ _ Hp) as (m & Hm & Hk & Hph).
  unfold phase_of in Hph. rewrite Hm in Hf. destruct hasFinalize eqn:HF; simpl in *.
  2:{ simplify_eq. split; [done|]. destruct (isInitialized m); auto. }
  destruct (DeletionTimestamp m); simpl in *; [|simplify_eq; split; [done|]; destruct (isInitialized m); auto].
  destruct (ContainsString _ _); simpl in *; [|simplify_eq; split; [done|]; auto].
  destruct (record w p _) as [[w1 q] [e1|]] eqn:Hr; apply (record_tracks _ _ _ k ph) in Hr as [Hs1 Hq]; try done;
    try apply (framed_finalize Hfr); [by simplify_eq|].
  destruct (maybeDeepCopy w1 p q) as [w2 q2] eqn:Hmd. rewrite <- Hph in *. assert (tracks w2 q2 k Deleting) as Ht.
  { specialize (Hq eq_refl). unfold maybeDeepCopy in Hmd. case_decide; [subst q|by injection Hmd as <- <-; split].
    apply (copy_is_at _ _ _ _ k Deleting) in Hmd as (? & _ & Hx & _); [|auto]. split; [done|]. by rewrite Hx. }
  unfold removeFinalizer in Hf. destruct (removeFinalizer_loop 3 _ w2 (Some q2)) as [[w3 r3] e3] eqn:Hrf.
  apply (removeFinalizer_tracks _ _ _ k) in Hrf; [|done]. injection Hf as <- <- <- <-.
  destruct e3; rewrite Hrf; auto.
Qed.

Lemma create_object_tracks w p k w' r c e :
  polite (Create (lifecycle o)) → create_object w (Some p) = (w', r, c, e) → tracks w p k New →
  match e with
  | Some _ => sphase (ext w') k = New
  | None => if c then hasCreate = false ∧ w' = w ∧ r = Some p else sphase (ext w') k = Ready ∧ hasCreate = true
  end.
Proof.
  intros Hpo Hf Hp. unfold create_object in Hf. destruct hasCreate; simpl in Hf; [|by simplify_eq].
  destruct (record w p _) as [[w1 q] [e1|]] eqn:Hr; apply (record_tracks _ _ _ k New) in Hr as [Hs1 Hq]; try done;
    try apply (framed_create Hfr); [by simplify_eq|].
  destruct (setInitialized w1 q) as [[w2 r2] e2] eqn:Hi. injection Hf as <- <- <- <-.
  apply (setInitialized_tracks _ _ k) in Hi; [|split; auto]. destruct e2; auto.
Qed.

Lemma create_tracks w p k ph w' r c e :
  polite (Create (lifecycle o)) → create w p = (w', r, c, e) → tracks w p k ph → ph = New ∨ ph = Ready →
  match e with
  | Some _ => sphase (ext w') k = ph
  | None => if c then tracks w' (default p r) k (spec_step ph) else sphase (ext w') k = spec_step ph
  end.
Proof.
  intros Hpo Hc Hp Hph. unfold create in Hc. destruct (is_at_Accessor _ _ _ _ (proj1 Hp)) as (m & Hm & Hk & Hpm).
  rewrite Hm in Hc. assert (isInitialized m = bool_decide (ph = Ready)) as Hi.
  { unfold phase_of in Hpm. destruct (hasFinalize && _); [destruct (ContainsString _ _); subst ph; naive_solver|].
    by destruct (isInitialized m); subst ph. }
  destruct Hph as [-> | ->]; rewrite Hi in Hc; simpl in Hc; [|by simplify_eq].
  destruct hasFinalize eqn:HF.
  - destruct (addFinalizer w p) as [[w1 r1] [e1|]] eqn:Ha; apply (addFinalizer_tracks _ _ k) in Ha as [Hs1 Hr1]; try done.
    + by simplify_eq.
    + destruct (Hr1 eq_refl) as (q & -> & Hq). apply (create_object_tracks _ _ k) in Hc; [|done|by split].
      destruct e; [done|]. simpl. destruct c; [destruct Hc as (-> & -> & ->); by split|by destruct Hc as [-> ->]].
  - apply (create_object_tracks _ _ k) in Hc; [|done|done].
    destruct e; [done|]. simpl. destruct c; [destruct Hc as (-> & -> & ->); done|by destruct Hc as [-> ->]].
Qed.
End Refinement.

(** C11: each run of the handler is one step of the life of an object, or
    leaves it where it is.  When the cached object is in the phase in which the
    API server has it, and the lifecycle functions do not meddle with the phase,
    a run that reports no error takes a new object to ready (when there is a
    Create function), an object that is being deleted to done, and leaves a
    ready one ready; a run that reports an error does that or leaves the object
    in its phase, so that the next run takes it up there. *)
Theorem sync_refines_life (sphase : X → string * string → phase) w p k ph w' r e :
  adapter_framed → server_ok sphase →
  polite sphase (Create (lifecycle o)) → polite sphase (Updated (lifecycle o)) → polite sphase (Finalize (lifecycle o)) →
  tracks sphase w p k ph → sync w (InObject p) = (w', r, e) →
  (sphase (ext w') k = spec_step ph ∨ sphase (ext w') k = ph ∧ is_Some e).
Proof.
  intros Hfr Hsrv HpC HpU HpF Hp Hs. unfold sync in Hs.
  destruct (finalize w p) as [[[w1 r1] c1] e1] eqn:Hf. apply (finalize_tracks sphase Hfr Hsrv _ _ k ph) in Hf; [|done..].
  destruct e1 as [e1|]; [right; by destruct c1; simplify_eq|].
  destruct c1; [|left; destruct Hf as [Hf1 Hf2]; destruct Hf2 as [-> | ->]; by simplify_eq].
  destruct Hf as (-> & Hph & Hr1). replace (default p r1) with p in Hs by by destruct Hr1 as [-> | ->].
  destruct (create w p) as [[[w2 r2] c2] e2] eqn:Hc. apply (create_tracks sphase Hfr Hsrv _ _ k ph) in Hc; [|done..].
  destruct e2 as [e2|]; [right; by destruct c2; simplify_eq|]. destruct c2; [|left; by simplify_eq].
  destruct (record w2 _ _) as [[w3 r3] e3] eqn:Hr. injection Hs as <- <- <-. left.
  eapply record_tracks in Hr as [Hs3 _]; eauto. apply (framed_updated Hfr).
Qed.
End Adapter.
End Lifecycle.

(** ** A small API server

    It keeps the metadata of its objects and accepts every update. *)
Section Demo.
Abbreviation demo_world := (@world (gmap (string * string) ObjectMeta) unit).

Definition demo_Update (name : string) (w : demo_world) (p : nat) : demo_world * option nat * option error :=
  match Accessor w (Some p) with
  | inr err => (w, None, Some err)
  | inl m => let '(w', q) := alloc (mkWorld (heap w) (<[key_of m := m]> (ext w))) (mkObject (Some m) tt) in
             (w', Some q, None)
  end.
Definition demo_Get (ns name : string) (w : demo_world) : demo_world * option nat * option error :=
  match ext w !! (ns, name) with
  | None => (w, None, Some (StatusError 404 "NotFound" "not found"))
  | Some m => let '(w', q) := alloc w (mkObject (Some (mkMeta ns name (DeletionTimestamp m) (Finalizers m) (Annotations m))) tt) in
              (w', Some q, None)
  end.
Definition demo_call (w : demo_world) (p : nat) : demo_world * option nat * option error := (w, Some p, None).
Definition demo : objectLifecycleAdapter :=
  mkAdapter "demo" false (mkLifecycle demo_call demo_call demo_call None None) (mkClient demo_Update demo_Get).
Definition demo_sphase (srv : gmap (string * string) ObjectMeta) (k : string * string) : phase :=
  match srv !! k with Some m => phase_of demo m | None => Done end.

Lemma framed_alloc (w : demo_world) x srv p :
  framed_result w (alloc (mkWorld (heap w) srv) x).1 p (Some (alloc (mkWorld (heap w) srv) x).2).
Proof.
  unfold alloc, framed_result. simpl. pose proof (is_fresh (dom (heap w))) as Hf. rewrite dom_insert.
  split_and!; [set_solver| |].
  - intros q Hq _. apply lookup_insert_ne. by intros <-.
  - intros q [= <-]. split; [set_solver|by right].
Qed.

Lemma framed_same (w : demo_world) p r : (∀ q, r = Some q → q = p) → p ∈ dom (heap w) → framed_result w w (Some p) r.
Proof. intros Hr Hp. split_and!; [done|done|]. intros q Hq. apply Hr in Hq as ->. auto. Qed.

Lemma demo_framed : adapter_framed demo.
Proof.
  split; unfold framed; intros.
  1-3: simpl in *; unfold demo_call in *; simplify_eq; apply framed_same; [naive_solver|done].
  - simpl in *. unfold demo_Update in *. destruct (Accessor w (Some p)) as [m|]; [|simplify_eq; by apply framed_same].
    simplify_eq/=. apply (framed_alloc w).
  - simpl in *. unfold demo_Get in *. destruct (ext w !! (ns, name)) as [m|]; simplify_eq/=; [|done].
    destruct w as [h srv]. apply (framed_alloc (mkWorld h srv)).
Qed.

Lemma demo_polite : polite demo demo_sphase demo_call.
Proof. intros w p w' r e k ph Hc Hp. unfold demo_call in Hc. simplify_eq. naive_solver. Qed.

Lemma alloc_is_at (w : demo_world) srv x m k ph :
  ometa x = Some m → key_of m = k → phase_of demo m = ph →
  is_at demo (alloc (mkWorld (heap w) srv) x).1 (alloc (mkWorld (heap w) srv) x).2 k ph.
Proof. intros Hm Hk Hp. exists x, m. simpl. by rewrite lookup_insert_eq. Qed.

Lemma demo_server_ok : server_ok demo demo_sphase.
Proof.
  split.
  - intros w p w' r k ph Hp. destruct (is_at_Accessor _ _ _ _ _ Hp) as (m & Hm & Hk & Hph). simpl. unfold demo_Update.
    rewrite Hm. intros [= <- <-]. simpl. unfold demo_sphase. rewrite Hk, lookup_insert_eq. split; [done|].
    eexists. split; [done|]. by apply (alloc_is_at w _ (mkObject (Some m) tt) m).
  - intros w p w' r e k ph Hp. destruct (is_at_Accessor _ _ _ _ _ Hp) as (m & Hm & _). simpl. unfold demo_Update. by rewrite Hm.
  - intros w w' r [ns name]. simpl. unfold demo_Get, demo_sphase. destruct (ext w !! (ns, name)) as [m|] eqn:Hm; [|done].
    intros [= <- <-]. simpl. rewrite Hm. split; [done|]. eexists. split; [done|]. destruct w as [h srv].
    by apply (alloc_is_at (mkWorld h srv) srv (mkObject (Some (mkMeta ns name (DeletionTimestamp m) (Finalizers m) (Annotations m))) tt)
             (mkMeta ns name (DeletionTimestamp m) (Finalizers m) (Annotations m))).
  - intros w w' r e [ns name]. simpl. unfold demo_Get. destruct (ext w !! (ns, name)); [done|]. by intros [= <- _ _].
Qed.

Definition new_meta : ObjectMeta := mkMeta "ns" "a" None None None.
Definition old_meta : ObjectMeta := mkMeta "ns" "a" (Some "now") (Some ["x"; "controller.cattle.io/demo"]) None.
Definition demo_start (m : ObjectMeta) : demo_world := mkWorld {[ 0%nat := mkObject (Some m) tt ]} {[ ("ns", "a") := m ]}.

Lemma sync_keeps_cache_witness :
  heap (sync demo (demo_start new_meta) (InObject 0)).1.1 !! 0%nat = Some (mkObject (Some new_meta) tt).
Proof.
  destruct (sync demo (demo_start new_meta) (InObject 0)) as [[w' r] e] eqn:Hs.
  apply (sync_keeps_cache demo (demo_start new_meta) 0 w' r e demo_framed); [|exact Hs|];
    apply elem_of_dom; vm_compute; by eexists.
Defined.

Lemma sync_refines_life_witness :
  demo_sphase (ext (sync demo (demo_start new_meta) (InObject 0)).1.1) ("ns", "a") = Ready ∧
  demo_sphase (ext (sync demo (demo_start old_meta) (InObject 0)).1.1) ("ns", "a") = Done.
Proof.
  split.
  - assert ((sync demo (demo_start new_meta) (InObject 0)).2 = None) as Hn by (vm_compute; reflexivity).
    destruct (sync demo (demo_start new_meta) (InObject 0)) as [[w' r] e] eqn:Hs. simpl in Hn. subst e.
    destruct (sync_refines_life demo demo_sphase (demo_start new_meta) 0 ("ns", "a") New w' r None
      demo_framed demo_server_ok demo_polite demo_polite demo_polite) as [Hr|[_ He]]; [|exact Hs|exact Hr|].
    + split; [|vm_compute; reflexivity]. eexists _, _. split_and!; vm_compute; reflexivity.
    + by destruct He.
  - assert ((sync demo (demo_start old_meta) (InObject 0)).2 = None) as Hn by (vm_compute; reflexivity).
    destruct (sync demo (demo_start old_meta) (InObject 0)) as [[w' r] e] eqn:Hs. simpl in Hn. subst e.
    destruct (sync_refines_life demo demo_sphase (demo_start old_meta) 0 ("ns", "a") Deleting w' r None
      demo_framed demo_server_ok demo_polite demo_polite demo_polite) as [Hr|[_ He]]; [|exact Hs|exact Hr|].
    + split; [|vm_compute; reflexivity]. eexists _, _. split_and!; vm_compute; reflexivity.
    + by destruct He.
Defined.
End Demo.
