(* ===== verification/Http.v ===== *)
(** * HTTP requests

    What the sources read of a net/http request, and the part of net/url they
    use: header lookup, query escaping, url.Values and url.ParseQuery. *)

From S2P Require Import Prelude GoStrings Query.
From Stdlib Require Import Ascii.
From stdpp Require Import sorting.
Local Open Scope nat_scope.

(** ** Headers

    The keys of a header map are canonical; Get makes its argument canonical. *)
Fixpoint canonical_go (upper : bool) (s : string) : string :=
  match s with
  | "" => ""
  | String c s' => String (if upper then to_upper c else to_lower c) (canonical_go (bool_decide (c = "-"%char)) s')
  end.
Definition CanonicalHeaderKey (s : string) : string := canonical_go true s.
Definition Header := gmap string (list string).
Definition Header_Get (h : Header) (key : string) : string := default "" (h !! CanonicalHeaderKey key ≫= head).

(** [URL]: the decoded path, what EscapedPath returns, and the parsed query. *)
Record URL := mkURL { UPath : string; EscapedPath : string; UQuery : Values }.

(** The request, with the forms ParseMultipartForm leaves in it ([None]: nil). *)
Record Request := mkRequest {
  RMethod : string;
  RHost : string;
  RTLS : bool;
  RHeader : Header;
  RURL : URL;
  RCookie : string → result (option string);   (* Cookie(name): its value, http.ErrNoCookie, or another error *)
  MultipartForm : option Values;
  PostForm : option Values;
  Form : Values;
  RBody : string
}.

(** ** Escaping *)
Definition hex_digit (n : nat) : ascii :=
  default "0"%char (String.list_ascii_of_string "0123456789ABCDEF" !! n).
Definition unhex (c : ascii) : option nat :=
  let n := nat_of_ascii c in
  if is_digit c then Some (n - 48)
  else if (97 <=? n) && (n <=? 102) then Some (n - 87)
  else if (65 <=? n) && (n <=? 70) then Some (n - 55)
  else None.

(** The bytes that are never escaped. *)
Definition unreserved (c : ascii) : bool :=
  is_letter c || is_digit c || is_byte_in "-_.~" c.
Definition escape_byte (c : ascii) : string :=
  if unreserved c then String c ""
  else if decide (c = " "%char) then "+"
  else String "%" (String (hex_digit (nat_of_ascii c / 16)) (String (hex_digit (nat_of_ascii c mod 16)) "")).
Fixpoint QueryEscape (s : string) : string :=
  match s with "" => "" | String c s' => escape_byte c +:+ QueryEscape s' end.

(** url.unescape; [plus]: a plus stands for a space (in a query). *)
Fixpoint unescape (plus : bool) (s : string) : option string :=
  match s with
  | "" => Some ""
  | String c s' =>
      if decide (c = "%"%char) then
        match s' with
        | String a (String b s'') =>
            x ← unhex a; y ← unhex b; String (ascii_of_nat (x * 16 + y)) <$> unescape plus s''
        | _ => None
        end
      else String (if plus && bool_decide (c = "+"%char) then " "%char else c) <$> unescape plus s'
  end.
Definition QueryUnescape : string → option string := unescape true.
Definition PathUnescape : string → option string := unescape false.

(** ** url.Values *)
Definition Values_Set (v : Values) (key value : string) : Values := <[key := [value]]> v.
Definition Values_Add (v : Values) (key value : string) : Values := <[key := default [] (v !! key) ++ [value]]> v.
Definition Values_Del (v : Values) (key : string) : Values := delete key v.

Definition str_le (s t : string) : Prop := str_lt t s = false.
#[export] Instance str_le_dec : RelDecision str_le.
Proof. intros s t. unfold str_le. apply _. Defined.
Definition Values_Encode (v : Values) : string :=
  GoStrings.Join (k ← merge_sort str_le (map_to_list v).*1;
                  (λ x, QueryEscape k +:+ "=" +:+ QueryEscape x) <$> default [] (v !! k)) "&".

(** url.ParseQuery: pairs that do not unescape are left out. *)
Definition parse_pair (v : Values) (pair : string) : Values :=
  if decide (pair = "") then v
  else let '(k, x) := match Split2 pair "=" with [k; x] => (k, x) | _ => (pair, "") end in
       match QueryUnescape k, QueryUnescape x with
       | Some k, Some x => Values_Add v k x
       | _, _ => v
       end.
Definition ParseQuery (query : string) : Values := foldl parse_pair ∅ (Split query "&").

(** ** Lemmas *)
Lemma unescape_byte c s : QueryUnescape (escape_byte c +:+ s) = String c <$> QueryUnescape s.
Proof. destruct c as [[] [] [] [] [] [] [] []]; reflexivity. Qed.

Lemma QueryUnescape_Escape s : QueryUnescape (QueryEscape s) = Some s.
Proof. induction s as [|c s IH]; [done|]. simpl. by rewrite unescape_byte, IH. Qed.

Lemma escape_byte_plain c : str_in "&" (escape_byte c) = false ∧ str_in "=" (escape_byte c) = false.
Proof. destruct c as [[] [] [] [] [] [] [] []]; split; reflexivity. Qed.

Lemma QueryEscape_plain s : str_in "&" (QueryEscape s) = false ∧ str_in "=" (QueryEscape s) = false.
Proof.
  induction s as [|c s [IH1 IH2]]; [done|]. simpl. rewrite !str_in_app.
  destruct (escape_byte_plain c) as [-> ->]. by rewrite IH1, IH2.
Qed.

(** *** Encoding and parsing a query *)
Abbreviation add_pair := (λ v (e : string * string), Values_Add v e.1 e.2).
Definition query_pairs (v : Values) : list (string * string) :=
  k ← merge_sort str_le (map_to_list v).*1; pair k <$> default [] (v !! k).

Lemma parse_pair_encoded v k x : parse_pair v (QueryEscape k +:+ "=" +:+ QueryEscape x) = Values_Add v k x.
Proof.
  unfold parse_pair. rewrite decide_False by (by destruct (QueryEscape k)).
  change ("=" +:+ QueryEscape x) with (String "=" (QueryEscape x)).
  rewrite (Split2_app "=") by apply QueryEscape_plain. by rewrite !QueryUnescape_Escape.
Qed.

Lemma add_pairs_lookup l v k :
  foldl add_pair v l !! k = match (filter (λ e, e.1 = k) l).*2 with
                            | [] => v !! k
                            | xs => Some (default [] (v !! k) ++ xs)
                            end.
Proof.
  revert v. induction l as [|[k' x] l IH]; intros v; simpl; [done|]. rewrite IH. unfold Values_Add.
  rewrite filter_cons. unfold Values in *. case_decide as Hk; simpl in *.
  - subst k'. change (list_fmap _ _ snd ?l) with (l.*2).
    rewrite lookup_insert_eq. simpl. destruct (filter _ l).*2; [done|]. by rewrite <- app_assoc.
  - by rewrite lookup_insert_ne.
Qed.

Lemma query_pairs_filter v k : (filter (λ e, e.1 = k) (query_pairs v)).*2 = default [] (v !! k).
Proof.
  unfold query_pairs. assert (NoDup (merge_sort str_le (map_to_list v).*1)) as Hnd
    by (rewrite merge_sort_Permutation; apply NoDup_fst_map_to_list).
  assert (∀ k0, k0 ∈ merge_sort str_le (map_to_list v).*1 ↔ is_Some (v !! k0)) as Hin.
  { intros k0. rewrite merge_sort_Permutation, list_elem_of_fmap. split.
    - intros ([? y] & -> & Hy%elem_of_map_to_list). by exists y.
    - intros [y Hy%elem_of_map_to_list]. by exists (k0, y). }
  assert (∀ ks, NoDup ks → (filter (λ e, e.1 = k) (k' ← ks; pair k' <$> default [] (v !! k'))).*2
                          = if decide (k ∈ ks) then default [] (v !! k) else []) as Hks.
  { clear. induction ks as [|k' ks IH]; intros Hnd; [done|]. inv Hnd. cbn [mbind list_bind].
    rewrite filter_app, fmap_app, IH by done.
    assert (∀ xs : list string, (filter (λ e, e.1 = k) (pair k' <$> xs)).*2 = if decide (k' = k) then xs else []) as ->.
    { destruct (decide (k' = k)) as [->|Hk]; induction xs as [|x xs IHx]; try done; cbn [fmap list_fmap]; rewrite filter_cons.
      - rewrite decide_True by done. cbn [fmap list_fmap]. by rewrite IHx.
      - rewrite decide_False by done. done. }
    destruct (decide (k' = k)) as [->|Hk].
    - rewrite (decide_False (P := k ∈ ks)), decide_True by set_solver. by rewrite app_nil_r.
    - simpl. by apply decide_ext; set_solver. }
  rewrite Hks by done. case_decide as Hk; [done|]. rewrite Hin in Hk. destruct (v !! k); [|done]. by destruct Hk.
Qed.

(** Encoding a query and parsing it gives it back, but for keys without values. *)
Lemma ParseQuery_Encode v k : ParseQuery (Values_Encode v) !! k = match v !! k with Some (x :: xs) => Some (x :: xs) | _ => None end.
Proof.
  assert (ParseQuery (Values_Encode v) = foldl add_pair ∅ (query_pairs v)) as ->.
  { unfold ParseQuery, Values_Encode.
    assert ((k ← merge_sort str_le (map_to_list v).*1; (λ x, QueryEscape k +:+ "=" +:+ QueryEscape x) <$> default [] (v !! k))
            = (λ e, QueryEscape e.1 +:+ "=" +:+ QueryEscape e.2) <$> query_pairs v) as ->.
    { unfold query_pairs. induction (merge_sort str_le _) as [|k' ks IH]; [done|]. cbn [mbind list_bind].
      rewrite fmap_app, <- list_fmap_compose. by f_equal. }
    destruct (query_pairs v) as [|e l]; [done|].
    rewrite Split_Join; [|done|].
    - generalize (∅ : Values) as acc. generalize (e :: l) as es. induction es as [|e' es IH]; intros acc; [done|].
      cbn [fmap list_fmap foldl]. by rewrite parse_pair_encoded, IH.
    - apply Forall_fmap, Forall_true. intros [k' x]. simpl. rewrite !str_in_app.
      destruct (QueryEscape_plain k') as [-> _]. cbn. apply QueryEscape_plain. }
  rewrite add_pairs_lookup, query_pairs_filter. unfold Values in *. rewrite lookup_empty. by destruct (v !! k) as [[]|].
Qed.

Lemma query_get_Encode v k x k' :
  query_get (ParseQuery (Values_Encode (Values_Set v k x))) k' = if decide (k' = k) then x else query_get v k'.
Proof.
  unfold query_get. rewrite ParseQuery_Encode. unfold Values_Set, Values in *. rewrite lookup_insert.
  destruct (decide (k' = k)) as [->|Hk]; [by rewrite decide_True|]. rewrite decide_False by congruence.
  by destruct (v !! k') as [[|y ys]|].
Qed.
