(* ===== verification/Urls.v ===== *)
(** * Links

    Models urlbuilder/url.go, which builds the links of a response from the
    request it answers, and the RawResource of types/server_types.go that
    carries them.  url.Parse, which is used only to find the root of a URL that
    does not contain the path of the request, is a parameter. *)

From S2P Require Import Prelude GoStrings Values Errors TypeNames Schemas Query Http.
From Stdlib Require Import Ascii.

(** ** types/server_types.go: RawResource *)
Record RawResource := mkRaw {
  RID : string;
  RType : string;
  RSchema : Schema;
  RLinks : gmap string string;
  RActions : gmap string string;
  RValues : option obj;
  ActionLinks : bool;
  DropReadOnly : bool
}.

Definition strings_value (m : gmap string string) : value := VMap (VStr <$> m).
Definition ToMap `{MapRange} (r : RawResource) : obj :=
  let keep := negb (DropReadOnly r) in
  let data := foldl (λ d e, <[e.1 := e.2]> d) ∅ (range (default ∅ (RValues r))) in
  let data := if negb (bool_decide (RID r = "")) && keep then <["id" := VStr (RID r)]> data else data in
  let data := if negb (bool_decide (RType r = "")) && keep then <["type" := VStr (RType r)]> data else data in
  let data := if negb (bool_decide (BaseType (RSchema r) = "")) && keep
              then <["baseType" := VStr (BaseType (RSchema r))]> data else data in
  let data := if negb (bool_decide (RLinks r = ∅)) && keep then <["links" := strings_value (RLinks r)]> data else data in
  if negb (bool_decide (RActions r = ∅)) && keep
  then <[(if ActionLinks r then "actionLinks" else "actions") := strings_value (RActions r)]> data else data.

(** ** The builder *)
Record urlBuilder := mkUrlBuilder {
  requestURL : string;
  responseURLBase : string;
  apiVersion : APIVersion;
  subContext : string;
  uquery : Values
}.

Definition PrefixHeader : string := "X-API-URL-Prefix".
Definition ForwardedHostHeader : string := "X-Forwarded-Host".
Definition ForwardedProtoHeader : string := "X-Forwarded-Proto".
Definition ForwardedPortHeader : string := "X-Forwarded-Port".

Definition getOverrideHeader (r : Request) (header defaultValue : string) : string :=
  let value := Header_Get (RHeader r) header in
  if decide (value = "") then defaultValue else TrimSpace (default "" (head (Split value ","))).

(** [host[0:strings.LastIndex(host, ":")]] *)
Definition strip_port (host : string) : go string :=
  match LastIndex host ":" with Some i => Ret (str_take i host) | None => Panic end.
Definition host_without_port (host port : string) : go string :=
  if negb (bool_decide (port = "")) && Contains host ":" then
    if (HasPrefix host "[" && Contains host "]:") || negb (HasPrefix host "[") then strip_port host else Ret host
  else Ret host.

Definition getURLFromStandardHeaders (r : Request) : go string :=
  let xForwardedProto := getOverrideHeader r ForwardedProtoHeader "" in
  if decide (xForwardedProto = "") then Ret ""
  else
    let host := getOverrideHeader r ForwardedHostHeader "" in
    let host := if decide (host = "") then RHost r else host in
    if decide (host = "") then Ret ""
    else
      let port := getOverrideHeader r ForwardedPortHeader "" in
      let port := if decide (port = "443" ∨ port = "80") then "" else port in
      host ← host_without_port host port;
      let port := if decide (port = "") then "" else ":" +:+ port in
      Ret (xForwardedProto +:+ "://" +:+ host +:+ port +:+ Header_Get (RHeader r) PrefixHeader +:+ UPath (RURL r)).

Definition parseRequestURL (r : Request) : go string :=
  requestURL ← getURLFromStandardHeaders r;
  if decide (requestURL = "") then
    Ret ((if RTLS r then "https" else "http") +:+ "://" +:+ RHost r +:+ Header_Get (RHeader r) PrefixHeader +:+ UPath (RURL r))
  else Ret requestURL.

(** url.Parse: the scheme and the host. *)
Class UrlParse := { url_parse : string → result (string * string) }.

Section Urls.
Context `{UrlParse}.

Definition parseResponseURLBase (requestURL : string) (r : Request) : result string :=
  match LastIndex requestURL (UPath (RURL r)) with
  | None => match url_parse requestURL with
            | inl (scheme, host) => inl (scheme +:+ "://" +:+ host)
            | inr err => inr err
            end
  | Some index => inl (str_take index requestURL)
  end.

Definition New (r : Request) (version : APIVersion) : go (result urlBuilder) :=
  requestURL ← parseRequestURL r;
  Ret match parseResponseURLBase requestURL r with
      | inl base => inl (mkUrlBuilder requestURL base version "" (UQuery (RURL r)))
      | inr err => inr err
      end.
End Urls.

Definition SetSubContext (u : urlBuilder) (s : string) : urlBuilder :=
  mkUrlBuilder (requestURL u) (responseURLBase u) (apiVersion u) s (uquery u).

(** The loop over the parts: an empty part makes the whole URL empty. *)
Fixpoint write_parts (buffer : string) (parts : list string) : string :=
  match parts with
  | [] => buffer
  | part :: parts' => if decide (part = "") then "" else write_parts (buffer +:+ "/" +:+ part) parts'
  end.
Definition constructBasicURL (u : urlBuilder) (version : APIVersion) (parts : list string) : string :=
  write_parts (responseURLBase u +:+ (if decide (Path version = "") then Path (apiVersion u) else Path version) +:+ subContext u) parts.

Definition getPluralName (schema : Schema) : string :=
  ToLower (if decide (PluralName schema = "") then GuessPluralName (ID schema) else PluralName schema).

Section Links.
Variable u : urlBuilder.

Definition SchemaLink (schema : Schema) : string := constructBasicURL u (Version schema) ["schemas"; ID schema].
Definition ResourceLink (r : RawResource) : string :=
  if decide (RID r = "") then ""
  else constructBasicURL u (Version (RSchema r)) [PluralName (RSchema r); RID r].
Definition Link (linkName : string) (r : RawResource) : string :=
  if decide (RID r = "" ∨ linkName = "") then ""
  else match RLinks r !! "self" with
       | Some self => self +:+ "/" +:+ ToLower linkName
       | None => constructBasicURL u (Version (RSchema r)) [PluralName (RSchema r); RID r; ToLower linkName]
       end.
Definition MarkerLink (marker : string) : string :=
  requestURL u +:+ "?" +:+ Values_Encode (Values_Set (uquery u) "marker" marker).
Definition ReverseSort (order : SortOrder) : string :=
  let v := Values_Del (Values_Del (uquery u) "order") "marker" in
  requestURL u +:+ "?" +:+ Values_Encode (Values_Add v "order" (match order with ASC => "desc" | DESC | NoOrder => "asc" end)).
Definition SortLink (field : string) : string :=
  requestURL u +:+ "?" +:+ Values_Encode (Values_Set (Values_Del (Values_Del (uquery u) "order") "marker") "sort" field).
Definition Current : string := requestURL u.
Definition RelativeToRoot (path : string) : string := responseURLBase u +:+ path.
Definition Collection (schema : Schema) (versionOverride : option APIVersion) : string :=
  constructBasicURL u (default (Version schema) versionOverride) [getPluralName schema].
Definition SubContextCollection (sub : Schema) (contextName : string) (schema : Schema) : string :=
  constructBasicURL u (Version sub) [PluralName sub; contextName; getPluralName schema].
Definition VersionLink (version : APIVersion) : string := constructBasicURL u version [].
Definition FilterLink (schema : Schema) (fieldName value : string) : string :=
  constructBasicURL u (Version schema) [PluralName schema] +:+ "?" +:+ QueryEscape fieldName +:+ "=" +:+ QueryEscape value.
Definition ResourceLinkByID (schema : Schema) (id : string) : string :=
  constructBasicURL u (Version schema) [PluralName schema; id].
Definition ActionLink (action : string) (r : RawResource) : string :=
  constructBasicURL u (Version (RSchema r)) [PluralName (RSchema r); RID r] +:+ "?action=" +:+ QueryEscape action.
Definition CollectionAction (schema : Schema) (versionOverride : option APIVersion) (action : string) : string :=
  Collection schema versionOverride +:+ "?action=" +:+ QueryEscape action.
Definition ActionLinkByID (schema : Schema) (id action : string) : string :=
  constructBasicURL u (Version schema) [PluralName schema; id] +:+ "?action=" +:+ QueryEscape action.
(** RawResource.AddAction *)
Definition AddAction (r : RawResource) (name : string) : RawResource :=
  mkRaw (RID r) (RType r) (RSchema r) (RLinks r) (<[name := ActionLink name r]> (RActions r)) (RValues r) (ActionLinks r) (DropReadOnly r).
End Links.

(** ** Lemmas *)
Lemma LastIndex_suffix s p : LastIndex (s +:+ p) p = Some (String.length s).
Proof.
  induction s as [|c s IH]; simpl.
  - assert (∀ q, (String.length q < String.length p)%nat → LastIndex q p = None) as Hshort.
    { assert (∀ p q, String.prefix p q = true → (String.length p ≤ String.length q)%nat) as Hpre.
      { intros p'. induction p' as [|a p' IH]; intros [|b q]; simpl; try done; [lia|].
        destruct (ascii_dec a b); [|done]. intros Hp%IH. lia. }
      induction q as [|c q IHq]; intros Hl; cbn [LastIndex]; simpl in Hl.
      - destruct (String.prefix p "") eqn:Hp; [apply Hpre in Hp; simpl in Hp; lia|done].
      - rewrite IHq by lia. destruct (String.prefix p (String c q)) eqn:Hp; [apply Hpre in Hp; simpl in Hp; lia|done]. }
    assert (String.prefix p p = true) as Hpp.
    { clear. induction p as [|c p IH]; simpl; [done|]. destruct (ascii_dec c c); done. }
    destruct p as [|c p]; [done|]. cbn [LastIndex String.append]. rewrite Hshort by (simpl; lia). by rewrite Hpp.
  - by rewrite IH.
Qed.

Lemma Contains_LastIndex s c : Contains s (String c "") = true → is_Some (LastIndex s (String c "")).
Proof.
  intros H. change (Contains s (String c "")) with (is_byte_in s c) in H. rewrite is_byte_in_spec in H.
  induction s as [|d s IH]; [done|]. simpl in H |- *. apply orb_true_iff in H as [->%bool_decide_eq_true|H].
  - destruct (LastIndex s (String d "")); [by eexists|]. destruct (ascii_dec d d); [|done]. destruct s; by eexists.
  - destruct (IH H) as [i ->]. by eexists.
Qed.

(** The request URL ends in the path of the request. *)
Lemma parseRequestURL_suffix r : ∃ base, parseRequestURL r = Ret (base +:+ UPath (RURL r)).
Proof.
  unfold parseRequestURL.
  assert (getURLFromStandardHeaders r = Ret "" ∨ ∃ base, getURLFromStandardHeaders r = Ret (base +:+ UPath (RURL r))) as [-> | [base ->]].
  { unfold getURLFromStandardHeaders. case_decide; [by left|]. case_decide; [by left|]. right.
    match goal with |- context [host_without_port ?h ?p] => assert (∃ h', host_without_port h p = Ret h') as [h' ->] end.
    { unfold host_without_port. destruct (negb _ && Contains _ ":") eqn:Hc; [|by eexists].
      apply andb_prop in Hc as [_ Hc]. destruct (_ || _); [|by eexists].
      unfold strip_port. apply Contains_LastIndex in Hc as [i ->]. by eexists. }
    cbn [mbind go_bind]. eexists. rewrite <- !str_app_assoc. reflexivity. }
  - cbn [mbind go_bind]. rewrite decide_True by done. eexists. rewrite <- !str_app_assoc. reflexivity.
  - cbn [mbind go_bind]. case_decide as Hb; [|by eexists]. eexists. rewrite <- !str_app_assoc. reflexivity.
Qed.

(** New finds the path where it was put. *)
Lemma New_eval `{UrlParse} r version :
  ∃ base, New r version = Ret (inl (mkUrlBuilder (base +:+ UPath (RURL r)) base version "" (UQuery (RURL r)))).
Proof.
  unfold New. destruct (parseRequestURL_suffix r) as [base ->]. exists base. simpl.
  unfold parseResponseURLBase. by rewrite LastIndex_suffix, str_take_app.
Qed.

(** Whatever headers a request has (forwarded hosts with or without a port,
    IPv6 addresses, lists of proxies, a prefix), the builder of its links is
    made without a panic or an error, and the base of its links is the URL of
    the request without the path of the request. *)
Theorem url_base_correct `{UrlParse} r version :
  ∃ u, New r version = Ret (inl u) ∧ requestURL u = responseURLBase u +:+ UPath (RURL r) ∧
       apiVersion u = version ∧ subContext u = "" ∧ uquery u = UQuery (RURL r).
Proof. destruct (New_eval r version) as [base ->]. eexists. by split. Qed.
