(* ===== verification/Parse.v ===== *)
(** * Parsing a request

    Models parse/parse.go, parse/validate.go, parse/read_input.go,
    parse/browser.go and parse/subcontext.go, and the schemas of
    api/builtin/schema.go that every API has: how the URL, the method, the
    format and the body of a request become an APIContext.

    [yaml_decode] (k8s.io/apimachinery) and [json_decode] (encoding/json) read a
    body into a map. *)

From S2P Require Import Prelude GoStrings Values Errors TypeNames Schemas Query Http Urls.
From Stdlib Require Import Ascii.

(** ** api/builtin/schema.go: the schemas *)
Definition builtin_Version : APIVersion := mkVersion "meta.cattle.io" "v1" "/meta" false "".
Definition plain (t : string) : Field := mkField t VNil false false false false false None None None None [] "" "" "" "" false.
Definition nullable (t : string) : Field := mkField t VNil true false false false false None None None None [] "" "" "" "" false.
Definition builtin_schema (id plural : string) (resourceMethods collectionMethods : list string) (fields : gmap string Field) : Schema :=
  mkSchema id false "" "" "" "" "" builtin_Version plural resourceMethods fields ∅ collectionMethods ∅ ∅ "" "" None.
Definition builtin_Schema : Schema :=
  builtin_schema "schema" "schemas" ["GET"] ["GET"]
    {[ "collectionActions" := plain "map[json]"; "collectionFields" := plain "map[json]";
       "collectionFilters" := plain "map[json]"; "collectionMethods" := plain "array[string]";
       "pluralName" := plain "string"; "resourceActions" := plain "map[json]";
       "resourceFields" := plain "map[json]"; "resourceMethods" := plain "array[string]";
       "version" := plain "map[json]" ]}.
Definition builtin_Error : Schema :=
  builtin_schema "error" "" [] []
    {[ "code" := plain "string"; "detail" := nullable "string"; "message" := nullable "string";
       "fieldName" := nullable "string"; "status" := plain "int" ]}.
Definition builtin_Collection : Schema :=
  builtin_schema "collection" "" [] []
    {[ "data" := plain "array[json]"; "pagination" := plain "map[json]"; "sort" := plain "map[json]";
       "filters" := plain "map[json]" ]}.
Definition builtin_APIRoot : Schema :=
  builtin_schema "apiRoot" "" ["GET"] ["GET"]
    {[ "apiVersion" := plain "map[json]"; "path" := plain "string" ]}.
Definition builtin_list : list Schema := [builtin_Schema; builtin_Error; builtin_Collection; builtin_APIRoot].

(** ** types/server_types.go: APIContext

    The access control, the stores and the other collaborators of a request are
    parameters of the code that uses them. *)
Record APIContext := mkContext {
  ctx_Action : string;
  ctx_ID : string;
  ctx_Type : string;
  ctx_Link : string;
  ctx_Method : string;
  ctx_Schema : option Schema;
  ctx_Schemas : Schemas;
  ctx_Version : option APIVersion;
  ctx_SchemasVersion : option APIVersion;
  ctx_Query : Values;
  ctx_ResponseFormat : string;
  ctx_URLBuilder : option urlBuilder;
  ctx_SubContext : gmap string string;
  ctx_Pagination : option Pagination;
  ctx_Request : Request
}.
Definition set_schema (c : APIContext) (sc : option Schema) : APIContext :=
  mkContext (ctx_Action c) (ctx_ID c) (ctx_Type c) (ctx_Link c) (ctx_Method c) sc (ctx_Schemas c) (ctx_Version c)
    (ctx_SchemasVersion c) (ctx_Query c) (ctx_ResponseFormat c) (ctx_URLBuilder c) (ctx_SubContext c) (ctx_Pagination c) (ctx_Request c).
Definition set_url_builder (c : APIContext) (u : option urlBuilder) : APIContext :=
  mkContext (ctx_Action c) (ctx_ID c) (ctx_Type c) (ctx_Link c) (ctx_Method c) (ctx_Schema c) (ctx_Schemas c) (ctx_Version c)
    (ctx_SchemasVersion c) (ctx_Query c) (ctx_ResponseFormat c) u (ctx_SubContext c) (ctx_Pagination c) (ctx_Request c).
Definition set_pagination (c : APIContext) (p : option Pagination) : APIContext :=
  mkContext (ctx_Action c) (ctx_ID c) (ctx_Type c) (ctx_Link c) (ctx_Method c) (ctx_Schema c) (ctx_Schemas c) (ctx_Version c)
    (ctx_SchemasVersion c) (ctx_Query c) (ctx_ResponseFormat c) (ctx_URLBuilder c) (ctx_SubContext c) p (ctx_Request c).
Definition set_type (c : APIContext) (t : string) : APIContext :=
  mkContext (ctx_Action c) (ctx_ID c) t (ctx_Link c) (ctx_Method c) (ctx_Schema c) (ctx_Schemas c) (ctx_Version c)
    (ctx_SchemasVersion c) (ctx_Query c) (ctx_ResponseFormat c) (ctx_URLBuilder c) (ctx_SubContext c) (ctx_Pagination c) (ctx_Request c).
(** A request that is answered by the root of the API. *)
Definition as_root (c : APIContext) (id : string) (u : option urlBuilder) (root : option Schema) : APIContext :=
  mkContext (ctx_Action c) id "apiRoot" (ctx_Link c) "GET" root (ctx_Schemas c) (ctx_Version c)
    (ctx_SchemasVersion c) (ctx_Query c) (ctx_ResponseFormat c) u (ctx_SubContext c) (ctx_Pagination c) (ctx_Request c).

(** APIContext.Option *)
Definition Option (c : APIContext) (key : string) : string := query_get (ctx_Query c) ("_" +:+ key).

(** ** parse/browser.go *)
Definition IsBrowser (req : Request) (checkAccepts : bool) : bool :=
  let accepts := ToLower (Header_Get (RHeader req) "Accept") in
  let userAgent := ToLower (Header_Get (RHeader req) "User-Agent") in
  let accepts := if bool_decide (accepts = "") || negb checkAccepts then "*/*" else accepts in
  Contains userAgent "mozilla" && Contains accepts "*/*".

(** ** The method, the format and the action *)
Definition allowedFormats (format : string) : bool := bool_decide (format ∈ ["html"; "json"; "yaml"]).
Definition isYaml (req : Request) : bool := Contains (Header_Get (RHeader req) "Accept") "application/yaml".
Definition parseResponseFormat (req : Request) : string :=
  let format := query_get (UQuery (RURL req)) "_format" in
  let format := if decide (format = "") then format else TrimSpace (ToLower format) in
  if allowedFormats format then format
  else if IsBrowser req true then "html"
  else if isYaml req then "yaml" else "json".
Definition parseMethod (req : Request) : string :=
  let method := query_get (UQuery (RURL req)) "_method" in
  if decide (method = "") then RMethod req else method.
Definition parseAction (url : URL) : string * string :=
  let action := query_get (UQuery url) "action" in
  if decide (action = "remove") then ("", "DELETE") else (action, "").

(** ** The URL *)
Record ParsedURL := mkParsedURL {
  p_Version : option APIVersion;
  p_SchemasVersion : option APIVersion;
  p_Type : string;
  p_ID : string;
  p_Link : string;
  p_Method : string;
  p_Action : string;
  p_SubContext : gmap string string;
  p_SubContextPrefix : string;
  p_Query : Values
}.
Definition no_url : ParsedURL := mkParsedURL None None "" "" "" "" "" ∅ "" ∅.

(** multiSlashRegexp: runs of slashes become one. *)
Fixpoint collapse (after_slash : bool) (s : string) : string :=
  match s with
  | "" => ""
  | String c s' =>
      let slash := bool_decide (c = "/"%char) in
      if after_slash && slash then collapse true s' else String c (collapse slash s')
  end.
Definition ReplaceMultiSlash (s : string) : string := collapse false s.

Definition safeIndex (slice : list string) (index : nat) : string := default "" (slice !! index).

(** [s[n:]] on a slice *)
Definition slice_from {A} (l : list A) (n : nat) : go (list A) :=
  if (n <=? length l)%nat then Ret (drop n l) else Panic.

Definition matchesVersion (path : string) (version : APIVersion) : bool :=
  HasPrefix path (Path version) &&
  (let afterPath := str_drop (String.length (Path version)) path in
   (String.length afterPath <? 3)%nat || Contains (str_take 3 afterPath) "/").

Section Parse.
Context `{MapRange} `{SortSlice}.

Definition longer (v w : APIVersion) : bool := (String.length (Path w) <? String.length (Path v))%nat.
Definition versionsForPath (schemas : Schemas) (path : string) : list APIVersion :=
  sort_slice longer (filter (λ v, matchesVersion path v = true) (versions schemas)).

(** The version of a list, by preference, that has the schema, unless it is the
    first one. *)
Fixpoint find_version (schemas : Schemas) (first : bool) (vs : list APIVersion) (name : string) : option APIVersion :=
  match vs with
  | [] => None
  | v :: vs' =>
      match Schemas_Schema schemas (Some v) name with
      | Some _ => if first then None else Some v
      | None => find_version schemas false vs' name
      end
  end.

Definition unescape_parts (parts : list string) : list string := (λ p, default p (PathUnescape p)) <$> parts.

(** The result: the version of the schemas, the version, the prefix, the rest
    of the path and the sub context. *)
Definition parseVersionAndSubContext (schemas : Schemas) (escapedPath : string)
  : go (option APIVersion * option APIVersion * string * list string * gmap string string) :=
  match versionsForPath schemas escapedPath with
  | [] => Ret (None, None, "", [], ∅)
  | version :: rest =>
      let escapedPath := if HasSuffix escapedPath "/" then str_take (String.length escapedPath - 1) escapedPath else escapedPath in
      let versionParts := Split (Path version) "/" in
      let pathParts := unescape_parts (Split escapedPath "/") in
      paths ← slice_from pathParts (length versionParts);
      match rest, SubContext version with
      | [], _ | _, false => Ret (None, Some version, "", paths, ∅)
      | second :: _, true =>
          if decide (head paths = Some "schema" ∨ head paths = Some "schemas")
          then Ret (None, Some version, "", paths, ∅)
          else match paths with
          | [] | [_] =>
              let newVersion := mkVersion (Group version) (Version_ version)
                (match paths with p :: _ => Path version +:+ "/" +:+ p | [] => Path version end)
                (SubContext version) (SubContextSchema version) in
              parts ← slice_from pathParts (length versionParts - 1);
              Ret (Some newVersion, Some second, "", parts, ∅)
          | p0 :: p1 :: _ =>
              let attrs := {[ SubContextSchema version := p0 ]} in
              match find_version schemas true (version :: rest) p1 with
              | Some v => Ret (None, Some v, "", tail paths, attrs)
              | None => Ret (None, Some version, "/" +:+ p0, tail paths, attrs)
              end
          end
      end
  end.

Definition DefaultURLParser (schemas : Schemas) (url : URL) : go (ParsedURL * option error) :=
  '(schemaVersion, version, prefix, parts, sub) ← parseVersionAndSubContext schemas (ReplaceMultiSlash (EscapedPath url));
  match version with
  | None => Ret (no_url, None)
  | Some _ =>
      let '(action, method) := parseAction url in
      Ret (mkParsedURL version schemaVersion (safeIndex parts 0) (safeIndex parts 1) (safeIndex parts 2)
             method action sub prefix (UQuery url), None)
  end.

(** ** parse/validate.go *)
Definition supportedMethods (m : string) : bool := bool_decide (m ∈ ["POST"; "GET"; "PUT"; "DELETE"]).
Definition not_supported (m : string) : error := NewAPIError MethodNotAllowed ("Method " +:+ m +:+ " not supported").
Definition ValidateMethod (c : APIContext) : option error :=
  if negb (bool_decide (ctx_Action c = "")) && bool_decide (ctx_Method c = "POST") then None
  else if negb (supportedMethods (ctx_Method c)) then Some (not_supported (ctx_Method c))
  else match ctx_Schema c with
  | None => None
  | Some schema =>
      if bool_decide (ctx_Type c = "") || negb (bool_decide (ctx_Link c = "")) then None
      else
        let allowed := if decide (ctx_ID c = "") then CollectionMethods schema else ResourceMethods schema in
        if existsb (λ m, bool_decide (m = ctx_Method c)) allowed then None
        else Some (not_supported (ctx_Method c))
  end.

(** ** Parse *)
Definition DefaultResolver (typeName : string) (c : APIContext) : APIContext * option error :=
  if decide (typeName = "") then (c, None)
  else
    let schema := Schemas_Schema (ctx_Schemas c) (ctx_Version c) typeName in
    let schema := match schema with
                  | None => if decide (typeName = ID builtin_Schema ∨ typeName = PluralName builtin_Schema)
                            then Schemas_Schema (ctx_Schemas c) (Some builtin_Version) typeName else None
                  | Some _ => schema
                  end in
    match schema with None => (c, None) | Some _ => (set_schema c schema, None) end.

Definition zero_version : APIVersion := mkVersion "" "" "" false "".

Definition Parse `{UrlParse} (req : Request) (schemas : Schemas)
    (urlParser : Schemas → URL → go (ParsedURL * option error))
    (resolver : string → APIContext → APIContext * option error) : go (APIContext * option error) :=
  u0 ← New req zero_version;
  '(p, err) ← urlParser schemas (RURL req);
  let result u := mkContext (p_Action p) (p_ID p) (p_Type p) (p_Link p)
    (if decide (p_Method p = "") then parseMethod req else p_Method p) None schemas (p_Version p) (p_SchemasVersion p)
    (p_Query p) (parseResponseFormat req) u (p_SubContext p) None req in
  let some_builder (u : urlBuilder + error) := match u with inl u => Some u | inr _ => None end in
  match err, p_Version p with
  | Some err, _ => Ret (result (some_builder u0), Some err)
  | None, None =>
      u ← New req zero_version;
      Ret (as_root (result None) (p_ID p) (some_builder u) (Schemas_Schema schemas (Some builtin_Version) "apiRoot"), None)
  | None, Some version =>
      u ← New req version;
      match u with
      | inr err => Ret (result None, Some err)
      | inl u =>
          let u := if decide (p_SubContextPrefix p = "") then u else SetSubContext u (p_SubContextPrefix p) in
          match resolver (p_Type p) (result (Some u)) with
          | (c, Some err) => Ret (c, Some err)
          | (c, None) =>
              match ctx_Schema c with
              | None =>
                  let err := if decide (ctx_Type c = "") then None
                             else Some (NewAPIError NotFound ("failed to find schema " +:+ ctx_Type c)) in
                  let root := Schemas_Schema (ctx_Schemas c) (Some builtin_Version) "apiRoot" in
                  match ctx_Version c with
                  | Some v => Ret (as_root c (Path v) (ctx_URLBuilder c) root, err)
                  | None => Panic
                  end
              | Some sc => let c := set_type c (ID sc) in Ret (c, ValidateMethod c)
              end
          end
      end
  end.

(** ** parse/read_input.go and Body *)
Definition maxFormSize : Z := 2097152.
(** io.LimitReader *)
Fixpoint limit (n : Z) (s : string) : string :=
  match s with
  | "" => ""
  | String c s' => if 0 <? n then String c (limit (n - 1) s') else ""
  end.
Definition bodyMethods (m : string) : bool := bool_decide (m = "PUT") || bool_decide (m = "POST").

Definition valuesToBody (input : Values) : obj :=
  foldl (λ d e, <[e.1 := VStrs e.2]> d) ∅ (range input).
End Parse.

Class Decoders := {
  json_decode : string → result (option obj);    (* a null body gives a nil map *)
  yaml_decode : string → result (option obj)
}.

Section Body.
Context `{MapRange} `{Decoders}.

Definition getDecoder (req : Request) : string → result (option obj) :=
  if decide (Header_Get (RHeader req) "Content-type" = "application/yaml") then yaml_decode else json_decode.

Definition ReadBody (req : Request) : option obj * option error :=
  if negb (bodyMethods (RMethod req)) then (None, None)
  else match getDecoder req (limit maxFormSize (RBody req)) with
       | inl data => (data, None)
       | inr err => (None, Some (NewAPIError InvalidBodyContent ("Failed to parse body: " +:+ Error err)))
       end.

Definition Body (req : Request) : option obj * option error :=
  match MultipartForm req, PostForm req with
  | Some form, _ => (Some (valuesToBody form), None)
  | None, Some post => if decide (post = ∅) then ReadBody req else (Some (valuesToBody (Form req)), None)
  | None, None => ReadBody req
  end.

(** ** parse/subcontext.go: DefaultSubContextAttributeProvider *)
Definition sub_field (schema : Schema) (ref fullRef : string) : option string :=
  fst <$> (snd <$> list_find (λ e : string * Field, Type_ e.2 = ref ∨ Type_ e.2 = fullRef) (range (ResourceFields schema))).
Definition sub_create (c : APIContext) (schema : Schema) : gmap string string :=
  foldl (λ result (e : string * string),
           match Schemas_Schema (ctx_Schemas c) None e.1 with
           | None => result
           | Some sub =>
               match sub_field schema (ToReference (ID sub)) (ToFullReference (Path (Version sub)) (ID sub)) with
               | Some name => <[name := e.2]> result
               | None => result
               end
           end) ∅ (range (ctx_SubContext c)).
Definition sub_Query (c : APIContext) (schema : Schema) : list QueryCondition :=
  (λ e, NewConditionFromString e.1 "eq" [e.2]) <$> range (sub_create c schema).
Definition sub_Create (c : APIContext) (schema : Schema) : obj :=
  foldl (λ d e, <[e.1 := VStr e.2]> d) ∅ (range (sub_create c schema)).
End Body.

(** ** Strings of path segments *)
Fixpoint count_byte (c : ascii) (s : string) : nat :=
  match s with "" => O | String d s' => (if decide (d = c) then S (count_byte c s') else count_byte c s') end.

Lemma count_byte_app c s t : count_byte c (s +:+ t) = (count_byte c s + count_byte c t)%nat.
Proof. induction s as [|d s IH]; simpl; [done|]. rewrite IH. by case_decide. Qed.

Lemma Split_length s sep : length (Split s sep) = S (count_byte sep s).
Proof.
  unfold Split. generalize "" as cur. induction s as [|d s IH]; intros cur; simpl; [done|].
  case_decide; simpl; by rewrite IH.
Qed.

Lemma Split_app s sep t : Split (s +:+ String sep t) sep = Split s sep ++ Split t sep.
Proof.
  unfold Split. generalize "" at 1 2 as cur. induction s as [|d s IH]; intros cur; simpl.
  - by rewrite decide_True.
  - case_decide; simpl; by rewrite IH.
Qed.

(** Whether a string, after something that ended in a slash or not, does. *)
Fixpoint end_slash (b : bool) (s : string) : bool :=
  match s with "" => b | String c s' => end_slash (bool_decide (c = "/"%char)) s' end.

Lemma end_slash_app b s t : end_slash b (s +:+ t) = end_slash (end_slash b s) t.
Proof. revert b. induction s as [|c s IH]; intros b; simpl; auto. Qed.

Lemma HasSuffix_slash s : HasSuffix s "/" = end_slash false s.
Proof.
  destruct (HasSuffix s "/") eqn:Hs.
  - apply HasSuffix_inv in Hs as [x ->]. by rewrite end_slash_app.
  - symmetry. apply not_true_is_false. intros He. rewrite <- not_true_iff_false in Hs. apply Hs.
    assert (∃ x, s = x +:+ "/") as [x ->]; [|apply HasSuffix_app].
    clear Hs. destruct s as [|c s]; [done|]. simpl in He. revert c He. induction s as [|d s IH]; intros c He; simpl in He.
    + apply bool_decide_eq_true in He as ->. by exists "".
    + destruct (IH d He) as [x Hx]. exists (String c x). by rewrite Hx.
Qed.

Lemma collapse_app b s t : collapse b (s +:+ t) = collapse b s +:+ collapse (end_slash b s) t.
Proof.
  revert b. induction s as [|c s IH]; intros b; simpl; [done|].
  destruct (b && _) eqn:Hb; rewrite IH; [|done]. apply andb_prop in Hb as [_ ->]. done.
Qed.

Lemma collapse_segment b s : str_in "/" s = false → collapse b s = s.
Proof.
  revert b. induction s as [|c s IH]; intros b; simpl; [done|]. intros [Hc Hs]%orb_false_elim.
  rewrite bool_decide_eq_false in Hc. rewrite bool_decide_false by done. rewrite andb_false_r, IH by done. done.
Qed.

Lemma end_slash_segment b s : str_in "/" s = false → s ≠ "" → end_slash b s = false.
Proof.
  intros Hs Hne. destruct s as [|c s]; [done|]. simpl in *. clear Hne b. revert c Hs.
  induction s as [|d s IH]; intros c Hs; simpl in *; apply orb_false_elim in Hs as [Hc Hs].
  - rewrite bool_decide_eq_false in Hc. apply bool_decide_false. congruence.
  - by apply IH.
Qed.

Lemma PathUnescape_plain s : str_in "%" s = false → PathUnescape s = Some s.
Proof.
  unfold PathUnescape. induction s as [|c s IH]; simpl; [done|]. intros [Hc Hs]%orb_false_elim.
  rewrite bool_decide_eq_false in Hc. rewrite decide_False by congruence. by rewrite IH.
Qed.

(** ** Choosing the version *)
Section Versions.
Context `{MapRange} `{SortSlice}.

Lemma longer_sorted l : StronglySorted (λ x y, longer y x = false) (sort_slice longer l).
Proof.
  apply sort_slice_sorted; unfold longer; intros *; rewrite !Nat.ltb_ge; lia.
Qed.

Lemma elem_of_versionsForPath s path v :
  v ∈ versionsForPath s path ↔ matchesVersion path v = true ∧ v ∈ versions s.
Proof. unfold versionsForPath. rewrite sort_slice_perm. by rewrite list_elem_of_filter. Qed.

(** The version a path is read with is the longest one that matches it. *)
Lemma versionsForPath_head s path v :
  v ∈ versions s → matchesVersion path v = true →
  (∀ v', v' ∈ versions s → matchesVersion path v' = true → (String.length (Path v) ≤ String.length (Path v'))%nat → v' = v) →
  ∃ rest, versionsForPath s path = v :: rest.
Proof.
  intros Hv Hm Hlong. assert (v ∈ versionsForPath s path) as Hin by by apply elem_of_versionsForPath.
  assert (∀ w, w ∈ versionsForPath s path → matchesVersion path w = true ∧ w ∈ versions s) as Hall
    by (intros w; by rewrite elem_of_versionsForPath).
  pose proof (longer_sorted (filter (λ v, matchesVersion path v = true) (versions s))) as Hs.
  change (sort_slice longer _) with (versionsForPath s path) in Hs.
  destruct (versionsForPath s path) as [|h rest]; [by apply elem_of_nil in Hin|]. exists rest. f_equal.
  destruct (Hall h (list_elem_of_here _ _)) as [Hmh Hvh]. apply Hlong; [done|done|].
  apply elem_of_cons in Hin as [-> |Hin]; [done|]. inv Hs.
  rewrite Forall_forall in *. match goal with HF : ∀ x, x ∈ rest → _ |- _ => specialize (HF v Hin); unfold longer in HF;
    by apply Nat.ltb_ge in HF end.
Qed.

Lemma matchesVersion_inv path v : matchesVersion path v = true → ∃ rest, path = Path v +:+ rest.
Proof. intros [Hp _]%andb_prop. by apply prefix_inv. Qed.

Lemma slice_from_ok {A} (l : list A) n : (n ≤ length l)%nat → slice_from l n = Ret (drop n l).
Proof. intros Hn. unfold slice_from. by rewrite (proj2 (Nat.leb_le _ _)). Qed.

Lemma str_take_last s c : str_take (String.length (s +:+ String c "") - 1) (s +:+ String c "") = s.
Proof. rewrite str_length_app. simpl. replace (String.length s + 1 - 1)%nat with (String.length s) by lia. apply str_take_app. Qed.

(** No URL makes the parser panic.  When no version path ends in a slash,
    every URL a client can send is parsed without a panic, and without an
    error. *)
Theorem url_parser_returns s url :
  (∀ v, v ∈ versions s → HasSuffix (Path v) "/" = false) →
  ∃ p, DefaultURLParser s url = Ret (p, None).
Proof.
  intros Hv. unfold DefaultURLParser. set (path := ReplaceMultiSlash _).
  assert (∃ r, parseVersionAndSubContext s path = Ret r) as [[[[[sv v] pre] parts] sub] ->].
  2:{ simpl. destruct v; [|by eexists]. destruct (parseAction url). by eexists. }
  unfold parseVersionAndSubContext. destruct (versionsForPath s path) as [|v rest] eqn:Hp; [by eexists|].
  assert (matchesVersion path v = true ∧ v ∈ versions s) as [Hm Hin]
    by (apply elem_of_versionsForPath; rewrite Hp; apply list_elem_of_here).
  apply matchesVersion_inv in Hm as [t Ht]. clear Hp. set (path' := if HasSuffix path "/" then _ else _).
  assert (∃ t', path' = Path v +:+ t') as [t' Ht'].
  { unfold path'. destruct (HasSuffix path "/") eqn:Hs; [|by exists t]. rewrite HasSuffix_slash, Ht, end_slash_app in Hs.
    rewrite <- HasSuffix_slash, (Hv v Hin) in Hs. rewrite <- HasSuffix_slash in Hs. apply HasSuffix_inv in Hs as [t' ->].
    exists t'. rewrite Ht, <- str_app_assoc. apply str_take_last. }
  assert (length (Split (Path v) "/") ≤ length (unescape_parts (Split path' "/")))%nat as Hl
    by (unfold unescape_parts; rewrite length_fmap, !Split_length, Ht', count_byte_app; lia).
  rewrite (slice_from_ok _ (length (Split (Path v) "/"))) by done. cbn [mbind go_bind].
  rewrite (slice_from_ok _ (_ - 1)) by lia. repeat (case_match; try (by eexists)).
Qed.

(** ** Links that are followed *)

(** A part of a path that needs no escaping. *)
Definition segment (s : string) : Prop := s ≠ "" ∧ str_in "/" s = false ∧ str_in "%" s = false.

Lemma split_segments v plural id :
  segment plural → segment id →
  Split (Path v +:+ "/" +:+ plural +:+ "/" +:+ id) "/" = Split (Path v) "/" ++ [plural; id].
Proof.
  intros (_ & Hp & _) (_ & Hi & _). change ("/" +:+ plural +:+ "/" +:+ id) with (String "/" (plural +:+ String "/" id)).
  by rewrite Split_app, Split_app, (Split_single _ plural), (Split_single _ id).
Qed.

(** A resource path of a version that is stable under the clean-up of slashes. *)
Lemma resource_path_clean v plural id :
  segment plural → segment id → ReplaceMultiSlash (Path v) = Path v → HasSuffix (Path v) "/" = false →
  let path := Path v +:+ "/" +:+ plural +:+ "/" +:+ id in
  ReplaceMultiSlash path = path ∧ HasSuffix path "/" = false ∧ matchesVersion path v = true.
Proof.
  intros (Hp0 & Hp & _) (Hi0 & Hi & _) Hc Hs path. rewrite HasSuffix_slash in Hs. unfold path, ReplaceMultiSlash in *. split_and!.
  - rewrite collapse_app, Hc, Hs. change ("/" +:+ plural +:+ "/" +:+ id) with (String "/" (plural +:+ String "/" id)).
    cbn [collapse andb]. rewrite bool_decide_true, collapse_app, collapse_segment by done.
    rewrite end_slash_segment by done. cbn [collapse andb]. by rewrite bool_decide_true, collapse_segment.
  - rewrite HasSuffix_slash, !end_slash_app. by apply end_slash_segment.
  - unfold matchesVersion. rewrite HasPrefix_app, str_drop_app. cbn [andb].
    apply orb_true_iff. right. destruct plural as [|a [|b plural]]; done.
Qed.

Lemma parse_resource_path s v plural id :
  v ∈ versions s → SubContext v = false → segment plural → segment id →
  ReplaceMultiSlash (Path v) = Path v → HasSuffix (Path v) "/" = false →
  let path := Path v +:+ "/" +:+ plural +:+ "/" +:+ id in
  (∀ v', v' ∈ versions s → matchesVersion path v' = true → (String.length (Path v) ≤ String.length (Path v'))%nat → v' = v) →
  parseVersionAndSubContext s path = Ret (None, Some v, "", [plural; id], ∅).
Proof.
  intros Hv Hsub Hp Hi Hc Hs path Hlong. destruct (resource_path_clean v plural id Hp Hi Hc Hs) as (_ & Hns & Hm).
  destruct (versionsForPath_head s path v Hv Hm Hlong) as [rest Hr]. unfold parseVersionAndSubContext. rewrite Hr.
  unfold path in *. rewrite Hns, split_segments by done. unfold unescape_parts. rewrite fmap_app.
  destruct Hp as (_ & _ & Hp), Hi as (_ & _ & Hi). cbn [fmap list_fmap]. rewrite !PathUnescape_plain by done. cbn [default].
  rewrite (slice_from_ok _ (length (Split (Path v) "/"))) by (rewrite length_app, length_fmap; lia). cbn [mbind go_bind].
  rewrite drop_app_length' by by rewrite length_fmap. rewrite Hsub. by destruct rest.
Qed.

(** A GET request for the path of a resource is parsed to it. *)
Lemma resource_path_resolves `{UrlParse} s sc v plural id req :
  let path := Path v +:+ "/" +:+ plural +:+ "/" +:+ id in
  EscapedPath (RURL req) = path → RMethod req = "GET" → UQuery (RURL req) = ∅ →
  segment plural → segment id →
  v ∈ versions s → SubContext v = false → ReplaceMultiSlash (Path v) = Path v → HasSuffix (Path v) "/" = false →
  (∀ v', v' ∈ versions s → matchesVersion path v' = true → (String.length (Path v) ≤ String.length (Path v'))%nat → v' = v) →
  Schemas_Schema s (Some v) plural = Some sc → "GET" ∈ ResourceMethods sc →
  ∃ c, Parse req s DefaultURLParser DefaultResolver = Ret (c, None) ∧
       ctx_Schema c = Some sc ∧ ctx_ID c = id ∧ ctx_Type c = ID sc ∧ ctx_Link c = "" ∧
       ctx_Method c = "GET" ∧ ctx_Version c = Some v.
Proof.
  intros path Hpath Hmeth Hq Hp Hi Hv Hsub Hcl Hsl Hlong Hsc Hget.
  destruct (resource_path_clean v plural id Hp Hi Hcl Hsl) as (Hrep & _).
  assert (DefaultURLParser s (RURL req) = Ret (mkParsedURL (Some v) None plural id "" "" "" ∅ "" ∅, None)) as Hparsed.
  { unfold DefaultURLParser. rewrite Hpath. unfold path. rewrite Hrep, parse_resource_path by done.
    cbn [mbind go_bind]. unfold parseAction. by rewrite Hq. }
  unfold Parse. destruct (New_eval req zero_version) as [base0 ->]. rewrite Hparsed. cbn [mbind go_bind p_Version].
  destruct (New_eval req v) as [base1 ->]. cbn [mbind go_bind]. rewrite decide_True by done.
  unfold DefaultResolver. rewrite decide_False by apply Hp. cbn [ctx_Schemas ctx_Version p_Version p_Type]. rewrite Hsc.
  assert (parseMethod req = "GET") as Hpm by (unfold parseMethod; by rewrite Hq, Hmeth).
  cbn [ctx_Schema set_schema]. eexists. split.
  - f_equal. f_equal. unfold ValidateMethod. cbn -[bool_decide existsb]. rewrite Hpm.
    cbn -[existsb]. destruct (bool_decide (ID sc = "")); [done|]. cbn -[existsb].
    rewrite decide_False by apply Hi. rewrite (proj2 (existsb_exists _ _)); [done|].
    exists "GET". split; [by apply list_elem_of_In|]. by apply bool_decide_eq_true.
  - by split_and!.
Qed.

(** C19: the link of a resource leads to it.  The self link that the URL builder
    makes for a resource (of a registered schema, in a version without sub
    context, with an id that needs no escaping) is the base of the request
    followed by a path; a GET request for that path is parsed, in the presence
    of whatever other versions match less of it, to the schema of the resource
    and its id, without an error. *)
Theorem resource_link_resolves `{UrlParse} s u r req :
  let sc := RSchema r in
  let v := Version sc in
  let path := EscapedPath (RURL req) in
  subContext u = "" → Path v ≠ "" → segment (PluralName sc) → segment (RID r) →
  v ∈ versions s → SubContext v = false → ReplaceMultiSlash (Path v) = Path v → HasSuffix (Path v) "/" = false →
  (∀ v', v' ∈ versions s → matchesVersion path v' = true → (String.length (Path v) ≤ String.length (Path v'))%nat → v' = v) →
  Schemas_Schema s (Some v) (PluralName sc) = Some sc → "GET" ∈ ResourceMethods sc →
  RMethod req = "GET" → UQuery (RURL req) = ∅ →
  ResourceLink u r = responseURLBase u +:+ path →
  ∃ c, Parse req s DefaultURLParser DefaultResolver = Ret (c, None) ∧
       ctx_Schema c = Some sc ∧ ctx_ID c = RID r ∧ ctx_Type c = ID sc ∧ ctx_Link c = "" ∧
       ctx_Method c = "GET" ∧ ctx_Version c = Some v.
Proof.
  intros sc v path Hu Hpv Hp Hi Hv Hsub Hcl Hsl Hlong Hsc Hget Hmeth Hq Hlink.
  assert (path = Path v +:+ "/" +:+ PluralName sc +:+ "/" +:+ RID r) as Hpath.
  { unfold ResourceLink, constructBasicURL in Hlink. rewrite decide_False in Hlink by apply Hi.
    cbn [write_parts] in Hlink. rewrite !decide_False in Hlink by (apply Hi || apply Hp || done).
    rewrite Hu, str_app_nil_r, !str_app_assoc in Hlink. by apply (inj (String.append _)) in Hlink. }
  rewrite Hpath in Hlong. by apply (resource_path_resolves s sc v (PluralName sc) (RID r)).
Qed.
End Versions.

(** ** A request *)
Definition std_url_parse : UrlParse := {| url_parse := λ s, inr (ErrorString s) |}.
Definition get_request (path : string) : Request :=
  mkRequest "GET" "api.example.com" true ∅ (mkURL path path ∅) (λ _, inl None) None None ∅ "".
Definition pod_schema : Schema :=
  (@setupDefaults std_schema_format (NewSchemas None)
     (mkSchema "pod" false "" "" "" "" "" v3 "" ["GET"; "PUT"; "DELETE"] {[ "name" := typed_field "string" ]} ∅
        ["GET"; "POST"] ∅ ∅ "" "" None)).2.
Definition pod_registry : Schemas :=
  default (NewSchemas None) (@AddSchema std_range std_schema_format 1 (NewSchemas None) pod_schema).
Definition pod_resource : RawResource := mkRaw "ns:p-1" "pod" pod_schema ∅ ∅ None false false.
Definition v3_builder : urlBuilder := mkUrlBuilder "https://api.example.com/v3" "https://api.example.com" v3 "" ∅.

Lemma url_parser_returns_witness :
  ∃ p, @DefaultURLParser std_range std_sort pod_registry (mkURL "" "/v3//pods/a%2" ∅) = Ret (p, None).
Proof.
  apply (@url_parser_returns std_range std_sort pod_registry). intros v Hv. apply list_elem_of_In in Hv.
  vm_compute in Hv. destruct Hv as [<-|[]]. vm_compute. reflexivity.
Defined.

Lemma resource_link_resolves_witness :
  ∃ c, @Parse std_range std_url_parse (get_request "/v3/pods/ns:p-1") pod_registry
         (@DefaultURLParser std_range std_sort) (@DefaultResolver std_range) = Ret (c, None) ∧ ctx_ID c = "ns:p-1".
Proof.
  destruct (@resource_link_resolves std_range std_sort std_url_parse pod_registry v3_builder pod_resource
    (get_request "/v3/pods/ns:p-1")) as (c & Hc & _ & Hid & _).
  - reflexivity.
  - vm_compute. discriminate.
  - split_and!; [vm_compute; discriminate|vm_compute; reflexivity..].
  - split_and!; [vm_compute; discriminate|vm_compute; reflexivity..].
  - apply list_elem_of_In. vm_compute. by left.
  - reflexivity.
  - vm_compute. reflexivity.
  - vm_compute. reflexivity.
  - intros v Hv _ _. apply list_elem_of_In in Hv. vm_compute in Hv. destruct Hv as [<-|[]]. reflexivity.
  - vm_compute. reflexivity.
  - apply list_elem_of_In. vm_compute. by left.
  - reflexivity.
  - reflexivity.
  - vm_compute. reflexivity.
  - exists c. split; [exact Hc|exact Hid].
Defined.

(** An id is written into a link as it is: one that contains a slash is not the
    id that is read from the link. *)
Example link_not_escaped :
  let r := mkRaw "a/b" "pod" pod_schema ∅ ∅ None false false in
  ResourceLink v3_builder r = "https://api.example.com/v3/pods/a/b" ∧
  (λ r, match r with Ret (p, _) => (p_ID p, p_Link p) | Panic => ("", "") end)
    (@DefaultURLParser std_range std_sort pod_registry (mkURL "" "/v3/pods/a/b" ∅)) = ("a", "b").
Proof. split; vm_compute; reflexivity. Qed.

(** A version path matches a path that goes on with two more letters. *)
Example version_matches_more :
  matchesVersion "/v3/clusterxy/c/pods" (mkVersion "" "v3" "/v3/cluster" true "") = true.
Proof. vm_compute. reflexivity. Qed.
