(* ===== verification/Access.v ===== *)
(** * Access control

    Models authorization/all.go, the CanX methods of types/schema_funcs.go, and
    the AccessControl interface of types/server_types.go that they go through. *)

From S2P Require Import Prelude GoStrings Values Errors TypeNames Schemas Query Http Urls Parse.

(** The interface; [obj] is nil where a whole type is meant.  The context of a
    filter says which group and resource of the API the objects belong to. *)
Record AccessControl := mkAccess {
  ac_CanCreate : APIContext → Schema → option error;
  ac_CanList : APIContext → Schema → option error;
  ac_CanGet : APIContext → Schema → option error;
  ac_CanUpdate : APIContext → option obj → Schema → option error;
  ac_CanDelete : APIContext → option obj → Schema → option error;
  ac_CanDo : string → string → string → APIContext → option obj → Schema → option error;
  ac_Filter : APIContext → Schema → option obj → gmap string string → option obj;
  ac_FilterList : APIContext → Schema → list (option obj) → gmap string string → list (option obj)
}.

Definition denied (verb : string) (schema : Schema) : error :=
  NewAPIError PermissionDenied ("can not " +:+ verb +:+ " " +:+ ID schema).
Definition allow (methods : list string) (method verb : string) (schema : Schema) : option error :=
  if ContainsString methods method then None else Some (denied verb schema).

(** ** types/schema_funcs.go

    Without a request the methods of the schema decide. *)
Section Can.
Variable ac : AccessControl.

Definition CanList (s : Schema) (c : option APIContext) : option error :=
  match c with None => allow (CollectionMethods s) "GET" "list" s | Some c => ac_CanList ac c s end.
Definition CanGet (s : Schema) (c : option APIContext) : option error :=
  match c with None => allow (ResourceMethods s) "GET" "get" s | Some c => ac_CanGet ac c s end.
Definition CanCreate (s : Schema) (c : option APIContext) : option error :=
  match c with None => allow (CollectionMethods s) "POST" "create" s | Some c => ac_CanCreate ac c s end.
Definition CanUpdate (s : Schema) (c : option APIContext) : option error :=
  match c with None => allow (ResourceMethods s) "PUT" "update" s | Some c => ac_CanUpdate ac c None s end.
Definition CanDelete (s : Schema) (c : option APIContext) : option error :=
  match c with None => allow (ResourceMethods s) "DELETE" "delete" s | Some c => ac_CanDelete ac c None s end.
End Can.

(** MustCustomizeField *)
Definition MustCustomizeField (s : Schema) (name : string) (f : Field → Field) : go Schema :=
  match ResourceFields s !! name with
  | None => Panic
  | Some field => Ret (set_fields s (<[name := f field]> (ResourceFields s)))
  end.

(** ** authorization/all.go: every method the schema has is allowed *)
Definition AllAccess : AccessControl := mkAccess
  (λ _ s, allow (CollectionMethods s) "POST" "create" s)
  (λ _ s, allow (CollectionMethods s) "GET" "list" s)
  (λ _ s, allow (ResourceMethods s) "GET" "get" s)
  (λ _ _ s, allow (ResourceMethods s) "PUT" "update" s)
  (λ _ _ s, allow (ResourceMethods s) "DELETE" "delete" s)
  (λ _ _ verb _ _ s, allow (ResourceMethods s) verb ("perform " +:+ verb) s)
  (λ _ _ o _, o)
  (λ _ _ l _, l).
