(* ===== verification/Stores.v ===== *)
(** * Stores

    Models the Store interface of types/server_types.go and the stores that
    work on top of another one: store/empty, store/wrapper (which
    filters what a request is shown by its sub context), store/transform and store/subtype.

    A store works on a world [W], which the stores at the bottom change.  The
    options of a list or a watch are passed by reference: the operations return
    them as they leave them.  A channel of events is the list of the events it
    will deliver; a nil channel is [None]. *)

From S2P Require Import Prelude GoStrings Values Errors TypeNames Convert Schemas Query Http Urls Parse.

(** ** Programs that work on a world *)
Definition prog (W A : Type) : Type := W → W * go A.
#[export] Instance prog_ret {W} : MRet (prog W) := λ A a w, (w, Ret a).
#[export] Instance prog_bind {W} : MBind (prog W) := λ A B f m w,
  match m w with (w', Ret a) => f a w' | (w', Panic) => (w', Panic) end.
Definition lift {W A} (m : go A) : prog W A := λ w, (w, m).

(** A Go pair [(T, error)] whose [T] is looked at also when there is an error. *)
Abbreviation with_error A := (A * option error)%type.

Record Store (W : Type) := mkStore {
  s_Context : string;
  s_ByID : APIContext → Schema → string → prog W (with_error (option obj));
  s_List : APIContext → Schema → QueryOptions → prog W (QueryOptions * with_error (list (option obj)));
  s_Create : APIContext → Schema → option obj → prog W (with_error (option obj));
  s_Update : APIContext → Schema → option obj → string → prog W (with_error (option obj));
  s_Delete : APIContext → Schema → string → prog W (with_error (option obj));
  s_Watch : APIContext → Schema → QueryOptions → prog W (QueryOptions * with_error (option (list (option obj))))
}.
Arguments mkStore {W}.
Arguments s_Context {W}.
Arguments s_ByID {W}.
Arguments s_List {W}.
Arguments s_Create {W}.
Arguments s_Update {W}.
Arguments s_Delete {W}.
Arguments s_Watch {W}.

(** ** store/empty *)
Definition empty_store {W} : Store W :=
  mkStore "" (λ _ _ _, mret (None, None)) (λ _ _ o, mret (o, ([], None))) (λ _ _ _, mret (None, None))
    (λ _ _ _ _, mret (None, None)) (λ _ _ _, mret (None, None)) (λ _ _ o, mret (o, (None, None))).

(** ** Filters of types/server_types.go

    The QueryFilter of a request is handler.QueryFilter. *)
Section Stores.
Context {W : Type} `{GoFormat} `{SortSlice} `{MapRange}.

Definition FilterList (opts : QueryOptions) (schema : Schema) (data : list (option obj))
  : go (QueryOptions * list (option obj)) :=
  '(page, items) ← ApplyQueryOptions opts schema data; Ret (set_options_pagination opts page, items).

Definition FilterObject (opts : QueryOptions) (schema : Schema) (o : option obj) : go (option obj) :=
  '(_, result) ← ApplyQueryOptions (set_options_pagination opts None) schema [o];
  Ret match result with [] => None | x :: _ => x end.

(** An [interface{}] as Filter takes and returns it: nil, or a dynamic type with
    a value.  A nil map or slice in an interface is not a nil interface. *)
Inductive any :=
| AnyNil
| AnyMap (m : option obj)
| AnySlice (l : list (option obj))
| AnyOther.

(** The options are passed by reference. *)
Definition Filter (opts : QueryOptions) (schema : Schema) (o : any) : go (QueryOptions * any) :=
  match o with
  | AnySlice v => '(opts, l) ← FilterList opts schema v; Ret (opts, AnySlice l)
  | AnyMap v => m ← FilterObject opts schema v; Ret (set_options_pagination opts None, AnyMap m)
  | _ => Ret (opts, AnyNil)
  end.

(** ** store/wrapper *)
Definition sub_options (c : APIContext) (schema : Schema) : QueryOptions :=
  set_conditions zero_options (sub_Query c schema).

(** The function convert.Chan applies to each event: what the filter lets
    through, as events; a panic would end the process. *)
Fixpoint filter_events (f : option obj → go (option obj)) (events : list (option obj)) : go (list (option obj)) :=
  match events with
  | [] => Ret []
  | e :: events' =>
      r ← f e; rest ← filter_events f events';
      Ret match r with Some m => Some m :: rest | None => rest end
  end.

(** validateGet: [own] is the store of the schema.  The interface that Filter
    returns is compared with nil, not the map in it. *)
Definition validateGet (own : option (Store W)) (c : APIContext) (schema : Schema) (id : string) : prog W (option error) :=
  match own with
  | None => mret None
  | Some store =>
      '(existing, err) ← s_ByID store c schema id;
      match err with
      | Some err => mret (Some err)
      | None =>
          '(_, found) ← lift (Filter (sub_options c schema) schema (AnyMap existing));
          mret match found with AnyNil => Some (NewAPIError NotFound ("failed to find " +:+ id)) | _ => None end
      end
  end.

Section Wrap.
Variable store : Store W.

Definition wrap_ByID (c : APIContext) (schema : Schema) (id : string) : prog W (with_error (option obj)) :=
  '(data, err) ← s_ByID store c schema id;
  match err with
  | Some err => mret (None, Some err)
  | None => r ← lift (FilterObject (sub_options c schema) schema data); mret (r, None)
  end.

Definition wrap_List (c : APIContext) (schema : Schema) (opts : QueryOptions)
  : prog W (QueryOptions * with_error (list (option obj))) :=
  let opts := set_conditions opts (QConditions opts ++ sub_Query c schema) in
  '(opts, (data, err)) ← s_List store c schema opts;
  match err with
  | Some err => mret (opts, ([], Some err))
  | None => '(opts, items) ← lift (FilterList opts schema data); mret (opts, (items, None))
  end.

Definition wrap_Watch (c : APIContext) (schema : Schema) (opts : QueryOptions)
  : prog W (QueryOptions * with_error (option (list (option obj)))) :=
  '(opts, (ch, err)) ← s_Watch store c schema opts;
  match err, ch with
  | Some err, _ => mret (opts, (None, Some err))
  | None, None => mret (opts, (None, None))
  | None, Some events =>
      events ← lift (filter_events (FilterObject (sub_options c schema) schema) events);
      mret (opts, (Some events, None))
  end.

(** data[key] = value for the attributes of the sub context; a nil map is made
    when there is one. *)
Definition add_attributes (c : APIContext) (schema : Schema) (data : option obj) : option obj :=
  foldl (λ d e, Some (<[e.1 := e.2]> (default ∅ d))) data (range (sub_Create c schema)).

Definition wrap_Create (c : APIContext) (schema : Schema) (data : option obj) : prog W (with_error (option obj)) :=
  '(data, err) ← s_Create store c schema (add_attributes c schema data);
  match err with Some err => mret (None, Some err) | None => mret (data, None) end.

Definition wrap_Update (own : option (Store W)) (c : APIContext) (schema : Schema) (data : option obj) (id : string)
  : prog W (with_error (option obj)) :=
  err ← validateGet own c schema id;
  match err with
  | Some err => mret (None, Some err)
  | None =>
      '(data, err) ← s_Update store c schema data id;
      match err with
      | Some err => mret (None, Some err)
      | None => r ← lift (FilterObject (sub_options c schema) schema data); mret (r, None)
      end
  end.

Definition wrap_Delete (own : option (Store W)) (c : APIContext) (schema : Schema) (id : string)
  : prog W (with_error (option obj)) :=
  err ← validateGet own c schema id;
  match err with
  | Some err => mret (None, Some err)
  | None => s_Delete store c schema id
  end.
End Wrap.

(** Wrap: [own] gives the store of a schema, which the wrapper reads through
    before an update or a delete. *)
Definition Wrap (own : Schema → option (Store W)) (store : Store W) : Store W :=
  mkStore (s_Context store) (wrap_ByID store) (wrap_List store) (wrap_Create store)
    (λ c sc, wrap_Update store (own sc) c sc) (λ c sc, wrap_Delete store (own sc) c sc) (wrap_Watch store).

(** ** store/transform *)
Abbreviation TransformerFunc := (APIContext → Schema → option obj → option QueryOptions → prog W (with_error (option obj))).
Record TransformStore := mkTransform {
  t_Store : Store W;
  Transformer : option TransformerFunc;
  ListTransformer : option (APIContext → Schema → list (option obj) → QueryOptions → prog W (with_error (list (option obj))));
  StreamTransformer : option (APIContext → Schema → option (list (option obj)) → QueryOptions → prog W (with_error (option (list (option obj)))))
}.

Section Transform.
Variable s : TransformStore.

Definition transform_ByID (c : APIContext) (schema : Schema) (id : string) : prog W (with_error (option obj)) :=
  '(data, err) ← s_ByID (t_Store s) c schema id;
  match err, Transformer s with
  | Some err, _ => mret (None, Some err)
  | None, None => mret (data, None)
  | None, Some t =>
      '(o, err) ← t c schema data (Some (mkQueryOptions (mkSort "" NoOrder) None [] {[ "ByID" := "true" ]} None));
      match o, err with
      | None, None => mret (None, Some (NewAPIError NotFound (id +:+ " not found")))
      | _, _ => mret (o, err)
      end
  end.

(** Transforming events: those that give an error or nil are dropped. *)
Fixpoint transform_events (t : option obj → prog W (with_error (option obj))) (events : list (option obj))
  : prog W (list (option obj)) :=
  match events with
  | [] => mret []
  | e :: events' =>
      '(o, err) ← t e;
      rest ← transform_events t events';
      mret match err, o with None, Some m => Some m :: rest | _, _ => rest end
  end.

(** The transformer of a watch without a stream transformer is called without a
    look whether there is one. *)
Definition transform_Watch (c : APIContext) (schema : Schema) (opts : QueryOptions)
  : prog W (QueryOptions * with_error (option (list (option obj)))) :=
  '(opts, (ch, err)) ← s_Watch (t_Store s) c schema opts;
  match err, StreamTransformer s with
  | Some err, _ => mret (opts, (None, Some err))
  | None, Some st => r ← st c schema ch opts; mret (opts, r)
  | None, None =>
      let t := match Transformer s with Some t => λ e, t c schema e (Some opts) | None => λ _, lift Panic end in
      events ← transform_events t (default [] ch);
      mret (opts, (Some events, None))
  end.

Fixpoint transform_items (t : option obj → prog W (with_error (option obj))) (items : list (option obj))
  : prog W (with_error (list (option obj))) :=
  match items with
  | [] => mret ([], None)
  | x :: items' =>
      '(o, err) ← t x;
      match err with
      | Some err => mret ([], Some err)
      | None =>
          '(rest, err) ← transform_items t items';
          match err with
          | Some err => mret ([], Some err)
          | None => mret (match o with Some m => Some m :: rest | None => rest end, None)
          end
      end
  end.

Definition transform_List (c : APIContext) (schema : Schema) (opts : QueryOptions)
  : prog W (QueryOptions * with_error (list (option obj))) :=
  '(opts, (data, err)) ← s_List (t_Store s) c schema opts;
  match err, ListTransformer s, Transformer s with
  | Some err, _, _ => mret (opts, ([], Some err))
  | None, Some lt, _ => r ← lt c schema data opts; mret (opts, r)
  | None, None, None => mret (opts, (data, None))
  | None, None, Some t => r ← transform_items (λ x, t c schema x (Some opts)) data; mret (opts, r)
  end.

(** What Create and Update do with the result of the store below. *)
Definition transform_result (c : APIContext) (schema : Schema) (r : with_error (option obj)) : prog W (with_error (option obj)) :=
  match r.2, Transformer s with
  | Some err, _ => mret (None, Some err)
  | None, None => mret (r.1, None)
  | None, Some t => t c schema r.1 None
  end.
Definition transform_Create (c : APIContext) (schema : Schema) (data : option obj) : prog W (with_error (option obj)) :=
  r ← s_Create (t_Store s) c schema data; transform_result c schema r.
Definition transform_Update (c : APIContext) (schema : Schema) (data : option obj) (id : string) : prog W (with_error (option obj)) :=
  r ← s_Update (t_Store s) c schema data id; transform_result c schema r.

(** Delete calls the transformer without a look whether there is one. *)
Definition transform_Delete (c : APIContext) (schema : Schema) (id : string) : prog W (with_error (option obj)) :=
  '(o, err) ← s_Delete (t_Store s) c schema id;
  match err, o with
  | Some _, _ | _, None => mret (o, err)
  | None, Some _ => match Transformer s with Some t => t c schema o None | None => lift Panic end
  end.

Definition transform_store : Store W :=
  mkStore (s_Context (t_Store s)) transform_ByID transform_List transform_Create transform_Update transform_Delete transform_Watch.
End Transform.

(** ** store/subtype *)
(** [strings.Replace(s, old, new, 1)] with a non-empty [old]. *)
Definition Replace1 (s old new : string) : string :=
  match Index s old with
  | None => s
  | Some i => str_take i s +:+ new +:+ str_drop (i + String.length old) s
  end.

Section SubType.
Variables (subType : string) (store : Store W).

Definition subtype_Create (c : APIContext) (schema : Schema) (data : option obj) : prog W (with_error (option obj)) :=
  s_Create store c schema ((λ m, <["kind" := VStr subType]> m) <$> data).
Definition subtype_Update (c : APIContext) (schema : Schema) (data : option obj) (id : string) : prog W (with_error (option obj)) :=
  let kind := VStr (Uncapitalize (Replace1 subType "namespaced" "")) in
  s_Update store c schema ((λ m, <["type" := kind]> (<["kind" := kind]> m)) <$> data) id.
Definition subtype_options (opts : QueryOptions) : QueryOptions :=
  set_conditions opts (QConditions opts ++ [NewConditionFromString "type" "eq" [subType]]).
Definition subtype_store : Store W :=
  mkStore (s_Context store) (s_ByID store) (λ c sc o, s_List store c sc (subtype_options o)) subtype_Create subtype_Update
    (s_Delete store) (λ c sc o, s_Watch store c sc (subtype_options o)).
End SubType.

(** ** What a wrapped store shows *)

(** The object has the attributes of the sub context of the request. *)
Definition in_context (c : APIContext) (schema : Schema) (o : option obj) : bool :=
  forallb (λ q, Valid q schema o) (sub_Query c schema).

Lemma sort_slice_short {A} (lt : A → A → bool) l : (length l ≤ 1)%nat → sort_slice lt l = l.
Proof.
  destruct l as [|x [|y l]]; simpl; [| |lia]; intros _.
  - apply Permutation_nil_r, sort_slice_perm.
  - apply Permutation_singleton_r, sort_slice_perm.
Qed.

Lemma FilterObject_spec opts schema o :
  FilterObject opts schema o = Ret (if forallb (λ q, Valid q schema o) (QConditions opts) then o else None).
Proof.
  unfold FilterObject, ApplyQueryOptions, ApplySort. cbn [QPagination set_options_pagination ApplyPagination].
  rewrite sort_slice_short by (etrans; [apply length_filter|done]). cbn [mbind go_bind].
  unfold ApplyQueryConditions. cbn [QConditions set_options_pagination]. rewrite filter_cons, filter_nil.
  destruct (forallb _ _) eqn:Hf; [by rewrite decide_True|]. by rewrite decide_False by congruence.
Qed.

Lemma FilterObject_sub c schema o :
  FilterObject (sub_options c schema) schema o = Ret (if in_context c schema o then o else None).
Proof. apply FilterObject_spec. Qed.

Lemma slice_subset (data l : list (option obj)) from to : slice data from to = Ret l → l ⊆ data.
Proof.
  unfold slice. destruct (_ && _); [|done]. intros [= <-].
  etrans; [|apply (subseteq_drop (Z.to_nat from))]. intros x Hx. by eapply elem_of_sublist, sublist_take.
Qed.

Lemma ApplyPagination_subset p data p' l : ApplyPagination p data = Ret (p', l) → l ⊆ data.
Proof.
  destruct p as [p|]; simpl; [|by intros [= _ <-]]. destruct (Limit p) as [n|]; [|by intros [= _ <-]].
  case_decide; [by intros [= _ <-]|].
  repeat match goal with
  | |- mbind _ ?m = Ret _ → _ => let E := fresh in destruct m eqn:E; [cbn [mbind go_bind]|done]
  end.
  intros [= _ <-]. by eapply slice_subset.
Qed.

Lemma FilterList_valid opts schema data opts' l x :
  FilterList opts schema data = Ret (opts', l) → x ∈ l → forallb (λ q, Valid q schema x) (QConditions opts) = true.
Proof.
  unfold FilterList, ApplyQueryOptions. destruct (ApplyPagination _ _) as [[p items]|] eqn:Hp; [|done].
  cbn [mbind go_bind]. intros [= _ <-] Hx. apply (ApplyPagination_subset _ _ _ _ Hp) in Hx.
  unfold ApplySort in Hx. rewrite sort_slice_perm in Hx. unfold ApplyQueryConditions in Hx.
  by rewrite list_elem_of_filter in Hx; destruct Hx.
Qed.

Lemma add_attributes_lookup c schema data k :
  mlookup (add_attributes c schema data) k
  = match sub_create c schema !! k with Some v => Some (VStr v) | None => mlookup data k end.
Proof.
  assert (∀ k, sub_Create c schema !! k = VStr <$> sub_create c schema !! k) as Hc.
  { intros k'. unfold sub_Create. rewrite (range_insert_unless (λ _ _, false) (λ _ v, VStr v)).
    by destruct (sub_create c schema !! k'). }
  assert (∀ (l : list (string * value)) (d : option obj),
            default (∅ : obj) (foldl (λ (d : option obj) (e : string * value), Some (<[e.1 := e.2]> (default (∅ : obj) d))) d l)
            = foldl (λ (d : obj) (e : string * value), <[e.1 := e.2]> d) (default (∅ : obj) d) l) as Hd
    by (induction l as [|e l IH]; intros d; simpl; [done|]; by rewrite IH).
  assert (∀ d : option obj, mlookup d k = default (∅ : obj) d !! k) as Hm by (intros [d|]; simpl; [done|by rewrite lookup_empty]).
  rewrite !Hm. unfold add_attributes. rewrite Hd, (range_insert_unless (λ _ _, false) (λ _ v, v)), Hc.
  by destruct (sub_create c schema !! k).
Qed.

(** A store that may add conditions to the options of a list, but drops none. *)
Definition keeps_conditions (store : Store W) : Prop :=
  ∀ c schema opts w w' opts' r, s_List store c schema opts w = (w', Ret (opts', r)) → QConditions opts ⊆ QConditions opts'.

Lemma filter_events_sub c schema events :
  filter_events (FilterObject (sub_options c schema) schema) events
  = Ret (filter (λ e, e ≠ None ∧ in_context c schema e = true) events).
Proof.
  induction events as [|e events IH]; [done|]. cbn [filter_events]. rewrite FilterObject_sub. cbn [mbind go_bind].
  rewrite IH. cbn [mbind go_bind]. rewrite filter_cons. f_equal.
  destruct e as [m|]; [|by rewrite (decide_False (P:=None ≠ None ∧ _)) by naive_solver; destruct (in_context _ _ None)].
  destruct (in_context c schema (Some m)); [by rewrite decide_True|by rewrite decide_False by naive_solver].
Qed.

(** The answer that a wrapped operation gives for an answer of the store. *)
Definition shown (c : APIContext) (schema : Schema) (r : go (with_error (option obj))) : go (with_error (option obj)) :=
  match r with
  | Ret (_, Some err) => Ret (None, Some err)
  | Ret (x, None) => Ret (if in_context c schema x then x else None, None)
  | Panic => Panic
  end.

(** Whatever object is read, validateGet lets it pass: only an error of the read
    is an error. *)
Lemma validateGet_passes st c schema id w :
  validateGet (Some st) c schema id w
  = match s_ByID st c schema id w with (w', Ret (_, err)) => (w', Ret err) | (w', Panic) => (w', Panic) end.
Proof.
  unfold validateGet, mbind, prog_bind. destruct (s_ByID st c schema id w) as [w' [[existing [e|]]|]]; [done| |done].
  cbn [Filter]. by rewrite FilterObject_sub.
Qed.

(** C5: what a wrapped store shows lies within the sub context of the request,
    and what it changes need not.  An object read by id is shown exactly when it
    has the attributes of the sub context, a list holds only objects that have
    them and that meet the conditions of the list, and the events of a watch are
    exactly those of the store that have them, in order.  An update or a delete
    first reads the object through the store of the schema: when that read
    fails, its error is the answer and the store is not reached; otherwise the
    operation is passed on with the same data and id {e whatever} the sub context
    of the object, and the answer of the update shows the object only when it
    lies within.  A create adds the attributes of the sub context to the data
    and changes nothing else of it. *)
Theorem wrapper_isolates own (store st : Store W) c schema id data w :
  own schema = Some st → keeps_conditions store →
  (s_ByID (Wrap own store) c schema id w
   = let '(w', r) := s_ByID store c schema id w in (w', shown c schema r)) ∧
  (∀ opts w' opts' l err x, s_List (Wrap own store) c schema opts w = (w', Ret (opts', (l, err))) → x ∈ l →
     in_context c schema x = true ∧ forallb (λ q, Valid q schema x) (QConditions opts) = true) ∧
  (∀ opts w' opts' events, s_Watch store c schema opts w = (w', Ret (opts', (Some events, None))) →
     s_Watch (Wrap own store) c schema opts w
     = (w', Ret (opts', (Some (filter (λ e, e ≠ None ∧ in_context c schema e = true) events), None)))) ∧
  (∀ w' existing err, s_ByID st c schema id w = (w', Ret (existing, err)) →
     match err with
     | Some err =>
         s_Update (Wrap own store) c schema data id w = (w', Ret (None, Some err)) ∧
         s_Delete (Wrap own store) c schema id w = (w', Ret (None, Some err))
     | None =>
         s_Update (Wrap own store) c schema data id w
         = (let '(w'', r) := s_Update store c schema data id w' in (w'', shown c schema r)) ∧
         s_Delete (Wrap own store) c schema id w = s_Delete store c schema id w'
     end) ∧
  (∃ data', (s_Create (Wrap own store) c schema data w).1 = (s_Create store c schema data' w).1 ∧
     ∀ k, mlookup data' k = match sub_create c schema !! k with Some v => Some (VStr v) | None => mlookup data k end).
Proof.
  intros Hown Hk. split_and!.
  - simpl. unfold wrap_ByID, mbind, prog_bind.
    destruct (s_ByID store c schema id w) as [w1 [[o [e|]]|]]; [done| |done]. by rewrite FilterObject_sub.
  - intros opts w' opts' l err x. simpl. unfold wrap_List, mbind, prog_bind.
    destruct (s_List store c schema _ w) as [w1 [[o1 [items [e|]]]|]] eqn:Hl; [by intros [= _ _ <- _] ?%elem_of_nil| |done].
    apply Hk in Hl. cbn [QConditions set_conditions] in Hl.
    destruct (lift _ _) as [w2 [[o2 items2]|]] eqn:Hf; [|done]. intros [= _ <- <- _] Hx.
    injection Hf as _ Hf. apply (FilterList_valid _ _ _ _ _ x) in Hf; [|done]. rewrite forallb_forall in Hf.
    split; apply forallb_forall; intros q Hq; apply Hf; apply list_elem_of_In in Hq; apply list_elem_of_In, Hl; set_solver.
  - intros opts w' opts' events Hw. simpl. unfold wrap_Watch, mbind, prog_bind. rewrite Hw. cbn iota beta.
    by rewrite filter_events_sub.
  - intros w' existing err Hb. cbn [s_Update s_Delete Wrap].
    unfold wrap_Update, wrap_Delete, mbind, prog_bind. rewrite Hown, validateGet_passes, Hb.
    destruct err as [e|]; [done|]. split; [|done].
    destruct (s_Update store c schema data id w') as [w2 [[o [e|]]|]]; [done| |done]. by rewrite FilterObject_sub.
  - exists (add_attributes c schema data). split; [|intros k; apply add_attributes_lookup].
    simpl. unfold wrap_Create, mbind, prog_bind. destruct (s_Create store c schema _ w) as [w1 [[o [e|]]|]]; done.
Qed.

End Stores.

(** ** A store *)

(** A map of objects by id. *)
Definition map_store : Store (gmap string obj) :=
  mkStore "map"
    (λ _ _ id w, (w, Ret (match w !! id with Some o => (Some o, None) | None => (None, Some (NewAPIError NotFound id)) end)))
    (λ _ _ opts w, (w, Ret (opts, (Some <$> (map_to_list w).*2, None))))
    (λ _ _ data w, (<[as_string (mget data "id") := default ∅ data]> w, Ret (data, None)))
    (λ _ _ data id w, (<[id := default ∅ data]> w, Ret (data, None)))
    (λ _ _ id w, (delete id w, Ret (w !! id, None)))
    (λ _ _ opts w, (w, Ret (opts, (None, None)))).
Definition job_schema : Schema :=
  (@setupDefaults std_schema_format (NewSchemas None)
     (mkSchema "job" false "" "" "" "" "" v3 "" ["GET"; "PUT"; "DELETE"]
        {[ "name" := typed_field "string"; "clusterId" := typed_field "reference[cluster]" ]} ∅
        ["GET"; "POST"] ∅ ∅ "" "" None)).2.
(** A request under /v3/clusters/c-1. *)
Definition cluster_context : APIContext :=
  mkContext "" "j-2" "job" "" "PUT" (Some job_schema) one_schema (Some v3) None ∅ "json" None
    {[ "/v3/schemas/cluster" := "c-1" ]} None (get_request "/v3/clusters/c-1/jobs/j-2").
Definition two_jobs : gmap string obj :=
  {[ "j-1" := {[ "id" := VStr "j-1"; "clusterId" := VStr "c-1" ]};
     "j-2" := {[ "id" := VStr "j-2"; "clusterId" := VStr "c-2" ]} ]}.

Definition wrapped_map : Store (gmap string obj) := @Wrap _ std_format std_sort std_range (λ _, None) map_store.

(** Under /v3/clusters/c-1 the job j-2 of the cluster c-2 is not shown, but the
    update of it is passed on, and nothing of the result is shown. *)
Lemma wrapper_isolates_witness :
  let wrapped := @Wrap _ std_format std_sort std_range (λ _, Some wrapped_map) map_store in
  s_ByID wrapped cluster_context job_schema "j-2" two_jobs = (two_jobs, Ret (None, None)) ∧
  s_Update wrapped cluster_context job_schema (Some ∅) "j-2" two_jobs = (<["j-2" := ∅]> two_jobs, Ret (None, None)).
Proof.
  destruct (@wrapper_isolates _ std_format std_sort std_range
    (λ _, Some wrapped_map) map_store wrapped_map
    cluster_context job_schema "j-2" (Some ∅) two_jobs) as (Hb & _ & _ & Hu & _).
  - reflexivity.
  - intros c schema opts w w' opts' r Heq. injection Heq as <- <- <-. reflexivity.
  - split; [exact Hb|].
    exact (proj1 (Hu two_jobs None None eq_refl)).
Defined.

(** The NotFound that validateGet has for an object outside of the sub context is
    never the answer: under /v3/clusters/c-1 the job of another cluster, which
    cannot be read there, is deleted. *)
Example outside_context_deleted :
  let wrapped := @Wrap _ std_format std_sort std_range (λ _, Some wrapped_map) map_store in
  @in_context std_format std_range cluster_context job_schema (two_jobs !! "j-2") = false ∧
  (s_ByID wrapped cluster_context job_schema "j-2" two_jobs).2 = Ret (None, None) ∧
  (s_Delete wrapped cluster_context job_schema "j-2" two_jobs).1 = delete "j-2" two_jobs.
Proof. split_and!; vm_compute; reflexivity. Qed.

(** A transform store without a transformer passes the results of every other
    operation on, but panics after it has deleted an object, and on the first
    event of a watch. *)
Example transform_delete_panics :
  let s := mkTransform map_store None None None in
  transform_ByID s cluster_context job_schema "j-2" two_jobs = (two_jobs, Ret (two_jobs !! "j-2", None)) ∧
  transform_Delete s cluster_context job_schema "j-2" two_jobs = (delete "j-2" two_jobs, Panic).
Proof. split; vm_compute; reflexivity. Qed.
