(* ===== verification/SchemaStore.v ===== *)
(** * The schemas and roots an API shows of itself

    Models store/schema/schema_store.go (the schemas as resources, cut down to
    what a request may do), the formatters and the store of
    api/builtin/api_root.go and api/builtin/schema.go.

    The search for schemas is recursive through the types of fields and actions,
    with the schemas met so far in a map; the model gets fuel, and more fuel
    than there are schemas is enough.  [schema_json] is json.Marshal followed by
    json.Unmarshal. *)

From S2P Require Import Prelude GoStrings Values Errors TypeNames Convert Schemas Query Http Urls Parse Access Stores.

Class SchemaJSON := { schema_json : Schema → result (option obj) }.

Definition set_methods (s : Schema) (resourceMethods collectionMethods : list string) : Schema :=
  mkSchema (ID s) (Embed s) (EmbedType s) (CodeName s) (CodeNamePlural s) (SType s) (BaseType s)
    (Version s) (PluralName s) resourceMethods (ResourceFields s) (ResourceActions s) collectionMethods
    (CollectionActions s) (CollectionFilters s) (DynamicSchemaVersion s) (Scope s) (InternalSchema s).

(** ** Which schemas a schema mentions *)

(** The loop that takes a type apart down to the type of its innermost element;
    every round but the last makes it shorter. *)
Fixpoint element_type_go (fuel : nat) (t : string) : string :=
  match fuel with
  | O => t
  | S fuel => if decide (SubType t = t) then t else element_type_go fuel (SubType t)
  end.
Definition element_type (t : string) : string := element_type_go (String.length t) t.

Section Mentions.
Context `{MapRange}.

Definition action_types (actions : gmap string Action) : list string :=
  filter (λ t, t ≠ "") (mjoin ((λ e, [Output e.2; Input e.2]) <$> range actions)).
(** The types traverseAndAdd looks at, in its order. *)
Definition mentions (s : Schema) : list string :=
  ((λ e : string * Field, element_type (Type_ e.2)) <$> range (ResourceFields s)) ++
  action_types (ResourceActions s) ++ action_types (CollectionActions s).
End Mentions.

(** ** The store *)
Section SchemaStore.
Context {W : Type} `{MapRange} `{SchemaJSON}.
Variable ac : AccessControl.

Definition may (methods : list string) (method : string) (err : option error) : list string :=
  if ContainsString methods method && bool_decide (err = None) then [method] else [].

Definition modifyForAccessControl (c : APIContext) (s : Schema) : Schema :=
  set_methods s
    (may (ResourceMethods s) "PUT" (CanUpdate ac s (Some c)) ++ may (ResourceMethods s) "DELETE" (CanDelete ac s (Some c)) ++
     may (ResourceMethods s) "GET" (CanGet ac s (Some c)))
    (may (CollectionMethods s) "POST" (CanCreate ac s (Some c)) ++ may (CollectionMethods s) "GET" (CanList ac s (Some c))).

(** The list of schemas found so far, and the ids of those that were met. *)
Abbreviation found := (list Schema * gset string)%type.

Section Search.
Variables (c : APIContext) (schemaMap : gmap string Schema).

(** traverseAndAdd: [add] is addSchema. *)
Fixpoint traverseAndAdd (add : Schema → found → option found) (ts : list string) (st : found) : option found :=
  match ts with
  | [] => Some st
  | t :: ts' =>
      match schemaMap !! t with
      | Some refSchema =>
          if decide (t ∈ st.2) then traverseAndAdd add ts' st
          else st' ← add refSchema st; traverseAndAdd add ts' st'
      | None => traverseAndAdd add ts' st
      end
  end.
Fixpoint addSchema (fuel : nat) (s : Schema) (st : found) : option found :=
  match fuel with
  | O => None
  | S fuel =>
      st' ← traverseAndAdd (addSchema fuel) (mentions s) (st.1, {[ ID s ]} ∪ st.2);
      Some (st'.1 ++ [modifyForAccessControl c s], st'.2)
  end.

Definition visible (s : Schema) : bool :=
  bool_decide (CanList ac s (Some c) = None) || bool_decide (CanGet ac s (Some c) = None).
Fixpoint add_visible (fuel : nat) (l : list (string * Schema)) (st : found) : option found :=
  match l with
  | [] => Some st
  | (_, s) :: l' =>
      if bool_decide (ID s ∈ st.2) || negb (visible s) then add_visible fuel l' st
      else st' ← addSchema fuel s st; add_visible fuel l' st'
  end.
Definition list_schemas (fuel : nat) : option (list Schema) :=
  fst <$> add_visible fuel (range schemaMap) ([], ∅).
End Search.

Fixpoint marshal_all (l : list Schema) : with_error (list (option obj)) :=
  match l with
  | [] => ([], None)
  | s :: l' =>
      match schema_json s with
      | inr err => ([], Some err)
      | inl d => match marshal_all l' with (ds, None) => (d :: ds, None) | (_, Some err) => ([], Some err) end
      end
  end.

(** A nil version panics. *)
Definition schema_map (c : APIContext) : go (gmap string Schema) :=
  match ctx_Version c with Some v => Ret (SchemasForVersion (ctx_Schemas c) v) | None => Panic end.
Definition schema_List (c : APIContext) : go (with_error (list (option obj))) :=
  m ← schema_map c;
  match list_schemas c m (S (size m)) with
  | Some l => Ret (marshal_all l)
  | None => Panic
  end.
Definition schema_ByID (c : APIContext) (id : string) : go (with_error (option obj)) :=
  m ← schema_map c;
  Ret match list_find (λ e : string * Schema, EqualFold (ID e.2) id = true) (range m) with
      | Some (_, (_, s)) => match schema_json (modifyForAccessControl c s) with inl d => (d, None) | inr err => (None, Some err) end
      | None => (None, Some (NewAPIError NotFound "no such schema"))
      end.
Definition schema_store : Store W :=
  mkStore (s_Context (@empty_store W)) (λ c _ id, lift (schema_ByID c id)) (λ c _ o, lift (r ← schema_List c; Ret (o, r)))
    (s_Create empty_store) (s_Update empty_store) (s_Delete empty_store) (λ _ _ o, mret (o, (None, None))).

(** ** api/builtin/schema.go *)
Definition apiVersionFromMap (s : Schemas) (data : option obj) : APIVersion :=
  let v := mkVersion (as_string (mget data "group")) (as_string (mget data "version")) (as_string (mget data "path")) false "" in
  default v (snd <$> list_find (λ w, Version_Equals w v = true) (versions s)).
Definition getSchemaCollectionLink (u : urlBuilder) (s : Schema) (v : option APIVersion) : string :=
  if ContainsString (CollectionMethods s) "GET" then Collection u s v else "".
Definition set_links (r : RawResource) (links : gmap string string) (values : option obj) : RawResource :=
  mkRaw (RID r) (RType r) (RSchema r) links (RActions r) values (ActionLinks r) (DropReadOnly r).
Definition SchemaFormatter (s : Schemas) (u : urlBuilder) (r : RawResource) : RawResource :=
  let v := apiVersionFromMap s (ToMapInterface (mget (RValues r) "version")) in
  match Schemas_Schema s (Some v) (RID r) with
  | None => r
  | Some sc =>
      let link := getSchemaCollectionLink u sc (Some v) in
      let links := if decide (link = "") then RLinks r else <["collection" := link]> (RLinks r) in
      set_links r (<["self" := SchemaLink u sc]> links) (RValues r)
  end.

(** ** api/builtin/api_root.go *)
Definition addCollectionLink (u : urlBuilder) (links : gmap string string) (s : Schema) : gmap string string :=
  let link := getSchemaCollectionLink u s None in
  if decide (link = "") then links else <[PluralName s := link]> links.
Definition APIRootFormatter (s : Schemas) (u : urlBuilder) (r : RawResource) : RawResource :=
  let path := as_string (mget (RValues r) "path") in
  if decide (path = "") then r
  else
    let values := mdelete (RValues r) "path" in
    let v := apiVersionFromMap s (ToMapInterface (mget values "apiVersion")) in
    let links := <["self" := VersionLink u v]> (<["root" := RelativeToRoot u path]> (RLinks r)) in
    set_links r (foldl (λ links e, addCollectionLink u links e.2) links (range (SchemasForVersion s v))) values.

Definition apiVersionToAPIRootMap (v : APIVersion) : obj :=
  {[ "type" := VStr "/meta/schemas/apiRoot";
     "apiVersion" := VMap {[ "version" := VStr (Version_ v); "group" := VStr (Group v); "path" := VStr (Path v) ]};
     "path" := VStr (Path v) ]}.
Definition root_ByID (s : Schemas) (id : string) : option obj :=
  apiVersionToAPIRootMap <$> (snd <$> list_find (λ v, Path v = id) (versions s)).
Definition root_List (s : Schemas) (roots : list string) : list (option obj) :=
  ((λ v, Some (apiVersionToAPIRootMap v)) <$> versions s) ++ ((λ r, Some {[ "path" := VStr r ]}) <$> roots).
Definition APIRootStore (roots : list string) : Store W :=
  mkStore (s_Context (@empty_store W)) (λ c _ id, mret (root_ByID (ctx_Schemas c) id, None))
    (λ c _ o, mret (o, (root_List (ctx_Schemas c) roots, None)))
    (s_Create empty_store) (s_Update empty_store) (s_Delete empty_store) (s_Watch empty_store).

(** ** The search is right *)
Section Correct.
Variables (c : APIContext) (m : gmap string Schema).
Hypothesis keyed : ∀ k s, m !! k = Some s → ID s = k.

(** What may be shown: the schemas that can be listed or read, and those they
    mention, directly or not. *)
Inductive shown : Schema → Prop :=
| shown_visible k s : m !! k = Some s → visible c s = true → shown s
| shown_mention s t s' : shown s → t ∈ mentions s → m !! t = Some s' → shown s'.

(** Progress of the search: schemas that were not met yet are added, each once,
    together with all they mention. *)
Definition grown (st st' : found) : Prop :=
  ∃ ss, st'.1 = st.1 ++ (modifyForAccessControl c <$> ss) ∧ NoDup (ID <$> ss) ∧
    st'.2 = st.2 ∪ list_to_set (ID <$> ss) ∧
    ∀ s, s ∈ ss → ID s ∉ st.2 ∧ m !! ID s = Some s ∧ shown s ∧
      ∀ t, t ∈ mentions s → is_Some (m !! t) → t ∈ st'.2.

Lemma grown_refl st : grown st st.
Proof. exists []. rewrite fmap_nil, app_nil_r. split_and!; [done|constructor|set_solver|set_solver]. Qed.
Lemma grown_trans st1 st2 st3 : grown st1 st2 → grown st2 st3 → grown st1 st3.
Proof.
  intros (ss & Hl & Hnd & Hi & Hs) (ss' & Hl' & Hnd' & Hi' & Hs').
  exists (ss ++ ss'). rewrite !fmap_app. split_and!.
  - by rewrite Hl', Hl, app_assoc.
  - apply NoDup_app. split_and!; [done| |done]. intros i Hin Hin'.
    apply list_elem_of_fmap in Hin' as (s & -> & Hin'). destruct (Hs' s Hin') as [Hn _].
    apply Hn. rewrite Hi. set_solver.
  - rewrite Hi', Hi. set_solver.
  - intros s [Hin|Hin]%elem_of_app.
    + destruct (Hs s Hin) as (? & ? & ? & Hm). split_and!; [done..|]. intros t Ht Hmt. rewrite Hi'. set_solver.
    + destruct (Hs' s Hin) as (? & ? & ? & Hm). split_and!; [set_solver|done..].
Qed.
Lemma grown_subset st st' : grown st st' → st.2 ⊆ st'.2.
Proof. intros (ss & _ & _ & -> & _). set_solver. Qed.

(** How many schemas have not been met. *)
Definition left_over (inc : gset string) : nat := size (dom m ∖ inc).
Lemma left_over_mono inc inc' : inc ⊆ inc' → (left_over inc' ≤ left_over inc)%nat.
Proof. intros. unfold left_over. apply subseteq_size. set_solver. Qed.
Lemma left_over_add k inc : is_Some (m !! k) → k ∉ inc → (left_over ({[k]} ∪ inc) < left_over inc)%nat.
Proof.
  intros Hk Hn. unfold left_over. apply subset_size. apply elem_of_dom in Hk. split; [set_solver|].
  intros Hsub. assert (k ∈ dom m ∖ ({[k]} ∪ inc)) as Hin by (apply Hsub; set_solver). set_solver.
Qed.

(** What addSchema does with a schema that was not met. *)
Definition adds (add : Schema → found → option found) (n : nat) : Prop :=
  ∀ s st, m !! ID s = Some s → ID s ∉ st.2 → shown s → (left_over st.2 < n)%nat →
    ∃ st', add s st = Some st' ∧ grown st st' ∧ ID s ∈ st'.2.

Lemma traverseAndAdd_ok add n ts st :
  adds add n → (∀ t s, t ∈ ts → m !! t = Some s → shown s) → (left_over st.2 < n)%nat →
  ∃ st', traverseAndAdd m add ts st = Some st' ∧ grown st st' ∧ ∀ t, t ∈ ts → is_Some (m !! t) → t ∈ st'.2.
Proof.
  intros Hadd. revert st. induction ts as [|t ts IH]; intros st Hsh Hn; simpl.
  { exists st. split_and!; [done|apply grown_refl|set_solver]. }
  assert (∀ st', grown st st' → (t ∈ st'.2 ∨ m !! t = None) →
    ∃ st'', traverseAndAdd m add ts st' = Some st'' ∧ grown st st'' ∧
      ∀ t', t' ∈ t :: ts → is_Some (m !! t') → t' ∈ st''.2) as Hrest.
  { intros st' Hg Ht. destruct (IH st') as (st'' & Hst'' & Hg' & Hin).
    - intros t' s Ht' Hm. apply (Hsh t'); [by right|done].
    - apply grown_subset in Hg. pose proof (left_over_mono _ _ Hg). lia.
    - exists st''. split_and!; [done|by eapply grown_trans|]. intros t' [->|Ht']%elem_of_cons Hm; [|by apply Hin].
      destruct Ht as [Ht|Ht]; [by apply (grown_subset _ _ Hg')|]. rewrite Ht in Hm. by destruct Hm. }
  destruct (m !! t) as [s|] eqn:Hm; [|apply Hrest; auto using grown_refl].
  case_decide as Ht; [apply Hrest; auto using grown_refl|].
  pose proof (keyed _ _ Hm) as Hid.
  destruct (Hadd s st) as (st' & Hst' & Hg & Hin); [by rewrite Hid|by rewrite Hid|by apply (Hsh t); [left|]|done|].
  rewrite Hst'. cbn [mbind option_bind]. apply Hrest; [done|]. left. by rewrite <- Hid.
Qed.

Lemma addSchema_ok fuel : adds (addSchema c m fuel) fuel.
Proof.
  induction fuel as [|fuel IH]; intros s st Hm Hn Hsh Hf; [lia|]. simpl.
  destruct (traverseAndAdd_ok (addSchema c m fuel) fuel (mentions s) (st.1, {[ ID s ]} ∪ st.2)) as (st' & Hst' & Hg & Hin).
  - done.
  - intros t s' Ht Hm'. by eapply shown_mention.
  - assert (is_Some (m !! ID s)) as Hs by by eexists. pose proof (left_over_add _ _ Hs Hn). simpl. lia.
  - rewrite Hst'. cbn [mbind option_bind]. eexists. split; [done|].
    destruct Hg as (ss & Hl & Hnd & Hi & Hs). simpl in *. split.
    + exists (ss ++ [s]). rewrite !fmap_app. simpl. split_and!.
      * by rewrite Hl, app_assoc.
      * apply NoDup_app. split_and!; [done| |apply NoDup_singleton]. intros i Hin' ->%list_elem_of_singleton.
        apply list_elem_of_fmap in Hin' as (s' & He & Hin'). destruct (Hs s' Hin') as [Hn' _]. set_solver.
      * rewrite Hi. set_solver.
      * intros s' [Hin'| ->%list_elem_of_singleton]%elem_of_app; [|done].
        destruct (Hs s' Hin') as (? & ? & ? & ?). split_and!; [set_solver|done..].
    + rewrite Hi. set_solver.
Qed.

Lemma add_visible_ok fuel l st :
  (∀ k s, (k, s) ∈ l → m !! k = Some s) → (left_over st.2 < fuel)%nat →
  ∃ st', add_visible c m fuel l st = Some st' ∧ grown st st' ∧
    ∀ k s, (k, s) ∈ l → visible c s = true → k ∈ st'.2.
Proof.
  revert st. induction l as [|[k s] l IH]; intros st Hl Hn; simpl.
  { exists st. split_and!; [done|apply grown_refl|set_solver]. }
  assert (m !! k = Some s) as Hm by (apply Hl; left). pose proof (keyed _ _ Hm) as Hid.
  assert (∀ st', grown st st' → (visible c s = true → k ∈ st'.2) →
    ∃ st'', add_visible c m fuel l st' = Some st'' ∧ grown st st'' ∧
      ∀ k' s', (k', s') ∈ (k, s) :: l → visible c s' = true → k' ∈ st''.2) as Hrest.
  { intros st' Hg Hk. destruct (IH st') as (st'' & Hst'' & Hg' & Hin).
    - intros k' s' Hin. apply Hl. by right.
    - apply grown_subset in Hg. pose proof (left_over_mono _ _ Hg). lia.
    - exists st''. split_and!; [done|by eapply grown_trans|]. intros k' s' [[= -> ->]|Hin']%elem_of_cons Hv; [|by eapply Hin].
      apply (grown_subset _ _ Hg'). auto. }
  case_bool_decide as Hin; simpl; [apply Hrest; [apply grown_refl|by rewrite <- Hid]|].
  destruct (visible c s) eqn:Hv; simpl; [|apply Hrest; [apply grown_refl|done]].
  destruct (addSchema_ok fuel s st) as (st' & Hst' & Hg & Hin'); [by rewrite Hid|done|by eapply shown_visible|done|].
  rewrite Hst'. cbn [mbind option_bind]. apply Hrest; [done|]. intros _. by rewrite <- Hid.
Qed.

Lemma list_schemas_ok fuel :
  (size m < fuel)%nat →
  ∃ ss, list_schemas c m fuel = Some (modifyForAccessControl c <$> ss) ∧ NoDup (ID <$> ss) ∧ ∀ s, s ∈ ss ↔ shown s.
Proof.
  intros Hf. unfold list_schemas.
  destruct (add_visible_ok fuel (range m) ([], ∅)) as (st' & -> & (ss & Hl & Hnd & Hi & Hs) & Hv).
  - intros k s. apply elem_of_range.
  - unfold left_over. simpl. rewrite difference_empty_L, size_dom. done.
  - simpl in *. exists ss. rewrite Hl. split_and!; [done|done|]. intros s. split; [intros Hin; by apply Hs|].
    assert (∀ s, m !! ID s = Some s → ID s ∈ st'.2 → s ∈ ss) as Hback.
    { intros s' Hm Hin. rewrite Hi, union_empty_l_L, elem_of_list_to_set in Hin.
      apply list_elem_of_fmap in Hin as (s'' & He & Hin). destruct (Hs s'' Hin) as (_ & Hm' & _).
      rewrite He in Hm. by simplify_eq. }
    induction 1 as [k s Hm Hvis|s t s' Hsh IH Ht Hm].
    + apply Hback; rewrite (keyed _ _ Hm); [done|]. eapply Hv; [by apply elem_of_range|done].
    + apply Hback; rewrite (keyed _ _ Hm); [done|]. destruct (Hs s IH) as (_ & _ & _ & Hmen). apply Hmen; [done|by eexists].
Qed.
End Correct.

(** A method is left to a schema when it has it and the request may use it. *)
Lemma elem_of_may methods method err x : x ∈ may methods method err ↔ x = method ∧ x ∈ methods ∧ err = None.
Proof.
  unfold may. pose proof (ContainsString_spec methods method) as Hc.
  destruct (ContainsString methods method) eqn:Hcs; simpl; [case_bool_decide|]; set_solver.
Qed.

(** C16: the list of schemas.  In a registry that satisfies its invariant the
    search ends, and the store lists, each once, exactly the schemas of the
    version of the request that it may list or read and those they mention,
    directly or not; schemas that mention each other in a circle are no
    obstacle.  Each is shown with exactly those of its methods that the
    request may use. *)
Theorem schema_list_correct (c : APIContext) (v : APIVersion) :
  registry_ok (ctx_Schemas c) → ctx_Version c = Some v →
  let m := SchemasForVersion (ctx_Schemas c) v in
  ∃ ss, list_schemas c m (S (size m)) = Some (modifyForAccessControl c <$> ss) ∧
    schema_List c = Ret (marshal_all (modifyForAccessControl c <$> ss)) ∧
    NoDup (ID <$> ss) ∧ (∀ s, s ∈ ss ↔ shown c m s) ∧
    ∀ s method,
      (method ∈ ResourceMethods (modifyForAccessControl c s) ↔ method ∈ ResourceMethods s ∧
         (method = "PUT" ∧ ac_CanUpdate ac c None s = None ∨ method = "DELETE" ∧ ac_CanDelete ac c None s = None ∨
          method = "GET" ∧ ac_CanGet ac c s = None)) ∧
      (method ∈ CollectionMethods (modifyForAccessControl c s) ↔ method ∈ CollectionMethods s ∧
         (method = "POST" ∧ ac_CanCreate ac c s = None ∨ method = "GET" ∧ ac_CanList ac c s = None)).
Proof.
  intros Hok Hv m. destruct (list_schemas_ok c m) with (fuel := S (size m)) as (ss & Hl & Hnd & Hs).
  - intros k s Hm. refine (proj2 (ok_filed _ Hok (Path v) k s _)). unfold filed. subst m. unfold SchemasForVersion in Hm.
    by destruct (schemasByPath _ !! _).
  - lia.
  - exists ss. split_and!; [done| |done|done|].
    + unfold schema_List, schema_map. rewrite Hv. cbn [mbind go_bind]. fold m. by rewrite Hl.
    + intros s method. simpl. rewrite !elem_of_app, !elem_of_may. naive_solver.
Qed.
End SchemaStore.

(** Two schemas that mention each other, one of them only for internal use. *)
Definition owner_schema : Schema :=
  set_methods (plain_schema "owner" {[ "pets" := typed_field "array[reference[pet]]" ]}) ["GET"; "PUT"] ["GET"].
Definition pet_schema : Schema := plain_schema "pet" {[ "owner" := typed_field "map[owner]" ]}.
Definition pets_registry : Schemas :=
  default (NewSchemas None) (@run_ops std_range std_schema_format 2 (NewSchemas None) [OpAdd owner_schema; OpAdd pet_schema]).
Definition pets_context : APIContext :=
  mkContext "" "" "schema" "" "GET" None pets_registry (Some v3) None ∅ "json" None ∅ None (get_request "/v3/schemas").
Definition read_only : AccessControl := mkAccess
  (λ _ s, Some (denied "create" s)) (ac_CanList AllAccess) (ac_CanGet AllAccess)
  (λ _ _ s, Some (denied "update" s)) (λ _ _ s, Some (denied "delete" s)) (ac_CanDo AllAccess)
  (ac_Filter AllAccess) (ac_FilterList AllAccess).
Definition std_schema_json : SchemaJSON := {| schema_json := λ s, inl (Some {[ "id" := VStr (ID s) ]}) |}.

Lemma pets_ok : registry_ok pets_registry.
Proof.
  refine (@run_ops_ok std_range std_schema_format 2 [OpAdd owner_schema; OpAdd pet_schema] (NewSchemas None) _ _ _).
  - apply NewSchemas_ok.
  - vm_compute. reflexivity.
Qed.

Lemma schema_list_correct_witness :
  ∃ ss, @schema_List std_range std_schema_json read_only pets_context
        = Ret (@marshal_all std_schema_json (modifyForAccessControl read_only pets_context <$> ss)) ∧ NoDup (ID <$> ss).
Proof.
  destruct (@schema_list_correct std_range std_schema_json read_only pets_context v3) as (ss & _ & Hl & Hnd & _).
  - exact pets_ok.
  - reflexivity.
  - exists ss. split; [exact Hl|exact Hnd].
Defined.

(** The request may only read: the update of owners is not shown, and pets are
    shown because owners mention them. *)
Example pets_listed :
  (λ l : list Schema, map (λ s, (ID s, ResourceMethods s)) l)
    <$> @list_schemas std_range read_only pets_context (SchemasForVersion pets_registry v3) 3
  = Some [("pet", []); ("owner", ["GET"])].
Proof. vm_compute. reflexivity. Qed.
