(* ===== verification/Server.v ===== *)
(** * The API server

    Models api/server.go, api/validate.go, api/access/list.go and the handlers of
    api/handler: how a request is parsed, checked against cross-site forgery and
    access control, handed to a handler, and answered.

    The server works on the world of the stores, the responses written so far
    and the cookies set.  A handler gets the request context by reference: it
    returns it as it leaves it.  [next], the default handler a handler is given,
    is applied without a further one.  What a response looks like on the wire is
    the matter of the response writers (Format.v); here it is a code, a body, and
    whether the body was written whole: a writer sends the status first and then
    makes the body, and what it calls may panic.  [Writing] says how the writers
    end; Format.v gives the one that follows them.  A panic is never that of
    http.ErrAbortHandler, which nothing in the sources raises.

    [rand_bytes] (crypto/rand) is the randomness of a new CSRF cookie; the
    reference validator and the validators of the schemas are parameters.  The
    construction of a body has fuel, as in Builder.v: without an answer the
    process dies of its stack, which the model counts as a panic. *)

From S2P Require Import Prelude GoStrings Values Errors TypeNames Convert Schemas Builder Query Http Urls Parse Access Stores SchemaStore.
From Stdlib Require Import Ascii.

(** ** Responses and the state of the server *)
Inductive body := BNil | BMap (data : option obj) | BSlice (data : list (option obj)).
Record response := mkResponse { res_context : option APIContext; res_code : Z; res_body : body; res_whole : bool }.
(** How a response writer ends: with the whole response, by a panic after it sent
    the status, or by a panic before. *)
Inductive fate := Whole | Cut | NotStarted.
#[export] Instance fate_eq_dec : EqDecision fate.
Proof. solve_decision. Defined.
Class Writing := write_fate : APIContext → Z → body → fate.

Record srv (W : Type) := mkSrv { world : W; responses : list response; cookies : list string }.
Arguments mkSrv {W}.
Arguments world {W}.
Arguments responses {W}.
Arguments cookies {W}.

(** hex.EncodeToString *)
Definition hex_lower (n : nat) : ascii := to_lower (hex_digit n).
Fixpoint hex_EncodeToString (bytes : list ascii) : string :=
  match bytes with
  | [] => ""
  | b :: bytes' => String (hex_lower (nat_of_ascii b / 16)) (String (hex_lower (nat_of_ascii b mod 16)) (hex_EncodeToString bytes'))
  end.

Section Server.
Context {W : Type} `{GoFormat} `{SortSlice} `{MapRange} `{K8sValidation} `{Decoders} `{UrlParse} `{Writing}.

Abbreviation sprog := (prog (srv W)).
Definition on_world {A} (p : prog W A) : sprog A := λ s,
  let '(w, r) := p (world s) in (mkSrv w (responses s) (cookies s), r).
Definition respond (r : response) (s : srv W) : srv W := mkSrv (world s) (responses s ++ [r]) (cookies s).
(** APIContext.WriteResponse: the response writer of the context. *)
Definition WriteResponse (c : APIContext) (code : Z) (b : body) : sprog unit := λ s,
  match write_fate c code b with
  | Whole => (respond (mkResponse (Some c) code b true) s, Ret tt)
  | Cut => (respond (mkResponse (Some c) code b false) s, Panic)
  | NotStarted => (s, Panic)
  end.
Definition SetCookie (value : string) : sprog unit := λ s,
  (mkSrv (world s) (responses s) (cookies s ++ [value]), Ret tt).

(** ** Handlers *)
Abbreviation outcome := (APIContext * option error)%type.
Abbreviation RequestHandler := (APIContext → option (APIContext → sprog outcome) → sprog outcome).
Abbreviation ActionHandler := (string → Action → APIContext → sprog outcome).
Record Handlers := mkHandlers {
  h_Store : option (Store W);
  h_ActionHandler : option ActionHandler;
  h_ListHandler : option RequestHandler;
  h_LinkHandler : option RequestHandler;
  h_CreateHandler : option RequestHandler;
  h_UpdateHandler : option RequestHandler;
  h_DeleteHandler : option RequestHandler;
  h_ErrorHandler : option (APIContext → error → sprog unit);
  h_InputFormatter : option (APIContext → Schema → option obj → bool → go (with_error (option obj)))
}.

(** setupDefaults of the server: the hook of its registry. *)
Definition or_default {A} (own dflt : option A) : option A := match own with Some a => Some a | None => dflt end.
Definition server_setupDefaults (defaults : Handlers) (StoreWrapper : option (Store W → Store W)) (h : Handlers) : Handlers :=
  mkHandlers
    (match or_default (h_Store h) (h_Store defaults), StoreWrapper with
     | Some s, Some wrap => Some (wrap s)
     | s, _ => s
     end)
    (or_default (h_ActionHandler h) (h_ActionHandler defaults))
    (or_default (h_ListHandler h) (h_ListHandler defaults))
    (or_default (h_LinkHandler h) (h_LinkHandler defaults))
    (or_default (h_CreateHandler h) (h_CreateHandler defaults))
    (or_default (h_UpdateHandler h) (h_UpdateHandler defaults))
    (or_default (h_DeleteHandler h) (h_DeleteHandler defaults))
    (or_default (h_ErrorHandler h) (h_ErrorHandler defaults))
    (h_InputFormatter h).

(** The handlers of the schemas, as registered. *)
Variable handlers : Schema → Handlers.
Variable validators : Schema → option (obj → option error).
Variable fuel : nat.

(** ReferenceValidator *)
Record ReferenceValidator := mkRefValidator {
  rv_Validate : string → string → bool;
  rv_Lookup : string → string → option RawResource
}.
Variable ref_validator : option ReferenceValidator.

Definition NewBuilder (c : APIContext) : Builder :=
  mkBuilder (ctx_Version c) (ctx_Schemas c) (rv_Validate <$> ref_validator) (bool_decide (Option c "edit" = "true"))
    (bool_decide (Option c "export" = "true")) validators.
Definition set_builder_version (b : Builder) (v : option APIVersion) : Builder :=
  mkBuilder v (BSchemas b) (RefValidator b) (edit b) (export b) (Validator b).

Definition construct_prog (b : Builder) (schema : Schema) (data : option obj) (op : Operation) : sprog (result obj) :=
  match Construct b fuel schema data op with
  | Ok r => mret (inl r)
  | Err e => mret (inr e)
  | Crash | NoFuel => lift Panic
  end.

(** ** api/handler/validate.go *)
Definition ParseAndValidateBody (c : APIContext) (schema : Schema) (create : bool) : sprog (result obj) :=
  match Body (ctx_Request c) with
  | (_, Some err) => mret (inr err)
  | (data, None) =>
      let data := if create then add_attributes c schema data else data in
      '(data, err) ← match h_InputFormatter (handlers schema) with
                     | Some f => lift (f c schema data create)
                     | None => mret (data, None)
                     end;
      match err with
      | Some err => mret (inr err)
      | None => construct_prog (NewBuilder c) schema data (if create then OpCreate else OpUpdate)
      end
  end.
Definition ParseAndValidateActionBody (c : APIContext) (actionInputSchema : Schema) : sprog (result obj) :=
  match Body (ctx_Request c) with
  | (_, Some err) => mret (inr err)
  | (data, None) => construct_prog (NewBuilder c) actionInputSchema data OpCreate
  end.

(** ** The handlers of api/handler *)
Definition no_store : error := NewAPIError NotFound "no store found".
(** [apiContext.Schema] of a nil schema panics. *)
Definition with_schema {A} (c : APIContext) (f : Schema → sprog A) : sprog A :=
  match ctx_Schema c with Some schema => f schema | None => lift Panic end.

Definition CreateHandler : RequestHandler := λ c _,
  with_schema c (λ schema,
    data ← ParseAndValidateBody c schema true;
    match data, h_Store (handlers schema) with
    | inr err, _ => mret (c, Some err)
    | _, None => mret (c, Some no_store)
    | inl data, Some store =>
        '(data, err) ← on_world (s_Create store c schema (Some data));
        match err with
        | Some err => mret (c, Some err)
        | None => _ ← WriteResponse c 201 (BMap data); mret (c, None)
        end
    end).

Definition UpdateHandler : RequestHandler := λ c _,
  with_schema c (λ schema,
    data ← ParseAndValidateBody c schema false;
    match data, h_Store (handlers schema) with
    | inr err, _ => mret (c, Some err)
    | _, None => mret (c, Some no_store)
    | inl data, Some store =>
        '(data, err) ← on_world (s_Update store c schema (Some data) (ctx_ID c));
        match err with
        | Some err => mret (c, Some err)
        | None => _ ← WriteResponse c 200 (BMap data); mret (c, None)
        end
    end).

Definition DeleteHandler : RequestHandler := λ c _,
  with_schema c (λ schema,
    match h_Store (handlers schema) with
    | None => mret (c, Some no_store)
    | Some store =>
        '(o, err) ← on_world (s_Delete store c schema (ctx_ID c));
        match err, o with
        | Some err, _ => mret (c, Some err)
        | None, None => _ ← WriteResponse c 204 BNil; mret (c, None)
        | None, Some _ => _ ← WriteResponse c 200 (BMap o); mret (c, None)
        end
    end).

(** The pagination of the options is shared with the context, so that what the
    store notes in it reaches the response. *)
Definition ListHandler : RequestHandler := λ c _,
  with_schema c (λ schema,
    match h_Store (handlers schema) with
    | None => mret (c, Some no_store)
    | Some store =>
        if decide (ctx_ID c = "") then
          let opts := parse_QueryOptions (RMethod (ctx_Request c)) (ctx_Pagination c) schema (ctx_Query c) in
          '(opts, (data, err)) ← on_world (s_List store (set_pagination c (QPagination opts)) schema opts);
          let c := set_pagination c (QPagination opts) in
          match err with
          | Some err => mret (c, Some err)
          | None => _ ← WriteResponse c 200 (BSlice data); mret (c, None)
          end
        else
          '(data, err) ← on_world (s_ByID store c schema (ctx_ID c));
          match err with
          | Some err => mret (c, Some err)
          | None =>
              if decide (ctx_Link c = "") then _ ← WriteResponse c 200 (BMap data); mret (c, None)
              else match h_LinkHandler (handlers schema) with
                   | Some link => link c None
                   | None => lift Panic
                   end
          end
    end).

(** ErrorHandler of httperror/handler, and the LinkHandler of NewAPIServer. *)
Definition DefaultErrorHandler (c : APIContext) (err : error) : sprog unit :=
  let '(code, data) := ErrorHandler err in WriteResponse c code (BMap (Some data)).
Definition DefaultLinkHandler : RequestHandler := λ c _, mret (c, Some (NewAPIError NotFound "Link not found")).
(** The defaults of NewAPIServer. *)
Definition NewAPIServer_Defaults : Handlers :=
  mkHandlers None None (Some ListHandler) (Some DefaultLinkHandler) (Some CreateHandler) (Some UpdateHandler)
    (Some DeleteHandler) (Some DefaultErrorHandler) None.

(** ** api/access/list.go

    What the caller is given; convert.ToObj then copies it into its struct. *)
Definition no_schema (typeName : string) : error := ErrorString ("failed to find schema " +:+ typeName).
Definition store_of (schema : Schema) : sprog (Store W) :=
  match h_Store (handlers schema) with Some s => mret s | None => lift Panic end.
Definition access_item (c : APIContext) (version : option APIVersion) (schema : Schema) (r : with_error (option obj))
  : sprog (result obj) :=
  match r with
  | (_, Some err) => mret (inr err)
  | (item, None) => construct_prog (set_builder_version (NewBuilder c) version) schema item OpList
  end.
Definition access_Create (c : APIContext) (version : option APIVersion) (typeName : string) (data : option obj) : sprog (result obj) :=
  match Schemas_Schema (ctx_Schemas c) version typeName with
  | None => mret (inr (no_schema typeName))
  | Some schema => store ← store_of schema; r ← on_world (s_Create store c schema data); access_item c version schema r
  end.
Definition access_ByID (c : APIContext) (version : option APIVersion) (typeName id : string) : sprog (result obj) :=
  match Schemas_Schema (ctx_Schemas c) version typeName with
  | None => mret (inr (no_schema typeName))
  | Some schema => store ← store_of schema; r ← on_world (s_ByID store c schema id); access_item c version schema r
  end.
Fixpoint access_items (c : APIContext) (version : option APIVersion) (schema : Schema) (data : list (option obj)) : sprog (result (list obj)) :=
  match data with
  | [] => mret (inl [])
  | item :: data' =>
      r ← construct_prog (set_builder_version (NewBuilder c) version) schema item OpList;
      match r with
      | inr err => mret (inr err)
      | inl o =>
          rest ← access_items c version schema data';
          match rest with inr err => mret (inr err) | inl os => mret (inl (o :: os)) end
      end
  end.
Definition access_List (c : APIContext) (version : option APIVersion) (typeName : string) (opts : QueryOptions)
  : sprog (QueryOptions * result (list obj)) :=
  match Schemas_Schema (ctx_Schemas c) version typeName with
  | None => mret (opts, inr (no_schema typeName))
  | Some schema =>
      store ← store_of schema;
      '(opts, (data, err)) ← on_world (s_List store c schema opts);
      match err with
      | Some err => mret (opts, inr err)
      | None => r ← access_items c version schema data; mret (opts, r)
      end
  end.

(** ** api/validate.go *)
Definition ValidateAction (c : APIContext) : go (result (option Action)) :=
  if decide (ctx_Action c = "" ∨ ctx_Link c ≠ "" ∨ ctx_Method c ≠ "POST") then Ret (inl None)
  else match ctx_Schema c with
  | None => Panic
  | Some schema =>
      let invalid := NewAPIError InvalidAction ("Invalid action: " +:+ ctx_Action c) in
      let actions := if decide (ctx_ID c = "") then CollectionActions schema else ResourceActions schema in
      match actions !! ctx_Action c with
      | None => Ret (inr invalid)
      | Some action =>
          match ref_validator with
          | Some rv =>
              if decide (ctx_ID c = "") then Ret (inl (Some action))
              else match rv_Lookup rv (ctx_Type c) (ctx_ID c) with
              | None => Ret (inr (NewAPIError NotFound ("Failed to find type: " +:+ ctx_Type c +:+ " id: " +:+ ctx_ID c)))
              | Some resource =>
                  match RActions resource !! ctx_Action c with
                  | None => Ret (inr invalid)
                  | Some _ => Ret (inl (Some action))
                  end
              end
          | None => Ret (inl (Some action))
          end
      end
  end.

Definition csrfCookie : string := "CSRF".
Definition csrfHeader : string := "X-API-CSRF".
Variable rand_bytes : result (list ascii).

Definition csrf_matches (c : APIContext) (cookie : string) : bool :=
  bool_decide (cookie = Header_Get (RHeader (ctx_Request c)) csrfHeader) ||
  bool_decide (cookie = query_get (UQuery (RURL (ctx_Request c))) csrfCookie).
Definition CheckCSRF (c : APIContext) : sprog (option error) :=
  if negb (IsBrowser (ctx_Request c) false) then mret None
  else match RCookie (ctx_Request c) csrfCookie with
  | inl None =>
      match rand_bytes with
      | inr err => mret (Some (WrapAPIError err ServerError "Failed in CSRF processing"))
      | inl bytes => _ ← SetCookie (hex_EncodeToString bytes); mret None
      end
  | inr _ => mret (Some (NewAPIError InvalidCSRFToken "Failed to parse cookies"))
  | inl (Some cookie) =>
      if negb (bool_decide (ctx_Method c = "GET")) && negb (csrf_matches c cookie)
      then mret (Some (NewAPIError InvalidCSRFToken "Invalid CSRF token"))
      else _ ← SetCookie cookie; mret None
  end.

(** ** api/server.go *)
Variables (schemas : Schemas) (urlParser : Schemas → URL → go (ParsedURL * option error))
  (resolver : string → APIContext → APIContext * option error).
Variables (defaults : Handlers) (ac : AccessControl).

Definition handleAction (action : Action) (c : APIContext) : sprog outcome :=
  checked ← if decide (ctx_ID c = "") then mret None
            else r ← access_ByID c (ctx_Version c) (ctx_Type c) (ctx_ID c);
                 mret match r with inr err => Some err | inl _ => None end;
  match checked, ctx_Schema c with
  | Some err, _ => mret (c, Some err)
  | None, None => lift Panic
  | None, Some schema =>
      match h_ActionHandler (handlers schema) with
      | Some f => f (ctx_Action c) action c
      | None => lift Panic
      end
  end.

(** The access check of a method on a schema, and the handlers it goes to: that
    of the schema and the default one. *)
Definition route (c : APIContext) (schema : Schema) : result (option RequestHandler * option RequestHandler) :=
  let h := handlers schema in
  let check (err : option error) own dflt := match err with Some err => inr err | None => inl (own, dflt) end in
  if decide (ctx_Link c = "") then
    if decide (ctx_Method c = "GET") then
      check (if decide (ctx_ID c = "") then ac_CanList ac c schema else ac_CanGet ac c schema) (h_ListHandler h) (h_ListHandler defaults)
    else if decide (ctx_Method c = "POST") then check (ac_CanCreate ac c schema) (h_CreateHandler h) (h_CreateHandler defaults)
    else if decide (ctx_Method c = "PUT") then check (ac_CanUpdate ac c None schema) (h_UpdateHandler h) (h_UpdateHandler defaults)
    else if decide (ctx_Method c = "DELETE") then check (ac_CanDelete ac c None schema) (h_DeleteHandler h) (h_DeleteHandler defaults)
    else inl (None, None)
  else inl (h_ListHandler h, h_ListHandler defaults).

Definition handle (req : Request) : sprog outcome :=
  '(c, err) ← lift (Parse req schemas urlParser resolver);
  match err with
  | Some err => mret (c, Some err)
  | None =>
      csrf ← CheckCSRF c;
      match csrf with
      | Some err => mret (c, Some err)
      | None =>
          action ← lift (ValidateAction c);
          match action, ctx_Schema c with
          | inr err, _ => mret (c, Some err)
          | inl _, None => mret (c, None)
          | inl (Some action), Some _ => handleAction action c
          | inl None, Some schema =>
              if decide (ctx_Type c = "") then mret (c, None)
              else match route c schema with
              | inr err => mret (c, Some err)
              | inl (None, _) => mret (c, Some (NewAPIError NotFound ""))
              | inl (Some h, next) => h c ((λ f c, f c None) <$> next)
              end
          end
      end
  end.

Definition handleError (c : APIContext) (err : error) : sprog unit :=
  match ctx_Schema c with
  | None => match h_ErrorHandler defaults with Some f => f c err | None => lift Panic end
  | Some schema => match h_ErrorHandler (handlers schema) with Some f => f c err | None => mret tt end
  end.

(** AddSchemas: the first call also adds the schemas every API has, unless the
    server is told to leave them out.  The handlers are not part of a schema of
    the registry: [server_setupDefaults] is applied beside it. *)
Definition builtin_registry `{SchemaFormat} : option Schemas :=
  foldl (λ acc sc, s ← acc; AddSchema 1 s sc) (Some (NewSchemas None)) builtin_list.
Definition server_AddSchemas `{SchemaFormat} (n : nat) (IgnoreBuiltin : bool) (st : Schemas * bool) (other : Schemas)
  : option ((Schemas * bool) * option error) :=
  match Schemas_Err other with
  | Some err => Some (st, Some err)
  | None =>
      s ← if st.2 || IgnoreBuiltin then Some st.1 else b ← builtin_registry; AddSchemas n st.1 b;
      s ← AddSchemas n s other;
      Some ((s, true), Schemas_Err s)
  end.

(** ServeHTTP: a panic is recovered by WriteHeader(500), which does nothing once
    a status was sent. *)
Definition bare_500 : response := mkResponse None 500 BNil true.
Definition ServeHTTP (req : Request) (s : srv W) : srv W :=
  let run : sprog unit :=
    '(c, err) ← handle req;
    match err with Some err => handleError c err | None => mret tt end in
  match run s with
  | (s', Ret _) => s'
  | (s', Panic) => if decide (length (responses s') = length (responses s)) then respond bare_500 s' else s'
  end.

(** ** What the steps leave alone *)
Section Steps.
Variable R : srv W → srv W → Prop.
Context `{!PreOrder R}.

(** Every run of the program is a step of [R]. *)
Definition steps {A} (p : sprog A) : Prop := ∀ s, R s (p s).1.
Lemma steps_ret {A} (a : A) : steps (mret a).
Proof. intros s. simpl. reflexivity. Qed.
Lemma steps_lift {A} (m : go A) : steps (lift m).
Proof. intros s. simpl. reflexivity. Qed.
Lemma steps_bind {A B} (m : sprog A) (f : A → sprog B) : steps m → (∀ a, steps (f a)) → steps (m ≫= f).
Proof.
  intros Hm Hf s. unfold mbind, prog_bind. specialize (Hm s). destruct (m s) as [s' [a|]]; simpl in *; [|done].
  etrans; [done|apply Hf].
Qed.
End Steps.

Definition same_responses (s s' : srv W) : Prop := responses s' = responses s.
Definition same_world (s s' : srv W) : Prop := world s' = world s.
#[local] Instance same_responses_po : PreOrder same_responses.
Proof. split; [done|]. unfold same_responses. intros ???. congruence. Qed.
#[local] Instance same_world_po : PreOrder same_world.
Proof. split; [done|]. unfold same_world. intros ???. congruence. Qed.

Lemma on_world_silent {A} (p : prog W A) : steps same_responses (on_world p).
Proof. intros s. unfold on_world. by destruct (p (world s)). Qed.
Lemma on_world_still {A} (p : prog W A) : (∀ w, (p w).1 = w) → steps same_world (on_world p).
Proof. intros Hp s. unfold on_world. specialize (Hp (world s)). by destruct (p (world s)). Qed.
Lemma WriteResponse_still c code b : steps same_world (WriteResponse c code b).
Proof. intros s. unfold WriteResponse. by destruct (write_fate c code b). Qed.
Lemma SetCookie_silent v : steps same_responses (SetCookie v).
Proof. done. Qed.
Lemma SetCookie_still v : steps same_world (SetCookie v).
Proof. done. Qed.

#[local] Hint Resolve on_world_silent SetCookie_silent SetCookie_still WriteResponse_still : norman.
(** A program is taken apart step by step. *)
Ltac prog_steps :=
  repeat first
    [ apply steps_bind; [typeclasses eauto| |intros ?]
    | apply steps_ret; typeclasses eauto | apply steps_lift; typeclasses eauto
    | solve [auto with norman]
    | match goal with |- steps _ (match ?x with _ => _ end) => destruct x end ].

Lemma construct_prog_steps R `{!PreOrder R} b schema data op : steps R (construct_prog b schema data op).
Proof. unfold construct_prog. prog_steps. Qed.
#[local] Hint Resolve construct_prog_steps same_responses_po same_world_po : norman.
Lemma ParseAndValidateBody_steps R `{!PreOrder R} c schema create : steps R (ParseAndValidateBody c schema create).
Proof. unfold ParseAndValidateBody. prog_steps. Qed.
Lemma CheckCSRF_still c : steps same_world (CheckCSRF c).
Proof. unfold CheckCSRF. prog_steps. Qed.
Lemma CheckCSRF_silent c : steps same_responses (CheckCSRF c).
Proof. unfold CheckCSRF. prog_steps. Qed.

(** ** Every request is answered once *)

Definition success (r : response) : Prop := res_code r ∈ [200; 201; 204].
(** The writer of the response panicked after the status was sent. *)
Definition cut (r : response) : Prop :=
  res_whole r = false ∧ ∃ c, res_context r = Some c ∧ write_fate c (res_code r) (res_body r) = Cut.
(** A handler that returns no error has written one success, whole; one that
    returns an error has written nothing; one that panics has written nothing,
    or it was the writer that panicked in the middle of a success. *)
Definition answers (p : sprog outcome) : Prop :=
  ∀ s, match p s with
       | (s', Ret (_, None)) => ∃ r, responses s' = responses s ++ [r] ∧ success r ∧ res_whole r = true
       | (s', Ret (_, Some _)) => responses s' = responses s
       | (s', Panic) => responses s' = responses s ∨ ∃ r, responses s' = responses s ++ [r] ∧ success r ∧ cut r
       end.
Lemma answers_error c err : answers (mret (c, Some err)).
Proof. done. Qed.
Lemma answers_panic : answers (lift Panic).
Proof. by left. Qed.
Lemma answers_write c code b : code ∈ [200; 201; 204] → answers (_ ← WriteResponse c code b; mret (c, None)).
Proof.
  intros Hc s. unfold mbind, prog_bind, WriteResponse. destruct (write_fate c code b) eqn:Hf; simpl.
  - by eexists.
  - right. eexists. split; [done|]. split; [done|]. split; [done|]. by exists c.
  - by left.
Qed.
Lemma answers_bind {A} (m : sprog A) f : steps same_responses m → (∀ a, answers (f a)) → answers (m ≫= f).
Proof.
  intros Hm Hf s. unfold mbind, prog_bind. specialize (Hm s). destruct (m s) as [s' [a|]]; simpl in *; [|by left].
  specialize (Hf a s'). rewrite Hm in Hf. done.
Qed.
Ltac prog_answers :=
  repeat first
    [ apply answers_write; set_solver
    | apply answers_bind; [solve [prog_steps]|intros ?]
    | apply answers_error | apply answers_panic
    | match goal with |- answers (match ?x with _ => _ end) => destruct x end ].

Lemma CreateHandler_answers c next : answers (CreateHandler c next).
Proof.
  unfold CreateHandler, with_schema. destruct (ctx_Schema c); [|apply answers_panic].
  apply answers_bind; [apply ParseAndValidateBody_steps, _|]. intros ?. prog_answers.
Qed.
Lemma UpdateHandler_answers c next : answers (UpdateHandler c next).
Proof.
  unfold UpdateHandler, with_schema. destruct (ctx_Schema c); [|apply answers_panic].
  apply answers_bind; [apply ParseAndValidateBody_steps, _|]. intros ?. prog_answers.
Qed.
Lemma DeleteHandler_answers c next : answers (DeleteHandler c next).
Proof. unfold DeleteHandler, with_schema. prog_answers. Qed.
Lemma ListHandler_answers c next :
  (∀ schema link, ctx_Schema c = Some schema → h_LinkHandler (handlers schema) = Some link → answers (link c None)) →
  answers (ListHandler c next).
Proof.
  intros Hlink. unfold ListHandler, with_schema. destruct (ctx_Schema c) as [schema|]; [|apply answers_panic].
  specialize (Hlink schema). destruct (h_LinkHandler (handlers schema)) as [link|].
  - specialize (Hlink link eq_refl eq_refl). prog_answers. done.
  - prog_answers.
Qed.

(** What a request that is parsed without an error is for. *)
Lemma Parse_ok req c :
  Parse req schemas urlParser resolver = Ret (c, None) →
  (ctx_Schema c = Schemas_Schema (ctx_Schemas c) (Some builtin_Version) "apiRoot" ∧
     ctx_Type c = "apiRoot" ∧ ctx_Method c = "GET") ∨
  (∃ sc, ctx_Schema c = Some sc ∧ ctx_Type c = ID sc ∧ ValidateMethod c = None).
Proof.
  unfold Parse. destruct (New req zero_version) as [u0|]; [|done]. cbn [mbind go_bind].
  destruct (urlParser schemas (RURL req)) as [[p [err|]]|]; [done| |done].
  cbn [mbind go_bind]. destruct (p_Version p) as [v|].
  - destruct (New req v) as [[u|e]|]; [|done..]. cbn [mbind go_bind].
    destruct (resolver _ _) as [c1 [err|]]; [done|].
    destruct (ctx_Schema c1) as [sc|] eqn:Hsc.
    + intros [= <- Hv]. right. by exists sc.
    + destruct (ctx_Version c1) as [v1|]; [|done]. intros [= <- _]. by left.
  - intros [= <-]. by left.
Qed.

(** A server with the handlers of NewAPIServer: the schemas bring a store, an
    input formatter, and a handler of their actions. *)
Definition only_defaults (h : Handlers) : Prop :=
  h_ListHandler h = None ∧ h_LinkHandler h = None ∧ h_CreateHandler h = None ∧ h_UpdateHandler h = None ∧
  h_DeleteHandler h = None ∧ h_ErrorHandler h = None.
Record default_server (own : Schema → Handlers) (wrap : option (Store W → Store W)) : Prop := {
  ds_defaults : defaults = NewAPIServer_Defaults;
  ds_handlers : ∀ schema, handlers schema = server_setupDefaults defaults wrap (own schema);
  ds_own : ∀ schema, only_defaults (own schema)
}.

Lemma default_handlers own wrap schema :
  default_server own wrap →
  h_ListHandler (handlers schema) = Some ListHandler ∧ h_LinkHandler (handlers schema) = Some DefaultLinkHandler ∧
  h_CreateHandler (handlers schema) = Some CreateHandler ∧ h_UpdateHandler (handlers schema) = Some UpdateHandler ∧
  h_DeleteHandler (handlers schema) = Some DeleteHandler ∧ h_ErrorHandler (handlers schema) = Some DefaultErrorHandler ∧
  h_ActionHandler (handlers schema) = h_ActionHandler (own schema).
Proof.
  intros [Hd Hh Ho]. destruct (Ho schema) as (Hl & Hk & Hc & Hu & Hdel & He). rewrite !Hh, Hd. simpl.
  rewrite Hl, Hk, Hc, Hu, Hdel, He. simpl. split_and!; try done. by destruct (h_ActionHandler (own schema)).
Qed.

Lemma default_list_answers own wrap c next : default_server own wrap → answers (ListHandler c next).
Proof.
  intros Hds. apply ListHandler_answers. intros schema link _ Hl.
  destruct (default_handlers own wrap schema Hds) as (_ & Hl' & _). rewrite Hl in Hl'. injection Hl' as ->.
  apply answers_error.
Qed.

Lemma route_answers own wrap c schema h next :
  default_server own wrap → route c schema = inl (Some h, next) → ∀ n, answers (h c n).
Proof.
  intros Hds Hr n. destruct (default_handlers own wrap schema Hds) as (Hl & _ & Hc & Hu & Hd & _ & _).
  unfold route in Hr. rewrite Hl, Hc, Hu, Hd in Hr.
  repeat case_decide; repeat case_match; simplify_eq;
    eauto using default_list_answers, CreateHandler_answers, UpdateHandler_answers, DeleteHandler_answers.
Qed.

Lemma access_ByID_silent c v t id : steps same_responses (access_ByID c v t id).
Proof. unfold access_ByID, store_of, access_item. prog_steps. Qed.
#[local] Hint Resolve access_ByID_silent CheckCSRF_silent : norman.

Lemma handleAction_answers action c :
  (∀ schema f a, h_ActionHandler (handlers schema) = Some f → answers (f (ctx_Action c) a c)) → answers (handleAction action c).
Proof.
  intros Hf. unfold handleAction. apply answers_bind; [prog_steps|]. intros checked.
  destruct checked as [err|]; [apply answers_error|]. destruct (ctx_Schema c) as [schema|]; [|apply answers_panic].
  specialize (Hf schema). destruct (h_ActionHandler (handlers schema)); [by apply Hf|apply answers_panic].
Qed.

(** A request for a schema is answered by its handler. *)
Lemma handle_answers own wrap req :
  default_server own wrap →
  (∀ schema f name a c, h_ActionHandler (own schema) = Some f → answers (f name a c)) →
  (∀ c, Parse req schemas urlParser resolver = Ret (c, None) → is_Some (ctx_Schema c) ∧ ctx_Type c ≠ "") →
  answers (handle req).
Proof.
  intros Hds Hact Hp s. unfold handle, mbind, prog_bind at 1. unfold lift at 1.
  destruct (Parse req schemas urlParser resolver) as [[c [err|]]|] eqn:HP; [done| |by left].
  destruct (Hp c eq_refl) as [[schema Hsc] Hty].
  revert s. refine (answers_bind (CheckCSRF c) _ (CheckCSRF_silent c) _). intros [err|]; [apply answers_error|].
  apply answers_bind; [prog_steps|]. intros [action|err]; [|apply answers_error]. rewrite Hsc.
  destruct action as [action|].
  - apply handleAction_answers. intros schema' f a Hf. apply (Hact schema').
    destruct (default_handlers own wrap schema' Hds) as (_ & _ & _ & _ & _ & _ & Ha). by rewrite <- Ha.
  - rewrite decide_False by done. destruct (route c schema) as [[[h|] next]|err] eqn:Hr.
    + by eapply route_answers.
    + apply answers_error.
    + apply answers_error.
Qed.

(** The schema of a request comes from the registry. *)
Lemma Parse_schema req c :
  resolver = DefaultResolver → Parse req schemas urlParser resolver = Ret (c, None) →
  ∃ v name, ctx_Schema c = Schemas_Schema schemas v name ∧ (name = "apiRoot" ∧ v = Some builtin_Version ∨ is_Some (ctx_Schema c)).
Proof.
  intros ->. unfold Parse. destruct (New req zero_version) as [u0|]; [|done]. cbn [mbind go_bind].
  destruct (urlParser schemas (RURL req)) as [[p [err|]]|]; [done| |done].
  cbn [mbind go_bind]. destruct (p_Version p) as [v|]; [|intros [= <-]; by eexists _, _; eauto].
  destruct (New req v) as [[u|e]|]; [|done..]. cbn [mbind go_bind]. unfold DefaultResolver.
  case_decide; simpl; [intros [= <-]; by eexists _, _; eauto|].
  set (found := Schemas_Schema schemas (Some v) (p_Type p)). destruct found as [sc|] eqn:Hf; simpl.
  - intros [= <- _]. eexists _, _. split; [symmetry; exact Hf|by right].
  - case_decide; simpl; [|by rewrite (decide_False (P := p_Type p = ""))].
    destruct (Schemas_Schema schemas (Some builtin_Version) (p_Type p)) as [sc|] eqn:Hs; simpl; [|by rewrite (decide_False (P := p_Type p = ""))].
    intros [= <- _]. eexists _, _. split; [symmetry; exact Hs|by right].
Qed.


(** ** Only authorized requests change anything *)
Definition reads_only (store : Store W) : Prop :=
  ∀ c schema w, (∀ id, (s_ByID store c schema id w).1 = w) ∧ (∀ opts, (s_List store c schema opts w).1 = w).

Lemma ListHandler_still own wrap c next :
  default_server own wrap → (∀ schema store, h_Store (handlers schema) = Some store → reads_only store) →
  steps same_world (ListHandler c next).
Proof.
  intros Hds Hro. unfold ListHandler, with_schema. destruct (ctx_Schema c) as [schema|]; [|prog_steps].
  destruct (default_handlers own wrap schema Hds) as (_ & -> & _).
  specialize (Hro schema). destruct (h_Store (handlers schema)) as [store|]; [|prog_steps].
  specialize (Hro store eq_refl). case_decide.
  - apply steps_bind; [apply _| |intros ?; prog_steps]. apply on_world_still. intros w. apply Hro.
  - apply steps_bind; [apply _| |intros ?; unfold DefaultLinkHandler; prog_steps]. apply on_world_still. intros w. apply Hro.
Qed.

(** A browser that sends a CSRF cookie proves, but for reading, that the page
    knows it. *)
Definition csrf_ok (c : APIContext) : Prop :=
  IsBrowser (ctx_Request c) false = true → ∀ cookie, RCookie (ctx_Request c) csrfCookie = inl (Some cookie) →
  ctx_Method c ≠ "GET" → csrf_matches c cookie = true.
Lemma CheckCSRF_ok c s s' : CheckCSRF c s = (s', Ret None) → csrf_ok c.
Proof.
  unfold CheckCSRF, csrf_ok. intros Hc Hb cookie Hk Hm. rewrite Hb, Hk in Hc. simpl in Hc.
  rewrite bool_decide_false in Hc by done. simpl in Hc. by destruct (csrf_matches c cookie).
Qed.

(** Who may change what: the method is one the schema declares for collections
    or resources, and access control agrees. *)
Definition declared (c : APIContext) (schema : Schema) : Prop :=
  ctx_Method c ∈ (if decide (ctx_ID c = "") then CollectionMethods schema else ResourceMethods schema).
Definition permitted (c : APIContext) (schema : Schema) : Prop :=
  ctx_Method c = "POST" ∧ ac_CanCreate ac c schema = None ∨
  ctx_Method c = "PUT" ∧ ac_CanUpdate ac c None schema = None ∨
  ctx_Method c = "DELETE" ∧ ac_CanDelete ac c None schema = None.

(** A handler other than that of lists is reached only by permission. *)
Lemma route_permitted own wrap c schema h next :
  default_server own wrap → route c schema = inl (Some h, next) →
  h = ListHandler ∨ ctx_Link c = "" ∧ permitted c schema.
Proof.
  intros Hds Hr. destruct (default_handlers own wrap schema Hds) as (Hl & _ & Hc & Hu & Hd & _ & _).
  unfold route in Hr. rewrite Hl, Hc, Hu, Hd in Hr. unfold permitted.
  repeat case_decide; repeat case_match; simplify_eq; eauto 8.
Qed.

Lemma declared_of_parse req c schema :
  Parse req schemas urlParser resolver = Ret (c, None) → ctx_Schema c = Some schema → ctx_Type c ≠ "" → ctx_Link c = "" →
  (ctx_Action c = "" ∨ ctx_Method c ≠ "POST") → ctx_Method c ≠ "GET" → declared c schema.
Proof.
  intros Hp Hsc Hty Hl Ha Hg. destruct (Parse_ok req c Hp) as [(_ & _ & ?)|(sc & Hsc' & _ & Hv)]; [done|].
  rewrite Hsc in Hsc'. injection Hsc' as <-. unfold ValidateMethod in Hv. rewrite Hsc, Hl in Hv.
  assert (negb (bool_decide (ctx_Action c = "")) && bool_decide (ctx_Method c = "POST") = false) as Hna.
  { destruct Ha as [Ha|Ha]; [by rewrite Ha|by rewrite (bool_decide_false (ctx_Method c = "POST")), andb_false_r]. }
  rewrite Hna in Hv. destruct (supportedMethods _); [|done]. simpl in Hv.
  rewrite (bool_decide_false (ctx_Type c = "")) in Hv by done. simpl in Hv. unfold declared.
  destruct (existsb _ _) eqn:He in Hv; [|done]. apply existsb_exists in He as (m & Hm & Heq). apply bool_decide_eq_true in Heq as <-.
  by apply list_elem_of_In.
Qed.

(** C3: only authorized requests change anything.  On a server with the handlers
    of NewAPIServer, whose stores only read when they are asked to read, serving
    a request changes the world of the stores only if the request parses, comes
    with the CSRF token where one is needed, names no link, and either is an
    action that the schema declares, or uses a method that the schema declares
    and that access control grants for the schema. *)
Theorem changes_are_authorized own wrap req s :
  default_server own wrap →
  (∀ schema store, h_Store (handlers schema) = Some store → reads_only store) →
  world (ServeHTTP req s) ≠ world s →
  ∃ c schema, Parse req schemas urlParser resolver = Ret (c, None) ∧ ctx_Schema c = Some schema ∧
    csrf_ok c ∧ ctx_Link c = "" ∧
    ((∃ action, ctx_Method c = "POST" ∧ ValidateAction c = Ret (inl (Some action)) ∧
        (if decide (ctx_ID c = "") then CollectionActions schema else ResourceActions schema) !! ctx_Action c = Some action)
     ∨ declared c schema ∧ permitted c schema).
Proof.
  intros Hds Hro Hw.
  assert (world (handle req s).1 ≠ world s) as Hh.
  { intros Heq. apply Hw. rewrite <- Heq. unfold ServeHTTP, mbind, prog_bind.
    destruct (handle req s) as [s' [[c [err|]]|]]; [|done|by case_match].
    assert (steps same_world (handleError c err)) as He.
    { unfold handleError. destruct (ctx_Schema c) as [schema|].
      - destruct (default_handlers own wrap schema Hds) as (_ & _ & _ & _ & _ & -> & _).
        unfold DefaultErrorHandler. prog_steps.
      - rewrite (ds_defaults _ _ Hds). simpl. unfold DefaultErrorHandler. prog_steps. }
    specialize (He s'). destruct (handleError c err s') as [s'' [[]|]]; [exact He|]. by case_match. }
  clear Hw. unfold handle, mbind, prog_bind in Hh. unfold lift at 1 in Hh.
  destruct (Parse req schemas urlParser resolver) as [[c [err|]]|] eqn:HP; [done| |done].
  pose proof (CheckCSRF_still c s) as Hcs. destruct (CheckCSRF c s) as [s1 [[err|]|]] eqn:Hcsrf; [done| |done].
  unfold same_world in Hcs. simpl in Hcs. unfold lift at 1 in Hh.
  destruct (ValidateAction c) as [[action|err]|] eqn:HA; [|done..].
  destruct (ctx_Schema c) as [schema|] eqn:Hsc; [|by destruct action].
  exists c, schema. split; [done|]. split; [done|]. split; [by eapply CheckCSRF_ok|].
  destruct action as [action|].
  - unfold ValidateAction in HA. rewrite Hsc in HA. case_decide as Hno; [done|].
    apply Decidable.not_or in Hno as [Hact [Hl Hm]%Decidable.not_or].
    split; [by destruct (decide (ctx_Link c = ""))|]. left. exists action.
    assert (ctx_Method c = "POST") as Hpost by by destruct (decide (ctx_Method c = "POST")).
    split; [done|]. split; [|by repeat case_match; simplify_eq].
    unfold ValidateAction. rewrite Hsc, decide_False by naive_solver. done.
  - case_decide as Hty; [done|]. destruct (route c schema) as [[[h|] next]|err] eqn:Hr; [|done..].
    destruct (route_permitted own wrap _ _ _ _ Hds Hr) as [-> |[Hl Hp]].
    { exfalso. apply Hh. etrans; [|exact Hcs]. eapply (ListHandler_still own wrap); done. }
    split; [done|]. right. split; [|done]. apply (declared_of_parse req); try done.
    + destruct (decide (ctx_Action c = "")) as [|Hne]; [by left|right]. intros Hm.
      unfold ValidateAction in HA. rewrite decide_False in HA by naive_solver. rewrite Hsc in HA. by repeat case_match.
    + intros Hg. destruct Hp as [[Hp _]|[[Hp _]|[Hp _]]]; rewrite Hg in Hp; discriminate.
Qed.
End Server.

(** ** A server *)
(** Its writers write every response whole. *)
Definition std_writing : Writing := λ _ _ _, Whole.
Definition std_decoders : Decoders :=
  {| json_decode := λ _, inl (Some {[ "name" := VStr "n" ]}); yaml_decode := λ _, inr (ErrorString "yaml") |}.
Definition demo_registry : Schemas :=
  default (NewSchemas None)
    ((λ r, r.1.1) <$> @server_AddSchemas std_range std_schema_format 2 false (NewSchemas None, false)
       (default (NewSchemas None) (@run_ops std_range std_schema_format 1 (NewSchemas None) [OpAdd cluster_schema; OpAdd job_schema]))).
Definition no_handlers (store : option (Store (gmap string obj))) : @Handlers (gmap string obj) :=
  mkHandlers store None None None None None None None None.
(** The handlers that list links to: the stores and the links. *)
Definition demo_links (schema : Schema) : @Handlers (gmap string obj) :=
  mkHandlers (Some map_store) None None (Some DefaultLinkHandler) None None None None None.
Definition demo_defaults : @Handlers (gmap string obj) :=
  @NewAPIServer_Defaults _ std_format std_range std_k8s std_decoders std_writing demo_links (λ _, None) 5 None.
Definition demo_handlers (schema : Schema) : @Handlers (gmap string obj) :=
  server_setupDefaults demo_defaults None (no_handlers (Some map_store)).
Definition demo_serve (ac : AccessControl) (req : Request) (s : srv (gmap string obj)) : srv (gmap string obj) :=
  @ServeHTTP _ std_format std_range std_k8s std_url_parse demo_handlers (λ _, None) 5 None (inl ["a"; "b"]%char)
    demo_registry (@DefaultURLParser std_range std_sort) (@DefaultResolver std_range) demo_defaults ac req s.
Definition jobs_state : srv (gmap string obj) := mkSrv two_jobs [] [].
Definition delete_request (agent cookie token : string) : Request :=
  mkRequest "DELETE" "api.example.com" true ({[ "User-Agent" := [agent]; "X-Api-Csrf" := [token] ]})
    (mkURL "/v3/jobs/j-1" "/v3/jobs/j-1" ∅) (λ _, inl (Some cookie)) None None ∅ "".

(** A page that knows the cookie may delete, one that does not may not, and
    nobody may whom access control refuses. *)
Example delete_served :
  (λ s, ((map_to_list (world s)).*1, res_code <$> responses s))
    (demo_serve AllAccess (delete_request "Mozilla/5.0" "t" "t") jobs_state) = (["j-2"], [200]) ∧
  (λ s, ((map_to_list (world s)).*1, res_code <$> responses s))
    (demo_serve AllAccess (delete_request "Mozilla/5.0" "t" "u") jobs_state) = (["j-1"; "j-2"], [422]) ∧
  (λ s, ((map_to_list (world s)).*1, res_code <$> responses s))
    (demo_serve read_only (delete_request "curl" "t" "u") jobs_state) = (["j-1"; "j-2"], [403]).
Proof. split_and!; vm_compute; reflexivity. Qed.

Lemma demo_default_server :
  @default_server _ std_format std_range std_k8s std_decoders std_writing demo_handlers (λ _, None) 5 None demo_defaults
    (λ _, no_handlers (Some map_store)) None.
Proof.
  split.
  - reflexivity.
  - reflexivity.
  - intros schema. repeat split.
Qed.
Lemma demo_registry_ok : registry_ok demo_registry.
Proof.
  assert (demo_registry = default (NewSchemas None) (@run_ops std_range std_schema_format 2 (NewSchemas None)
    (OpAdd <$> (schemas (default (NewSchemas None) (@builtin_registry std_range std_schema_format)) ++
                schemas (default (NewSchemas None) (@run_ops std_range std_schema_format 1 (NewSchemas None) [OpAdd cluster_schema; OpAdd job_schema])))))) as ->
    by (vm_compute; reflexivity).
  destruct (run_ops _ _ _) as [s|] eqn:Hr; [|apply NewSchemas_ok].
  exact (@run_ops_ok std_range std_schema_format 2 _ _ _ (NewSchemas_ok None) Hr).
Qed.
Lemma demo_named p : filed demo_registry p "" = None.
Proof.
  assert (map_Forall (λ _ m, m !! "" = None) (schemasByPath demo_registry)) as Hf.
  { apply (bool_decide_unpack _). vm_compute. exact I. }
  unfold filed. destruct (schemasByPath demo_registry !! p) as [m|] eqn:Hm; [|done]. exact (Hf p m Hm).
Qed.


Lemma changes_are_authorized_witness :
  ∃ c schema, @Parse std_range std_url_parse (delete_request "Mozilla/5.0" "t" "t") demo_registry
      (@DefaultURLParser std_range std_sort) (@DefaultResolver std_range) = Ret (c, None) ∧
    ctx_Schema c = Some schema ∧ csrf_ok c.
Proof.
  destruct (@changes_are_authorized _ std_format std_range std_k8s std_decoders std_url_parse std_writing demo_handlers (λ _, None) 5 None
    (inl ["a"; "b"]%char) demo_registry (@DefaultURLParser std_range std_sort) (@DefaultResolver std_range) demo_defaults AllAccess
    (λ _, no_handlers (Some map_store)) None (delete_request "Mozilla/5.0" "t" "t") jobs_state) as (c & schema & Hp & Hs & Hc & _).
  - exact demo_default_server.
  - intros schema store Hs. injection Hs as <-. split; reflexivity.
  - change (world (demo_serve AllAccess (delete_request "Mozilla/5.0" "t" "t") jobs_state) ≠ two_jobs). intros Hw.
    apply (f_equal (λ w, (map_to_list w).*1)) in Hw. vm_compute in Hw. discriminate Hw.
  - exists c, schema. split_and!; [exact Hp|exact Hs|exact Hc].
Defined.

(** A link of a resource is read without a look at access control: where reading
    the resource is refused, asking for a link of it tells whether it exists. *)
Definition no_access : AccessControl := mkAccess
  (λ _ s, Some (denied "create" s)) (λ _ s, Some (denied "list" s)) (λ _ s, Some (denied "get" s))
  (λ _ _ s, Some (denied "update" s)) (λ _ _ s, Some (denied "delete" s)) (ac_CanDo AllAccess)
  (ac_Filter AllAccess) (ac_FilterList AllAccess).
Example link_skips_access_control :
  (λ s, (λ r, (res_code r, match res_body r with BMap d => as_string (mget d "message") | _ => "" end)) <$> responses s)
    (demo_serve no_access (get_request "/v3/jobs/j-1") jobs_state) = [(403, "can not get job")] ∧
  (λ s, (λ r, (res_code r, match res_body r with BMap d => as_string (mget d "message") | _ => "" end)) <$> responses s)
    (demo_serve no_access (get_request "/v3/jobs/j-1/x") jobs_state) = [(404, "Link not found")] ∧
  (λ s, (λ r, (res_code r, match res_body r with BMap d => as_string (mget d "message") | _ => "" end)) <$> responses s)
    (demo_serve no_access (get_request "/v3/jobs/j-9/x") jobs_state) = [(404, "j-9")].
Proof. split_and!; vm_compute; reflexivity. Qed.

(** Embedding a schema into a registered one registers the latter again, and its
    store is wrapped once more.  The inner filter has cut the page already: to
    the outer one the page is all there is. *)
Example wrapped_twice_loses_pages :
  let page store :=
    match (s_List store cluster_context job_schema
             (mkQueryOptions (mkSort "" ASC) (Some (mkPagination "" "" "" "" "" (Some 1) None false)) [] ∅ None)
             {[ "j-1" := {[ "id" := VStr "j-1"; "clusterId" := VStr "c-1" ]}; "j-3" := {[ "id" := VStr "j-3"; "clusterId" := VStr "c-1" ]} ]}).2 with
    | Ret (opts, (l, _)) => Some (length l, (λ p, (Next p, Total p, Partial p)) <$> QPagination opts)
    | Panic => None
    end in
  let wrap := @Wrap _ std_format std_sort std_range (λ _, None) in
  page (wrap map_store) = Some (1%nat, Some ("j-3", Some 2, true)) ∧
  page (wrap (wrap map_store)) = Some (1%nat, Some ("", Some 1, false)).
Proof. split; vm_compute; reflexivity. Qed.
