(* ===== verification/Structs.v ===== *)
(** * Go structs

    Where maps become structs and back: ToObj and EncodeToMap of
    types/convert/convert.go, types/convert/schemaconvert, and the last step of
    api/access.  encoding/json is the class [StructJSON]. *)

From S2P Require Import Prelude GoStrings Values Errors TypeNames Convert Schemas Mappers Builder Query Http Urls Parse Access Stores Server.

(** encoding/json on a type of structs: Unmarshal changes its target, also when
    it fails; a decoder that keeps numbers reads a map, or null. *)
Class StructJSON (T : Type) := {
  marshal_struct : T → result string;
  marshal_value : value → result string;
  unmarshal_into : string → T → T * option error;
  decode_map : string → result (option obj)
}.

Section Structs.
Context {T : Type} `{StructJSON T}.

(** ** types/convert/convert.go *)
Definition ToObj (data : value) (into : T) : T * option error :=
  match marshal_value data with inr err => (into, Some err) | inl bytes => unmarshal_into bytes into end.
(** A map is given back as it is.  In the return statement Go does not fix whether
    [result] is read before it is decoded into: a null then leaves the empty map
    or the nil one. *)
Variable read_early : bool.
Inductive encodable := AMap (m : option obj) | AStruct (x : T).
Definition EncodeToMap (x : encodable) : option obj * option error :=
  match x with
  | AMap m => (m, None)
  | AStruct x =>
      match marshal_struct x with
      | inr err => (None, Some err)
      | inl bytes =>
          match decode_map bytes with
          | inl (Some m) => (Some m, None)
          | inl None => (if read_early then Some ∅ else None, None)
          | inr err => (Some ∅, Some err)
          end
      end
  end.
Definition of_data (data : option obj) : value := match data with Some m => VMap m | None => VNilMap end.

(** ** types/convert/schemaconvert: by the mapper of a schema, which has one once it
    was added *)
Definition mapper_of (m : option Mapper) : go Mapper := match m with Some m => Ret m | None => Panic end.
Definition InternalToInternal (from : encodable) (fromMapper toMapper : option Mapper) (target : T) : go (T * option error) :=
  let '(data, err) := EncodeToMap from in
  match err with
  | Some err => Ret (target, Some err)
  | None =>
      m ← mapper_of fromMapper; data ← FromInternal m data;
      m ← mapper_of toMapper; '(data, err) ← ToInternal m data;
      Ret match err with Some err => (target, Some err) | None => ToObj (of_data data) target end
  end.
Definition schemaconvert_ToInternal (from : encodable) (mapper : option Mapper) (target : T) : go (T * option error) :=
  let '(data, err) := EncodeToMap from in
  match err with
  | Some err => Ret (target, Some err)
  | None =>
      m ← mapper_of mapper; '(data, err) ← ToInternal m data;
      Ret match err with Some err => (target, Some err) | None => ToObj (of_data data) target end
  end.

(** A struct that is written, and read back from the map it is read to. *)
Definition plain_struct (x zero : T) : Prop :=
  ∃ bytes m bytes', marshal_struct x = inl bytes ∧ decode_map bytes = inl (Some m) ∧
    marshal_value (VMap m) = inl bytes' ∧ unmarshal_into bytes' zero = (x, None).
(** Converting a struct to the form of the same API gives it back, through any
    mappers that undo themselves. *)
Theorem same_api_roundtrip (ms : list Mapper) (x zero : T) :
  plain_struct x zero → (∀ m, EncodeToMap (AStruct x) = (Some m, None) → chain_inverts ms (Some m)) →
  InternalToInternal (AStruct x) (Some (Mappers ms)) (Some (Mappers ms)) zero = Ret (x, None).
Proof.
  intros (bytes & m & bytes' & Hx & Hm & Hb & Hu) Hc. unfold InternalToInternal. simpl. rewrite Hx, Hm in *. simpl.
  destruct (Mappers_inverts ms (Some m)) as (d' & Hf & Ht); [apply Hc; simpl; by rewrite Hx, Hm|].
  simpl in Hf, Ht. rewrite Hf. simpl. rewrite Ht. simpl. unfold ToObj. simpl. by rewrite Hb, Hu.
Qed.

(** ** api/access: into a struct *)
Section Into.
Context {W : Type} `{GoFormat} `{SortSlice} `{MapRange} `{K8sValidation} `{Decoders} `{UrlParse}.
Variables (handlers : Schema → Handlers (W:=W)) (validators : Schema → option (obj → option error)) (fuel : nat)
  (ref_validator : option ReferenceValidator).
Definition into_item (into : option T) (r : result obj) : option T * option error :=
  match r, into with
  | inr err, _ => (into, Some err)
  | inl _, None => (None, None)
  | inl item, Some x => let '(x, err) := ToObj (VMap item) x in (Some x, err)
  end.
Definition access_Create_into (c : APIContext) (version : option APIVersion) (typeName : string) (data : option obj) (into : option T)
  : prog (srv W) (option T * option error) :=
  r ← access_Create handlers validators fuel ref_validator c version typeName data; mret (into_item into r).
Definition access_ByID_into (c : APIContext) (version : option APIVersion) (typeName id : string) (into : option T)
  : prog (srv W) (option T * option error) :=
  r ← access_ByID handlers validators fuel ref_validator c version typeName id; mret (into_item into r).
(** List: the slice of no items is nil and written as null. *)
Definition access_List_into (c : APIContext) (version : option APIVersion) (typeName : string) (opts : QueryOptions) (into : T)
  : prog (srv W) (QueryOptions * (T * option error)) :=
  '(opts, r) ← access_List handlers validators fuel ref_validator c version typeName opts;
  mret (opts, match r with
              | inr err => (into, Some err)
              | inl [] => ToObj VNil into
              | inl items => ToObj (VMaps (Some <$> items)) into
              end).
End Into.
End Structs.

(** ** Example: a struct with a name, whose JSON is the name itself *)
Section Example.
#[local] Instance names_json : StructJSON string := {|
  marshal_struct := λ s, inl s;
  marshal_value := λ v, match v with VMap m => match m !! "name" with Some (VStr s) => inl s | _ => inl "" end | _ => inl "" end;
  unmarshal_into := λ s _, (s, None);
  decode_map := λ s, if decide (s = "") then inl None else inl (Some {[ "name" := VStr s ]})
|}.
Definition rename_name : list Mapper := [Move_mapper (mkMove "name" "id" "" false false)].
Example name_kept : InternalToInternal true (AStruct "n1") (Some (Mappers rename_name)) (Some (Mappers rename_name)) "" = Ret ("n1", None).
Proof.
  apply same_api_roundtrip.
  - exists "n1", {[ "name" := VStr "n1" ]}, "n1". split_and!; reflexivity.
  - intros m [= <-]. exists (Some {[ "id" := VStr "n1" ]}). split; [reflexivity|]. split; [reflexivity|done].
Qed.
End Example.
