(* ===== verification/Writer.v ===== *)
(** * Response bodies

    Models api/writer/json.go: how the objects and the lists that a handler
    answers with become resources and collections with their links.  The
    encoding of the result as JSON or YAML is not modelled.

    The formatters of the schemas are parameters; the construction of an object
    has fuel, as in Builder.v and Server.v. *)

From S2P Require Import Prelude GoStrings Values Errors TypeNames Convert Schemas Builder Query Http Urls Parse Access Stores SchemaStore Server.
From Stdlib Require Import Ascii.

(** ** types.Collection *)
Record SortInfo := mkSortInfo { sort_Name : string; sort_Order : SortOrder; sort_Reverse : string; sort_Links : gmap string string }.
Inductive item := IResource (r : RawResource) | IValue (v : value).
Record GenericCollection := mkCollection {
  c_Type : string;
  c_ResourceType : string;
  c_CreateTypes : gmap string string;
  c_Links : gmap string string;
  c_Actions : gmap string string;
  c_Sort : SortInfo;
  c_Pagination : option Pagination;
  c_Filters : gmap string (list FilterCondition);
  c_Data : list item
}.
Definition set_data (c : GenericCollection) (data : list item) : GenericCollection :=
  mkCollection (c_Type c) (c_ResourceType c) (c_CreateTypes c) (c_Links c) (c_Actions c) (c_Sort c) (c_Pagination c) (c_Filters c) data.
(** What the encoder gets: nothing, a nil pointer, which it writes as null, or a
    value. *)
Inductive output := ONone | ONull | OResource (r : RawResource) | OCollection (c : GenericCollection).

Section Writer.
Context `{GoFormat} `{MapRange} `{K8sValidation}.
Variables (validators : Schema → option (obj → option error)) (fuel : nat) (ref_validator : option ReferenceValidator).
Variables (formatter : Schema → option (APIContext → RawResource → go RawResource))
  (collection_formatter : Schema → option (APIContext → GenericCollection → go GenericCollection)).
Variable ac : AccessControl.

Definition toString (v : value) : string := match v with VNil => "" | _ => Sprint v end.

(** A nil URL builder panics. *)
Definition builder_of (c : APIContext) : go urlBuilder :=
  match ctx_URLBuilder c with Some u => Ret u | None => Panic end.

(** links[name] = link, where there is one to add *)
Definition add_link (links : gmap string string) (link : option (string * string)) : gmap string string :=
  match link with Some (name, link) => <[name := link]> links | None => links end.
Definition when_granted (err : option error) (name link : string) : option (string * string) :=
  match err with None => Some (name, link) | Some _ => None end.

(** The links of a resource: to itself, to the collections of what refers to it,
    and to the collections of its sub context. *)
Definition ref_link (u : urlBuilder) (schema : Schema) (c : APIContext) (id : string) (sub : option APIVersion) (b : BackReference)
  : option (string * string) :=
  when_granted (CanList ac (RefSchema b) (Some c)) (PluralName (RefSchema b))
    (match sub with
     | None => FilterLink u (RefSchema b) (RefField b) id
     | Some _ => SubContextCollection u schema id (RefSchema b)
     end).
Definition sub_link (u : urlBuilder) (schema : Schema) (c : APIContext) (id : string) (e : string * Schema) : option (string * string) :=
  when_granted (CanList ac e.2 (Some c)) (PluralName e.2) (SubContextCollection u schema id e.2).
Definition addLinks (u : urlBuilder) (schema : Schema) (c : APIContext) (input : option obj) (r : RawResource) : RawResource :=
  if decide (RID r = "") then r
  else
    let self := ResourceLink u r in
    let links := <["self" := self]> (RLinks r) in
    let links := add_link links (when_granted (ac_CanUpdate ac c input schema) "update" self) in
    let links := add_link links (when_granted (ac_CanDelete ac c input schema) "remove" self) in
    let sub := SubContextVersionForSchema (ctx_Schemas c) schema in
    let links := foldl (λ links b, add_link links (ref_link u schema c (RID r) sub b)) links (References (ctx_Schemas c) schema) in
    let links := match sub with
                 | None => links
                 | Some v => foldl (λ links e, add_link links (sub_link u schema c (RID r) e)) links
                               (range (SchemasForVersion (ctx_Schemas c) v))
                 end in
    set_links r links (RValues r).

(** An object that has no schema, or that its schema does not allow, is left
    out. *)
Definition convert (version : option APIVersion) (c : APIContext) (input : option obj) : go (option RawResource) :=
  match Schemas_Schema (ctx_Schemas c) (ctx_Version c) (GetFullType input) with
  | None => Ret None
  | Some schema =>
      let op := if decide (ctx_Method c = "POST") then OpListForCreate else OpList in
      match Construct (set_builder_version (NewBuilder validators ref_validator c) version) fuel schema input op with
      | Err _ => Ret None
      | Crash | NoFuel => Panic
      | Ok data =>
          let r := mkRaw (toString (mget input "id")) (ID schema) schema ∅ ∅ (Some data)
                     (negb (bool_decide (Header_Get (RHeader (ctx_Request c)) "X-API-Action-Links" = ""))) false in
          r ← if decide (RID r = "") then Ret r else u ← builder_of c; Ret (addLinks u schema c input r);
          r ← match formatter schema with Some f => f c r | None => Ret r end;
          Ret (Some r)
      end
  end.

(** ** Collections *)
Definition page_link (u : urlBuilder) (marker : string) : string := if decide (marker = "") then "" else MarkerLink u marker.
Definition page_links (u : urlBuilder) (p : Pagination) : Pagination :=
  if Partial p then
    mkPagination (Marker p) (page_link u (First p)) (page_link u (Previous p)) (page_link u (Next p)) (page_link u (Last p))
      (Limit p) (Total p) (Partial p)
  else p.

Definition newCollection (c : APIContext) : go GenericCollection :=
  u ← builder_of c;
  match ctx_Schema c with
  | None => Panic
  | Some schema =>
      let createTypes := if decide (ctx_Method c = "GET") then
                           match ac_CanCreate ac c schema with
                           | None => {[ ID schema := Collection u schema (ctx_Version c) ]}
                           | Some _ => ∅
                           end
                         else ∅ in
      let opts := parse_QueryOptions (RMethod (ctx_Request c)) (ctx_Pagination c) schema (ctx_Query c) in
      let filters := foldl (λ fs cond, <[QField cond := default [] (fs !! QField cond) ++ [ToCondition cond]]> fs) ∅ (QConditions opts) in
      let filters := foldl (λ fs e, match fs !! e.1 with Some _ => fs | None => <[e.1 := []]> fs end) filters (range (CollectionFilters schema)) in
      let sortable name := match ResourceFields schema !! name with
                           | Some field => bool_decide (Type_ field = "string") || bool_decide (Type_ field = "enum")
                           | None => false
                           end in
      let links := foldl (λ ls e, if sortable e.1 then <[e.1 := SortLink u e.1]> ls else ls) ∅ (range (CollectionFilters schema)) in
      Ret (mkCollection "collection" (ctx_Type c) createTypes {[ "self" := Current u ]} ∅
             (mkSortInfo (SName (QSort opts)) (Order (QSort opts)) (ReverseSort u (Order (QSort opts))) links)
             (page_links u <$> QPagination opts) filters [])
  end.

Fixpoint convert_all (version : option APIVersion) (c : APIContext) (input : list (option obj)) : go (list item) :=
  match input with
  | [] => Ret []
  | x :: input' =>
      r ← convert version c x;
      rest ← convert_all version c input';
      Ret match r with Some r => IResource r :: rest | None => rest end
  end.
Definition format_collection (c : APIContext) (collection : GenericCollection) : go GenericCollection :=
  match ctx_Schema c with
  | None => Panic
  | Some schema => match collection_formatter schema with Some f => f c collection | None => Ret collection end
  end.
Definition writeMapSlice (version : option APIVersion) (c : APIContext) (input : list (option obj)) : go GenericCollection :=
  collection ← newCollection c;
  data ← convert_all version c input;
  format_collection c (set_data collection data).
(** The elements of a []interface{}: maps are converted, the rest is passed on. *)
Fixpoint convert_values (version : option APIVersion) (c : APIContext) (input : list value) : go (list item) :=
  match input with
  | [] => Ret []
  | v :: input' =>
      data ← match as_map v with
             | Some m => r ← convert version c m; Ret match r with Some r => [IResource r] | None => [] end
             | None => Ret [IValue v]
             end;
      rest ← convert_values version c input';
      Ret (data ++ rest)
  end.
Definition writeInterfaceSlice (version : option APIVersion) (c : APIContext) (input : list value) : go GenericCollection :=
  collection ← newCollection c;
  data ← convert_values version c input;
  format_collection c (set_data collection data).

(** VersionBody: what is handed to the encoder; nothing for a nil body.  The nil
    resource of an object that is not converted is, as an interface, not nil. *)
Definition VersionBody (c : APIContext) (version : option APIVersion) (b : body) : go output :=
  match b with
  | BNil => Ret ONone
  | BMap data => r ← convert version c data; Ret match r with Some r => OResource r | None => ONull end
  | BSlice data => collection ← writeMapSlice version c data; Ret (OCollection collection)
  end.
Definition writer_Body (c : APIContext) (b : body) : go output := VersionBody c (ctx_Version c) b.

(** api/writer/headers.go: the X-Api-Schemas header. *)
Definition addSchemasHeader (c : APIContext) : go (option string) :=
  match Schemas_Schema (ctx_Schemas c) (Some builtin_Version) "schema" with
  | None => Ret None
  | Some schema =>
      u ← builder_of c;
      Ret (Some (Collection u schema (or_default (ctx_SchemasVersion c) (ctx_Version c))))
  end.

(** api/writer/html.go: the URLs of the script and the style sheet of the page; a
    getter that is not set is [None]. *)
Definition JSURL : string := "https://releases.rancher.com/api-ui/%API_UI_VERSION%/ui.min.js".
Definition CSSURL : string := "https://releases.rancher.com/api-ui/%API_UI_VERSION%/ui.min.css".
Definition DefaultVersion : string := "1.1.6".
Definition ui_urls (css js version : option string) : string * string :=
  match css, js with
  | Some c, Some j =>
      if decide (c ≠ "" ∧ j ≠ "") then (j, c)
      else let v := default DefaultVersion (version ≫= λ v, if decide (v = "") then None else Some v) in
           (Replace1 JSURL "%API_UI_VERSION%" v, Replace1 CSSURL "%API_UI_VERSION%" v)
  | _, _ =>
      let v := default DefaultVersion (version ≫= λ v, if decide (v = "") then None else Some v) in
      (Replace1 JSURL "%API_UI_VERSION%" v, Replace1 CSSURL "%API_UI_VERSION%" v)
  end.

(** ** Links offer what access control grants *)
Lemma foldl_links {A} (f : A → option (string * string)) (l : list A) links k v :
  foldl (λ links a, add_link links (f a)) links l !! k = Some v → links !! k = Some v ∨ ∃ a, a ∈ l ∧ f a = Some (k, v).
Proof.
  revert links. induction l as [|a l IH]; intros links; simpl; [by left|]. intros Hl.
  destruct (IH _ Hl) as [Hk|(a' & Ha & Hf)]; [|right; exists a'; split; [by right|done]].
  destruct (f a) as [[n x]|] eqn:Hf; [|by left]. simpl in Hk. rewrite lookup_insert in Hk.
  case_decide; simplify_eq; [|by left]. right. exists a. split; [by left|done].
Qed.
Lemma foldl_links_kept {A} (f : A → option (string * string)) (l : list A) links k :
  is_Some (links !! k) ∨ (∃ a x, a ∈ l ∧ f a = Some (k, x)) → is_Some (foldl (λ links a, add_link links (f a)) links l !! k).
Proof.
  revert links. induction l as [|a l IH]; intros links; simpl; [by intros [?|(a & x & []%elem_of_nil & _)]|].
  intros Hk. apply IH. assert (∀ n x, f a = Some (n, x) → add_link links (f a) = <[n := x]> links) as Hf by (by intros n x ->).
  destruct Hk as [Hk|(a' & x & [->|Ha]%elem_of_cons & Hx)].
  - left. destruct (f a) as [[n x]|]; [|done]. simpl. rewrite lookup_insert. by case_decide.
  - left. rewrite (Hf _ _ Hx), lookup_insert_eq. by eexists.
  - right. by exists a', x.
Qed.
Lemma when_granted_Some err name link n x : when_granted err name link = Some (n, x) ↔ err = None ∧ n = name ∧ x = link.
Proof. destruct err; naive_solver. Qed.

(** The links before those to other schemas. *)
Definition own_links (u : urlBuilder) (schema : Schema) (c : APIContext) (input : option obj) (r : RawResource) : gmap string string :=
  add_link (add_link (<["self" := ResourceLink u r]> (RLinks r)) (when_granted (ac_CanUpdate ac c input schema) "update" (ResourceLink u r)))
    (when_granted (ac_CanDelete ac c input schema) "remove" (ResourceLink u r)).

(** What a response offers of a resource, by name: the resource itself, its
    update and its removal, and for each schema whose list is granted and that
    refers to the schema or lives in its sub context {e that} list, as far as it
    belongs to the resource. *)
Inductive offered (u : urlBuilder) (schema : Schema) (c : APIContext) (input : option obj) (r : RawResource) : string → string → Prop :=
| offered_self : offered u schema c input r "self" (ResourceLink u r)
| offered_update : ac_CanUpdate ac c input schema = None → offered u schema c input r "update" (ResourceLink u r)
| offered_remove : ac_CanDelete ac c input schema = None → offered u schema c input r "remove" (ResourceLink u r)
| offered_filter b :
    b ∈ References (ctx_Schemas c) schema → ac_CanList ac c (RefSchema b) = None →
    SubContextVersionForSchema (ctx_Schemas c) schema = None →
    offered u schema c input r (PluralName (RefSchema b)) (FilterLink u (RefSchema b) (RefField b) (RID r))
| offered_reference b v :
    b ∈ References (ctx_Schemas c) schema → ac_CanList ac c (RefSchema b) = None →
    SubContextVersionForSchema (ctx_Schemas c) schema = Some v →
    offered u schema c input r (PluralName (RefSchema b)) (SubContextCollection u schema (RID r) (RefSchema b))
| offered_sub v i s :
    SubContextVersionForSchema (ctx_Schemas c) schema = Some v → SchemasForVersion (ctx_Schemas c) v !! i = Some s →
    ac_CanList ac c s = None →
    offered u schema c input r (PluralName s) (SubContextCollection u schema (RID r) s).

Lemma own_links_offered u schema c input r name link :
  RLinks r = ∅ → own_links u schema c input r !! name = Some link → offered u schema c input r name link.
Proof.
  intros Hl. unfold own_links. rewrite Hl.
  destruct (ac_CanDelete ac c input schema) as [e|] eqn:Hd; destruct (ac_CanUpdate ac c input schema) as [e'|] eqn:Hu; simpl;
    rewrite ?lookup_insert; repeat case_decide; rewrite ?lookup_empty; intros; simplify_eq; by constructor.
Qed.
Lemma own_links_kept u schema c input r name :
  name = "self" ∨ name = "update" ∧ ac_CanUpdate ac c input schema = None ∨ name = "remove" ∧ ac_CanDelete ac c input schema = None →
  is_Some (own_links u schema c input r !! name).
Proof.
  unfold own_links. intros [->|[[-> ->]|[-> ->]]]; simpl;
    destruct (ac_CanUpdate ac c input schema); destruct (ac_CanDelete ac c input schema); simpl;
    rewrite ?lookup_insert; repeat case_decide; by eauto.
Qed.
Lemma ref_link_offered u schema c input r b name link :
  b ∈ References (ctx_Schemas c) schema →
  ref_link u schema c (RID r) (SubContextVersionForSchema (ctx_Schemas c) schema) b = Some (name, link) →
  offered u schema c input r name link.
Proof.
  intros Hb (Hc & -> & ->)%when_granted_Some.
  destruct (SubContextVersionForSchema _ schema) eqn:Hs; [by eapply offered_reference|by apply offered_filter].
Qed.
Lemma sub_link_offered u schema c input r v e name link :
  SubContextVersionForSchema (ctx_Schemas c) schema = Some v → e ∈ range (SchemasForVersion (ctx_Schemas c) v) →
  sub_link u schema c (RID r) e = Some (name, link) → offered u schema c input r name link.
Proof.
  destruct e as [i s]. intros Hv He%elem_of_range (Hc & -> & ->)%when_granted_Some. by eapply (offered_sub _ _ _ _ _ v i s).
Qed.

(** C17: the links of a response are those that access control grants.  A
    resource with an id that was given no links yet has a link of a name exactly
    when something of that name is offered, and the link is the URL of what is
    offered: the resource under "self", and under "update" and "remove" where
    that is granted; and under the plural name of a schema whose list is granted,
    the URL of the list of that very schema, filtered by the id of the resource
    (for a schema that refers to it) or within the resource (when it has a sub
    context, for those that refer to it and those that live in it). *)
Theorem links_match_access u schema c input r name :
  RID r ≠ "" → RLinks r = ∅ →
  let links := RLinks (addLinks u schema c input r) in
  (∀ link, links !! name = Some link → offered u schema c input r name link) ∧
  ((∃ link, offered u schema c input r name link) → is_Some (links !! name)).
Proof.
  clear validators fuel ref_validator formatter collection_formatter. intros Hid Hl. unfold addLinks.
  rewrite decide_False by done. cbn [RLinks set_links]. fold (own_links u schema c input r). split.
  - intros link. destruct (SubContextVersionForSchema _ schema) as [v|] eqn:Hv.
    + intros [Hk|(e & He & Hf)]%foldl_links; [|by eapply sub_link_offered].
      apply foldl_links in Hk as [Hk|(b & Hb & Hf)]; [by apply own_links_offered|].
      rewrite <- Hv in Hf. by eapply ref_link_offered.
    + intros [Hk|(b & Hb & Hf)]%foldl_links; [by apply own_links_offered|]. rewrite <- Hv in Hf. by eapply ref_link_offered.
  - intros (link & Ho).
    assert (∀ sub, is_Some (foldl (λ links b, add_link links (ref_link u schema c (RID r) sub b)) (own_links u schema c input r)
      (References (ctx_Schemas c) schema) !! name) → is_Some ((match sub with
        | None => foldl (λ links b, add_link links (ref_link u schema c (RID r) sub b)) (own_links u schema c input r) (References (ctx_Schemas c) schema)
        | Some v => foldl (λ links e, add_link links (sub_link u schema c (RID r) e))
            (foldl (λ links b, add_link links (ref_link u schema c (RID r) sub b)) (own_links u schema c input r) (References (ctx_Schemas c) schema))
            (range (SchemasForVersion (ctx_Schemas c) v)) end) !! name)) as Hsub
      by (intros [v|] Hk; [apply foldl_links_kept; by left|done]).
    destruct Ho as [|Hu|Hd|b Hb Hc Hv|b v Hb Hc Hv|v i s Hv Hs Hc].
    1-3: apply Hsub, foldl_links_kept; left; apply own_links_kept; auto.
    1-2: apply Hsub, foldl_links_kept; right; exists b; eexists; split; [done|]; by apply when_granted_Some.
    rewrite Hv. apply foldl_links_kept. right. exists (i, s). eexists. split; [by apply elem_of_range|]. by apply when_granted_Some.
Qed.

(** The query a link carries. *)
Definition link_query (link : string) : Values := match Split2 link "?" with [_; q] => ParseQuery q | _ => ∅ end.

(** C18: the links between pages work.  The link to the next page of a partial
    collection is the URL of the request, and its query is that of the request
    with the marker set to the id of the next item: a client that follows it
    asks with the same limit and the same order for the page that starts
    there. *)
Theorem next_link_resolves c schema u p coll :
  ctx_Schema c = Some schema → ctx_URLBuilder c = Some u → RMethod (ctx_Request c) = "GET" → ctx_Pagination c = Some p →
  Partial p = true → Next p ≠ "" → str_in "?"%char (requestURL u) = false → uquery u = ctx_Query c → newCollection c = Ret coll →
  ∃ link, Next <$> c_Pagination coll = Some link ∧
    let q := link_query link in
    Split2 link "?" = [requestURL u; Values_Encode (Values_Set (uquery u) "marker" (Next p))] ∧
    (∀ k, k ≠ "marker" → query_get q k = query_get (ctx_Query c) k) ∧
    parsePagination None q
    = mkPagination (Next p) "" "" "" "" (Limit (parsePagination None (ctx_Query c))) None false ∧
    parseSort schema q = parseSort schema (ctx_Query c).
Proof.
  intros Hs Hu Hm Hp Hpart Hn Hq Huq. unfold newCollection, builder_of. rewrite Hs, Hu, Hm, Hp. cbn [mbind go_bind]. intros [= <-].
  unfold page_links. rewrite Hpart. eexists. split; [reflexivity|]. cbn [Next]. unfold page_link. rewrite decide_False by done.
  assert (Split2 (MarkerLink u (Next p)) "?" = [requestURL u; Values_Encode (Values_Set (uquery u) "marker" (Next p))]) as Hsplit.
  { unfold MarkerLink. by apply (Split2_app "?"%char). }
  unfold link_query. rewrite Hsplit. set (q := ParseQuery _).
  assert (∀ k, query_get q k = if decide (k = "marker") then Next p else query_get (ctx_Query c) k) as Hget.
  { intros k. unfold q. rewrite query_get_Encode. by rewrite Huq. }
  split_and!.
  - done.
  - intros k Hk. by rewrite Hget, decide_False.
  - unfold parsePagination. rewrite !Hget. cbn. repeat case_match; done.
  - unfold parseSort, parseOrder. by rewrite !Hget.
Qed.
End Writer.

(** ** A collection *)
Definition page_context : APIContext :=
  mkContext "" "" "job" "" "GET" (Some job_schema) one_schema (Some v3) None {[ "limit" := ["1"] ]} "json"
    (Some (mkUrlBuilder "https://api.example.com/v3/jobs" "https://api.example.com" v3 "" {[ "limit" := ["1"] ]}))
    ∅ (Some (mkPagination "" "j-1" "" "j 2" "" (Some 1) (Some 2) true)) (get_request "/v3/jobs").
Abbreviation demo_collection := (@newCollection std_range AllAccess page_context).

Lemma next_link_resolves_witness :
  ∃ coll link, demo_collection = Ret coll ∧ Next <$> c_Pagination coll = Some link ∧
    link = "https://api.example.com/v3/jobs?limit=1&marker=j+2" ∧ Marker (parsePagination None (link_query link)) = "j 2".
Proof.
  destruct demo_collection as [coll|] eqn:Hc; [|exfalso; vm_compute in Hc; discriminate Hc].
  destruct (@next_link_resolves std_range AllAccess page_context job_schema
    (mkUrlBuilder "https://api.example.com/v3/jobs" "https://api.example.com" v3 "" {[ "limit" := ["1"] ]})
    (mkPagination "" "j-1" "" "j 2" "" (Some 1) (Some 2) true) coll) as (link & Hl & Hs & _ & Hp & _).
  - reflexivity.
  - reflexivity.
  - reflexivity.
  - reflexivity.
  - reflexivity.
  - discriminate.
  - vm_compute. reflexivity.
  - reflexivity.
  - exact Hc.
  - exists coll, link. split_and!; [reflexivity|exact Hl| |rewrite Hp; reflexivity].
    assert ((match demo_collection with Ret coll => Next <$> c_Pagination coll | Panic => None end)
            = Some "https://api.example.com/v3/jobs?limit=1&marker=j+2") as Hn by (vm_compute; reflexivity).
    rewrite Hc, Hl in Hn. injection Hn as ->. reflexivity.
Defined.

Definition fleet_context : APIContext :=
  mkContext "" "" "cluster" "" "GET" None demo_registry (Some v3) None ∅ "json" None ∅ None (get_request "/v3/clusters").
Definition fleet_urls : urlBuilder := mkUrlBuilder "https://api.example.com/v3/clusters" "https://api.example.com" v3 "" ∅.
Definition fleet_resource : RawResource := mkRaw "c-1" "cluster" cluster_schema ∅ ∅ None false false.
Definition fleet_links (ac : AccessControl) : gmap string string :=
  RLinks (@addLinks std_range ac fleet_urls cluster_schema fleet_context None fleet_resource).
Definition fleet_reader : AccessControl := mkAccess (ac_CanCreate read_only) (ac_CanList AllAccess) (ac_CanGet AllAccess)
  (λ _ _ s, Some (denied "update" s)) (λ _ _ s, Some (denied "delete" s)) (ac_CanDo AllAccess) (ac_Filter AllAccess) (ac_FilterList AllAccess).

(** Who may only read clusters is offered the cluster and its jobs, and no
    update. *)
Lemma links_match_access_witness :
  is_Some (fleet_links fleet_reader !! "self") ∧ is_Some (fleet_links fleet_reader !! "jobs") ∧
  fleet_links fleet_reader !! "update" = None.
Proof.
  pose proof (λ name, @links_match_access std_range fleet_reader fleet_urls cluster_schema fleet_context None fleet_resource name
    ltac:(discriminate) eq_refl) as Hlinks.
  assert ((λ b, (PluralName (RefSchema b), ac_CanList fleet_reader fleet_context (RefSchema b)))
            <$> References (ctx_Schemas fleet_context) cluster_schema = [("jobs", None)]) as Href by (vm_compute; reflexivity).
  assert (∀ b, b ∈ References (ctx_Schemas fleet_context) cluster_schema → PluralName (RefSchema b) = "jobs") as Hjobs.
  { revert Href. generalize (References (ctx_Schemas fleet_context) cluster_schema). intros l Hr b Hb. destruct l as [|b' [|]]; try discriminate Hr.
    apply list_elem_of_singleton in Hb as ->. by injection Hr. }
  split_and!.
  - apply Hlinks. exists (ResourceLink fleet_urls fleet_resource). apply offered_self.
  - destruct (References (ctx_Schemas fleet_context) cluster_schema) as [|b l] eqn:Hr; [discriminate Href|].
    injection Href as Hn Hc _. apply Hlinks. rewrite <- Hn. eexists.
    apply offered_filter; [rewrite Hr; left|exact Hc|vm_compute; reflexivity].
  - destruct (fleet_links fleet_reader !! "update") as [link|] eqn:Hl; [exfalso|reflexivity].
    apply Hlinks in Hl. remember "update" as name eqn:Hname.
    destruct Hl as [|Hu|Hd|b Hb _ _|b v _ _ Hv|v i s Hv _ _]; [discriminate Hname|discriminate Hu|discriminate Hname|..].
    + rewrite (Hjobs b Hb) in Hname. discriminate Hname.
    + vm_compute in Hv. discriminate Hv.
    + vm_compute in Hv. discriminate Hv.
Defined.

Example fleet_links_urls :
  map_to_list (fleet_links fleet_reader)
  = [("self", "https://api.example.com/v3/clusters/c-1"); ("jobs", "https://api.example.com/v3/jobs?clusterId=c-1")].
Proof. vm_compute. reflexivity. Qed.

(** An object without a schema is written as null, not left out. *)
Example unknown_object_is_null :
  @writer_Body std_format std_range std_k8s (λ _, None) 5 None (λ _, None) (λ _, None) AllAccess page_context
    (BMap (Some {[ "type" := VStr "nothing" ]})) = Ret ONull.
Proof. vm_compute. reflexivity. Qed.
