(* ===== verification/Format.v ===== *)
(** * The response as it is written

    Models the response writers of api/writer/json.go and html.go, the common
    headers of headers.go, which writer a server chooses (parser and NewAPIServer
    of api/server.go) and what the recovery of ServeHTTP can still do: the bytes
    that leave the server for a response of [Server], by way of the output of
    [Writer].

    What net/http keeps of a response is its state: headers, the status once
    WriteHeader was called (a second call does nothing), what was written.  The
    encoders are fields of the writers in the code and arguments here. *)

From S2P Require Import Prelude GoStrings Values Errors TypeNames Convert Schemas Query Builder Http Urls Parse Access Stores Server Writer.

(** ** http.ResponseWriter *)
Record http := mkHttp { h_header : gmap string string; h_status : option Z; h_body : string }.
Definition no_response : http := mkHttp ∅ None "".
Definition Header_Set (key v : string) : prog http unit := λ h,
  (mkHttp (<[CanonicalHeaderKey key := v]> (h_header h)) (h_status h) (h_body h), Ret tt).
Definition WriteHeader (code : Z) : prog http unit := λ h,
  (mkHttp (h_header h) (Some (default code (h_status h))) (h_body h), Ret tt).
(** Writing without a status sends 200. *)
Definition http_Write (s : string) : prog http unit := λ h,
  (mkHttp (h_header h) (Some (default 200 (h_status h))) (h_body h +:+ s), Ret tt).

(** ** The writers *)
Record EncodingResponseWriter := mkEncoding { ContentType : string; Encoder : output → string }.
Record HTMLResponseWriter := mkHTML {
  html_encoding : EncodingResponseWriter;
  html_CSSURL : option string;
  html_JSURL : option string;
  html_APIUIVersion : option string
}.
Inductive ResponseWriter := Encoding (w : EncodingResponseWriter) | Html (w : HTMLResponseWriter).

(** The page around the data. *)
Definition nl : string := String (Ascii.ascii_of_nat 10) EmptyString.
Definition dq (s : string) : string := String (Ascii.ascii_of_nat 34) (s +:+ String (Ascii.ascii_of_nat 34) EmptyString).
Definition page_start : string :=
  nl +:+ "<!DOCTYPE html>" +:+ nl +:+
  "<!-- If you are reading this, there is a good chance you would prefer sending an" +:+ nl +:+
  dq "Accept: application/json" +:+ " header and receiving actual JSON responses. -->" +:+ nl +:+
  "<link rel=" +:+ dq "stylesheet" +:+ " type=" +:+ dq "text/css" +:+ " href=" +:+ dq "%CSSURL%" +:+ " />" +:+ nl +:+
  "<script src=" +:+ dq "%JSURL%" +:+ "></script>" +:+ nl +:+
  "<script>" +:+ nl +:+
  "var user = " +:+ dq "admin" +:+ ";" +:+ nl +:+
  "var curlUser='${CATTLE_ACCESS_KEY}:${CATTLE_SECRET_KEY}';" +:+ nl +:+
  "var schemas=" +:+ dq "%SCHEMAS%" +:+ ";" +:+ nl +:+
  "var data =" +:+ nl.
Definition page_end : string := "</script>" +:+ nl.

Section Format.
Context `{GoFormat} `{MapRange} `{K8sValidation}.
Variables (validators : Schema → option (obj → option error)) (fuel : nat) (ref_validator : option ReferenceValidator).
Variables (formatter : Schema → option (APIContext → RawResource → go RawResource))
  (collection_formatter : Schema → option (APIContext → GenericCollection → go GenericCollection)).
Variable ac : AccessControl.
Abbreviation Body_output := (writer_Body validators fuel ref_validator formatter collection_formatter ac).

Definition AddCommonResponseHeader (c : APIContext) : prog http unit :=
  _ ← Header_Set "Expires" "Wed 24 Feb 1982 18:42:00 GMT";
  schemas ← lift (addSchemasHeader c);
  match schemas with Some url => Header_Set "X-Api-Schemas" url | None => mret tt end.

(** Body: the encoded output, if there is one; errors of the encoder are
    dropped. *)
Definition encoding_Body (w : EncodingResponseWriter) (c : APIContext) (b : body) : prog http unit :=
  out ← lift (Body_output c b);
  match out with ONone => mret tt | _ => http_Write (Encoder w out) end.

Definition encoding_start (w : EncodingResponseWriter) (c : APIContext) (code : Z) : prog http unit :=
  _ ← AddCommonResponseHeader c;
  _ ← Header_Set "content-type" (ContentType w);
  WriteHeader code.
Definition encoding_Write (w : EncodingResponseWriter) (c : APIContext) (code : Z) (b : body) : prog http unit :=
  _ ← encoding_start w c code; encoding_Body w c b.

Definition html_start (c : APIContext) (code : Z) : prog http unit :=
  _ ← AddCommonResponseHeader c;
  _ ← Header_Set "content-type" "text/html";
  _ ← Header_Set "X-Frame-Options" "deny";
  WriteHeader code.
Definition page_header (w : HTMLResponseWriter) (schemas : option string) : string :=
  let header := match schemas with Some url => Replace1 page_start "%SCHEMAS%" url | None => page_start end in
  let '(jsurl, cssurl) := ui_urls (html_CSSURL w) (html_JSURL w) (html_APIUIVersion w) in
  Replace1 (Replace1 header "%JSURL%" jsurl) "%CSSURL%" cssurl.
Definition html_Write (w : HTMLResponseWriter) (c : APIContext) (code : Z) (b : body) : prog http unit :=
  _ ← html_start c code;
  let schema := Schemas_Schema (ctx_Schemas c) (Some builtin_Version) "schema" in
  schemas ← match schema with
            | Some schema => u ← lift (builder_of c); mret (Some (Collection u schema (ctx_Version c)))
            | None => mret None
            end;
  _ ← http_Write (page_header w schemas);
  _ ← encoding_Body (html_encoding w) c b;
  match schema with Some _ => http_Write page_end | None => mret tt end.
Definition writer_Write (w : ResponseWriter) (c : APIContext) (code : Z) (b : body) : prog http unit :=
  match w with Encoding w => encoding_Write w c code b | Html w => html_Write w c code b end.

(** ** Which writer *)
Variables JSONEncoder YAMLEncoder : output → string.
Definition NewAPIServer_ResponseWriters : gmap string ResponseWriter :=
  {[ "json" := Encoding (mkEncoding "application/json" JSONEncoder);
     "html" := Html (mkHTML (mkEncoding "application/json" JSONEncoder) None None None);
     "yaml" := Encoding (mkEncoding "application/yaml" YAMLEncoder) ]}.
(** parser: the writer of the format, or else that for JSON. *)
Definition choose_writer (ws : gmap string ResponseWriter) (c : APIContext) : option ResponseWriter :=
  match ws !! ctx_ResponseFormat c with Some w => Some w | None => ws !! "json" end.
Definition CustomAPIUIResponseWriter (ws : gmap string ResponseWriter) (cssURL jsURL version : option string)
    : gmap string ResponseWriter :=
  match ws !! "html" with
  | Some (Html w) => <["html" := Html (mkHTML (html_encoding w) cssURL jsURL version)]> ws
  | _ => ws
  end.

(** APIContext.WriteResponse on the context of a request, whose writer the
    parser chose, and the recovery of ServeHTTP. *)
Definition context_WriteResponse (ws : gmap string ResponseWriter) (c : APIContext) (code : Z) (b : body) : prog http unit :=
  match choose_writer ws c with Some w => writer_Write w c code b | None => lift Panic end.
Definition recovered (p : prog http unit) : http :=
  match p no_response with
  | (h, Ret _) => h
  | (h, Panic) => (WriteHeader 500 h).1
  end.

(** How the writer of a response ends, which [Server] asks for. *)
Definition http_fate (ws : gmap string ResponseWriter) : Writing := λ c code b,
  match context_WriteResponse ws c code b no_response with
  | (_, Ret _) => Whole
  | (h, Panic) => match h_status h with Some _ => Cut | None => NotStarted end
  end.

(** ** What is written *)
Definition content_type (format : string) : string :=
  if decide (format = "html") then "text/html" else if decide (format = "yaml") then "application/yaml" else "application/json".
Definition encoded (encode : output → string) (out : output) : string := match out with ONone => "" | _ => encode out end.
Definition schemas_url (u : urlBuilder) (c : APIContext) (version : option APIVersion) : option string :=
  (λ schema, Collection u schema version) <$> Schemas_Schema (ctx_Schemas c) (Some builtin_Version) "schema".

Definition common_headers (u : urlBuilder) (c : APIContext) (h : gmap string string) : gmap string string :=
  let h := <["Expires" := "Wed 24 Feb 1982 18:42:00 GMT"]> h in
  match schemas_url u c (or_default (ctx_SchemasVersion c) (ctx_Version c)) with Some url => <["X-Api-Schemas" := url]> h | None => h end.

Lemma AddCommonResponseHeader_sets c u h :
  ctx_URLBuilder c = Some u →
  AddCommonResponseHeader c h = (mkHttp (common_headers u c (h_header h)) (h_status h) (h_body h), Ret tt).
Proof.
  intros Hu. unfold AddCommonResponseHeader, addSchemasHeader, builder_of, common_headers, schemas_url, mbind, prog_bind. simpl.
  unfold lift. by destruct (Schemas_Schema _ _ _); simpl; rewrite ?Hu.
Qed.

Lemma encoding_Body_writes w c b h :
  encoding_Body w c b h = match Body_output c b with
    | Ret ONone => (h, Ret tt)
    | Ret out => (mkHttp (h_header h) (Some (default 200 (h_status h))) (h_body h +:+ Encoder w out), Ret tt)
    | Panic => (h, Panic) end.
Proof. unfold encoding_Body, mbind, prog_bind. simpl. unfold lift. by destruct (Body_output c b) as [[]|]. Qed.

Definition start_headers (format : string) (u : urlBuilder) (c : APIContext) : gmap string string :=
  let h := <["Content-Type" := content_type format]> (common_headers u c ∅) in
  if decide (format = "html") then <["X-Frame-Options" := "deny"]> h else h.

(** The text of a response in a format, and whether the output got through. *)
Definition response_text (format : string) (page : HTMLResponseWriter) (u : urlBuilder) (c : APIContext) (b : body) : string * bool :=
  let encode := if decide (format = "yaml") then YAMLEncoder else JSONEncoder in
  let '(text, ok) := match Body_output c b with Ret out => (encoded encode out, true) | Panic => ("", false) end in
  if decide (format = "html") then
    (page_header page (schemas_url u c (ctx_Version c)) +:+ text +:+
       (if ok : bool then default "" ((λ _, page_end) <$> schemas_url u c (ctx_Version c)) else ""), ok)
  else (text, ok).

Lemma header_steps {A} key v (f : unit → prog http A) h :
  (Header_Set key v ≫= f) h = f tt (mkHttp (<[CanonicalHeaderKey key := v]> (h_header h)) (h_status h) (h_body h)).
Proof. done. Qed.
Lemma common_steps {A} c u (f : unit → prog http A) h :
  ctx_URLBuilder c = Some u →
  (AddCommonResponseHeader c ≫= f) h = f tt (mkHttp (common_headers u c (h_header h)) (h_status h) (h_body h)).
Proof. intros Hu. unfold mbind at 1, prog_bind at 1. by rewrite (AddCommonResponseHeader_sets c u). Qed.

Lemma encoding_start_sets w c u code :
  ctx_URLBuilder c = Some u →
  encoding_start w c code no_response = (mkHttp (<["Content-Type" := ContentType w]> (common_headers u c ∅)) (Some code) "", Ret tt).
Proof. intros Hu. unfold encoding_start. by rewrite (common_steps c u), header_steps. Qed.
Lemma html_start_sets c u code :
  ctx_URLBuilder c = Some u →
  html_start c code no_response =
    (mkHttp (<["X-Frame-Options" := "deny"]> (<["Content-Type" := "text/html"]> (common_headers u c ∅))) (Some code) "", Ret tt).
Proof. intros Hu. unfold html_start. by rewrite (common_steps c u), !header_steps. Qed.

Lemma encoding_Write_writes w c u code b :
  ctx_URLBuilder c = Some u →
  encoding_Write w c code b no_response =
  (mkHttp (<["Content-Type" := ContentType w]> (common_headers u c ∅)) (Some code)
     (match Body_output c b with Ret out => encoded (Encoder w) out | Panic => "" end),
   match Body_output c b with Ret _ => Ret tt | Panic => Panic end).
Proof.
  intros Hu. unfold encoding_Write, mbind, prog_bind. rewrite (encoding_start_sets w c u), encoding_Body_writes by done.
  by destruct (Body_output c b) as [[]|].
Qed.

Lemma html_Write_writes w c u code b :
  ctx_URLBuilder c = Some u →
  html_Write w c code b no_response =
  let '(text, ok) := match Body_output c b with Ret out => (encoded (Encoder (html_encoding w)) out, true) | Panic => ("", false) end in
  (mkHttp (<["X-Frame-Options" := "deny"]> (<["Content-Type" := "text/html"]> (common_headers u c ∅))) (Some code)
     (page_header w (schemas_url u c (ctx_Version c)) +:+ text +:+
        (if ok : bool then default "" ((λ _, page_end) <$> schemas_url u c (ctx_Version c)) else "")),
   if ok then Ret tt else Panic).
Proof.
  intros Hu. unfold html_Write, schemas_url, mbind, prog_bind. rewrite (html_start_sets c u) by done.
  generalize (page_header w), page_end. intros header e.
  destruct (Schemas_Schema _ _ _) as [schema|]; unfold builder_of, lift, http_Write; rewrite ?Hu; simpl; rewrite encoding_Body_writes;
    destruct (Body_output c b) as [[]|]; simpl; by rewrite ?str_app_nil_r, ?str_app_assoc.
Qed.

(** What a writer of NewAPIServer leaves, and whether it panics. *)
Lemma context_WriteResponse_writes cssURL jsURL version c u code b :
  ctx_URLBuilder c = Some u → allowedFormats (ctx_ResponseFormat c) = true →
  context_WriteResponse (CustomAPIUIResponseWriter NewAPIServer_ResponseWriters cssURL jsURL version) c code b no_response =
  (mkHttp (start_headers (ctx_ResponseFormat c) u c) (Some code)
     (response_text (ctx_ResponseFormat c) (mkHTML (mkEncoding "application/json" JSONEncoder) cssURL jsURL version) u c b).1,
   match Body_output c b with Ret _ => Ret tt | Panic => Panic end).
Proof.
  intros Hu Hf%bool_decide_eq_true. unfold context_WriteResponse, choose_writer, response_text, start_headers.
  set (html := mkHTML (mkEncoding "application/json" JSONEncoder)).
  assert (CustomAPIUIResponseWriter NewAPIServer_ResponseWriters cssURL jsURL version
    = <["html" := Html (html cssURL jsURL version)]> NewAPIServer_ResponseWriters) as ->
    by (unfold CustomAPIUIResponseWriter; by replace (NewAPIServer_ResponseWriters !! "html") with (Some (Html (html None None None)))).
  rewrite !elem_of_cons, elem_of_nil in Hf. destruct Hf as [->|[->|[->|[]]]].
  - rewrite lookup_insert_eq. cbn [writer_Write].
    rewrite (html_Write_writes _ c u) by done. cbn -[page_header page_end]. by destruct (Body_output c b).
  - rewrite lookup_insert_ne by done. replace (NewAPIServer_ResponseWriters !! "json") with (Some (Encoding (mkEncoding "application/json" JSONEncoder))) by done.
    cbn [writer_Write]. rewrite (encoding_Write_writes _ c u) by done. by destruct (Body_output c b).
  - rewrite lookup_insert_ne by done. replace (NewAPIServer_ResponseWriters !! "yaml") with (Some (Encoding (mkEncoding "application/yaml" YAMLEncoder))) by done.
    cbn [writer_Write]. rewrite (encoding_Write_writes _ c u) by done. by destruct (Body_output c b).
Qed.

(** A response is in the format that was asked for, whole or not at all after
    its start.  On a server of NewAPIServer, whose page may be customized, with
    a URL builder: the status is the one of the response, the headers say the
    format, and the text is the encoded output, in a page for browsers.  If
    something panics while the output is made, the status is sent already: the
    recovery does not change it, and the text ends where it was. *)
Theorem response_written cssURL jsURL version c u code b :
  ctx_URLBuilder c = Some u → allowedFormats (ctx_ResponseFormat c) = true →
  recovered (context_WriteResponse (CustomAPIUIResponseWriter NewAPIServer_ResponseWriters cssURL jsURL version) c code b) =
  mkHttp (start_headers (ctx_ResponseFormat c) u c) (Some code)
    (response_text (ctx_ResponseFormat c) (mkHTML (mkEncoding "application/json" JSONEncoder) cssURL jsURL version) u c b).1.
Proof.
  intros Hu Hf. unfold recovered. rewrite (context_WriteResponse_writes _ _ _ c u) by done.
  by destruct (Body_output c b).
Qed.

Lemma format_allowed req : allowedFormats (parseResponseFormat req) = true.
Proof.
  unfold parseResponseFormat. set (f := if decide _ then _ else _). destruct (allowedFormats f) eqn:Hf; [done|].
  destruct (IsBrowser _ _); [done|]. by destruct (isYaml _).
Qed.

(** What the parser guarantees even when it fails. *)
Definition answerable (req : Request) (c : APIContext) : Prop :=
  ctx_ResponseFormat c = parseResponseFormat req ∧ is_Some (ctx_URLBuilder c).
Lemma DefaultResolver_answerable req typeName c : answerable req c → answerable req (DefaultResolver typeName c).1.
Proof.
  unfold DefaultResolver. case_decide; [done|]. cbv zeta.
  by destruct (match Schemas_Schema (ctx_Schemas c) (ctx_Version c) typeName with Some _ => _ | None => _ end).
Qed.
Lemma Parse_answerable `{UrlParse} req schemas urlParser c err :
  Parse req schemas urlParser DefaultResolver = Ret (c, err) → answerable req c.
Proof.
  unfold Parse. destruct (New_eval req zero_version) as [base ->]. simpl.
  destruct (urlParser _ _) as [[p perr]|]; [|done]. simpl. destruct perr; [by intros [= <- _]|].
  destruct (p_Version p) as [v|]; [|by intros [= <- _]]. destruct (New_eval req v) as [base' ->]. simpl.
  match goal with |- context [DefaultResolver ?t ?x] =>
    pose proof (DefaultResolver_answerable req t x) as Hr; destruct (DefaultResolver t x) as [c' e'] end.
  specialize (Hr ltac:(by split)). simpl in Hr. destruct e'; [by intros [= <- _]|]. destruct (ctx_Schema c'); [by intros [= <- _]|].
  destruct (ctx_Version c'); [|done]. by intros [= <- _].
Qed.

(** Whatever becomes of a request, its answer has the status it was given and the
    format the request asked for: by its parameter _format, or else by being a
    browser, or else by accepting YAML.  The parser leaves what this takes in
    the context of every request, those it fails on included. *)
Theorem answers_negotiated `{UrlParse} cssURL jsURL version req schemas urlParser c err code b :
  Parse req schemas urlParser DefaultResolver = Ret (c, err) →
  let h := recovered (context_WriteResponse (CustomAPIUIResponseWriter NewAPIServer_ResponseWriters cssURL jsURL version) c code b) in
  h_status h = Some code ∧ h_header h !! "Content-Type" = Some (content_type (parseResponseFormat req)).
Proof.
  intros Hp. destruct (Parse_answerable req schemas urlParser c err Hp) as [Hf [u Hu]]. simpl.
  rewrite (response_written _ _ _ c u) by (done || rewrite Hf; apply format_allowed). simpl. split; [done|].
  unfold start_headers. rewrite Hf. by case_decide; rewrite ?lookup_insert_ne, lookup_insert_eq by done.
Qed.

(** A response to a request is always started, and whole when its output is
    made without a panic: [Server] answers no parsed request by a bare 500 for
    its writer's sake. *)
Theorem responses_started `{UrlParse} cssURL jsURL version req schemas urlParser c err code b :
  Parse req schemas urlParser DefaultResolver = Ret (c, err) →
  http_fate (CustomAPIUIResponseWriter NewAPIServer_ResponseWriters cssURL jsURL version) c code b
  = match Body_output c b with Ret _ => Whole | Panic => Cut end.
Proof.
  intros Hp. destruct (Parse_answerable req schemas urlParser c err Hp) as [Hf [u Hu]]. unfold http_fate.
  rewrite (context_WriteResponse_writes _ _ _ c u) by (done || rewrite Hf; apply format_allowed).
  by destruct (Body_output c b).
Qed.
End Format.

(** ** Examples *)
Definition demo_JSON (out : output) : string := match out with OResource r => "{" +:+ RID r +:+ "}" | _ => "null" end.
Abbreviation demo_answer formatter c code b :=
  (recovered (@context_WriteResponse std_format std_range std_k8s (λ _, None) 5 None formatter (λ _, None) AllAccess
     (NewAPIServer_ResponseWriters demo_JSON demo_JSON) c code b)).
Definition cluster_body : body := BMap (Some {[ "type" := VStr "cluster"; "id" := VStr "c-1" ]}).
Example json_answer :
  let h := demo_answer (λ _, None) page_context 200 cluster_body in
  (h_status h, h_header h !! "Content-Type", h_body h) = (Some 200, Some "application/json", "{c-1}").
Proof. vm_compute. reflexivity. Qed.

(** A formatter that panics: the request is answered by a success without a
    body, although ServeHTTP means to answer 500. *)
Example panic_answers_200 :
  let h := demo_answer (λ _, Some (λ _ _, Panic)) page_context 200 cluster_body in
  (h_status h, h_body h) = (Some 200, "").
Proof. vm_compute. reflexivity. Qed.

(** The server of the examples with its writers: the request for a job, whose
    formatter panics, is answered by a 200 that is cut; that of a job that does
    not exist by a whole 404. *)
Definition broken_writing : Writing :=
  @http_fate std_format std_range std_k8s (λ _, None) 5 None
    (λ schema, if decide (ID schema = "job") then Some (λ _ _, Panic) else None) (λ _, None) AllAccess
    (NewAPIServer_ResponseWriters demo_JSON demo_JSON).
Definition broken_defaults : @Handlers (gmap string obj) :=
  @NewAPIServer_Defaults _ std_format std_range std_k8s std_decoders broken_writing demo_links (λ _, None) 5 None.
Definition broken_serve (req : Request) (s : srv (gmap string obj)) : srv (gmap string obj) :=
  @ServeHTTP _ std_format std_range std_k8s std_url_parse (λ _, server_setupDefaults broken_defaults None (no_handlers (Some map_store)))
    (λ _, None) 5 None (inl []) demo_registry (@DefaultURLParser std_range std_sort) (@DefaultResolver std_range) broken_defaults AllAccess req s.
Definition typed_job : srv (gmap string obj) :=
  mkSrv {[ "j-1" := {[ "id" := VStr "j-1"; "type" := VStr "job" ]} ]} [] [].
Example cut_answer_served :
  (λ r, (res_code r, res_whole r)) <$> responses (broken_serve (get_request "/v3/jobs/j-1") typed_job) = [(200, false)] ∧
  (λ r, (res_code r, res_whole r)) <$> responses (broken_serve (get_request "/v3/jobs/j-9") typed_job) = [(404, true)].
Proof. split; vm_compute; reflexivity. Qed.
