(* ===== verification/ProxyStore.v ===== *)
(** * The store over the Kubernetes API

    Models store/proxy/proxy_store.go and store/proxy/error_wrapper.go, and
    GenerateName of types/id.go: a store whose objects live in a Kubernetes API
    server.

    The client of client-go is a parameter, [RestClient]: it answers requests,
    which are data here.  So are the mapper of a schema and the random suffix of
    a generated name.  The namespaces of a list are asked for concurrently; the
    model runs them one after another in the order in which they complete.  The
    watch of this store is modelled in Watch.v. *)

From S2P Require Import Prelude GoStrings Values Errors TypeNames Convert Schemas Merge Query Http Urls Parse Access Stores.
From Stdlib Require Import Ascii DecimalString DecimalZ.

(** ** types/id.go *)
Fixpoint drop_lower (s : string) : string :=
  match s with "" => "" | String c s' => if is_lower c then drop_lower s' else String c (drop_lower s') end.
Definition GenerateName (random typeName : string) : go string :=
  match typeName with
  | "" => Panic
  | String c s => Ret (ToLower (String c (drop_lower s)) +:+ "-" +:+ random)
  end.

(** ** Requests *)
Inductive verb := GET | POST | PUT | DELETE.
Inductive request_body := NoBody | Object (o : option obj) | DeleteBackground.
Record rest_request := mkRest {
  rq_Verb : verb;
  rq_Prefix : list string;
  rq_Resource : string;
  rq_Namespace : string;
  rq_Name : option string;
  rq_Headers : list (string * list string);
  rq_Body : request_body
}.
Definition set_name (r : rest_request) (name : string) : rest_request :=
  mkRest (rq_Verb r) (rq_Prefix r) (rq_Resource r) (rq_Namespace r) (Some name) (rq_Headers r) (rq_Body r).
Definition set_body (r : rest_request) (b : request_body) : rest_request :=
  mkRest (rq_Verb r) (rq_Prefix r) (rq_Resource r) (rq_Namespace r) (rq_Name r) (rq_Headers r) b.
Definition set_headers (r : rest_request) (h : list (string * list string)) : rest_request :=
  mkRest (rq_Verb r) (rq_Prefix r) (rq_Resource r) (rq_Namespace r) (rq_Name r) h (rq_Body r).

(** What the API server answers: an object, or the items of a list. *)
Record RestClient (W : Type) := mkClient {
  rc_Do : rest_request → prog W (result (option obj));
  rc_List : rest_request → prog W (result (list (option obj)))
}.
Arguments mkClient {W}.
Arguments rc_Do {W}.
Arguments rc_List {W}.

(** A Kubernetes status (errors.APIStatus), if the error is one. *)
Definition api_status (err : error) : option (Z * string * string) :=
  match err with
  | Conflict m => Some (409, "Conflict", m)
  | AlreadyExists m => Some (409, "AlreadyExists", m)
  | StatusError code reason m => Some (code, reason, m)
  | _ => None
  end.
Definition k8s_IsConflict (err : option error) : bool :=
  match err ≫= api_status with Some (_, reason, _) => bool_decide (reason = "Conflict") | None => false end.
Definition GetResourceVersion (o : option obj) : string := as_string (GetValueN o ["metadata"; "resourceVersion"]).

(** The object with another resource version. *)
Definition set_version (version : string) (o : option obj) : option obj :=
  (λ m, <["metadata" := VMap (<["resourceVersion" := VStr version]> (default ∅ (ToMapInterface (mget (Some m) "metadata"))))]> m) <$> o.

Record proxy := mkProxy {
  px_storageContext : string;
  px_prefix : list string;
  px_group : string;
  px_version : string;
  px_kind : string;
  px_resourcePlural : string
}.

(** ** Helpers *)
Definition userAuthHeader : string := "Impersonate-User".
Definition authHeaders : list string := [userAuthHeader; "Impersonate-Group"].
Definition getUser (c : APIContext) : string := Header_Get (RHeader (ctx_Request c)) userAuthHeader.
Definition authed (c : APIContext) (r : rest_request) : rest_request :=
  set_headers r ((λ h, (h, default [] (RHeader (ctx_Request c) !! CanonicalHeaderKey h))) <$> authHeaders).

Definition splitID (id : string) : string * string :=
  match Split2 id ":" with [ns; name] => (ns, name) | _ => ("", id) end.

(** getNamespace of options that may be nil. *)
Definition eq_namespace (cond : QueryCondition) : bool :=
  bool_decide (QField cond ∈ ["namespaceId"; "namespace"]) && negb (bool_decide (QValue cond = "")) &&
  bool_decide (conditionType cond = Some CondEQ).
Definition getNamespace (c : APIContext) (opt : option QueryOptions) : go string :=
  match ctx_SubContext c !! "namespaces", opt with
  | Some ns, _ => Ret (TrimSpace ns)
  | None, None => Panic
  | None, Some opt => Ret (default "" ((λ e, QValue e.2) <$> list_find (λ q, eq_namespace q = true) (QConditions opt)))
  end.

Definition timed_out (err : error) : bool := Contains (Error err) "Client.Timeout exceeded".

(** The order in which concurrent requests complete. *)
Class Completion := {
  completion : list string → list string;
  completion_perm : ∀ l, completion l ≡ₚ l
}.

Section Proxy.
Context {W : Type} `{MapRange} `{Completion}.
Variable s : proxy.
Variable UnversionedClient : APIContext → string → result (RestClient W).
(** schema.Mapper: the data as the mapper leaves it. *)
Variables (ToInternal : Schema → option (option obj → go (with_error (option obj))))
  (FromInternal : Schema → option (option obj → go (option obj))).
Variable random : string.
Variable ac : AccessControl.

Definition k8sClient (c : APIContext) : result (RestClient W) := UnversionedClient c (px_storageContext s).

Definition common (namespace : string) (v : verb) : rest_request :=
  mkRest v (px_prefix s ++ (if decide (px_group s = "") then [] else [px_group s]) ++ [px_version s])
    (px_resourcePlural s) namespace None [] NoBody.

Definition fromInternal (c : APIContext) (schema : Schema) (data : option obj) : go (option obj) :=
  let data := if decide (Option c "export" = "true") then mdelete data "status" else data in
  match FromInternal schema with Some f => f data | None => Ret data end.
Definition toInternal (schema : Schema) (data : option obj) : go (with_error (option obj)) :=
  '(data, err) ← match ToInternal schema with Some f => f data | None => Ret (data, None) end;
  match err with
  | Some err => Ret (data, Some err)
  | None =>
      data ← mset data "apiVersion" (VStr (if decide (px_group s = "") then px_version s else px_group s +:+ "/" +:+ px_version s));
      data ← mset data "kind" (VStr (px_kind s));
      Ret (data, None)
  end.

Definition singleResultRaw (client : RestClient W) (c : APIContext) (req : rest_request) : prog W (string * with_error (option obj)) :=
  r ← rc_Do client (authed c req);
  mret match r with inr err => ("", (None, Some err)) | inl o => (GetResourceVersion o, (o, None)) end.
Definition singleResult (client : RestClient W) (c : APIContext) (schema : Schema) (req : rest_request)
  : prog W (string * with_error (option obj)) :=
  '(version, (data, err)) ← singleResultRaw client c req;
  match err with
  | Some err => mret ("", (None, Some err))
  | None => data ← lift (fromInternal c schema data); mret (version, (data, None))
  end.

(** ** Reading *)
Definition valid_id (schema : Schema) (id : string) : bool :=
  let full x := negb (bool_decide (TrimSpace x = "")) in
  match Split (TrimSpace id) ":" with
  | [a; b] => bool_decide (Scope schema = "namespace") && full a && full b
  | [a] => negb (bool_decide (Scope schema = "namespace")) && full a
  | _ => false
  end.

(** Up to [n] more attempts when the request times out. *)
Fixpoint get_retry (n : nat) (client : RestClient W) (c : APIContext) (schema : Schema) (req : rest_request)
  : prog W (string * with_error (option obj)) :=
  '(version, (data, err)) ← singleResult client c schema req;
  match err, n with
  | Some e, S n => if timed_out e then get_retry n client c schema req else mret (version, (data, err))
  | _, _ => mret (version, (data, err))
  end.
Definition byID (c : APIContext) (schema : Schema) (id : string) (retry : bool) : prog W (string * with_error (option obj)) :=
  if negb (valid_id schema id) then mret ("", (None, Some (NewAPIError NotFound "failed to find resource by id")))
  else match k8sClient c with
  | inr err => mret ("", (None, Some err))
  | inl client =>
      let '(namespace, name) := splitID id in
      get_retry (if retry then 2 else 0) client c schema (set_name (common namespace GET) name)
  end.
Definition proxy_ByID (c : APIContext) (schema : Schema) (id : string) : prog W (with_error (option obj)) :=
  '(_, r) ← byID c schema id true; mret r.

Fixpoint list_retry (n : nat) (client : RestClient W) (req : rest_request) : prog W (result (list (option obj))) :=
  r ← rc_List client req;
  match r, n with
  | inr e, S n => if timed_out e then list_retry n client req else mret r
  | _, _ => mret r
  end.
Definition retryList (namespace : string) (c : APIContext) : prog W (result (list (option obj))) :=
  match k8sClient c with
  | inr err => mret (inr err)
  | inl client => list_retry 2 client (common namespace GET)
  end.

(** errgroup: all of them run, the first error is the result. *)
Fixpoint list_namespaces (c : APIContext) (namespaces : list string) : prog W (result (list (option obj))) :=
  match namespaces with
  | [] => mret (inl [])
  | ns :: rest =>
      r ← retryList ns c;
      r' ← list_namespaces c rest;
      mret match r, r' with
           | inl items, inl items' => inl (items ++ items')
           | inr err, _ => inr err
           | inl _, inr err => inr err
           end
  end.
Fixpoint all_fromInternal (c : APIContext) (schema : Schema) (items : list (option obj)) : go (list (option obj)) :=
  match items with
  | [] => Ret []
  | o :: items' => o ← fromInternal c schema o; rest ← all_fromInternal c schema items'; Ret (o :: rest)
  end.
Definition authContext : gmap string string := {[ "apiGroup" := px_group s; "resource" := px_resourcePlural s ]}.
Definition proxy_List (c : APIContext) (schema : Schema) (opt : option QueryOptions) : prog W (with_error (list (option obj))) :=
  r ← match opt ≫= QNamespaces with
      | None => ns ← lift (getNamespace c opt); retryList ns c
      | Some namespaces => list_namespaces c (completion namespaces)
      end;
  match r with
  | inr err => mret ([], Some err)
  | inl items =>
      items ← lift (all_fromInternal c schema items);
      mret (ac_FilterList ac c schema items authContext, None)
  end.

(** ** Writing *)
Definition put (data : option obj) (v : string) (keys : list string) : prog W (option obj) := lift (PutValue data (VStr v) keys).

Definition proxy_Create (c : APIContext) (schema : Schema) (data : option obj) : prog W (with_error (option obj)) :=
  '(data, err) ← lift (toInternal schema data);
  match err with
  | Some err => mret (None, Some err)
  | None =>
      let namespace := as_string (GetValueN data ["metadata"; "namespace"]) in
      data ← put data (getUser c) ["metadata"; "annotations"; "field.cattle.io/creatorId"];
      data ← put data "norman" ["metadata"; "labels"; "cattle.io/creator"];
      data ← if bool_decide (as_string (GetValueN data ["metadata"; "name"]) = "") &&
                bool_decide (as_string (GetValueN data ["metadata"; "generateName"]) = "")
             then name ← lift (GenerateName random (ID schema)); put data name ["metadata"; "name"]
             else mret data;
      match k8sClient c with
      | inr err => mret (None, Some err)
      | inl client =>
          '(_, r) ← singleResult client c schema (set_body (common namespace POST) (Object data)); mret r
      end
  end.

(** What is written for an object that was read. *)
Definition updated (c : APIContext) (schema : Schema) (namespace name : string) (data : option obj) (version : string) (existing : option obj)
  : go (option obj) :=
  let existing := Some (APIUpdateMerge (InternalSchema schema) (ctx_Schemas c) existing data (bool_decide (Option c "replace" = "true"))) in
  existing ← PutValue existing (VStr version) ["metadata"; "resourceVersion"];
  existing ← PutValue existing (VStr namespace) ["metadata"; "namespace"];
  PutValue existing (VStr name) ["metadata"; "name"].

(** One turn of the loop: reads, merges and writes; whether the write conflicts. *)
Definition update_once (client : RestClient W) (c : APIContext) (schema : Schema) (namespace name : string) (data : option obj)
  : prog W (bool * with_error (option obj)) :=
  '(version, (existing, err)) ← singleResultRaw client c (set_name (common namespace GET) name);
  match err with
  | Some err => mret (false, (None, Some err))
  | None =>
      o ← lift (updated c schema namespace name data version existing);
      '(_, (result, err)) ← singleResult client c schema (set_name (set_body (common namespace PUT) (Object o)) name);
      mret (k8s_IsConflict err, (result, err))
  end.
(** Again while the write conflicts, [n] more times. *)
Fixpoint update_retry (n : nat) (client : RestClient W) (c : APIContext) (schema : Schema) (namespace name : string) (data : option obj)
  : prog W (with_error (option obj)) :=
  turn ← update_once client c schema namespace name data;
  match n, turn with
  | S n, (true, _) => update_retry n client c schema namespace name data
  | _, (_, r) => mret r
  end.
Definition proxy_Update (c : APIContext) (schema : Schema) (data : option obj) (id : string) : prog W (with_error (option obj)) :=
  match k8sClient c with
  | inr err => mret (None, Some err)
  | inl client =>
      let '(namespace, name) := splitID id in
      '(data, err) ← lift (toInternal schema data);
      match err with
      | Some err => mret (None, Some err)
      | None => update_retry 4 client c schema namespace name data
      end
  end.

Definition proxy_Delete (c : APIContext) (schema : Schema) (id : string) : prog W (with_error (option obj)) :=
  match k8sClient c with
  | inr err => mret (None, Some err)
  | inl client =>
      let '(namespace, name) := splitID id in
      r ← rc_Do client (authed c (set_name (set_body (common namespace DELETE) DeleteBackground) name));
      match r with
      | inr err => mret (None, Some err)
      | inl _ =>
          '(_, (o, err)) ← byID c schema id false;
          mret match err with Some _ => (None, None) | None => (o, None) end
      end
  end.

(** ** Watching *)

(** What realWatch does with an event of the API server; then Watch filters the
    events a request may see. *)
Definition watch_event (c : APIContext) (schema : Schema) (deleted : bool) (data : option obj) : go (option obj) :=
  data ← fromInternal c schema data;
  Ret (match data, deleted with Some m, true => Some (<[".removed" := VBool true]> m) | _, _ => data end).
Definition proxy_Watch (c : APIContext) (schema : Schema) (events : list (option obj)) : list obj :=
  Chan (λ d, ac_Filter ac c schema d authContext) events.

(** ** error_wrapper.go *)
Definition translateError (err : option error) : option error :=
  match err with
  | Some e => match api_status e with Some (code, reason, m) => Some (NewAPIErrorLong code reason m) | None => Some e end
  | None => None
  end.
Definition translated {A} (p : prog W (with_error A)) : prog W (with_error A) :=
  '(a, err) ← p; mret (a, translateError err).

(** NewProxyStore; [watch] is the watch of the store. *)
Definition NewProxyStore (watch : APIContext → Schema → QueryOptions → prog W (with_error (option (list (option obj))))) : Store W :=
  mkStore (px_storageContext s)
    (λ c sc id, translated (proxy_ByID c sc id))
    (λ c sc o, r ← translated (proxy_List c sc (Some o)); mret (o, r))
    (λ c sc d, translated (proxy_Create c sc d))
    (λ c sc d id, translated (proxy_Update c sc d id))
    (λ c sc id, translated (proxy_Delete c sc id))
    (λ c sc o, r ← translated (watch c sc o); mret (o, r)).

(** ** Updates are atomic

    What an API server promises about one object (the documented optimistic
    concurrency of Kubernetes).  [stored w] is the object in the world [w];
    other clients may act while a request is under way, [evolves] says how the
    world may go on.  A read returns the object as it is when it is answered.  A
    write succeeds only if the version it carries is that of the object at that
    moment, which it replaces, with a new version; two states of the object with
    the same version are the same. *)
Record api_server (client : RestClient W) (namespace name : string) (headers : list (string * list string))
    (stored : W → option (option obj)) (evolves : W → W → Prop) : Prop := {
  as_trans : PreOrder evolves;
  as_time : ∀ req w, evolves w (rc_Do client req w).1;
  as_get : ∀ w w' o, rc_Do client (set_headers (set_name (common namespace GET) name) headers) w = (w', Ret (inl o)) →
    stored w' = Some o;
  as_put : ∀ w w' body o,
    rc_Do client (set_headers (set_name (set_body (common namespace PUT) (Object body)) name) headers) w = (w', Ret (inl o)) →
    ∃ w1 old, evolves w w1 ∧ evolves w1 w' ∧ stored w1 = Some old ∧ GetResourceVersion old = GetResourceVersion body ∧
      stored w' = Some o ∧ o = set_version (GetResourceVersion o) body;
  as_metadata : ∀ w o, stored w = Some o → ∃ meta, mlookup o "metadata" = Some (VMap meta);
  as_version : ∀ w w' o o', evolves w w' → stored w = Some o → stored w' = Some o' →
    GetResourceVersion o = GetResourceVersion o' → o = o'
}.

Lemma put_metadata m sub k v :
  m !! "metadata" = Some (VMap sub) → PutValue (Some m) v ["metadata"; k] = Ret (Some (<["metadata" := VMap (<[k := v]> sub)]> m)).
Proof. intros Hm. simpl. by rewrite Hm. Qed.

(** The object that is written carries the version that was read. *)
Lemma updated_version c schema namespace name data version existing meta :
  mlookup existing "metadata" = Some (VMap meta) →
  ∃ o, updated c schema namespace name data version existing = Ret o ∧ GetResourceVersion o = version.
Proof.
  intros Hm. unfold updated. set (m := APIUpdateMerge _ _ _ _ _).
  assert (∃ sub, m !! "metadata" = Some (VMap sub)) as [sub Hsub].
  { unfold m, APIUpdateMerge. rewrite Hm. rewrite lookup_insert_eq. by eexists. }
  rewrite (put_metadata _ _ _ _ Hsub). cbn [mbind go_bind].
  rewrite (put_metadata _ (<["resourceVersion" := VStr version]> sub)) by (by rewrite lookup_insert_eq). cbn [mbind go_bind].
  rewrite (put_metadata _ (<["namespace" := VStr namespace]> (<["resourceVersion" := VStr version]> sub))) by (by rewrite lookup_insert_eq).
  eexists. split; [done|]. unfold GetResourceVersion, GetValueN. simpl. unfold mget. simpl. rewrite lookup_insert_eq. simpl.
  by rewrite lookup_insert_ne, lookup_insert_ne, lookup_insert_eq by done.
Qed.

Section Atomic.
Variables (client : RestClient W) (c : APIContext) (schema : Schema) (namespace name : string) (data : option obj).
Variables (stored : W → option (option obj)) (evolves : W → W → Prop).
Hypothesis server : api_server client namespace name (rq_Headers (authed c (common namespace GET))) stored evolves.
#[local] Instance evolves_po : PreOrder evolves := as_trans _ _ _ _ _ _ server.

(** Between [w] and [w'] the update was applied to the object as it was. *)
Definition applied (w w' : W) (r : option obj) : Prop :=
  ∃ w1 old body new, evolves w w1 ∧ evolves w1 w' ∧ stored w1 = Some old ∧
    updated c schema namespace name data (GetResourceVersion old) old = Ret body ∧
    stored w' = Some new ∧ new = set_version (GetResourceVersion new) body ∧ fromInternal c schema new = Ret r.

Lemma update_once_applied w w' conflict r err :
  update_once client c schema namespace name data w = (w', Ret (conflict, (r, err))) →
  evolves w w' ∧ (conflict = true → err ≠ None) ∧ (err = None → applied w w' r).
Proof.
  unfold update_once, singleResultRaw, mbind, prog_bind.
  pose proof (as_time _ _ _ _ _ _ server (authed c (set_name (common namespace GET) name)) w) as He1.
  destruct (rc_Do client (authed c (set_name (common namespace GET) name)) w) as [w1 [[o|e]|]] eqn:Hget; simpl in He1 |- *;
    [|by intros [= <- <- <- <-]|done].
  apply (as_get _ _ _ _ _ _ server) in Hget. destruct (as_metadata _ _ _ _ _ _ server _ _ Hget) as [meta Hmeta].
  destruct (updated_version c schema namespace name data (GetResourceVersion o) o meta Hmeta) as (body & Hb & Hv).
  unfold lift. rewrite Hb. unfold singleResult, singleResultRaw, mbind, prog_bind.
  set (req := authed c (set_name (set_body (common namespace PUT) (Object body)) name)).
  pose proof (as_time _ _ _ _ _ _ server req w1) as He2.
  destruct (rc_Do client req w1) as [w2 [[new|e]|]] eqn:Hput; simpl in He2 |- *;
    [|intros [= <- <- <- <-]; split_and!; [by etrans|done|done]|done].
  apply (as_put _ _ _ _ _ _ server) in Hput as (w3 & old & Hw13 & Hw32 & Hold & Hov & Hnew & Hset).
  pose proof (as_version _ _ _ _ _ _ server _ _ _ _ Hw13 Hget Hold) as Hsame. rewrite Hov, Hv in Hsame. specialize (Hsame eq_refl) as <-.
  unfold lift. destruct (fromInternal c schema new) as [d|] eqn:Hfi; [|done]. intros [= <- <- <- <-].
  split_and!; [by etrans|done|]. intros _. exists w3, o, body, new. split_and!; try done. by etrans.
Qed.

Lemma update_retry_applied n w w' r : update_retry n client c schema namespace name data w = (w', Ret (r, None)) → applied w w' r.
Proof.
  revert w. induction n as [|n IH]; intros w; cbn [update_retry]; unfold mbind, prog_bind;
    destruct (update_once client c schema namespace name data w) as [w1 [[conflict [r1 e1]]|]] eqn:Ho; try done;
    destruct (update_once_applied _ _ _ _ _ Ho) as (He & Hc & Ha).
  - intros [= <- <- ->]. auto.
  - destruct conflict; [|intros [= <- <- ->]; auto]. intros Hr.
    destruct (IH _ Hr) as (w2 & old & body & new & Hw2 & Hrest). exists w2, old, body, new. split; [by etrans|done].
Qed.
End Atomic.

(** C4: an update is an atomic read-modify-write.  Against an API server that
    keeps its promises, and whatever other clients do in between, an update of
    the store that succeeds has been applied to the object as it was at the
    moment of the write: there is a state of the object that the write replaced,
    the object that is now stored is that state merged with the data (and its
    version is new), and what is returned is the stored object.  No change of
    another client is lost. *)
Theorem update_is_atomic client c schema id data data' namespace name stored evolves w w' r :
  api_server client namespace name (rq_Headers (authed c (common namespace GET))) stored evolves →
  k8sClient c = inl client → splitID id = (namespace, name) → toInternal schema data = Ret (data', None) →
  proxy_Update c schema data id w = (w', Ret (r, None)) →
  ∃ w1 old body new, evolves w w1 ∧ evolves w1 w' ∧ stored w1 = Some old ∧
    updated c schema namespace name data' (GetResourceVersion old) old = Ret body ∧
    stored w' = Some new ∧ new = set_version (GetResourceVersion new) body ∧ fromInternal c schema new = Ret r.
Proof.
  intros Hserver Hk Hid Hti. unfold proxy_Update. rewrite Hk, Hid. unfold mbind, prog_bind, lift. rewrite Hti.
  by apply update_retry_applied.
Qed.
End Proxy.

(** ** Errors *)

(** The answer of the API server reaches the client.  An error of the
    Kubernetes API that an operation of the store meets leaves the store as an
    API error, whatever the operation: its response has the status code of the
    Kubernetes error, its reason as code and its message, and the error counts
    as a conflict or as not found exactly when that code is 409 or 404.  Other
    errors and results leave the store as they are. *)
Theorem status_reported {W A} (p : prog W (with_error A)) w w' a err :
  p w = (w', Ret (a, err)) →
  match err ≫= api_status with
  | Some (code, reason, m) =>
      ∃ e, translated p w = (w', Ret (a, Some e)) ∧ ErrorHandler e = (code, toError (mkErrorCode reason code) m "") ∧
        (IsConflict e = true ↔ code = 409) ∧ (IsNotFound e = true ↔ code = 404)
  | None => translated p w = (w', Ret (a, err))
  end.
Proof.
  intros Hp. unfold translated, mbind, prog_bind. rewrite Hp. destruct err as [err|]; [|done]. simpl.
  destruct (api_status err) as [[[code reason] m]|]; [|done].
  eexists. split; [done|]. split; [done|]. simpl. split; apply Z.eqb_eq.
Qed.

(** ** How many requests an operation takes *)
Definition counted {W} (client : RestClient W) : RestClient (W * nat) :=
  mkClient (λ req w, let '(w', r) := rc_Do client req w.1 in ((w', S w.2), r))
    (λ req w, let '(w', r) := rc_List client req w.1 in ((w', S w.2), r)).
Definition counted_getter {W} (getter : APIContext → string → result (RestClient W)) (c : APIContext) (context : string)
  : result (RestClient (W * nat)) :=
  match getter c context with inl client => inl (counted client) | inr err => inr err end.
Definition costs {W A} (k : nat) (p : prog (W * nat) A) : Prop := ∀ w, ((p w).1.2 ≤ w.2 + k)%nat.

Section Costs.
Context {W : Type}.
Lemma costs_ret {A} (a : A) : costs (W := W) 0 (mret a).
Proof. intros w. simpl. lia. Qed.
Lemma costs_lift {A} (m : go A) : costs (W := W) 0 (lift m).
Proof. intros w. simpl. lia. Qed.
Lemma costs_bind {A B} j k (m : prog (W * nat) A) (f : A → prog (W * nat) B) :
  costs j m → (∀ a, costs k (f a)) → costs (j + k) (m ≫= f).
Proof.
  intros Hm Hf w. unfold mbind, prog_bind. specialize (Hm w). destruct (m w) as [w' [a|]]; simpl in *; [|lia].
  specialize (Hf a w'). lia.
Qed.
Lemma costs_mono {A} j k (p : prog (W * nat) A) : costs j p → (j ≤ k)%nat → costs k p.
Proof. intros Hp Hle w. specialize (Hp w). lia. Qed.
Lemma costs_do (client : RestClient W) req : costs 1 (rc_Do (counted client) req).
Proof. intros w. simpl. destruct (rc_Do client req w.1). simpl. lia. Qed.
Lemma costs_list (client : RestClient W) req : costs 1 (rc_List (counted client) req).
Proof. intros w. simpl. destruct (rc_List client req w.1). simpl. lia. Qed.
End Costs.

(** The cost of a program from the costs of its steps. *)
Ltac prog_costs :=
  lazymatch goal with
  | |- costs _ (mret _) => eapply costs_mono; [apply costs_ret|lia]
  | |- costs _ (lift _) => eapply costs_mono; [apply costs_lift|lia]
  | |- costs _ (match ?x with _ => _ end) => destruct x; prog_costs
  | |- _ => idtac
  end.

Section Bounds.
Context {W : Type} `{MapRange} `{Completion}.
Variables (s : proxy) (getter : APIContext → string → result (RestClient W)).
Variables (ToInternal : Schema → option (option obj → go (with_error (option obj))))
  (FromInternal : Schema → option (option obj → go (option obj))).
Variables (random : string) (ac : AccessControl).

Lemma singleResultRaw_costs (client : RestClient W) c req : costs 1 (singleResultRaw (counted client) c req).
Proof. apply (costs_bind 1 0); [apply costs_do|intros; apply costs_ret]. Qed.
Lemma singleResult_costs (client : RestClient W) c schema req : costs 1 (singleResult FromInternal (counted client) c schema req).
Proof.
  apply (costs_bind 1 0); [apply singleResultRaw_costs|]. intros [v [d [err|]]]; prog_costs.
  apply (costs_bind 0 0); intros; prog_costs.
Qed.
Lemma get_retry_costs n (client : RestClient W) c schema req : costs (S n) (get_retry FromInternal n (counted client) c schema req).
Proof.
  induction n as [|n IH]; cbn [get_retry]; apply (costs_bind 1); [apply singleResult_costs| |apply singleResult_costs|];
    intros [v [d [err|]]]; prog_costs. exact IH.
Qed.
Lemma list_retry_costs n (client : RestClient W) req : costs (S n) (list_retry n (counted client) req).
Proof. induction n as [|n IH]; cbn [list_retry]; (apply (costs_bind 1); [apply costs_list|]; intros [l|err]; prog_costs). exact IH. Qed.
Lemma byID_costs c schema id (retry : bool) :
  costs (if retry then 3 else 1) (byID s (counted_getter getter) FromInternal c schema id retry).
Proof.
  unfold byID, k8sClient, counted_getter. destruct (getter c _) as [client|err]; prog_costs.
  destruct retry; apply get_retry_costs.
Qed.
Lemma retryList_costs ns c : costs 3 (retryList s (counted_getter getter) ns c).
Proof. unfold retryList, k8sClient, counted_getter. destruct (getter c _) as [client|err]; prog_costs. apply list_retry_costs. Qed.
Lemma list_namespaces_costs c l : costs (3 * length l) (list_namespaces s (counted_getter getter) c l).
Proof.
  induction l as [|ns l IH]; cbn [list_namespaces length]; prog_costs. rewrite Nat.mul_succ_r, Nat.add_comm.
  apply costs_bind; [apply retryList_costs|]. intros r. rewrite <- (Nat.add_0_r (3 * length l)).
  apply costs_bind; [exact IH|]. intros r'. apply costs_ret.
Qed.
Lemma update_retry_costs n (client : RestClient W) c schema ns name data :
  costs (2 * S n) (update_retry s FromInternal n (counted client) c schema ns name data).
Proof.
  assert (costs 2 (update_once s FromInternal (counted client) c schema ns name data)) as Ho.
  { apply (costs_bind 1); [apply singleResultRaw_costs|]. intros [v [d [err|]]]; prog_costs.
    apply (costs_bind 0); [apply costs_lift|]. intros o. apply (costs_bind 1 0); [apply singleResult_costs|].
    intros [v' [r err]]. apply costs_ret. }
  induction n as [|n IH]; cbn [update_retry].
  - apply (costs_bind 2 0); [exact Ho|]. intros [conflict r]. prog_costs.
  - eapply (costs_mono (2 + 2 * S n)); [|lia]. apply costs_bind; [exact Ho|]. intros [[] r]; prog_costs. exact IH.
Qed.

(** C21: the number of requests of an operation is bounded.  Whatever the API
    server answers, reading an object takes at most 3 requests, a list at most 3
    for each namespace it is asked for, a create 1, an update 10 (five reads and
    five writes) and a delete 2: retrying after time-outs and conflicts ends. *)
Theorem requests_bounded c schema id data opt w n :
  let requests {A} (p : prog (W * nat) A) := ((p (w, n)).1.2 - n)%nat in
  (requests (proxy_ByID s (counted_getter getter) FromInternal c schema id) ≤ 3)%nat ∧
  (requests (proxy_List s (counted_getter getter) FromInternal ac c schema opt)
     ≤ 3 * match opt ≫= QNamespaces with Some l => length l | None => 1 end)%nat ∧
  (requests (proxy_Create s (counted_getter getter) ToInternal FromInternal random c schema data) ≤ 1)%nat ∧
  (requests (proxy_Update s (counted_getter getter) ToInternal FromInternal c schema data id) ≤ 10)%nat ∧
  (requests (proxy_Delete s (counted_getter getter) FromInternal c schema id) ≤ 2)%nat.
Proof.
  assert (∀ A k (p : prog (W * nat) A), costs k p → ((p (w, n)).1.2 - n ≤ k)%nat) as Hc.
  { intros A k p Hp. specialize (Hp (w, n)). simpl in Hp. lia. }
  split_and!; apply Hc.
  - apply (costs_bind 3 0); [apply byID_costs|]. intros [v r]. apply costs_ret.
  - unfold proxy_List. rewrite <- (Nat.add_0_r (3 * _)). apply costs_bind.
    + destruct (opt ≫= QNamespaces) as [l|].
      * rewrite <- (Permutation_length (completion_perm l)). apply list_namespaces_costs.
      * apply (costs_bind 0 3); [apply costs_lift|]. intros ns. apply retryList_costs.
    + intros [items|err]; prog_costs. apply (costs_bind 0 0); [apply costs_lift|]. intros l. apply costs_ret.
  - apply (costs_bind 0 1); [apply costs_lift|]. intros [d [err|]]; prog_costs.
    apply (costs_bind 0 1); [apply costs_lift|]. intros d1. apply (costs_bind 0 1); [apply costs_lift|]. intros d2.
    apply (costs_bind 0 1).
    { prog_costs. apply (costs_bind 0 0); [apply costs_lift|]. intros name. apply costs_lift. }
    intros d3. unfold k8sClient, counted_getter. destruct (getter c _) as [client|err]; prog_costs.
    apply (costs_bind 1 0); [apply singleResult_costs|]. intros [v r]. apply costs_ret.
  - unfold proxy_Update, k8sClient, counted_getter. destruct (getter c _) as [client|err]; prog_costs.
    apply (costs_bind 0 10); [apply costs_lift|]. intros [d [err|]]; prog_costs. apply (update_retry_costs 4).
  - unfold proxy_Delete. unfold k8sClient at 1, counted_getter at 1. destruct (getter c _) as [client|err]; prog_costs.
    apply (costs_bind 1 1); [apply costs_do|]. intros [o|err]; prog_costs.
    apply (costs_bind 1 0); [apply (byID_costs c schema id false)|]. intros [v [o' err]]. apply costs_ret.
Qed.
End Bounds.

(** ** An API server

    The states of one object, the latest first; its version counts them.  The
    second list holds what other clients are about to write: one of them comes in
    before each write of ours. *)
Abbreviation history := (list obj * list obj)%type.
Definition current (w : history) : option (option obj) :=
  match w.1 with [] => None | o :: rest => Some (set_version (itoa (Z.of_nat (length rest))) (Some o)) end.
Definition later (w w' : history) : Prop := ∃ l, w'.1 = l ++ w.1.
Definition demo_do (req : rest_request) (w : history) : history * go (result (option obj)) :=
  match rq_Verb req, rq_Body req with
  | PUT, Object (Some body) =>
      let w := match w.2 with o :: p => (o :: w.1, p) | [] => w end in
      match current w with
      | None => (w, Ret (inr (StatusError 404 "NotFound" "not found")))
      | Some old =>
          if decide (GetResourceVersion old = GetResourceVersion (Some body))
          then ((body :: w.1, w.2), Ret (inl (set_version (itoa (Z.of_nat (length w.1))) (Some body))))
          else (w, Ret (inr (Conflict "the object has been modified")))
      end
  | GET, _ => (w, Ret (match current w with Some o => inl o | None => inr (StatusError 404 "NotFound" "not found") end))
  | _, _ => (w, Ret (inr (StatusError 400 "BadRequest" "bad request")))
  end.
Definition demo_client : RestClient history := mkClient demo_do (λ _ w, (w, Ret (inl []))).

Lemma set_version_version v m : GetResourceVersion (set_version v (Some m)) = v.
Proof. unfold GetResourceVersion, GetValueN. simpl. unfold mget. simpl. by rewrite lookup_insert_eq; simpl; rewrite lookup_insert_eq. Qed.

Lemma itoa_inj x y : itoa x = itoa y → x = y.
Proof.
  unfold itoa. intros Heq. apply (f_equal NilZero.int_of_string) in Heq.
  assert (∀ z, Z.to_int z ≠ Decimal.Pos Decimal.Nil ∧ Z.to_int z ≠ Decimal.Neg Decimal.Nil) as Hn.
  { intros [|p|p]; simpl; split; try done; intros [= Hp]; by apply to_uint_nonnil in Hp. }
  rewrite !NilZero.isi in Heq by apply Hn. injection Heq as Heq.
  by rewrite <- (DecimalZ.of_to x), Heq, DecimalZ.of_to.
Qed.

Lemma demo_api_server s namespace name headers : api_server s demo_client namespace name headers current later.
Proof.
  assert (PreOrder later) as Hpo.
  { split; [intros w; by exists []|]. intros w1 w2 w3 [l Hl] [l' Hl']. exists (l' ++ l). by rewrite Hl', Hl, app_assoc. }
  split.
  - exact Hpo.
  - intros req [h p]. simpl. unfold demo_do. simpl.
    destruct (rq_Verb req), (rq_Body req) as [|[body|]|]; try (by exists []).
    destruct p as [|o p]; simpl; unfold current; simpl; destruct h as [|o' h]; simpl; try case_decide; simpl;
      first [by exists []|by exists [o]|by exists [body]|by exists [body; o]].
  - intros w w' o. simpl. unfold demo_do. simpl. destruct (current w) eqn:Hc; [|done]. intros [= <- <-]. done.
  - intros w w' [body|] o; cbn [rc_Do demo_client]; unfold demo_do; cbn [rq_Verb rq_Body set_headers set_name set_body common]; [|done].
    set (w1 := match w.2 with [] => w | o0 :: p => _ end). assert (later w w1) as Hw1.
    { unfold w1. destruct w as [h [|o0 p]]; simpl; [by exists []|by exists [o0]]. }
    destruct (current w1) as [old|] eqn:Hold; [|done]. case_decide as Hv; [|done]. intros [= <- <-].
    exists w1, old. split_and!; [done|by exists [body]|done|done|done|].
    symmetry. exact (f_equal (λ v, set_version v (Some body)) (set_version_version (itoa (Z.of_nat (length w1.1))) body)).
  - intros [[|o h] p] o'; simpl; [done|]. unfold current. simpl. intros [= <-]. eexists. simpl. by rewrite lookup_insert_eq.
  - intros [h p] [h' p'] o o' [l Hl]. simpl in Hl. subst h'. unfold current. simpl.
    destruct h as [|a h]; [done|]. intros [= <-]. destruct l as [|b l]; simpl; [by intros [= <-]|]. intros [= <-].
    intros Hv. assert (itoa (Z.of_nat (length h)) = itoa (Z.of_nat (length (l ++ a :: h)))) as Heq
      by exact (eq_trans (eq_sym (set_version_version _ a)) (eq_trans Hv (set_version_version _ b))).
    apply itoa_inj in Heq. rewrite length_app in Heq. simpl in Heq. lia.
Qed.

Definition widgets : proxy := mkProxy "" ["apis"] "example.com" "v1" "Widget" "widgets".
Definition widget (size : string) : obj := {[ "metadata" := VMap {[ "name" := VStr "a" ]}; "size" := VStr size ]}.
Definition widget_context : APIContext :=
  mkContext "" "ns:a" "widget" "" "PUT" None (NewSchemas None) (Some v3) None ∅ "json" None ∅ None (get_request "/v3/widgets/ns:a").
Definition widget_schema : Schema := plain_schema "widget" {[ "size" := typed_field "string"; "color" := typed_field "string" ]}.
Abbreviation update_widget :=
  (@proxy_Update _ std_range widgets (λ _ _, inl demo_client) (λ _, None) (λ _, None) widget_context widget_schema
     (Some {[ "color" := VStr "red" ]}) "ns:a").
(** Another client resizes the widget while ours paints it. *)
Definition contended : history := ([widget "1"], [widget "2"]).

Lemma update_is_atomic_witness :
  ∃ w' r w1 old body new, update_widget contended = (w', Ret (r, None)) ∧ later contended w1 ∧ later w1 w' ∧
    current w1 = Some old ∧ current w' = Some new ∧ new = set_version (GetResourceVersion new) body.
Proof.
  destruct (update_widget contended) as [w' [[r [err|]]|]] eqn:Hu.
  - exfalso. assert (match (update_widget contended).2 with Ret (_, None) => true | _ => false end = true) as Hok by (vm_compute; reflexivity).
    rewrite Hu in Hok. discriminate Hok.
  - destruct (@update_is_atomic _ std_range widgets (λ _ _, inl demo_client) (λ _, None) (λ _, None) demo_client widget_context widget_schema "ns:a"
      (Some {[ "color" := VStr "red" ]})
      (Some (<["kind" := VStr "Widget"]> (<["apiVersion" := VStr "example.com/v1"]> {[ "color" := VStr "red" ]})))
      "ns" "a" current later contended w' r) as (w1 & old & body & new & H1 & H2 & H3 & _ & H4 & H5 & _).
    + apply demo_api_server.
    + reflexivity.
    + reflexivity.
    + reflexivity.
    + exact Hu.
    + exists w', r, w1, old, body, new. split_and!; [reflexivity|exact H1|exact H2|exact H3|exact H4|exact H5].
  - exfalso. assert (match (update_widget contended).2 with Ret (_, None) => true | _ => false end = true) as Hok by (vm_compute; reflexivity).
    rewrite Hu in Hok. discriminate Hok.
Defined.

(** Both changes are there: the write of the other client made ours conflict
    once. *)
Example both_changes :
  (λ o, (as_string (mget o "size"), as_string (mget o "color"))) <$> current (update_widget contended).1 = Some ("2", "red").
Proof. vm_compute. reflexivity. Qed.

(** Options that are nil are answered with a panic, although the list looks
    whether they are. *)
Example list_nil_options :
  (@proxy_List _ {| completion := λ l, l; completion_perm := λ l, Permutation_refl l |} widgets (λ _ _, inl demo_client) (λ _, None) AllAccess
     widget_context widget_schema None contended).2 = Panic.
Proof. vm_compute. reflexivity. Qed.

(** The spaces around an id are not counted when it is checked, but they are
    sent. *)
Example id_not_trimmed :
  valid_id widget_schema " a" = true ∧ splitID " a" = ("", " a").
Proof. split; vm_compute; reflexivity. Qed.

Lemma status_reported_witness :
  let p : prog history (with_error (option obj)) := λ w, (w, Ret (None, Some (Conflict "the object has been modified"))) in
  ∃ e, translated p contended = (contended, Ret (None, Some e)) ∧ (ErrorHandler e).1 = 409.
Proof.
  intros p. destruct (status_reported p contended contended None (Some (Conflict "the object has been modified"))) as (e & He & Hh & _).
  - reflexivity.
  - exists e. split; [exact He|]. rewrite Hh. reflexivity.
Defined.
