(* ===== verification/Broadcast.v ===== *)
(** * Sharing a watch

    Models pkg/broadcast/broadcaster.go and pkg/changeset: one stream of events is
    delivered to any number of subscribers through buffered channels.

    What happens under the lock of a broadcaster is one step.  A channel knows
    what is in its buffer and whether it is closed; what it has been offered and
    what its consumer has taken out of it is recorded to state the theorems.  A
    subscriber whose buffer is full loses the event and is unsubscribed by a
    goroutine of its own, some time later. *)

From S2P Require Import Prelude GoStrings Values.

(** ** Copies of events *)
Fixpoint cloneValue (v : value) : value :=
  match v with
  | VList l => VList (map cloneValue l)
  | VMaps l => VList (map (λ m, match m with Some m => VMap (cloneValue <$> m) | None => VNilMap end) l)
  | VMap m => VMap (cloneValue <$> m)
  | _ => v
  end.
Definition cloneMap (data : option obj) : option obj := match data with Some m => Some (cloneValue <$> m) | None => None end.

(** ** Channels and the broadcaster *)
Definition capacity : nat := 100.
Record channel := mkChannel {
  ch_buffer : list (option obj);
  ch_closed : bool;
  ch_offered : list (option obj);
  ch_taken : list (option obj);
  ch_dropped : bool
}.
Definition new_channel : channel := mkChannel [] false [] [] false.

(** The channels by identity, the subscribed ones, the goroutines that stream
    and those that are about to unsubscribe a channel. *)
Record Broadcaster := mkBroadcaster {
  running : bool;
  subs : gset nat;
  channels : gmap nat channel;
  streams : nat;
  unsubs : list nat
}.
Definition new_broadcaster : Broadcaster := mkBroadcaster false ∅ ∅ 0 [].

(** Sending without blocking: panics on a closed channel; whether there was no
    room. *)
Definition try_send (ch : channel) (item : option obj) : go (channel * bool) :=
  if ch_closed ch then Panic
  else if (length (ch_buffer ch) <? capacity)%nat
  then Ret (mkChannel (ch_buffer ch ++ [item]) false (ch_offered ch ++ [item]) (ch_taken ch) (ch_dropped ch), false)
  else Ret (mkChannel (ch_buffer ch) false (ch_offered ch ++ [item]) (ch_taken ch) true, true).
Definition close_channel (ch : channel) : go channel :=
  if ch_closed ch then Panic else Ret (mkChannel (ch_buffer ch) true (ch_offered ch) (ch_taken ch) (ch_dropped ch)).

Definition unsub (b : Broadcaster) (sub : nat) : go Broadcaster :=
  if decide (sub ∈ subs b) then
    ch ← close_channel (default new_channel (channels b !! sub));
    Ret (mkBroadcaster (running b) (subs b ∖ {[ sub ]}) (<[sub := ch]> (channels b)) (streams b) (unsubs b))
  else Ret b.

(** Subscribe: [connected] says whether connect succeeds; the channel. *)
Definition Subscribe (b : Broadcaster) (connected : bool) : Broadcaster * option nat :=
  if negb (running b) && negb connected then (b, None)
  else
    let sub := fresh (dom (channels b)) in
    (mkBroadcaster true ({[ sub ]} ∪ subs b) (<[sub := new_channel]> (channels b))
       (if running b then streams b else S (streams b)) (unsubs b), Some sub).

(** What stream does with an item, for one subscriber and for all. *)
Definition offer (item : option obj) (b : Broadcaster) (sub : nat) : go Broadcaster :=
  sent ← try_send (default new_channel (channels b !! sub)) (cloneMap item);
  Ret (mkBroadcaster (running b) (subs b) (<[sub := sent.1]> (channels b)) (streams b)
         (if sent.2 : bool then sub :: unsubs b else unsubs b)).
Definition stream_item (b : Broadcaster) (item : option obj) : go Broadcaster := foldM (offer item) (elements (subs b)) b.
Definition stream_end (b : Broadcaster) : go Broadcaster :=
  b ← foldM unsub (elements (subs b)) b;
  Ret (mkBroadcaster false (subs b) (channels b) (pred (streams b)) (unsubs b)).

(** A consumer takes the next item. *)
Definition take_item (b : Broadcaster) (sub : nat) : option Broadcaster :=
  ch ← channels b !! sub;
  match ch_buffer ch with
  | [] => None
  | x :: buf =>
      Some (mkBroadcaster (running b) (subs b)
        (<[sub := mkChannel buf (ch_closed ch) (ch_offered ch) (ch_taken ch ++ [x]) (ch_dropped ch)]> (channels b))
        (streams b) (unsubs b))
  end.

(** ** What can happen *)
Inductive step (b : Broadcaster) : go Broadcaster → Prop :=
| step_subscribe connected : step b (Ret (Subscribe b connected).1)
| step_cancel sub : is_Some (channels b !! sub) → step b (unsub b sub)
| step_item item : (0 < streams b)%nat → step b (stream_item b item)
| step_end : (0 < streams b)%nat → step b (stream_end b)
| step_unsub sub rest : unsubs b ≡ₚ sub :: rest →
    step b (unsub (mkBroadcaster (running b) (subs b) (channels b) (streams b) rest) sub)
| step_take sub b' : take_item b sub = Some b' → step b (Ret b').
Inductive reachable : Broadcaster → Prop :=
| reach_new : reachable new_broadcaster
| reach_step b b' : reachable b → step b (Ret b') → reachable b'.

(** ** The invariant *)
Record channel_ok (b : Broadcaster) (i : nat) (ch : channel) : Prop := {
  co_open : ch_closed ch = false ↔ i ∈ subs b;
  co_buffer : (length (ch_buffer ch) ≤ capacity)%nat;
  co_order : (ch_taken ch ++ ch_buffer ch) `sublist_of` ch_offered ch;
  co_all : ch_dropped ch = false → ch_taken ch ++ ch_buffer ch = ch_offered ch;
  co_dropped : ch_dropped ch = true → ch_closed ch = true ∨ i ∈ unsubs b
}.
Record broadcast_ok (b : Broadcaster) : Prop := {
  bo_channels : ∀ i ch, channels b !! i = Some ch → channel_ok b i ch;
  bo_subs : ∀ i, i ∈ subs b → is_Some (channels b !! i);
  bo_streams : streams b = if running b then 1%nat else 0%nat;
  bo_running : subs b ≠ ∅ → running b = true
}.

(** A step for one channel keeps the others. *)
Lemma channel_ok_ext b b' i ch :
  (i ∈ subs b ↔ i ∈ subs b') → (i ∈ unsubs b → i ∈ unsubs b') → channel_ok b i ch → channel_ok b' i ch.
Proof. intros Hs Hu [Ho Hb Hor Ha Hd]. split; try done; [by rewrite <- Hs|]. intros Hdr. destruct (Hd Hdr); auto. Qed.

Lemma unsub_ok b sub :
  (∀ i ch, channels b !! i = Some ch → channel_ok (mkBroadcaster (running b) (subs b) (channels b) (streams b) (sub :: unsubs b)) i ch) →
  (∀ i, i ∈ subs b → is_Some (channels b !! i)) → streams b = (if running b then 1%nat else 0%nat) →
  (subs b ≠ ∅ → running b = true) →
  ∃ b', unsub b sub = Ret b' ∧ broadcast_ok b' ∧ subs b' = subs b ∖ {[ sub ]} ∧ running b' = running b ∧ streams b' = streams b ∧
    unsubs b' = unsubs b.
Proof.
  intros Hch Hsubs Hst Hrun. unfold unsub. case_decide as Hin.
  - destruct (Hsubs _ Hin) as [ch Hc]. destruct (Hch _ _ Hc) as [Ho Hb Hor Ha Hd]. rewrite Hc. simpl.
    unfold close_channel. rewrite (proj2 Ho Hin). simpl. eexists. split; [done|]. split; [|done]. split; simpl.
    + intros i ch'. rewrite lookup_insert. case_decide as Hi.
      * intros [= <-]. subst i. split; simpl; try done; [set_solver|by left].
      * intros Hc'. destruct (Hch _ _ Hc') as [Ho' Hb' Hor' Ha' Hd']. split; try done; [set_solver|].
        intros Hdr. destruct (Hd' Hdr) as [|Hu]; [by left|right]. simpl in *. set_solver.
    + intros i Hi. rewrite lookup_insert. case_decide; [done|]. apply Hsubs. set_solver.
    + done.
    + intros Hne. apply Hrun. set_solver.
  - exists b. split; [done|]. split; [|split_and!; try done; set_solver]. split; try done.
    intros i ch Hc. destruct (Hch _ _ Hc) as [Ho Hb Hor Ha Hd]. split; try done.
    intros Hdr. destruct (Hd Hdr) as [|Hu]; [by left|]. simpl in Hu. apply elem_of_cons in Hu as [->|]; [|by right].
    left. destruct (ch_closed ch) eqn:Hcl; [done|]. exfalso. apply Hin, Ho. done.
Qed.

Lemma offer_ok item b sub :
  broadcast_ok b → sub ∈ subs b → ∃ b', offer item b sub = Ret b' ∧ broadcast_ok b' ∧ subs b' = subs b ∧
    running b' = running b ∧ streams b' = streams b.
Proof.
  intros [Hch Hsubs Hst Hrun] Hin. destruct (Hsubs _ Hin) as [ch Hc]. destruct (Hch _ _ Hc) as [Ho Hb Hor Ha Hd].
  unfold offer. rewrite Hc. simpl. unfold try_send. rewrite (proj2 Ho Hin).
  destruct (length (ch_buffer ch) <? capacity)%nat eqn:Hfull; cbn [mbind go_bind]; eexists; (split; [done|]); (split; [|done]);
    (split; simpl; [|intros i Hi; rewrite lookup_insert; case_decide; [done|by apply Hsubs]|done|done]).
  all: intros i ch'; rewrite lookup_insert; case_decide as Hi; [intros [= <-]; subst i|].
  - split; simpl; try done.
    + rewrite length_app. simpl. apply Nat.ltb_lt in Hfull. lia.
    + rewrite app_assoc. by apply sublist_app.
    + intros Hdr. by rewrite app_assoc, Ha.
    + intros Hdr. destruct (Hd Hdr) as [Hcl|]; [|by right]. rewrite (proj2 Ho Hin) in Hcl. done.
  - intros Hc'. by apply (channel_ok_ext b), Hch.
  - split; simpl; try done.
    + by apply sublist_inserts_r.
    + intros _. right. by left.
  - intros Hc'. apply (channel_ok_ext b); [done|simpl; set_solver|]. by apply Hch.
Qed.

Lemma stream_item_ok b item :
  broadcast_ok b → ∃ b', stream_item b item = Ret b' ∧ broadcast_ok b'.
Proof.
  unfold stream_item. assert (∀ i, i ∈ elements (subs b) → i ∈ subs b) as Hin by set_solver. revert Hin.
  generalize (elements (subs b)) as l. intros l. revert b. induction l as [|i l IH]; intros b Hin Hok; [by exists b|].
  destruct (offer_ok item b i Hok) as (b' & Hb' & Hok' & Hs & _); [apply Hin; left|]. simpl. rewrite Hb'. simpl.
  apply IH; [|done]. intros j Hj. rewrite Hs. apply Hin. by right.
Qed.

Lemma unsub_keeps b sub :
  broadcast_ok b → ∃ b', unsub b sub = Ret b' ∧ broadcast_ok b' ∧ subs b' = subs b ∖ {[ sub ]} ∧ running b' = running b ∧
    streams b' = streams b.
Proof.
  intros [Hch Hsubs Hst Hrun]. destruct (unsub_ok b sub) as (b' & Hb & Hok & Hs & Hr & Ht & _); [|done..|by exists b'].
  intros i ch Hc. apply (channel_ok_ext b); [done|simpl; set_solver|]. by apply Hch.
Qed.

Lemma stream_end_ok b :
  broadcast_ok b → ∃ b', stream_end b = Ret b' ∧ broadcast_ok b' ∧ running b' = false ∧ subs b' = ∅.
Proof.
  intros Hok. unfold stream_end.
  assert (∀ l b, broadcast_ok b → ∃ b', foldM unsub l b = Ret b' ∧ broadcast_ok b' ∧ subs b' = subs b ∖ list_to_set l ∧
    running b' = running b ∧ streams b' = streams b) as Hl.
  { clear. induction l as [|i l IH]; intros b Hok; simpl; [exists b; split_and!; try done; set_solver|].
    destruct (unsub_keeps b i Hok) as (b1 & -> & Hok1 & Hs1 & Hr1 & Ht1). simpl.
    destruct (IH b1 Hok1) as (b2 & -> & Hok2 & Hs2 & Hr2 & Ht2). exists b2. split_and!; [done|done| |congruence|congruence].
    rewrite Hs2, Hs1. set_solver. }
  destruct (Hl (elements (subs b)) b Hok) as (b' & -> & [Hch Hsubs Hst Hrun] & Hs & Hr & Ht). simpl.
  assert (subs b' = ∅) as He by (rewrite Hs; set_solver).
  eexists. split; [done|]. split; [|done]. split; simpl; [|done|rewrite Hst; by destruct (running b')|by rewrite He].
  intros i ch Hc. by apply (channel_ok_ext b'), Hch.
Qed.

Lemma Subscribe_ok b connected : broadcast_ok b → broadcast_ok (Subscribe b connected).1.
Proof.
  intros Hok. pose proof Hok as [Hch Hsubs Hst Hrun]. unfold Subscribe. destruct (running b) eqn:Hr, connected; simpl; try done.
  all: set (sub := fresh (dom (channels b))); assert (channels b !! sub = None) as Hfresh
    by (apply not_elem_of_dom; apply is_fresh).
  all: split; simpl; [|intros i Hi; rewrite lookup_insert; case_decide; [done|apply Hsubs; set_solver]|by rewrite Hst|done].
  all: intros i ch; rewrite lookup_insert; case_decide as Hi; [intros [= <-]; subst i|].
  all: try (split; simpl; try done; [set_solver|unfold capacity; lia]).
  all: intros Hc; apply (channel_ok_ext b); [simpl; set_solver|done|by apply Hch].
Qed.

Lemma take_item_ok b sub b' : broadcast_ok b → take_item b sub = Some b' → broadcast_ok b'.
Proof.
  intros [Hch Hsubs Hst Hrun]. unfold take_item. intros (ch & Hc & Ht)%bind_Some.
  destruct (Hch _ _ Hc) as [Ho Hb Hor Ha Hd]. destruct (ch_buffer ch) as [|x buf] eqn:Hbuf; [done|]. injection Ht as <-.
  split; simpl; [|intros i Hi; rewrite lookup_insert; case_decide; [done|by apply Hsubs]|done|done].
  intros i ch'. rewrite lookup_insert. case_decide as Hi; [|intros Hc'; by apply (channel_ok_ext b), Hch].
  intros [= <-]. subst i. split; simpl in *; try done; [lia|by rewrite <- app_assoc|].
  intros Hdr. rewrite <- app_assoc. by apply Ha.
Qed.

Lemma step_ok b r : broadcast_ok b → step b r → ∃ b', r = Ret b' ∧ broadcast_ok b'.
Proof.
  intros Hok. destruct 1 as [connected|sub Hs|item Hs|Hs|sub rest Hp|sub b' Ht].
  - eexists. split; [done|]. by apply Subscribe_ok.
  - destruct (unsub_keeps b sub Hok) as (b' & -> & Hok' & _). by exists b'.
  - destruct (stream_item_ok b item Hok) as (b' & -> & Hok'). by exists b'.
  - destruct (stream_end_ok b Hok) as (b' & -> & Hok' & _). by exists b'.
  - destruct Hok as [Hch Hsubs Hst Hrun].
    destruct (unsub_ok (mkBroadcaster (running b) (subs b) (channels b) (streams b) rest) sub) as (b' & -> & Hok' & _); [|done..|by exists b'].
    intros i ch Hc. apply (channel_ok_ext b); [done|simpl; by rewrite Hp|]. by apply Hch.
  - exists b'. split; [done|]. by eapply take_item_ok.
Qed.

Lemma broadcast_reachable_ok b : reachable b → broadcast_ok b.
Proof.
  induction 1 as [|b b' Hr IH Hs].
  - split; simpl; [intros i ch; by rewrite lookup_empty|set_solver|done|set_solver].
  - destruct (step_ok b _ IH Hs) as (b'' & [= <-] & Hok). done.
Qed.

(** C12: a broadcaster is safe and orderly.  However subscriptions,
    cancellations, events, the end of the stream and the consumers interleave,
    nothing is ever sent on or closed twice on a channel: no step panics.  In
    every state that can be reached: the open channels are those of the
    subscribers; there is one stream while the broadcaster runs and none
    otherwise, and it runs while there are subscribers; no buffer holds more than
    100 events; what a consumer has got and will find in its buffer are events
    it was offered while it was subscribed, in their order, and all of them
    unless it was too slow, in which case it is being unsubscribed or has been. *)
Theorem broadcast_invariant b :
  reachable b →
  (∀ r, step b r → r ≠ Panic) ∧
  streams b = (if running b then 1 else 0)%nat ∧ (subs b ≠ ∅ → running b = true) ∧
  ∀ i ch, channels b !! i = Some ch →
    (ch_closed ch = false ↔ i ∈ subs b) ∧ (length (ch_buffer ch) ≤ capacity)%nat ∧
    (ch_taken ch ++ ch_buffer ch) `sublist_of` ch_offered ch ∧
    (ch_dropped ch = false → ch_taken ch ++ ch_buffer ch = ch_offered ch) ∧
    (ch_dropped ch = true → ch_closed ch = true ∨ i ∈ unsubs b).
Proof.
  intros Hok%broadcast_reachable_ok. split; [intros r Hs; destruct (step_ok b r Hok Hs) as (b' & -> & _); done|].
  destruct Hok as [Hch Hsubs Hst Hrun]. split; [done|]. split; [done|].
  intros i ch Hc. destruct (Hch _ _ Hc) as [Ho Hb Hor Ha Hd]. done.
Qed.

Definition event (n : string) : option obj := Some {[ "id" := VStr n ]}.
Definition one_subscriber : Broadcaster := (Subscribe new_broadcaster true).1.

Lemma broadcast_invariant_witness :
  ∃ b, stream_item one_subscriber (event "a") = Ret b ∧ running b = true ∧
    ∀ ch, channels b !! 0%nat = Some ch → (length (ch_buffer ch) ≤ capacity)%nat.
Proof.
  destruct (stream_item one_subscriber (event "a")) as [b|] eqn:Hb.
  - exists b. split; [reflexivity|].
    destruct (broadcast_invariant b) as (_ & Hs & _ & Hch).
    + apply (reach_step one_subscriber).
      * apply (reach_step new_broadcaster); [exact reach_new|exact (step_subscribe new_broadcaster true)].
      * rewrite <- Hb. apply step_item. vm_compute. apply le_n.
    + split.
      * assert (match stream_item one_subscriber (event "a") with Ret b => running b | Panic => false end = true) as Hr
          by (vm_compute; reflexivity). rewrite Hb in Hr. exact Hr.
      * intros ch Hc. exact (proj1 (proj2 (Hch _ _ Hc))).
  - exfalso. assert (match stream_item one_subscriber (event "a") with Ret b => running b | Panic => false end = true) as Hr
      by (vm_compute; reflexivity). rewrite Hb in Hr. discriminate Hr.
Defined.

(** A slow consumer is not cut off at the event it misses: if it takes an event
    before the goroutine that unsubscribes it gets the lock, it is sent the next
    event, and sees a stream with a gap. *)
Example slow_consumer_gap :
  match foldM stream_item (replicate 100 (event "x") ++ [event "lost"]) one_subscriber with
  | Ret b =>
      match take_item b 0 ≫= λ b, match stream_item b (event "next") with Ret b => channels b !! 0%nat | Panic => None end with
      | Some ch => (ch_closed ch, unsubs b, last (ch_taken ch ++ ch_buffer ch), bool_decide (length (ch_taken ch ++ ch_buffer ch) = 101%nat))
                   = (false, [0%nat], Some (event "next"), true)
      | None => False
      end
  | Panic => False
  end.
Proof. vm_compute. reflexivity. Qed.

(** ** pkg/changeset: a change of one object makes others be looked at *)
Section Changeset.
Context {O : Type}.
Record Key := mkKey { k_Namespace : string; k_Name : string }.
(** The parts of the key of a queue. *)
Definition split_key (key : string) : string * string :=
  match Split2 key "/" with [ns; name] => (ns, name) | _ => ("", key) end.
(** The handler watch registers: [get] is GetByKey of the informer's store; the
    keys that are put into the queue. *)
Definition changeset_handler (get : string → result (option O)) (resolve : string → string → option O → result (list Key)) (key : string)
  : list Key * option error :=
  match get key with
  | inr err => ([], Some err)
  | inl obj =>
      let '(ns, name) := split_key key in
      match resolve ns name obj with
      | inr err => ([], Some err)
      | inl keys => (filter (λ k, k_Name k ≠ "") keys, None)
      end
  end.
End Changeset.
