(* ===== verification/Watch.v ===== *)
(** * Watching through the proxy store

    Models Watch, realWatch and shareWatch of store/proxy/proxy_store.go and
    store/proxy/share_watch.go together: the requests that watch the objects of a
    store, the broadcasters they share, and the events of the API server on
    their way to the subscribers.

    A client of the API server is known by its identity, which is what the
    broadcasters are found by; whether the API server accepts a watch is a
    parameter, and so is the mapper of the schema.  An event that arrives on a
    stream is a step; so are the other steps of the broadcaster of [Broadcast],
    which this file refines. *)

From S2P Require Import Prelude GoStrings Values Errors Schemas Query Http Parse Access ProxyStore Broadcast.

(** A watch as the API server is asked for it. *)
Record watch_request := mkWatch {
  wr_client : nat;
  wr_request : rest_request;
  wr_TimeoutSeconds : Z;
  wr_ResourceVersion : string
}.

(** An open stream: the request of which subscriber opened it, and the watch. *)
Record opened := mkOpened { op_context : APIContext; op_schema : Schema; op_watch : watch_request }.

(** The broadcasters of a store by client, and the last stream each opened. *)
Record watch_state := mkState { ws_broadcasters : gmap nat Broadcaster; ws_opened : gmap nat opened }.
Definition no_watches : watch_state := mkState ∅ ∅.
Definition broadcaster (st : watch_state) (k : nat) : Broadcaster := default new_broadcaster (ws_broadcasters st !! k).
Definition set_broadcaster (st : watch_state) (k : nat) (b : Broadcaster) : watch_state :=
  mkState (<[k := b]> (ws_broadcasters st)) (ws_opened st).

(** Only a subscription makes a broadcaster run. *)
Lemma unsub_running b sub b' : unsub b sub = Ret b' → running b' = running b.
Proof. unfold unsub. case_decide; [|by intros [= <-]]. destruct (close_channel _); [|done]. by intros [= <-]. Qed.
Lemma stream_item_running b item b' : stream_item b item = Ret b' → running b' = true → running b = true.
Proof.
  unfold stream_item. generalize (elements (subs b)) as l. intros l. revert b. induction l as [|i l IH]; intros b; simpl; [by intros [= <-]|].
  unfold offer. destruct (try_send _ _); [|done]. simpl. intros Hb Hr. by apply (IH _ Hb).
Qed.
Lemma stream_end_running b b' : stream_end b = Ret b' → running b' = false.
Proof. unfold stream_end. destruct (foldM _ _ _); [|done]. by intros [= <-]. Qed.
Lemma take_item_running b sub b' : take_item b sub = Some b' → running b' = running b.
Proof. unfold take_item. intros (ch & _ & Ht)%bind_Some. by destruct (ch_buffer ch); simplify_eq. Qed.

Section Watch.
Variable s : proxy.
(** UnversionedClient of the client getter, the client that WatchClient of a
    client gives, and the answer of the API server to a watch. *)
Variable UnversionedClient : APIContext → string → result nat.
Variable WatchClient : nat → option nat.
Variable Stream : watch_request → option error.
Variable FromInternal : Schema → option (option obj → go (option obj)).

Definition realWatch (c : APIContext) (opt : QueryOptions) : go (result watch_request) :=
  namespace ← getNamespace c (Some opt);
  Ret match UnversionedClient c (px_storageContext s) with
  | inr err => inr err
  | inl client =>
      let req := mkWatch (default client (WatchClient client)) (common s namespace GET) (60 * 30) "0" in
      match Stream req with Some err => inr err | None => inl req end
  end.

(** shareWatch: the client and the channel of the subscriber.  A broadcaster
    connects only if it does not run. *)
Definition store_shareWatch (st : watch_state) (c : APIContext) (schema : Schema) : go (watch_state * result (nat * option nat)) :=
  match UnversionedClient c (px_storageContext s) with
  | inr err => Ret (st, inr err)
  | inl k =>
      let b := broadcaster st k in
      if running b then
        let '(b, sub) := Subscribe b true in Ret (set_broadcaster st k b, inl (k, sub))
      else
        conn ← realWatch c zero_options;
        match conn with
        | inr err => Ret (set_broadcaster st k (Subscribe b false).1, inr err)
        | inl req =>
            let '(b, sub) := Subscribe b true in
            Ret (mkState (<[k := b]> (ws_broadcasters st)) (<[k := mkOpened c schema req]> (ws_opened st)), inl (k, sub))
        end
  end.

(** The goroutine of realWatch and the stream of the broadcaster: an event that
    the API server sends to the stream of a client, and the end of that stream. *)
Definition watch_item (st : watch_state) (k : nat) (o : opened) (deleted : bool) (data : option obj) : go watch_state :=
  item ← watch_event FromInternal (op_context o) (op_schema o) deleted data;
  b ← stream_item (broadcaster st k) item;
  Ret (set_broadcaster st k b).
Definition lift_broadcaster (st : watch_state) (k : nat) (b : go Broadcaster) : go watch_state :=
  b ← b; Ret (set_broadcaster st k b).

(** ** What can happen, if [may_watch] tells who watches *)
Inductive watch_step (may_watch : APIContext → Schema → Prop) (st : watch_state) : go watch_state → Prop :=
| watch_share c schema : may_watch c schema →
    watch_step may_watch st (r ← store_shareWatch st c schema; Ret r.1)
| watch_arrives k o deleted data : ws_opened st !! k = Some o → (0 < streams (broadcaster st k))%nat →
    watch_step may_watch st (watch_item st k o deleted data)
| watch_ends k : (0 < streams (broadcaster st k))%nat →
    watch_step may_watch st (lift_broadcaster st k (stream_end (broadcaster st k)))
| watch_cancel k sub : is_Some (channels (broadcaster st k) !! sub) →
    watch_step may_watch st (lift_broadcaster st k (unsub (broadcaster st k) sub))
| watch_unsub k sub rest : unsubs (broadcaster st k) ≡ₚ sub :: rest →
    watch_step may_watch st (lift_broadcaster st k
      (unsub (mkBroadcaster (running (broadcaster st k)) (subs (broadcaster st k)) (channels (broadcaster st k))
                (streams (broadcaster st k)) rest) sub))
| watch_take k sub b : take_item (broadcaster st k) sub = Some b →
    watch_step may_watch st (Ret (set_broadcaster st k b)).
Inductive watch_reachable (may_watch : APIContext → Schema → Prop) : watch_state → Prop :=
| watch_start : watch_reachable may_watch no_watches
| watch_next st st' : watch_reachable may_watch st → watch_step may_watch st (Ret st') → watch_reachable may_watch st'.

(** The stream of a client is a watch of the namespace of whoever opened it. *)
Definition opened_for (may_watch : APIContext → Schema → Prop) (k : nat) (o : opened) : Prop :=
  may_watch (op_context o) (op_schema o) ∧ UnversionedClient (op_context o) (px_storageContext s) = inl k ∧
  getNamespace (op_context o) (Some zero_options) = Ret (rq_Namespace (wr_request (op_watch o))) ∧
  wr_client (op_watch o) = default k (WatchClient k) ∧ Stream (op_watch o) = None.
Record watch_ok (may_watch : APIContext → Schema → Prop) (st : watch_state) : Prop := {
  wo_broadcasters : ∀ k, reachable (broadcaster st k);
  wo_opened : ∀ k o, ws_opened st !! k = Some o → opened_for may_watch k o;
  wo_running : ∀ k, running (broadcaster st k) = true → is_Some (ws_opened st !! k)
}.

Section Correct.
Hypothesis FromInternal_returns : ∀ schema f data, FromInternal schema = Some f → f data ≠ Panic.
Variable may_watch : APIContext → Schema → Prop.

Lemma broadcaster_set st k b j : broadcaster (set_broadcaster st k b) j = if decide (k = j) then b else broadcaster st j.
Proof. unfold broadcaster, set_broadcaster. simpl. rewrite lookup_insert. by case_decide. Qed.

(** A step of a broadcaster that does not connect is a step of the store. *)
Lemma set_broadcaster_ok st k b :
  watch_ok may_watch st → step (broadcaster st k) (Ret b) → (running b = true → running (broadcaster st k) = true) →
  watch_ok may_watch (set_broadcaster st k b).
Proof.
  intros [Hb Ho Hr] Hs Hrun. split; [intros j|done|intros j]; rewrite broadcaster_set; case_decide; subst; try done.
  - by eapply reach_step.
  - intros Hj. by apply Hr, Hrun.
  - apply Hr.
Qed.
Lemma no_watches_ok : watch_ok may_watch no_watches.
Proof. split; unfold broadcaster; simpl; intros k; rewrite ?lookup_empty; [apply reach_new|done|done]. Qed.

Lemma realWatch_opens c schema k req :
  may_watch c schema → UnversionedClient c (px_storageContext s) = inl k → realWatch c zero_options = Ret (inl req) →
  opened_for may_watch k (mkOpened c schema req).
Proof.
  intros Hm Hk. unfold realWatch. destruct (getNamespace c (Some zero_options)) as [ns|] eqn:Hns; [|done]. simpl. rewrite Hk.
  destruct (Stream _) eqn:Hst; [done|]. intros [= <-]. by split_and!.
Qed.
Lemma realWatch_returns c opt : ∃ r, realWatch c opt = Ret r.
Proof. unfold realWatch, getNamespace. destruct (ctx_SubContext c !! "namespaces"); simpl; by eexists. Qed.

Lemma shareWatch_ok st c schema :
  may_watch c schema → watch_ok may_watch st → ∃ r, store_shareWatch st c schema = Ret r ∧ watch_ok may_watch r.1.
Proof.
  intros Hm Hok. unfold store_shareWatch. destruct (UnversionedClient _ _) as [k|err] eqn:Hk; [|by eexists].
  pose proof (step_subscribe (broadcaster st k)) as Hsub.
  destruct (running (broadcaster st k)) eqn:Hrun.
  { specialize (Hsub true). destruct (Subscribe _ true) as [b sub]. eexists. split; [done|]. by apply set_broadcaster_ok. }
  destruct (realWatch_returns c zero_options) as [conn Hc]. rewrite Hc. simpl. destruct conn as [req|err].
  - specialize (Hsub true). destruct (Subscribe _ true) as [b sub]. eexists. split; [done|]. simpl.
    destruct Hok as [Hb Ho Hr]. pose proof (realWatch_opens c schema k req Hm Hk Hc) as Hopen.
    split; simpl; intros j; unfold broadcaster; simpl; rewrite lookup_insert; case_decide; subst.
    + by eapply reach_step.
    + apply Hb.
    + by intros o [= <-].
    + apply Ho.
    + rewrite lookup_insert_eq. by eexists.
    + rewrite lookup_insert_ne by done. apply Hr.
  - eexists. split; [done|]. apply set_broadcaster_ok; [done|by apply (Hsub false)|].
    unfold Subscribe. rewrite Hrun. simpl. by rewrite Hrun.
Qed.

Lemma watch_event_returns c schema deleted data : ∃ item, watch_event FromInternal c schema deleted data = Ret item.
Proof.
  unfold watch_event, fromInternal. destruct (FromInternal schema) as [f|] eqn:Hf; [|by eexists].
  destruct (f _) eqn:Hd; [by eexists|by apply (FromInternal_returns _ _ _ Hf) in Hd].
Qed.

(** Whatever a broadcaster does but subscribe neither panics nor starts it. *)
Lemma lifted_ok st k r :
  watch_ok may_watch st → step (broadcaster st k) r → (∀ b, r = Ret b → running b = true → running (broadcaster st k) = true) →
  ∃ st', lift_broadcaster st k r = Ret st' ∧ watch_ok may_watch st'.
Proof.
  intros Hok Hs Hr. destruct (step_ok (broadcaster st k) r) as (b & -> & _); [apply broadcast_reachable_ok, Hok|done|].
  eexists. split; [done|]. apply set_broadcaster_ok; eauto.
Qed.

Lemma watch_step_ok st r : watch_ok may_watch st → watch_step may_watch st r → ∃ st', r = Ret st' ∧ watch_ok may_watch st'.
Proof.
  intros Hok. destruct 1 as [c schema Hm|k o deleted data Ho Hs|k Hs|k sub Hc|k sub rest Hp|k sub b Ht].
  - destruct (shareWatch_ok st c schema Hm Hok) as (x & -> & Hx). by eexists.
  - unfold watch_item. destruct (watch_event_returns (op_context o) (op_schema o) deleted data) as [item ->].
    apply lifted_ok; [done|by apply step_item|]. intros b. apply stream_item_running.
  - apply lifted_ok; [done|by apply step_end|]. intros b Hb. by rewrite (stream_end_running _ _ Hb).
  - apply lifted_ok; [done|by apply step_cancel|]. intros b Hb. by rewrite (unsub_running _ _ _ Hb).
  - apply lifted_ok; [done|by apply step_unsub|]. intros b Hb. by rewrite (unsub_running _ _ _ Hb).
  - eexists. split; [done|]. apply set_broadcaster_ok; [done|by eapply step_take|]. by rewrite (take_item_running _ _ _ Ht).
Qed.

(** Sharing watches is safe, and a stream is what its subscribers may watch if
    they may all watch the same.  However watches, events and consumers of any
    clients interleave: nothing panics; the broadcaster of each client is one of
    those that [Broadcast] is about, so that consumers get the events in their
    order; and while it runs, it passes on the events of a watch that the API
    server accepted from that client, for the namespace of one of the requests
    that were allowed to watch.  If all of them are confined to one namespace,
    the stream is too; the code shares it between requests of different
    namespaces all the same, see [first_namespace_wins]. *)
Theorem shared_watch_correct st :
  watch_reachable may_watch st →
  (∀ r, watch_step may_watch st r → r ≠ Panic) ∧
  ∀ k, reachable (broadcaster st k) ∧
    (running (broadcaster st k) = true → ∃ o, ws_opened st !! k = Some o ∧ opened_for may_watch k o).
Proof.
  intros Hr. assert (watch_ok may_watch st) as Hok.
  { induction Hr as [|st st' _ IH Hs]; [apply no_watches_ok|]. by destruct (watch_step_ok st _ IH Hs) as (? & [= <-] & ?). }
  split; [intros r Hs; by destruct (watch_step_ok st r Hok Hs) as (? & -> & _)|].
  destruct Hok as [Hb Ho Hrun]. intros k. split; [done|]. intros [o Hk]%Hrun. eauto.
Qed.
End Correct.
End Watch.

(** ** Examples *)
Definition in_namespace (ns : string) : APIContext :=
  mkContext "" "" "widget" "" "GET" None (NewSchemas None) (Some v3) None ∅ "json" None {[ "namespaces" := ns ]} None
    (get_request "/v3/widgets").
Abbreviation share := (store_shareWatch widgets (λ _ _, inl 7%nat) (λ _, None) (λ _, None)).

(** Whoever watches first decides: two requests of different namespaces share a
    client, and the second is subscribed to the stream of the first, which only
    asks for the namespace of the first. *)
Example first_namespace_wins :
  match share no_watches (in_namespace "ns1") widget_schema with
  | Ret (st, _) =>
      match share st (in_namespace "ns2") widget_schema with
      | Ret (st, inl (k, Some sub)) =>
          (bool_decide (sub ∈ subs (broadcaster st k)), rq_Namespace ∘ wr_request ∘ op_watch <$> ws_opened st !! k,
           getNamespace (in_namespace "ns2") (Some zero_options)) = (true, Some "ns1", Ret "ns2")
      | _ => False
      end
  | _ => False
  end.
Proof. vm_compute. reflexivity. Qed.
(** The event of a deletion reaches both subscribers, marked. *)
Example deletion_marked :
  match share no_watches (in_namespace "ns1") widget_schema with
  | Ret (st, _) =>
      match share st (in_namespace "ns1") widget_schema with
      | Ret (st, _) =>
          match watch_item (λ _, None) st 7 (mkOpened (in_namespace "ns1") widget_schema (mkWatch 7 (common widgets "ns1" GET) 1800 "0")) true
                  (Some (widget "1")) with
          | Ret st => (λ ch, (λ e, e ≫= λ m, m !! ".removed") <$> ch_buffer ch) <$> (map_to_list (channels (broadcaster st 7))).*2
                      = [[Some (VBool true)]; [Some (VBool true)]]
          | Panic => False
          end
      | Panic => False
      end
  | Panic => False
  end.
Proof. vm_compute. reflexivity. Qed.

Lemma shared_watch_correct_witness :
  ∃ st, watch_reachable widgets (λ _ _, inl 7%nat) (λ _, None) (λ _, None) (λ _, None) (λ c _, c = in_namespace "ns1") st ∧
    ∃ o, ws_opened st !! 7%nat = Some o ∧ rq_Namespace (wr_request (op_watch o)) = "ns1".
Proof.
  destruct (share no_watches (in_namespace "ns1") widget_schema) as [[st r]|] eqn:Hs; [|vm_compute in Hs; discriminate Hs].
  assert (watch_reachable widgets (λ _ _, inl 7%nat) (λ _, None) (λ _, None) (λ _, None) (λ c _, c = in_namespace "ns1") st) as Hr.
  { apply (watch_next _ _ _ _ _ _ no_watches); [apply watch_start|].
    assert (Ret st = (r ← share no_watches (in_namespace "ns1") widget_schema; Ret r.1)) as -> by (rewrite Hs; reflexivity).
    apply watch_share. reflexivity. }
  exists st. split; [exact Hr|].
  destruct (shared_watch_correct widgets (λ _ _, inl 7%nat) (λ _, None) (λ _, None) (λ _, None)
    ltac:(intros; discriminate) (λ c _, c = in_namespace "ns1") st Hr) as [_ Hk].
  destruct (Hk 7%nat) as [_ Hrun]. destruct Hrun as (o & Ho & Hc & _ & Hn & _).
  - assert (match share no_watches (in_namespace "ns1") widget_schema with Ret (st, _) => running (broadcaster st 7) | Panic => false end = true)
      as Hb by (vm_compute; reflexivity). rewrite Hs in Hb. exact Hb.
  - exists o. split; [exact Ho|]. rewrite Hc in Hn. vm_compute in Hn. injection Hn as Hn. symmetry. exact Hn.
Defined.
