(* ===== verification/ObjectSet.v ===== *)
(** * Applying a set of objects

    Models pkg/objectset: a set of desired objects (objectset.go), and how the
    objects of a cluster that belong to the set are made equal to it
    (desiredset.go, desiredset_apply.go, desiredset_process.go,
    desiredset_compare.go and template.go): created, patched or deleted.

    An object is its kind, its metadata and the rest.  Parameters are the client
    of the cluster, the digest (crypto/sha1), gzip, the JSON encoding, and the
    computation of a three-way patch (k8s.io/apimachinery). *)

From S2P Require Import Prelude GoStrings Values Errors Base64 Query Stores.
From Stdlib Require Import Ascii.

(** ** Objects *)
Record GVK := mkGVK { g_Group : string; g_Version : string; g_Kind : string }.
#[export] Instance GVK_eq_dec : EqDecision GVK.
Proof. solve_decision. Defined.
#[export] Instance GVK_countable : Countable GVK.
Proof. by apply (inj_countable' (λ g, (g_Group g, g_Version g, g_Kind g)) (λ '(a, b, c), mkGVK a b c)); intros []. Defined.
Definition GVK_String (g : GVK) : string := g_Group g +:+ "/" +:+ g_Version g +:+ ", Kind=" +:+ g_Kind g.

Record objectKey := mkObjectKey { key_name : string; key_namespace : string }.
#[export] Instance objectKey_eq_dec : EqDecision objectKey.
Proof. solve_decision. Defined.
#[export] Instance objectKey_countable : Countable objectKey.
Proof. by apply (inj_countable' (λ k, (key_name k, key_namespace k)) (λ '(a, b), mkObjectKey a b)); intros []. Defined.
Definition objectKey_String (k : objectKey) : string :=
  if decide (key_namespace k = "") then key_name k else key_namespace k +:+ "/" +:+ key_name k.

Record metadata := mkMeta {
  m_name : string;
  m_namespace : string;
  m_labels : gmap string string;
  m_annotations : gmap string string;
  m_resourceVersion : string
}.
(** A runtime.Object; [None]: meta.Accessor fails on it. *)
Record kobject := mkObject { o_gvk : GVK; o_meta : option metadata; o_content : value }.
Definition no_metadata : error := ErrorString "object does not implement the Object interfaces".
Definition Accessor (o : kobject) : result metadata := match o_meta o with Some m => inl m | None => inr no_metadata end.
Definition newObjectKey (m : metadata) : objectKey := mkObjectKey (m_name m) (m_namespace m).
Definition set_meta (o : kobject) (m : metadata) : kobject := mkObject (o_gvk o) (Some m) (o_content o).
Definition set_annotations (m : metadata) (a : gmap string string) : metadata :=
  mkMeta (m_name m) (m_namespace m) (m_labels m) a (m_resourceVersion m).
Definition set_labels (m : metadata) (l : gmap string string) : metadata :=
  mkMeta (m_name m) (m_namespace m) l (m_annotations m) (m_resourceVersion m).

(** ** objectset.go *)
Abbreviation objectMap := (gmap objectKey kobject).
Abbreviation objectCollection := (gmap GVK objectMap).
Definition collection_add (c : objectCollection) (o : kobject) : objectCollection * option error :=
  match Accessor o with
  | inr err => (c, Some err)
  | inl m => (<[o_gvk o := <[newObjectKey m := o]> (default ∅ (c !! o_gvk o))]> c, None)
  end.

Record ObjectSet := mkObjectSet {
  os_errs : list error;
  os_objects : objectCollection;
  os_nsed : gmap GVK bool;
  os_inputs : list kobject;
  os_order : list kobject
}.
Definition NewObjectSet : ObjectSet := mkObjectSet [] ∅ ∅ [] [].
Definition AddErr (s : ObjectSet) (err : error) : ObjectSet :=
  mkObjectSet (os_errs s ++ [err]) (os_objects s) (os_nsed s) (os_inputs s) (os_order s).
Definition AddInput (s : ObjectSet) (objs : list (option kobject)) : ObjectSet :=
  mkObjectSet (os_errs s) (os_objects s) (os_nsed s) (os_inputs s ++ omap id objs) (os_order s).
Definition set_add (s : ObjectSet) (o : option kobject) : ObjectSet :=
  match o with
  | None => s
  | Some o =>
      let gvk := o_gvk o in
      match Accessor o with
      | inr _ => AddErr s (ErrorString ("failed to get metadata for " +:+ GVK_String gvk))
      | inl m =>
          if decide (m_name m = "") then AddErr s (ErrorString (GVK_String gvk +:+ " is missing name"))
          else
            let namespaced := negb (bool_decide (m_namespace m = "")) in
            if bool_decide (os_nsed s !! gvk = Some (negb namespaced))
            then AddErr s (ErrorString ("got " +:+ GVK_String gvk +:+ " objects that are both namespaced and not namespaced"))
            else mkObjectSet (os_errs s) (collection_add (os_objects s) o).1 (<[gvk := namespaced]> (os_nsed s)) (os_inputs s)
                   (os_order s ++ [o])
      end
  end.
Definition Add (s : ObjectSet) (objs : list (option kobject)) : ObjectSet := foldl set_add s objs.
Definition ObjectSet_Err (s : ObjectSet) : option error := NewErrors (Some <$> os_errs s).

(** ** Labels and annotations (desiredset_apply.go) *)
Definition LabelApplied : string := "objectset.rio.cattle.io/applied".
Definition LabelInputID : string := "objectset.rio.cattle.io/inputid".
Definition LabelID : string := "objectset.rio.cattle.io/id".
Definition LabelGVK : string := "objectset.rio.cattle.io/owner-gvk".
Definition LabelName : string := "objectset.rio.cattle.io/owner-name".
Definition LabelNamespace : string := "objectset.rio.cattle.io/owner-namespace".
Definition LabelHash : string := "objectset.rio.cattle.io/hash".
Definition hashOrder : list string := [LabelID; LabelGVK; LabelName; LabelNamespace].

(** hex of the sum of crypto/sha1 over the concatenation of what is written *)
Class Digest := { sha1_hex : string → string }.
Definition concat_strings (l : list string) : string := foldr String.append "" l.
Definition objectSetHash `{Digest} (labels : gmap string string) : string :=
  sha1_hex (concat_strings ((λ k, default "" (labels !! k)) <$> hashOrder)).

(** map[k] = v for all of a map *)
Definition set_all (m entries : gmap string string) : gmap string string := entries ∪ m.
Definition setLabels (m : metadata) (labels : gmap string string) : metadata := set_labels m (set_all (m_labels m) labels).
Definition setAnnotations (m : metadata) (annotations : gmap string string) : metadata :=
  set_annotations m (set_all (delete LabelApplied (delete LabelInputID (m_annotations m))) annotations).

(** ** desiredset_compare.go: what was applied is noted in an annotation *)
Class Gzip := {
  gzip : string → option string;
  gunzip : string → option string
}.
(** base64.RawStdEncoding: without padding. *)
Fixpoint drop_padding (s : string) : string :=
  match s with "" => "" | String c s' => if decide (c = "="%char) then drop_padding s' else String c (drop_padding s') end.
Definition raw_encode (s : string) : string := drop_padding (encode s).
Definition raw_decode (s : string) : option string :=
  if str_in "=" s then None
  else
    let s := strip_breaks s in
    match decode (s +:+ match (String.length s mod 4)%nat with 2%nat => "==" | 3%nat => "=" | _ => "" end) with (b, true) => Some b | (_, false) => None end.

Section Compare.
Context `{Gzip}.
Definition appliedToAnnotation (b : string) : string :=
  if (String.length b <? 1024)%nat then b
  else match gzip b with Some z => raw_encode z | None => b end.
(** nil for what cannot be read. *)
Definition appliedFromAnnotation (s : string) : string :=
  match s with
  | "" => ""
  | String c _ => if decide (c = "{"%char) then s else default "" (raw_decode s ≫= gunzip)
  end.
End Compare.

Fixpoint onlyKeys (data : option obj) (keys : list string) : bool :=
  match keys with
  | [] => false
  | key :: keys' =>
      let n := size (default ∅ data) in
      if (1 <? n)%nat then false
      else if (n =? 0)%nat then true
      else match mlookup data key with
           | None => false
           | Some v => match keys' with [] => true | _ => onlyKeys (ToMapInterface v) keys' end
           end
  end.
Definition removeCreationTimestamp (data : option obj) : option obj * bool :=
  match mlookup data "metadata" with
  | Some (VMap m) =>
      match m !! "creationTimestamp" with
      | Some _ => ((λ d, <["metadata" := VMap (delete "creationTimestamp" m)]> d) <$> data, true)
      | None => (data, false)
      end
  | _ => (data, false)
  end.

(** ** The encodings and the client *)
Class KubeCodec := {
  marshal : kobject → result string;              (* json.Marshal of an object *)
  unstructured : option obj → kobject;            (* an Unstructured, which reads its metadata from the map *)
  decode_map : string → result (option obj);
  encode_map : option obj → result string;
  three_way : bool → string → string → string → result string;   (* strategic or JSON merge patch *)
  registered_type : GVK → result bool             (* whether the scheme knows the type *)
}.
Record KubeClient (W : Type) := mkKube {
  kc_Cached : GVK → string → prog W (with_error (list kobject));  (* by the label of the set, from the cache of an informer *)
  kc_List : GVK → string → prog W (result (list kobject));        (* the same from the API server *)
  kc_Create : GVK → kobject → prog W (option error);
  kc_Get : GVK → objectKey → prog W (result kobject);
  kc_Delete : GVK → objectKey → prog W (option error);
  kc_Patch : GVK → objectKey → bool → string → prog W (option error)
}.
Arguments kc_Cached {W}.
Arguments kc_List {W}.
Arguments kc_Create {W}.
Arguments kc_Get {W}.
Arguments kc_Delete {W}.
Arguments kc_Patch {W}.

Record DesiredSet := mkDesiredSet {
  ds_remove : bool;
  ds_setID : string;
  ds_objs : ObjectSet;
  ds_codeVersion : string;
  ds_clients : gset GVK;
  ds_discovery : option (GVK → result bool);      (* whether the API server has the kind *)
  ds_owner : option kobject;
  ds_injectors : list (list kobject → result (list kobject));
  ds_errs : list error
}.
(** template.go: without objects everything of the owner is to be removed. *)
Definition NewDesiredSet (setID codeVersion : string) (discovery : option (GVK → result bool)) (clients : gset GVK)
    (owner : option kobject) (objs : option ObjectSet) : DesiredSet :=
  mkDesiredSet (bool_decide (objs = None)) setID (default (mkObjectSet [] ∅ ∅ [] []) objs) codeVersion clients discovery owner [] [].
Definition AddInjector (o : DesiredSet) (inj : list kobject → result (list kobject)) : DesiredSet :=
  mkDesiredSet (ds_remove o) (ds_setID o) (ds_objs o) (ds_codeVersion o) (ds_clients o) (ds_discovery o) (ds_owner o)
    (ds_injectors o ++ [inj]) (ds_errs o).
Definition DesiredSet_Err (o : DesiredSet) : option error := NewErrors (Some <$> os_errs (ds_objs o) ++ ds_errs o).

Section Sets.
Context {W : Type} `{KubeCodec} `{Gzip} `{Digest} `{SortSlice}.
Variable client : KubeClient W.

(** ** desiredset_compare.go: patches *)
Definition prepareObjectForCreate (inputID : string) (o : kobject) : result kobject :=
  match marshal o with
  | inr err => inr err
  | inl serialized =>
      match Accessor o with
      | inr err => inr err
      | inl m => inl (set_meta o (set_annotations m
                   (<[LabelApplied := appliedToAnnotation serialized]> (<[LabelInputID := inputID]> (m_annotations m)))))
      end
  end.
Definition getOriginal (inputID : string) (m : metadata) : result string :=
  let original := appliedFromAnnotation (default "" (m_annotations m !! LabelApplied)) in
  if decide (original = "") then inl "{}"
  else match decode_map original with
       | inr err => inr err
       | inl data =>
           match prepareObjectForCreate inputID (unstructured (removeCreationTimestamp data).1) with
           | inl o => marshal o
           | inr err => inr err
           end
       end.
Definition originalAndModifiedForInputID (inputID : string) (oldMetadata : metadata) (newObject : kobject) : result (string * string) :=
  match getOriginal inputID oldMetadata, prepareObjectForCreate inputID newObject with
  | inr err, _ | inl _, inr err => inr err
  | inl original, inl o => match marshal o with inl modified => inl (original, modified) | inr err => inr err end
  end.

Definition sanitizePatch (patch : string) : result string :=
  match decode_map patch with
  | inr err => inr err
  | inl data =>
      let has k := bool_decide (is_Some (mlookup data k)) in
      let '(data', stamped) := removeCreationTimestamp (mdelete (mdelete data "kind") "apiVersion") in
      if onlyKeys data' ["metadata"; "annotations"; LabelInputID] then inl "{}"
      else if has "kind" || has "apiVersion" || stamped then encode_map data' else inl patch
  end.

(** The patch style of a kind: strategic for a known type; then the patch. *)
Definition doPatch (gvk : GVK) (original modified current : string) : result (bool * string) :=
  match registered_type gvk with
  | inr err => inr err
  | inl strategic => match three_way strategic original modified current with inl p => inl (strategic, p) | inr err => inr err end
  end.
(** Whether a patch was sent. *)
Definition applyPatch (gvk : GVK) (inputID : string) (oldObject newObject : kobject) : prog W (with_error bool) :=
  match Accessor oldObject with
  | inr err => mret (false, Some err)
  | inl oldMetadata =>
      match originalAndModifiedForInputID inputID oldMetadata newObject, marshal oldObject with
      | inr err, _ | inl _, inr err => mret (false, Some err)
      | inl (original, modified), inl current =>
          match doPatch gvk original modified current with
          | inr err => mret (false, Some (ErrorString ("patch generation: " +:+ Error err)))
          | inl (strategic, patch) =>
              if decide (patch = "{}") then mret (false, None)
              else match sanitizePatch patch with
              | inr err => mret (false, Some err)
              | inl patch =>
                  if decide (patch = "{}") then mret (false, None)
                  else err ← kc_Patch client gvk (newObjectKey oldMetadata) strategic patch; mret (true, err)
              end
          end
      end
  end.
Definition compareObjects (gvk : GVK) (inputID : string) (oldObject newObject : kobject) : prog W (option error) :=
  match Accessor oldObject with
  | inr err => mret (Some err)
  | inl _ => '(_, err) ← applyPatch gvk inputID oldObject newObject; mret err
  end.

(** ** desiredset_process.go *)
Definition sortObjectKeys (keys : list objectKey) : list objectKey :=
  sort_slice (λ a b, str_lt (objectKey_String a) (objectKey_String b)) keys.
(** toCreate, toDelete, toUpdate *)
Definition compareSets (existingSet newSet : objectMap) : list objectKey * list objectKey * list objectKey :=
  (sortObjectKeys (filter (λ k, existingSet !! k = None) (map_to_list newSet).*1),
   sortObjectKeys (filter (λ k, newSet !! k = None) (map_to_list existingSet).*1),
   sortObjectKeys (filter (λ k, is_Some (existingSet !! k)) (map_to_list newSet).*1)).

Definition addObjectToMap (objs : objectMap) (o : kobject) : objectMap * option error :=
  match Accessor o with inr err => (objs, Some err) | inl m => (<[newObjectKey m := o]> objs, None) end.
Definition collect_objects (l : list kobject) : objectMap * list error :=
  foldl (λ acc o, match addObjectToMap acc.1 o with (objs, None) => (objs, acc.2) | (objs, Some e) => (objs, acc.2 ++ [e]) end) (∅, []) l.
(** The items of a list of the API server are structs, not pointers to them, on
    which meta.Accessor fails. *)
Definition by_value (o : kobject) : kobject := mkObject (o_gvk o) None (o_content o).
Definition list_existing (informer : bool) (gvk : GVK) (hash : string) : prog W (with_error objectMap) :=
  if informer then
    '(items, err) ← kc_Cached client gvk hash;
    let '(objs, errs) := collect_objects items in
    mret (objs, NewErrors (Some <$> errs ++ option_list err))
  else
    r ← kc_List client gvk hash;
    mret match r with
         | inr err => (∅, Some err)
         | inl items => ((collect_objects (by_value <$> items)).1, None)
         end.

(** Whether the kind has an informer. *)
Definition getControllerAndObjectClient (o : DesiredSet) (debugID : string) (gvk : GVK) : result bool :=
  if bool_decide (gvk ∈ ds_clients o) then inl true
  else match ds_discovery o with
  | None => inr (ErrorString ("failed to find client for " +:+ GVK_String gvk +:+ " for " +:+ debugID))
  | Some discover =>
      match discover gvk with
      | inr err => inr err
      | inl true => inl false
      | inl false => inr (ErrorString ("failed to discover client for " +:+ GVK_String gvk +:+ " for " +:+ debugID))
      end
  end.

Definition failed (what : string) (k : objectKey) (gvk : GVK) (debugID : string) (err : error) : error :=
  ErrorString ("failed to " +:+ what +:+ " " +:+ objectKey_String k +:+ " " +:+ GVK_String gvk +:+ " for " +:+ debugID +:+ ": " +:+ Error err).
Definition k8s_IsAlreadyExists (err : error) : bool := match err with AlreadyExists _ => true | _ => false end.

(** One object to create: an object that is there already is taken over, to be
    updated. *)
Definition create_one (inputID debugID : string) (gvk : GVK) (objs : objectMap) (k : objectKey) : prog W (option kobject * list error) :=
  match objs !! k with
  | None => mret (None, [])
  | Some o =>
      match prepareObjectForCreate inputID o with
      | inr err => mret (None, [failed "prepare create" k gvk debugID err])
      | inl o =>
          err ← kc_Create client gvk o;
          match err with
          | None => mret (None, [])
          | Some err =>
              if k8s_IsAlreadyExists err then
                r ← kc_Get client gvk k;
                mret match r with inl o => (Some o, []) | inr _ => (None, [failed "create" k gvk debugID err]) end
              else mret (None, [failed "create" k gvk debugID err])
          end
      end
  end.
(** The objects that were taken over, in order, and the errors. *)
Fixpoint create_all (inputID debugID : string) (gvk : GVK) (objs : objectMap) (ks : list objectKey)
  : prog W (list (objectKey * kobject) * list error) :=
  match ks with
  | [] => mret ([], [])
  | k :: ks' =>
      '(o, errs) ← create_one inputID debugID gvk objs k;
      '(taken, errs') ← create_all inputID debugID gvk objs ks';
      mret (match o with Some o => (k, o) :: taken | None => taken end, errs ++ errs')
  end.
Fixpoint update_all (inputID debugID : string) (gvk : GVK) (existing objs : objectMap) (ks : list objectKey) : prog W (list error) :=
  match ks with
  | [] => mret []
  | k :: ks' =>
      err ← match existing !! k, objs !! k with
            | Some old, Some new => compareObjects gvk inputID old new
            | _, _ => mret None
            end;
      errs ← update_all inputID debugID gvk existing objs ks';
      mret (option_list (failed "update" k gvk debugID <$> err) ++ errs)
  end.
Fixpoint delete_all (debugID : string) (gvk : GVK) (ks : list objectKey) : prog W (list error) :=
  match ks with
  | [] => mret []
  | k :: ks' =>
      err ← kc_Delete client gvk k;
      errs ← delete_all debugID gvk ks';
      mret (option_list (failed "delete" k gvk debugID <$> err) ++ errs)
  end.

(** process: the errors it adds. *)
Definition process (o : DesiredSet) (inputID debugID hash : string) (gvk : GVK) (objs : objectMap) : prog W (list error) :=
  match getControllerAndObjectClient o debugID gvk with
  | inr err => mret [err]
  | inl informer =>
      '(existing, err) ← list_existing informer gvk hash;
      match err with
      | Some _ => mret [ErrorString ("failed to list " +:+ GVK_String gvk +:+ " for " +:+ debugID)]
      | None =>
          let '(toCreate, toDelete, toUpdate) := compareSets existing objs in
          '(taken, errs1) ← create_all inputID debugID gvk objs toCreate;
          errs2 ← update_all inputID debugID gvk (list_to_map taken ∪ existing) objs (toUpdate ++ taken.*1);
          errs3 ← delete_all debugID gvk toDelete;
          mret (errs1 ++ errs2 ++ errs3)
      end
  end.

(** ** desiredset_apply.go *)
Definition getLabelsAndAnnotations (o : DesiredSet) : result (gmap string string * gmap string string) :=
  let annotations : gmap string string := {[ LabelID := ds_setID o ]} in
  let labels a : gmap string string := {[ LabelHash := objectSetHash a ]} in
  match ds_owner o with
  | None => inl (labels annotations, annotations)
  | Some owner =>
      match Accessor owner with
      | inr _ => inr (ErrorString ("failed to get metadata for " +:+ GVK_String (o_gvk owner)))
      | inl m =>
          let annotations := <[LabelNamespace := m_namespace m]> (<[LabelName := m_name m]> (<[LabelGVK := GVK_String (o_gvk owner)]> annotations)) in
          inl (labels annotations, annotations)
      end
  end.
Fixpoint inject_all (labels annotations : gmap string string) (l : list (objectKey * kobject)) : result (list kobject) :=
  match l with
  | [] => inl []
  | (k, o) :: l' =>
      match Accessor o with
      | inr err => inr (ErrorString ("failed to get metadata for " +:+ objectKey_String k +:+ ": " +:+ Error err))
      | inl m => match inject_all labels annotations l' with
                 | inl os => inl (set_meta o (setAnnotations (setLabels m labels) annotations) :: os)
                 | inr err => inr err
                 end
      end
  end.
Definition injectLabelsAndAnnotations (o : DesiredSet) (labels annotations : gmap string string) : result (list kobject) :=
  inject_all labels annotations (mjoin ((λ e, map_to_list e.2) <$> map_to_list (os_objects (ds_objs o)))).
Definition runInjectors (injectors : list (list kobject → result (list kobject))) (l : list kobject) : result (list kobject) :=
  foldl (λ acc inj, match acc with inl l => inj l | inr err => inr err end) (inl l) injectors.
Definition collect (l : list kobject) : objectCollection := foldl (λ c o, (collection_add c o).1) ∅ l.

Fixpoint dedup (seen : gset GVK) (l : list GVK) : list GVK :=
  match l with
  | [] => []
  | g :: l' => if decide (g ∈ seen) then dedup seen l' else g :: dedup ({[ g ]} ∪ seen) l'
  end.
Definition gvkOrder (o : DesiredSet) : list GVK :=
  let first := dedup ∅ (o_gvk <$> os_order (ds_objs o)) in
  first ++ sort_slice (λ a b, str_lt (GVK_String a) (GVK_String b)) (elements (ds_clients o ∖ list_to_set first)).

(** The inputs in the order of their keys, each with its version. *)
Definition input_less (a b : kobject) : bool :=
  match Accessor a, Accessor b with
  | inl l, inl r => str_lt (GVK_String (o_gvk a) +:+ "/" +:+ objectKey_String (newObjectKey l))
                           (GVK_String (o_gvk b) +:+ "/" +:+ objectKey_String (newObjectKey r))
  | _, _ => true
  end.
Definition input_text (o : kobject) : string :=
  match Accessor o with
  | inr _ => GVK_String (o_gvk o)
  | inl m => objectKey_String (newObjectKey m) +:+ m_resourceVersion m
  end.
Definition inputID (o : DesiredSet) (labelHash : string) : string :=
  sha1_hex (ds_codeVersion o +:+ labelHash +:+
    concat_strings (input_text <$> option_list (ds_owner o) ++ sort_slice input_less (os_inputs (ds_objs o)))).
Definition debugID (o : DesiredSet) : string :=
  match ds_owner o with
  | None => ds_setID o
  | Some owner => match Accessor owner with
                  | inr _ => ds_setID o
                  | inl m => ds_setID o +:+ " " +:+ objectKey_String (newObjectKey m)
                  end
  end.

Fixpoint process_all (o : DesiredSet) (input debug hash : string) (objs : objectCollection) (gvks : list GVK) : prog W (list error) :=
  match gvks with
  | [] => mret []
  | gvk :: gvks' =>
      errs ← process o input debug hash gvk (default ∅ (objs !! gvk));
      errs' ← process_all o input debug hash objs gvks';
      mret (errs ++ errs')
  end.
(** Apply: [accepted] is the answer of the rate limiter, which a set that is
    removed does not have. *)
Definition Apply (o : DesiredSet) (accepted : bool) : prog W (option error) :=
  let fail err := NewErrors (Some <$> os_errs (ds_objs o) ++ ds_errs o ++ [err]) in
  match DesiredSet_Err o, getLabelsAndAnnotations o with
  | Some err, _ => mret (Some err)
  | None, inr err => mret (fail err)
  | None, inl (labelSet, annotationSet) =>
      let hash := default "" (labelSet !! LabelHash) in
      if negb (ds_remove o) && negb accepted then mret (Some (Conflict "delaying object set"))
      else match injectLabelsAndAnnotations o labelSet annotationSet with
      | inr err => mret (fail err)
      | inl l =>
          match runInjectors (ds_injectors o) l with
          | inr err => mret (fail err)
          | inl l =>
              errs ← process_all o (inputID o hash) (debugID o) hash (collect l) (gvkOrder o);
              mret (NewErrors (Some <$> os_errs (ds_objs o) ++ ds_errs o ++ errs))
          end
      end
  end.
(** Remove: the objects of the owner go. *)
Definition Remove (setID codeVersion : string) (discovery : option (GVK → result bool)) (clients : gset GVK) (owner : option kobject)
  : prog W (option error) := Apply (NewDesiredSet setID codeVersion discovery clients owner None) true.

(** ** Comparing sets *)
Lemma elem_of_map_keys {A} (m : gmap objectKey A) k : k ∈ (map_to_list m).*1 ↔ k ∈ dom m.
Proof.
  rewrite list_elem_of_fmap, elem_of_dom. split.
  - intros ([k' o] & -> & Ho%elem_of_map_to_list). by exists o.
  - intros [o Ho%elem_of_map_to_list]. by exists (k, o).
Qed.
Lemma compareSets_spec existing new toCreate toDelete toUpdate :
  compareSets existing new = (toCreate, toDelete, toUpdate) →
  (∀ k, k ∈ toCreate ↔ k ∈ dom new ∧ k ∉ dom existing) ∧ (∀ k, k ∈ toDelete ↔ k ∈ dom existing ∧ k ∉ dom new) ∧
  (∀ k, k ∈ toUpdate ↔ k ∈ dom new ∧ k ∈ dom existing).
Proof.
  unfold compareSets, sortObjectKeys. intros [= <- <- <-].
  split_and!; intros k; rewrite sort_slice_perm, list_elem_of_filter, elem_of_map_keys;
    rewrite ?not_elem_of_dom, ?(elem_of_dom existing); tauto.
Qed.

Lemma compareSets_NoDup existing new toCreate toDelete toUpdate :
  compareSets existing new = (toCreate, toDelete, toUpdate) → NoDup toCreate ∧ NoDup toDelete ∧ NoDup toUpdate.
Proof.
  unfold compareSets, sortObjectKeys. intros [= <- <- <-].
  split_and!; rewrite sort_slice_perm; apply NoDup_filter, NoDup_fst_map_to_list.
Qed.

(** The objects of a map are filed under their keys. *)
Definition keyed (objs : objectMap) : Prop := ∀ k o, objs !! k = Some o → ∃ m, Accessor o = inl m ∧ newObjectKey m = k.
Lemma collect_objects_keyed l : keyed (collect_objects l).1.
Proof.
  unfold collect_objects. induction l as [|o l IH] using rev_ind; [intros k o; simpl; by rewrite lookup_empty|].
  rewrite foldl_app. cbn [foldl]. destruct (foldl _ _ l) as [objs errs]. unfold addObjectToMap. simpl in *.
  destruct (Accessor o) as [m|e] eqn:Hm; [|done]. intros k x. simpl. rewrite lookup_insert. case_decide; [|apply IH].
  subst k. intros [= <-]. by exists m.
Qed.
Lemma prepare_key inputID o o' m :
  prepareObjectForCreate inputID o = inl o' → Accessor o = inl m → ∃ m', Accessor o' = inl m' ∧ newObjectKey m' = newObjectKey m.
Proof.
  unfold prepareObjectForCreate. destruct (marshal o); [|done]. intros Ho Hm. rewrite Hm in Ho. injection Ho as <-. by eexists.
Qed.

(** ** The cluster

    [objects w g] are the objects of a kind that the API server holds, [cache w g]
    those that the informer of the kind knows to carry the label of the set: it
    may be behind.  [agrees x p]: the object [x] of the server is what the object
    [p] that was sent asks for, whatever the server adds, and whatever the id of
    the input noted in it.  [patched style d cur x]: [x] is what a patch with the
    data [d] makes of [cur]. *)
Section Cluster.
Variables (objects cache : W → GVK → objectMap) (hash : string).
Variables (agrees : kobject → kobject → Prop) (patched : bool → option obj → kobject → kobject → Prop).

(** What sanitizePatch takes out of a patch. *)
Definition stripped (d : option obj) : option obj := (removeCreationTimestamp (mdelete (mdelete d "kind") "apiVersion")).1.
Definition only_input (d : option obj) : bool := onlyKeys d ["metadata"; "annotations"; LabelInputID].
(** What k8s.io/apimachinery and the API server say of patches: a three-way patch
    applies to the current object and makes it the modified one; kind, version
    and time of creation of an object are not changed by a patch; and the JSON of
    a patch that was decoded and stripped is read back. *)
Record patch_laws : Prop := {
  pl_three_way : ∀ style original p modified cur current patch d, marshal p = inl modified → marshal cur = inl current →
    three_way style original modified current = inl patch → decode_map patch = inl d →
    (∃ x, patched style d cur x) ∧ ∀ x, patched style d cur x → agrees x p;
  pl_stripped : ∀ style d cur x, patched style (stripped d) cur x → patched style d cur x;
  pl_input : ∀ style d cur x p, only_input (stripped d) = true → patched style d cur x → agrees x p → agrees cur p;
  pl_empty : decode_map "{}" = inl (Some ∅);
  pl_encode : ∀ patch d text, decode_map patch = inl d → encode_map (stripped d) = inl text → decode_map text = inl (stripped d)
}.

(** What the client promises while nobody else changes the objects: a request for
    a kind does not touch the others, and changes the objects only if it
    succeeds. *)
Definition others (g : GVK) (w w' : W) : Prop := ∀ g', g' ≠ g → objects w' g' = objects w g' ∧ cache w' g' = cache w g'.
Record cluster : Prop := {
  cl_keyed : ∀ w g, keyed (objects w g);
  cl_cached : ∀ g w, ∃ items err, kc_Cached client g hash w = (w, Ret (items, err)) ∧ (collect_objects items).1 = cache w g;
  cl_list : ∀ g w, ∃ r, kc_List client g hash w = (w, Ret r);
  cl_create : ∀ g o m w, Accessor o = inl m →
    ∃ w' err, kc_Create client g o w = (w', Ret err) ∧ others g w w' ∧
      match err with
      | Some _ => objects w' g = objects w g
      | None => ∃ x, agrees x o ∧ objects w' g = <[newObjectKey m := x]> (objects w g)
      end;
  cl_get : ∀ g k w, ∃ r, kc_Get client g k w = (w, Ret r) ∧ (∀ o, r = inl o → objects w g !! k = Some o);
  cl_delete : ∀ g k w, ∃ w' err, kc_Delete client g k w = (w', Ret err) ∧ others g w w' ∧
    objects w' g = match err with None => delete k (objects w g) | Some _ => objects w g end;
  cl_patch : ∀ g k style patch w, ∃ w' err, kc_Patch client g k style patch w = (w', Ret err) ∧ others g w w' ∧
    match err with
    | Some _ => objects w' g = objects w g
    | None => ∃ cur d x, objects w g !! k = Some cur ∧ decode_map patch = inl d ∧ patched style d cur x ∧
        objects w' g = <[k := x]> (objects w g)
    end
}.
Hypothesis Hpatch : patch_laws.
Hypothesis Hcluster : cluster.

(** Only the objects of the kind with the keys [ks] may have changed. *)
Definition frame (g : GVK) (ks : list objectKey) (w w' : W) : Prop :=
  others g w w' ∧ ∀ k, k ∉ ks → objects w' g !! k = objects w g !! k.
(** The object of the server is what the desired one asks for. *)
Definition fulfilled (input : string) (w : W) (g : GVK) (k : objectKey) (new : kobject) : Prop :=
  ∃ p x, prepareObjectForCreate input new = inl p ∧ objects w g !! k = Some x ∧ agrees x p.

Lemma frame_refl g ks w : frame g ks w w.
Proof. done. Qed.
Lemma frame_trans g ks1 ks2 w1 w2 w3 : frame g ks1 w1 w2 → frame g ks2 w2 w3 → frame g (ks1 ++ ks2) w1 w3.
Proof.
  intros [Ha Hak] [Hb Hbk]. split.
  - intros g' Hg. destruct (Ha g' Hg), (Hb g' Hg). split; congruence.
  - intros k [Hk1 Hk2]%not_elem_of_app. by rewrite Hbk, Hak.
Qed.
Lemma frame_insert g k x w w' : others g w w' → objects w' g = <[k := x]> (objects w g) → frame g [k] w w'.
Proof. intros Ho Hk. split; [done|]. intros k' Hk'. rewrite Hk, lookup_insert_ne; [done|set_solver]. Qed.
Lemma frame_same g ks w w' : others g w w' → objects w' g = objects w g → frame g ks w w'.
Proof. intros Ho Hk. split; [done|]. intros k' _. by rewrite Hk. Qed.
Lemma frame_fulfilled g ks w w' input k new : frame g ks w w' → k ∉ ks → fulfilled input w g k new → fulfilled input w' g k new.
Proof. intros [_ Hf] Hk (p & x & Hp & Hx & Ha). exists p, x. by rewrite Hf. Qed.

(** A created object is there; one that was there already is known. *)
Lemma create_one_ok input debug g objs k w :
  keyed objs →
  ∃ w' o errs, create_one input debug g objs k w = (w', Ret (o, errs)) ∧ frame g [k] w w' ∧
    (∀ cur, o = Some cur → ∃ m, Accessor cur = inl m ∧ newObjectKey m = k) ∧
    (errs = [] → ∀ new, objs !! k = Some new →
       match o with None => fulfilled input w' g k new | Some cur => objects w' g !! k = Some cur end).
Proof.
  intros Hk. unfold create_one. destruct (objs !! k) as [o|] eqn:Ho; [|by eexists _, _, _].
  destruct (Hk k o Ho) as (m & Hm & Hmk).
  destruct (prepareObjectForCreate input o) as [o'|err] eqn:Hp; [|by eexists _, _, _].
  destruct (prepare_key _ _ _ _ Hp Hm) as (m' & Hm' & Hkey). rewrite Hmk in Hkey.
  destruct (cl_create Hcluster g o' m' w Hm') as (w1 & err & Hc & Hoth & Hobj). unfold mbind, prog_bind. rewrite Hc.
  destruct err as [err|].
  - assert (frame g [k] w w1) as Hf by by apply frame_same.
    destruct (k8s_IsAlreadyExists err); [|by eexists _, _, _].
    destruct (cl_get Hcluster g k w1) as (r & Hg & Hr). rewrite Hg. destruct r as [o1|e]; [|by eexists _, _, _].
    eexists _, _, _. split; [done|]. split; [done|]. split; [|intros _ new _; by apply Hr].
    intros cur [= <-]. eapply (cl_keyed Hcluster), Hr. done.
  - destruct Hobj as (x & Hx & Hobj). rewrite Hkey in Hobj. eexists _, _, _. split; [done|]. split; [by eapply frame_insert|].
    split; [done|]. intros _ new [= <-]. exists o', x. split_and!; [done| |done]. by rewrite Hobj, lookup_insert_eq.
Qed.
Lemma create_all_ok input debug g objs ks w :
  keyed objs → NoDup ks →
  ∃ w' taken errs, create_all input debug g objs ks w = (w', Ret (taken, errs)) ∧ frame g ks w w' ∧
    sublist taken.*1 ks ∧ (∀ k' cur, (k', cur) ∈ taken → ∃ m, Accessor cur = inl m ∧ newObjectKey m = k') ∧
    (errs = [] → ∀ k new, k ∈ ks → objs !! k = Some new →
       (k ∉ taken.*1 ∧ fulfilled input w' g k new) ∨ (∃ cur, (k, cur) ∈ taken ∧ objects w' g !! k = Some cur)).
Proof.
  intros Hk Hnd. revert w. induction Hnd as [|k ks Hnk Hnd IH]; intros w; simpl.
  { eexists _, _, _. split_and!; [done|done|constructor|by intros ?? ?%elem_of_nil|]. intros _ k new Hin. by apply elem_of_nil in Hin. }
  destruct (create_one_ok input debug g objs k w Hk) as (w1 & o & errs & He1 & Hf1 & Hm1 & Hk1).
  destruct (IH w1) as (w2 & taken & errs' & He2 & Hf2 & Hsub & Hm2 & Hk2).
  unfold mbind, prog_bind. rewrite He1, He2. eexists _, _, _. split; [done|].
  assert (k ∉ taken.*1) as Hnt by (intros Hin; apply Hnk; by eapply elem_of_sublist).
  split; [by apply (frame_trans g [k] ks _ w1)|]. split; [destruct o; simpl; by constructor|].
  split; [intros k' cur; destruct o as [c|]; [intros [[= -> ->]|Hin]%elem_of_cons; [by apply Hm1|]|intros Hin]; by eapply Hm2|].
  intros [He He']%app_eq_nil k' new [->|Hin]%elem_of_cons Hnew.
  - specialize (Hk1 He new Hnew). destruct o as [cur|].
    + right. exists cur. split; [by left|]. by rewrite (proj2 Hf2).
    + left. split; [done|]. by eapply frame_fulfilled.
  - assert (k' ≠ k) by (intros ->; done). destruct (Hk2 He' k' new Hin Hnew) as [[Hn Hf]|(cur & Hc & Ho)].
    + left. split; [destruct o; simpl; [rewrite not_elem_of_cons|]; done|done].
    + right. exists cur. split; [destruct o; [by right|done]|done].
Qed.

(** What a patch leaves of the object it was made for. *)
Lemma sanitized_agrees style original p modified cur current patch d text x :
  marshal p = inl modified → marshal cur = inl current → three_way style original modified current = inl patch →
  sanitizePatch patch = inl text → text ≠ "{}" → decode_map text = inl d → patched style d cur x → agrees x p.
Proof.
  intros Hp Hcur Ht Hs Hne Hd Hx. unfold sanitizePatch in Hs. destruct (decode_map patch) as [data|e] eqn:Hdata; [|done].
  destruct (pl_three_way Hpatch _ _ _ _ _ _ _ _ Hp Hcur Ht Hdata) as [_ Hagree]. apply Hagree.
  destruct (removeCreationTimestamp (mdelete (mdelete data "kind") "apiVersion")) as [data' st] eqn:Hr.
  assert (stripped data = data') as Hstr by (unfold stripped; by rewrite Hr).
  destruct (onlyKeys data' _); [congruence|]. destruct (_ || st).
  - rewrite <- Hstr in Hs. rewrite (pl_encode Hpatch _ _ _ Hdata Hs) in Hd. injection Hd as <-. by apply (pl_stripped Hpatch).
  - injection Hs as <-. rewrite Hdata in Hd. by injection Hd as <-.
Qed.
Lemma sanitized_nothing style original p modified cur current patch :
  marshal p = inl modified → marshal cur = inl current → three_way style original modified current = inl patch →
  patch = "{}" ∨ sanitizePatch patch = inl "{}" → agrees cur p.
Proof.
  intros Hp Hcur Ht Hs.
  assert (∃ d, decode_map patch = inl d ∧ only_input (stripped d) = true) as (d & Hd & Hin).
  { destruct Hs as [->|Hs]; [exists (Some ∅); split; [apply (pl_empty Hpatch)|reflexivity]|].
    unfold sanitizePatch in Hs. destruct (decode_map patch) as [data|e] eqn:Hdata; [|done]. exists data. split; [done|].
    destruct (removeCreationTimestamp (mdelete (mdelete data "kind") "apiVersion")) as [data' st] eqn:Hr.
    assert (stripped data = data') as Hstr by (unfold stripped; by rewrite Hr). rewrite Hstr. unfold only_input.
    destruct (onlyKeys data' _) eqn:Ho; [done|]. destruct (_ || st).
    - rewrite <- Hstr in Hs. apply (pl_encode Hpatch _ _ _ Hdata) in Hs. rewrite (pl_empty Hpatch) in Hs. injection Hs as Hs.
      rewrite <- Hstr, <- Hs in Ho. discriminate Ho.
    - injection Hs as ->. rewrite (pl_empty Hpatch) in Hdata. injection Hdata as <-. vm_compute in Hr. injection Hr as <- _. discriminate Ho. }
  destruct (pl_three_way Hpatch _ _ _ _ _ _ _ _ Hp Hcur Ht Hd) as [[x Hx] Hagree].
  by eapply (pl_input Hpatch); [| |apply Hagree].
Qed.
Lemma compareObjects_ok g input k old new w :
  (∃ m, Accessor old = inl m ∧ newObjectKey m = k) →
  ∃ w' err, compareObjects g input old new w = (w', Ret err) ∧ frame g [k] w w' ∧
    (err = None → objects w g !! k = Some old → fulfilled input w' g k new).
Proof.
  intros (m & Hm & Hk). unfold compareObjects. rewrite Hm.
  enough (∃ w' b err, applyPatch g input old new w = (w', Ret (b, err)) ∧ frame g [k] w w' ∧
    (err = None → objects w g !! k = Some old → fulfilled input w' g k new)) as (w' & b & err & Ha & Hf & Hd)
    by (unfold mbind, prog_bind; rewrite Ha; by eexists _, _).
  unfold applyPatch, originalAndModifiedForInputID. rewrite Hm.
  destruct (getOriginal input m) as [original|e]; [|by eexists _, _, _].
  destruct (prepareObjectForCreate input new) as [p|e] eqn:Hp; [|by eexists _, _, _].
  destruct (marshal p) as [modified|e] eqn:Hmod; [|by eexists _, _, _].
  destruct (marshal old) as [current|e] eqn:Hcur; [|by eexists _, _, _]. unfold doPatch.
  destruct (registered_type g) as [style|e]; [|by eexists _, _, _].
  destruct (three_way style original modified current) as [patch|e] eqn:Ht; [|by eexists _, _, _].
  assert (patch = "{}" ∨ sanitizePatch patch = inl "{}" → objects w g !! k = Some old → fulfilled input w g k new) as Hnothing.
  { intros Hs Hold. exists p, old. split_and!; [done..|]. by eapply sanitized_nothing. }
  case_decide as Hpe; [eexists _, _, _; split_and!; [done|done|auto]|].
  destruct (sanitizePatch patch) as [text|e] eqn:Hs; [|by eexists _, _, _].
  case_decide as Hte; [subst text; eexists _, _, _; split_and!; [done|done|auto]|].
  destruct (cl_patch Hcluster g (newObjectKey m) style text w) as (w' & err & Hc & Hoth & Hobj).
  unfold mbind, prog_bind. rewrite Hc. eexists _, _, _. split; [done|]. rewrite Hk in Hobj. destruct err as [err|].
  - by split; [apply frame_same|].
  - destruct Hobj as (cur & d & x & Hcur' & Hd & Hx & Hobj). split; [by eapply frame_insert|]. intros _ Hold.
    rewrite Hold in Hcur'. injection Hcur' as <-. exists p, x. split_and!; [done|by rewrite Hobj, lookup_insert_eq|].
    by eapply sanitized_agrees.
Qed.

Lemma update_all_ok input debug g existing objs ks w :
  keyed existing → NoDup ks →
  ∃ w' errs, update_all input debug g existing objs ks w = (w', Ret errs) ∧ frame g ks w w' ∧
    (errs = [] → ∀ k old new, k ∈ ks → existing !! k = Some old → objs !! k = Some new → objects w g !! k = Some old →
       fulfilled input w' g k new).
Proof.
  intros Hke Hnd. revert w. induction Hnd as [|k ks Hnk Hnd IH]; intros w; simpl.
  { eexists _, _. split_and!; [done|done|]. intros _ k old new Hin. by apply elem_of_nil in Hin. }
  assert (∃ w' err, (match existing !! k, objs !! k with Some old, Some new => compareObjects g input old new | _, _ => mret None end) w
    = (w', Ret err) ∧ frame g [k] w w' ∧ (err = None → ∀ old new, existing !! k = Some old → objs !! k = Some new →
        objects w g !! k = Some old → fulfilled input w' g k new)) as (w1 & err & He1 & Hf1 & Hk1).
  { destruct (existing !! k) as [old|] eqn:Hold; [|by eexists _, _]. destruct (objs !! k) as [new|]; [|by eexists _, _].
    destruct (compareObjects_ok g input k old new w (Hke k old Hold)) as (w' & err & Hc & Hf & Hd).
    eexists _, _. split_and!; [done|done|]. intros He old' new' [= <-] [= <-]. by apply Hd. }
  destruct (IH w1) as (w2 & errs & He2 & Hf2 & Hk2). unfold mbind, prog_bind. rewrite He1, He2.
  eexists _, _. split; [done|]. split; [by apply (frame_trans g [k] ks _ w1)|].
  intros [He He']%app_eq_nil k' old new [->|Hin]%elem_of_cons Hold Hnew Hobj.
  - destruct err; [done|]. eapply frame_fulfilled; [done|done|]. by eapply Hk1.
  - eapply Hk2; [done..|]. rewrite (proj2 Hf1); [done|]. intros ->%list_elem_of_singleton. done.
Qed.
Lemma delete_all_ok debug g ks w :
  ∃ w' errs, delete_all debug g ks w = (w', Ret errs) ∧ frame g ks w w' ∧
    (errs = [] → ∀ k, k ∈ ks → objects w' g !! k = None).
Proof.
  revert w. induction ks as [|k ks IH]; intros w; simpl.
  { eexists _, _. split_and!; [done|done|]. intros _ k Hin. by apply elem_of_nil in Hin. }
  destruct (cl_delete Hcluster g k w) as (w1 & err & He1 & Ho1 & Hk1). destruct (IH w1) as (w2 & errs & He2 & Hf2 & Hk2).
  unfold mbind, prog_bind. rewrite He1, He2. eexists _, _. split; [done|]. split.
  - apply (frame_trans g [k] ks _ w1); [|done]. split; [done|]. intros k' Hk'. rewrite Hk1.
    destruct err; [done|]. rewrite lookup_delete_ne; [done|set_solver].
  - intros [He He']%app_eq_nil k' Hin. destruct (decide (k' ∈ ks)) as [Hks|Hks]; [by apply Hk2|].
    apply elem_of_cons in Hin as [->|]; [|done]. rewrite (proj2 Hf2) by done. destruct err; [done|]. by rewrite Hk1, lookup_delete_eq.
Qed.

(** What is found of a kind: what its informer knows, and nothing of a kind
    without one. *)
Definition found (o : DesiredSet) (w : W) (g : GVK) : objectMap := if bool_decide (g ∈ ds_clients o) then cache w g else ∅.
(** After a kind was processed: each desired object is there as desired, unless
    the informer was behind on it; what was found and is not desired is gone; and
    the rest is as it was. *)
Definition converged (o : DesiredSet) (input : string) (g : GVK) (objs : objectMap) (w w' : W) : Prop :=
  ∀ k, match objs !! k with
       | Some new => found o w g !! k = None ∨ found o w g !! k = objects w g !! k → fulfilled input w' g k new
       | None => objects w' g !! k = if decide (is_Some (found o w g !! k)) then None else objects w g !! k
       end.

Lemma collect_no_metadata l : (collect_objects (by_value <$> l)).1 = ∅.
Proof.
  unfold collect_objects. induction l as [|o l IH] using rev_ind; [done|]. rewrite fmap_app, foldl_app. cbn [foldl fmap list_fmap].
  destruct (foldl _ _ _) as [objs errs]. done.
Qed.
Lemma list_existing_ok o g w :
  ∃ objs err, list_existing (bool_decide (g ∈ ds_clients o)) g hash w = (w, Ret (objs, err)) ∧
    (err = None → objs = found o w g) ∧ keyed objs.
Proof.
  unfold list_existing, found, mbind, prog_bind. case_bool_decide.
  - destruct (cl_cached Hcluster g w) as (items & err & -> & Hc). pose proof (collect_objects_keyed items) as Hk.
    destruct (collect_objects items) as [objs errs]. by eexists _, _.
  - destruct (cl_list Hcluster g w) as (r & ->). destruct r as [items|err].
    + eexists _, _. split; [done|]. split; [intros _; apply collect_no_metadata|]. apply collect_objects_keyed.
    + eexists _, _. split; [done|]. split; [done|]. intros k x. by rewrite lookup_empty.
Qed.
Lemma process_ok o input debug g objs w :
  keyed objs →
  ∃ w' errs, process o input debug hash g objs w = (w', Ret errs) ∧ others g w w' ∧ (errs = [] → converged o input g objs w w').
Proof.
  intros Hk. unfold process. destruct (getControllerAndObjectClient o debug g) as [informer|e] eqn:Hget; [|by eexists _, _].
  assert (informer = bool_decide (g ∈ ds_clients o)) as ->.
  { unfold getControllerAndObjectClient in Hget. case_bool_decide; [congruence|]. destruct (ds_discovery o) as [f|]; [|done].
    destruct (f g) as [[]|]; congruence. }
  destruct (list_existing_ok o g w) as (existing & err & Hl & Hfound & Hke). unfold mbind, prog_bind. rewrite Hl.
  destruct err as [err|]; [by eexists _, _|]. specialize (Hfound eq_refl).
  destruct (compareSets existing objs) as [[toCreate toDelete] toUpdate] eqn:Hcmp.
  destruct (compareSets_spec _ _ _ _ _ Hcmp) as (HC & HD & HU).
  destruct (compareSets_NoDup _ _ _ _ _ Hcmp) as (NC & ND & NU).
  destruct (create_all_ok input debug g objs toCreate w Hk NC) as (w1 & taken & errs1 & He1 & Hf1 & Hsub & Hm1 & Hk1). rewrite He1.
  assert (∀ k, k ∈ taken.*1 → k ∈ toCreate) as Htaken by (intros k Hin; exact (elem_of_sublist _ _ _ Hin Hsub)).
  assert (NoDup taken.*1) as NT by exact (sublist_NoDup _ _ NC Hsub).
  assert (keyed (list_to_map taken ∪ existing)) as Hke'.
  { intros k x [Hx|[_ Hx]]%lookup_union_Some_raw; [|by apply Hke]. apply elem_of_list_to_map_2 in Hx. by apply Hm1. }
  destruct (update_all_ok input debug g (list_to_map taken ∪ existing) objs (toUpdate ++ taken.*1) w1 Hke')
    as (w2 & errs2 & He2 & Hf2 & Hk2).
  { apply NoDup_app. split_and!; [done| |done]. intros k Hu Ht. apply HU in Hu as [_ Hu]. by apply Htaken, HC in Ht as [_ Ht]. }
  rewrite He2. destruct (delete_all_ok debug g toDelete w2) as (w3 & errs3 & He3 & Hf3 & Hk3). rewrite He3.
  eexists _, _. split; [done|]. pose proof (frame_trans _ _ _ _ _ _ Hf1 (frame_trans _ _ _ _ _ _ Hf2 Hf3)) as Hf.
  split; [apply Hf|]. intros [Hn1 [Hn2 Hn3]%app_eq_nil]%app_eq_nil k. rewrite <- Hfound.
  destruct (objs !! k) as [new|] eqn:Hnew.
  - intros Hfresh. assert (k ∈ dom objs) as Hdom by (apply elem_of_dom; by eexists).
    assert (k ∉ toDelete) as Hnd by (rewrite HD; tauto). apply (frame_fulfilled g toDelete w2); [exact Hf3|exact Hnd|].
    destruct (existing !! k) as [old|] eqn:Hold.
    + destruct Hfresh as [|Hfresh]; [done|]. assert (k ∈ dom existing) as He by (apply elem_of_dom; by eexists).
      assert (k ∉ toCreate) as Hnc by (rewrite HC; tauto).
      eapply (Hk2 Hn2 k old new); [apply elem_of_app; left; by apply HU| |done|by rewrite (proj2 Hf1)].
      apply lookup_union_Some_raw. right. split; [|done]. apply not_elem_of_list_to_map_1. intros Ht. by apply Hnc, Htaken.
    + assert (k ∉ dom existing) as He by by apply not_elem_of_dom.
      destruct (Hk1 Hn1 k new) as [[Hnt Hd]|(cur & Hin & Ho)]; [by apply HC|done| |].
      * apply (frame_fulfilled g (toUpdate ++ taken.*1) w1); [exact Hf2| |exact Hd]. apply not_elem_of_app. split; [|done]. rewrite HU. tauto.
      * eapply (Hk2 Hn2 k cur new); [apply elem_of_app; right; apply list_elem_of_fmap; by exists (k, cur)| |done|done].
        apply lookup_union_Some_raw. left. by apply elem_of_list_to_map.
  - assert (k ∉ dom objs) as Hdom by by apply not_elem_of_dom. destruct (decide (is_Some (existing !! k))) as [He|He].
    + apply Hk3; [done|]. apply HD. split; [by apply elem_of_dom|done].
    + rewrite <- elem_of_dom in He. rewrite (proj2 Hf); [done|]. rewrite !not_elem_of_app.
      split_and!; rewrite ?HC, ?HU, ?HD; try tauto. intros Ht. apply Htaken, HC in Ht as [Ht _]. done.
Qed.

Lemma process_all_ok o input debug objs gvks w :
  NoDup gvks → (∀ g, keyed (default ∅ (objs !! g))) →
  ∃ w' errs, process_all o input debug hash objs gvks w = (w', Ret errs) ∧
    (∀ g, g ∉ gvks → objects w' g = objects w g ∧ cache w' g = cache w g) ∧
    (errs = [] → ∀ g, g ∈ gvks → converged o input g (default ∅ (objs !! g)) w w').
Proof.
  intros Hnd Hkeyed. revert w. induction Hnd as [|g gvks Hg Hnd IH]; intros w; simpl.
  { eexists _, _. split; [done|]. split; [done|]. intros _ g Hg. by apply elem_of_nil in Hg. }
  destruct (process_ok o input debug g (default ∅ (objs !! g)) w (Hkeyed g)) as (w1 & errs1 & He1 & Ho1 & Hc1).
  destruct (IH w1) as (w2 & errs2 & He2 & Ho2 & Hc2).
  unfold mbind, prog_bind. rewrite He1, He2. eexists _, _. split; [done|]. split.
  - intros g' [Hne Hn]%not_elem_of_cons. destruct (Ho2 g' Hn), (Ho1 g' Hne). split; congruence.
  - intros [Hn1 Hn2]%app_eq_nil g' [->|Hin]%elem_of_cons k.
    + unfold fulfilled. rewrite (proj1 (Ho2 g Hg)). by apply Hc1.
    + specialize (Hc2 Hn2 g' Hin k). destruct (Ho1 g') as [Heo Hec]; [by intros ->|]. unfold found in *. rewrite Heo, Hec in Hc2. done.
Qed.
End Cluster.

(** ** The order of the kinds *)
Lemma dedup_spec seen l : NoDup (dedup seen l) ∧ ∀ g, g ∈ dedup seen l ↔ g ∈ l ∧ g ∉ seen.
Proof.
  revert seen. induction l as [|x l IH]; intros seen; simpl; [split; [constructor|set_solver]|].
  case_decide as Hx.
  - destruct (IH seen) as [Hnd Hin]. split; [done|]. intros g. rewrite Hin. set_solver.
  - destruct (IH ({[x]} ∪ seen)) as [Hnd Hin]. split; [constructor; [rewrite Hin; set_solver|done]|].
    intros g. rewrite elem_of_cons, Hin. destruct (decide (g = x)); set_solver.
Qed.
Lemma gvkOrder_spec o :
  NoDup (gvkOrder o) ∧ ∀ g, g ∈ gvkOrder o ↔ g ∈ o_gvk <$> os_order (ds_objs o) ∨ g ∈ ds_clients o.
Proof.
  unfold gvkOrder. destruct (dedup_spec ∅ (o_gvk <$> os_order (ds_objs o))) as [Hnd Hin].
  set (first := dedup ∅ (o_gvk <$> os_order (ds_objs o))) in *. split.
  - apply NoDup_app. split_and!; [done| |rewrite sort_slice_perm; apply NoDup_elements].
    intros g Hg. rewrite sort_slice_perm. set_solver.
  - intros g. rewrite elem_of_app, sort_slice_perm, elem_of_elements, elem_of_difference, elem_of_list_to_set, Hin.
    destruct (decide (g ∈ o_gvk <$> os_order (ds_objs o))); set_solver.
Qed.

(** ** Collections *)
Definition collection_ok (c : objectCollection) : Prop :=
  ∀ g k o, default ∅ (c !! g) !! k = Some o → o_gvk o = g ∧ ∃ m, Accessor o = inl m ∧ newObjectKey m = k.
Lemma collection_add_ok c o : collection_ok c → collection_ok (collection_add c o).1.
Proof.
  intros Hc. unfold collection_add. destruct (Accessor o) as [m|e] eqn:Hm; [|done]. intros g k x. simpl.
  rewrite lookup_insert. case_decide as Hg; [|apply Hc]. subst g. simpl. rewrite lookup_insert.
  case_decide as Hk; [|apply Hc]. intros [= <-]. split; [done|]. by exists m.
Qed.
Lemma set_add_ok s o : collection_ok (os_objects s) → collection_ok (os_objects (set_add s o)).
Proof.
  intros Hs. destruct o as [o|]; [|done]. unfold set_add. destruct (Accessor o); [|done]. case_decide; [done|].
  case_bool_decide; [done|]. by apply collection_add_ok.
Qed.
Lemma Add_ok objs s : collection_ok (os_objects s) → collection_ok (os_objects (Add s objs)).
Proof. revert s. induction objs as [|o objs IH]; intros s Hs; simpl; [done|]. by apply IH, set_add_ok. Qed.

(** An object with the labels of the set. *)
Definition labelled (labels annotations : gmap string string) (o : kobject) (m : metadata) : kobject :=
  set_meta o (setAnnotations (setLabels m labels) annotations).
Lemma labelled_key labels annotations m : newObjectKey (setAnnotations (setLabels m labels) annotations) = newObjectKey m.
Proof. done. Qed.
Lemma inject_all_spec labels annotations l l' :
  inject_all labels annotations l = inl l' →
  ∀ x, x ∈ l' ↔ ∃ k o m, (k, o) ∈ l ∧ Accessor o = inl m ∧ x = labelled labels annotations o m.
Proof.
  revert l'. induction l as [|[k0 o0] l IH]; intros l'; simpl; [intros [= <-]; set_solver|].
  destruct (Accessor o0) as [m0|e] eqn:Ha; [|done]. destruct (inject_all labels annotations l) as [os|e] eqn:Hi; [|done].
  intros [= <-] x. rewrite elem_of_cons, (IH os eq_refl x). split.
  - intros [->|(k & o & m & Hin & Hr)]; [exists k0, o0, m0|exists k, o, m]; (split; [|done]); [by left|by right].
  - intros (k & o & m & [[= -> ->]|Hin]%elem_of_cons & Hm & Hx); [left|right; by exists k, o, m].
    rewrite Ha in Hm. injection Hm as <-. exact Hx.
Qed.

(** What a collection holds is what was filed in it last. *)
Lemma collect_lookup l g k x :
  default ∅ (collect l !! g) !! k = Some x → x ∈ l ∧ o_gvk x = g ∧ ∃ m, Accessor x = inl m ∧ newObjectKey m = k.
Proof.
  unfold collect. induction l as [|o l IH] using rev_ind; [simpl; by rewrite !lookup_empty|].
  rewrite foldl_app. cbn [foldl]. intros Hx.
  assert (default ∅ (foldl (λ c o, (collection_add c o).1) ∅ l !! g) !! k = Some x ∨
    x = o ∧ o_gvk x = g ∧ ∃ m, Accessor x = inl m ∧ newObjectKey m = k) as [Hl|[-> Hr]].
  { revert Hx. unfold collection_add. destruct (Accessor o) as [m|e] eqn:Hm; [|by left]. simpl. rewrite lookup_insert.
    case_decide as Hg; [|by left]. subst g. simpl. rewrite lookup_insert. case_decide as Hk; [|by left].
    intros [= <-]. right. split; [done|]. split; [done|]. by exists m. }
  - apply IH in Hl as [Hl Hr]. split; [|done]. apply elem_of_app. by left.
  - split; [|done]. apply elem_of_app. right. by left.
Qed.
Lemma collect_filed l x m : x ∈ l → Accessor x = inl m → is_Some (default ∅ (collect l !! o_gvk x) !! newObjectKey m).
Proof.
  unfold collect. induction l as [|o l IH] using rev_ind; [by intros ?%elem_of_nil|].
  rewrite foldl_app. cbn [foldl]. intros Hx Hm. unfold collection_add.
  apply elem_of_app in Hx as [Hx|Hx%list_elem_of_singleton].
  - specialize (IH Hx Hm). destruct (Accessor o) as [m'|e]; [|done]. simpl. rewrite lookup_insert.
    case_decide as Hg; [rewrite Hg; simpl; rewrite lookup_insert; case_decide; [by eexists|done]|done].
  - subst o. rewrite Hm. simpl. rewrite lookup_insert_eq. simpl. rewrite lookup_insert_eq. by eexists.
Qed.

Lemma inject_collect o labels annotations l :
  collection_ok (os_objects (ds_objs o)) → injectLabelsAndAnnotations o labels annotations = inl l →
  ∀ g k, match default ∅ (os_objects (ds_objs o) !! g) !! k with
         | Some x => ∃ m, Accessor x = inl m ∧ default ∅ (collect l !! g) !! k = Some (labelled labels annotations x m)
         | None => default ∅ (collect l !! g) !! k = None
         end.
Proof.
  intros Hok Hl.
  assert (∀ g k x, default ∅ (os_objects (ds_objs o) !! g) !! k = Some x ↔
    (k, x) ∈ mjoin ((λ e, map_to_list e.2) <$> map_to_list (os_objects (ds_objs o))) ∧ o_gvk x = g) as Hflat.
  { intros g k x. split.
    - intros Hx. split; [|by apply (Hok g k x Hx)]. destruct (os_objects (ds_objs o) !! g) as [m1|] eqn:Hm1; [|done].
      apply list_elem_of_join. exists (map_to_list m1). split; [by apply elem_of_map_to_list|].
      apply list_elem_of_fmap. exists (g, m1). split; [done|]. by apply elem_of_map_to_list.
    - intros [(l1 & Hin & Hl1)%list_elem_of_join <-]. apply list_elem_of_fmap in Hl1 as ([g1 m1] & -> & Hg1%elem_of_map_to_list).
      simpl in Hin. apply elem_of_map_to_list in Hin. destruct (Hok g1 k x) as (Hgx & _); [by rewrite Hg1|]. by rewrite Hgx, Hg1. }
  pose proof (inject_all_spec _ _ _ _ Hl) as Hin. intros g k.
  assert (∀ y, default ∅ (collect l !! g) !! k = Some y → ∃ x m, default ∅ (os_objects (ds_objs o) !! g) !! k = Some x ∧
    Accessor x = inl m ∧ y = labelled labels annotations x m) as Hback.
  { intros y Hy. apply collect_lookup in Hy as ((k' & x & m & Hx & Hm & ->)%Hin & Hg & m' & Hm' & Hk). simpl in Hg.
    injection Hm' as <-. rewrite labelled_key in Hk. exists x, m. split; [|done]. apply Hflat. split; [|done].
    assert (default ∅ (os_objects (ds_objs o) !! g) !! k' = Some x) as Hx' by by apply Hflat.
    destruct (Hok _ _ _ Hx') as (_ & mx & Hmx & Hkx). rewrite Hm in Hmx. injection Hmx as <-. by rewrite <- Hk, Hkx. }
  destruct (default ∅ (os_objects (ds_objs o) !! g) !! k) as [x|] eqn:Hx.
  - destruct (Hok g k x Hx) as (Hg & m & Hm & Hk). exists m. split; [done|].
    apply Hflat in Hx as Hx'. destruct Hx' as [Hx' _].
    destruct (collect_filed l (labelled labels annotations x m) (setAnnotations (setLabels m labels) annotations)) as [y Hy];
      [apply Hin; by exists k, x, m|done|]. rewrite labelled_key, Hk in Hy. simpl in Hy. rewrite Hg in Hy. rewrite Hy.
    destruct (Hback y Hy) as (x1 & m1 & [= <-] & Hm1 & ->). congruence.
  - destruct (default ∅ (collect l !! g) !! k) as [y|] eqn:Hy; [|done]. by destruct (Hback y eq_refl) as (x1 & m1 & ? & _).
Qed.

(** C10: applying a set converges.  While nobody else changes the objects of its
    kinds, after an Apply that returns no error, for each kind the set has or has
    a client for:
    - each object of the set is in the cluster, and what is there agrees with the
      object that was wanted, with its labels and annotations: it was created; or
      it was there already, unknown to the informer or as the informer knew it,
      and was patched where it differed.  (Only an object that has changed behind
      the informer may be patched to something else; the next run sees it.)
    - an object that is not in the set is gone if the informer knew it to carry
      the label of the set, and otherwise as it was.
    Kinds without an informer are found to have no objects; other kinds are not
    touched. *)
Theorem apply_converges objects cache agrees patched o accepted labelSet annotationSet w w' :
  getLabelsAndAnnotations o = inl (labelSet, annotationSet) →
  let hash := default "" (labelSet !! LabelHash) in
  patch_laws agrees patched → cluster objects cache hash agrees patched →
  collection_ok (os_objects (ds_objs o)) → ds_injectors o = [] →
  Apply o accepted w = (w', Ret None) →
  ∀ g k,
    if bool_decide (g ∈ gvkOrder o) then
      let known := if bool_decide (g ∈ ds_clients o) then cache w g !! k else None in
      match default ∅ (os_objects (ds_objs o) !! g) !! k with
      | Some wanted =>
          known = None ∨ known = objects w g !! k →
          ∃ m sent x, Accessor wanted = inl m ∧
            prepareObjectForCreate (inputID o hash) (labelled labelSet annotationSet wanted m) = inl sent ∧
            objects w' g !! k = Some x ∧ agrees x sent
      | None => objects w' g !! k = if decide (is_Some known) then None else objects w g !! k
      end
    else objects w' g = objects w g.
Proof.
  intros Hlab hash Hpl Hcl Hok Hinj. unfold Apply. rewrite Hlab, Hinj.
  destruct (DesiredSet_Err o) as [e|]; [done|]. destruct (negb (ds_remove o) && negb accepted); [done|].
  destruct (injectLabelsAndAnnotations o labelSet annotationSet) as [l|e] eqn:Hl;
    [|intros [= _ Hn]; apply NewErrors_None, Forall_fmap, Forall_forall with (x := e) in Hn; [done|set_solver]].
  cbn [runInjectors foldl]. pose proof (inject_collect _ _ _ _ Hok Hl) as Hc. destruct (gvkOrder_spec o) as [Hnd Hin].
  destruct (process_all_ok objects cache hash agrees patched Hpl Hcl o (inputID o hash) (debugID o) (collect l) (gvkOrder o) w Hnd)
    as (w1 & errs & Hp & Hoth & Hconv).
  - intros g k x Hx. by apply collect_lookup in Hx as (_ & _ & Hx).
  - unfold mbind, prog_bind. fold hash. rewrite Hp. intros [= <- Hn] g k.
    assert (errs = []) as ->.
    { apply NewErrors_None in Hn. destruct errs as [|e errs]; [done|]. apply Forall_fmap, Forall_forall with (x := e) in Hn; [done|set_solver]. }
    case_bool_decide as Hg; [|apply (Hoth g Hg)]. cbn zeta. specialize (Hconv eq_refl g Hg k). specialize (Hc g k).
    assert (found cache o w g !! k = if bool_decide (g ∈ ds_clients o) then cache w g !! k else None) as Hf
      by (unfold found; by case_bool_decide). rewrite Hf in Hconv.
    destruct (default ∅ (os_objects (ds_objs o) !! g) !! k) as [wanted|].
    + destruct Hc as (m & Hm & Hc). rewrite Hc in Hconv. intros (p & x & Hpr & Hx & Ha)%Hconv. by exists m, p, x.
    + rewrite Hc in Hconv. exact Hconv.
Qed.
End Sets.

(** ** The annotation *)
Definition padding (s : string) : string := match (String.length s mod 4)%nat with 2%nat => "==" | 3%nat => "=" | _ => "" end.
Lemma sextet_other z c : unsextet c = None → sextet (Z.land z 63) ≠ c.
Proof. intros Hc He. pose proof (unsextet_sextet z) as Hs. rewrite He, Hc in Hs. done. Qed.
Lemma drop_sextet z s : drop_padding (String (sextet (Z.land z 63)) s) = String (sextet (Z.land z 63)) (drop_padding s).
Proof. simpl. rewrite decide_False by (by apply sextet_other). done. Qed.
Lemma raw_no_padding s : str_in "=" (drop_padding s) = false.
Proof. induction s as [|c s IH]; simpl; [done|]. case_decide; [done|]. simpl. by rewrite bool_decide_false, IH by congruence. Qed.
Lemma raw_no_breaks s : strip_breaks (raw_encode s) = raw_encode s.
Proof.
  unfold raw_encode. induction s as [| | |a b c s IH] using string_ind3; [done| | |]; cbn [encode]; rewrite !drop_sextet;
    cbn [strip_breaks]; rewrite !sextet_break; [done..|]. by rewrite IH.
Qed.
Lemma raw_padding s : raw_encode s +:+ padding (raw_encode s) = encode s.
Proof.
  unfold raw_encode, padding. induction s as [| | |a b c s IH] using string_ind3; [done| | |]; cbn [encode]; rewrite !drop_sextet; [done..|].
  set (t := drop_padding (encode s)) in *. cbn [String.append String.length].
  replace (S (S (S (S (String.length t))))) with (String.length t + 1 * 4)%nat by lia. rewrite Nat.Div0.mod_add. by rewrite IH.
Qed.
Lemma raw_roundtrip s : raw_decode (raw_encode s) = Some s.
Proof.
  unfold raw_decode. assert (str_in "=" (raw_encode s) = false) as -> by apply raw_no_padding.
  rewrite raw_no_breaks. fold (padding (raw_encode s)). by rewrite raw_padding, decode_encode.
Qed.

(** What was applied is read back.  The serialized object (a JSON object)
    that is noted in the annotation of an object, as it is or compressed when
    it is long, is what is read from the annotation later, provided that
    decompression is the inverse of compression. *)
Theorem applied_roundtrip `{Gzip} b :
  (∀ x z, gzip x = Some z → gunzip z = Some x) → gunzip "" = None → HasPrefix b "{" = true →
  appliedFromAnnotation (appliedToAnnotation b) = b.
Proof.
  intros Hz He Hb. assert (∃ s, b = String "{" s) as [s ->].
  { destruct b as [|c s]; [done|]. unfold HasPrefix in Hb. simpl in Hb. case_match; [subst c; by exists s|done]. }
  unfold appliedToAnnotation. destruct (_ <? _)%nat; [done|]. destruct (gzip (String "{" s)) as [z|] eqn:Hg; [|done].
  apply Hz in Hg as Hu. assert (z ≠ "") as Hne by (intros ->; congruence).
  assert (∃ x t, raw_encode z = String (sextet (Z.land x 63)) t) as (x & t & Hr).
  { unfold raw_encode. destruct z as [|a [|a' [|a'' z]]]; [done|..]; cbn [encode]; rewrite drop_sextet; by eexists _, _. }
  unfold appliedFromAnnotation. rewrite Hr, <- Hr, decide_False by (by apply sextet_other).
  by rewrite raw_roundtrip; simpl; rewrite Hu.
Qed.

Definition no_gzip : Gzip := {| gzip := λ b, Some (String "z" b); gunzip := λ z, match z with String "z" b => Some b | _ => None end |}.
Lemma applied_roundtrip_witness :
  let b := String "{" (String.concat "" (replicate 1100 "x")) in
  @appliedFromAnnotation no_gzip (@appliedToAnnotation no_gzip b) = b.
Proof.
  apply (@applied_roundtrip no_gzip).
  - intros x z Hz. injection Hz as <-. reflexivity.
  - reflexivity.
  - vm_compute. reflexivity.
Defined.

(** ** A cluster

    Each object with the label of its set and its content, a string. *)
Abbreviation shelf := (gmap GVK (gmap objectKey (string * string))).
Definition shelf_of (w : shelf) (g : GVK) : gmap objectKey (string * string) := default ∅ (w !! g).
Definition shelf_object (g : GVK) (k : objectKey) (e : string * string) : kobject :=
  mkObject g (Some (mkMeta (key_name k) (key_namespace k) {[ LabelHash := e.1 ]} ∅ "")) (VStr e.2).
Definition shelf_map (g : GVK) (m : gmap objectKey (string * string)) : objectMap := map_imap (λ k e, Some (shelf_object g k e)) m.
Definition shelf_objects (w : shelf) (g : GVK) : objectMap := shelf_map g (shelf_of w g).
Definition shelf_cache (hash : string) (w : shelf) (g : GVK) : objectMap := shelf_map g (filter (λ e, e.2.1 = hash) (shelf_of w g)).
(** The JSON of an object is its content behind a letter; a patch sets the
    content. *)
Definition content_of (o : kobject) : string := as_string (o_content o).
Definition patched_content (d : option obj) (content : string) : string :=
  match mlookup d "content" with Some v => as_string v | None => content end.
Definition std_codec : KubeCodec := {|
  marshal := λ o, inl ("c" +:+ content_of o);
  unstructured := λ _, shelf_object (mkGVK "" "v1" "x") (mkObjectKey "x" "") ("", "");
  decode_map := λ s, match s with "" => inr EOF | String _ t => inl (Some (if decide (s = "{}") then ∅ else {[ "content" := VStr t ]})) end;
  encode_map := λ d, inl (match mlookup d "content" with Some v => "c" +:+ as_string v | None => "{}" end);
  three_way := λ _ _ modified current, inl (if decide (modified = current) then "{}" else modified);
  registered_type := λ _, inl true |}.
Definition shelf_client : KubeClient shelf := {|
  kc_Cached := λ g hash w, (w, Ret ((map_to_list (shelf_cache hash w g)).*2, None));
  kc_List := λ g hash w, (w, Ret (inl (map_to_list (shelf_cache hash w g)).*2));
  kc_Create := λ g o w,
    match o_meta o with
    | None => (w, Ret (Some no_metadata))
    | Some m =>
        match shelf_of w g !! newObjectKey m with
        | Some _ => (w, Ret (Some (AlreadyExists (m_name m))))
        | None => (<[g := <[newObjectKey m := (default "" (m_labels m !! LabelHash), content_of o)]> (shelf_of w g)]> w, Ret None)
        end
    end;
  kc_Get := λ g k w, (w, Ret (match shelf_objects w g !! k with Some o => inl o | None => inr (StatusError 404 "NotFound" "") end));
  kc_Delete := λ g k w, (<[g := delete k (shelf_of w g)]> w, Ret None);
  kc_Patch := λ g k _ patch w,
    match shelf_of w g !! k, @decode_map std_codec patch with
    | Some e, inl d => (<[g := <[k := (e.1, patched_content d e.2)]> (shelf_of w g)]> w, Ret None)
    | _, _ => (w, Ret (Some (StatusError 404 "NotFound" "")))
    end
|}.
Definition same_content (x p : kobject) : Prop := content_of x = content_of p.
Definition content_patched (_ : bool) (d : option obj) (cur x : kobject) : Prop := content_of x = patched_content d (content_of cur).

Lemma collect_objects_map (m : objectMap) : keyed m → collect_objects (map_to_list m).*2 = (m, []).
Proof.
  intros Hk. assert (∀ l, NoDup l.*1 → (∀ k o, (k, o) ∈ l → ∃ md, Accessor o = inl md ∧ newObjectKey md = k) →
    collect_objects l.*2 = (list_to_map l, [])) as Hl.
  { unfold collect_objects. induction l as [|[k o] l IH] using rev_ind; intros Hnd Hkl; [done|].
    rewrite fmap_app in Hnd. rewrite fmap_app, foldl_app. cbn [foldl fmap list_fmap snd].
    apply NoDup_app in Hnd as (Hnd & Hnin & _).
    rewrite IH by (done || (intros k' o' Hin; apply Hkl, elem_of_app; by left)).
    destruct (Hkl k o) as (md & Hm & <-); [apply elem_of_app; right; by left|]. unfold addObjectToMap. rewrite Hm. simpl. f_equal.
    symmetry. apply list_to_map_snoc. intros Hin. apply (Hnin _ Hin). by left. }
  rewrite Hl; [by rewrite list_to_map_to_list|apply NoDup_fst_map_to_list|].
  intros k o Hin%elem_of_map_to_list. by apply Hk.
Qed.
Lemma shelf_map_lookup g m k : shelf_map g m !! k = shelf_object g k <$> m !! k.
Proof. unfold shelf_map. rewrite map_lookup_imap. by destruct (m !! k). Qed.
Lemma shelf_map_keyed g m : keyed (shelf_map g m).
Proof.
  intros k o. rewrite shelf_map_lookup. destruct (m !! k) as [e|]; simpl; [|done]. intros [= <-].
  eexists. split; [done|]. by destruct k.
Qed.
Lemma shelf_objects_insert w g k e : shelf_objects (<[g := <[k := e]> (shelf_of w g)]> w) g = <[k := shelf_object g k e]> (shelf_objects w g).
Proof.
  apply map_eq. intros k'. unfold shelf_objects, shelf_of. rewrite lookup_insert_eq. simpl.
  rewrite shelf_map_lookup, !lookup_insert. case_decide; [by subst|]. by rewrite shelf_map_lookup.
Qed.
Lemma shelf_others hash g x w : others shelf_objects (shelf_cache hash) g w (<[g := x]> w).
Proof. intros g' Hg. unfold shelf_objects, shelf_cache, shelf_of. by rewrite lookup_insert_ne. Qed.

Lemma shelf_cluster hash : @cluster _ std_codec shelf_client shelf_objects (shelf_cache hash) hash same_content content_patched.
Proof.
  split.
  - intros w g. apply shelf_map_keyed.
  - intros g w. eexists _, _. split; [reflexivity|]. by rewrite collect_objects_map by apply shelf_map_keyed.
  - intros g w. by eexists.
  - intros g o m w Hm. simpl. unfold Accessor in Hm. destruct (o_meta o) as [m'|]; [|done]. injection Hm as ->.
    destruct (shelf_of w g !! newObjectKey m) as [h|] eqn:Hk; eexists _, _; (split; [reflexivity|]); [done|].
    split; [apply shelf_others|]. eexists. split; [|apply shelf_objects_insert]. done.
  - intros g k w. eexists. split; [reflexivity|]. intros o. destruct (shelf_objects w g !! k); congruence.
  - intros g k w. eexists _, _. split; [reflexivity|]. split; [apply shelf_others|].
    apply map_eq. intros k'. unfold shelf_objects, shelf_of. rewrite lookup_insert_eq. simpl.
    rewrite shelf_map_lookup, !lookup_delete. case_decide; [done|]. by rewrite shelf_map_lookup.
  - intros g k style patch w. simpl. destruct (shelf_of w g !! k) as [e|] eqn:He; [|by eexists _, _].
    destruct (match patch with "" => inr EOF | String _ t => _ end) as [d|err] eqn:Hd; [|by eexists _, _].
    eexists _, _. split; [reflexivity|]. split; [apply shelf_others|].
    exists (shelf_object g k e), d, (shelf_object g k (e.1, patched_content d e.2)). split_and!; [|done|done|apply shelf_objects_insert].
    unfold shelf_objects. by rewrite shelf_map_lookup, He.
Qed.
Lemma shelf_patches : @patch_laws std_codec same_content content_patched.
Proof.
  assert (∀ s t, patched_content (Some {[ "content" := VStr s ]}) t = s) as Hset
    by (intros; unfold patched_content; simpl; by rewrite lookup_singleton_eq).
  assert (∀ d : option obj, mlookup (stripped d) "content" = mlookup d "content") as Hstr.
  { intros [d|]; [|done]. unfold stripped, removeCreationTimestamp, mdelete. simpl.
    assert (delete "apiVersion" (delete "kind" d) !! "content" = d !! "content") as Hd by (by rewrite !lookup_delete_ne).
    repeat case_match; simpl; rewrite ?lookup_insert_ne by done; done. }
  split.
  - intros style original p modified cur current patch d [= <-] [= <-] [= <-] Hd. unfold content_patched, same_content.
    revert Hd. simpl. case_decide as He; simpl.
    + intros [= <-]. injection He as He. unfold patched_content. simpl. rewrite lookup_empty. split; [by exists cur|]. congruence.
    + intros [= <-]. rewrite Hset. split; [by exists p|done].
  - intros style d cur x. unfold content_patched, patched_content. by rewrite Hstr.
  - intros style d cur x p Ho. unfold content_patched, same_content, patched_content. rewrite <- Hstr.
    assert (mlookup (stripped d) "content" = None) as ->; [|congruence]. revert Ho. unfold only_input. generalize (stripped d).
    intros d' Ho. destruct (mlookup d' "content") as [v|] eqn:Hv; [exfalso|done]. destruct d' as [m|]; [|done]. simpl in Hv, Ho.
    destruct (1 <? size m)%nat eqn:Hs; [done|]. apply Nat.ltb_ge in Hs.
    assert (size m ≠ 0%nat) as Hne by (intros ->%map_size_empty_inv; by rewrite lookup_empty in Hv).
    destruct (Nat.eqb_spec (size m) 0) as [|_]; [done|]. destruct (m !! "metadata") as [v'|] eqn:Hm; [|done].
    assert (size (delete "metadata" m) ≠ 0%nat) as Hd.
    { intros Hz%map_size_empty_inv. assert (delete "metadata" m !! "content" = None) as Hc by (rewrite Hz; apply lookup_empty).
      rewrite lookup_delete_ne in Hc by done. congruence. }
    rewrite map_size_delete_Some in Hd by by eexists. lia.
  - reflexivity.
  - intros patch d text Hd [= <-]. rewrite Hstr. destruct patch as [|c t]; [done|]. simpl in Hd. injection Hd as <-. case_decide; simpl.
    + by rewrite lookup_empty.
    + by rewrite lookup_singleton_eq.
Qed.

Definition std_digest : Digest := {| sha1_hex := λ s, s |}.
Definition secret_kind : GVK := mkGVK "" "v1" "Secret".
Definition secret (name content : string) : kobject := shelf_object secret_kind (mkObjectKey name "ns") ("", content).
Definition two_secrets : ObjectSet := Add NewObjectSet [Some (secret "a" "new"); None; Some (secret "b" "new")].
Definition secret_set : DesiredSet := NewDesiredSet "s" "" None {[ secret_kind ]} None (Some two_secrets).
(** One secret of the set is there with another content, and so are one that is
    no longer wanted and one of somebody else. *)
Definition three_secrets : shelf :=
  {[ secret_kind := {[ mkObjectKey "a" "ns" := ("s", "stale"); mkObjectKey "old" "ns" := ("s", "x"); mkObjectKey "other" "ns" := ("", "y") ]} ]}.
Abbreviation apply_secrets := (@Apply _ std_codec no_gzip std_digest std_sort shelf_client secret_set true three_secrets).

Lemma apply_converges_witness :
  ∃ w', apply_secrets = (w', Ret None) ∧
    (∃ x, shelf_objects w' secret_kind !! mkObjectKey "a" "ns" = Some x ∧ content_of x = "new") ∧
    (∃ x, shelf_objects w' secret_kind !! mkObjectKey "b" "ns" = Some x ∧ content_of x = "new") ∧
    shelf_objects w' secret_kind !! mkObjectKey "old" "ns" = None ∧
    shelf_objects w' secret_kind !! mkObjectKey "other" "ns" = shelf_objects three_secrets secret_kind !! mkObjectKey "other" "ns".
Proof.
  destruct apply_secrets as [w' r] eqn:Ha.
  assert (r = Ret None) as -> by (transitivity apply_secrets.2; [by rewrite Ha|vm_compute; reflexivity]).
  exists w'. split; [reflexivity|].
  pose proof (@apply_converges _ std_codec no_gzip std_digest std_sort shelf_client shelf_objects (shelf_cache "s") same_content content_patched
    secret_set true {[ LabelHash := "s" ]} {[ LabelID := "s" ]} three_secrets w' eq_refl shelf_patches (shelf_cluster "s")) as Hc.
  specialize (Hc ltac:(apply Add_ok; intros g k' o; simpl; rewrite lookup_empty; simpl; rewrite lookup_empty; discriminate) eq_refl Ha secret_kind).
  assert (bool_decide (secret_kind ∈ @gvkOrder std_sort secret_set) = true) as Hg by (vm_compute; reflexivity). rewrite Hg in Hc.
  split_and!.
  - specialize (Hc (mkObjectKey "a" "ns")). destruct Hc as (m & sent & x & Hm & Hs & Hx & He); [right; vm_compute; reflexivity|].
    exists x. split; [exact Hx|]. rewrite He. injection Hm as <-. injection Hs as <-. reflexivity.
  - specialize (Hc (mkObjectKey "b" "ns")). destruct Hc as (m & sent & x & Hm & Hs & Hx & He); [left; vm_compute; reflexivity|].
    exists x. split; [exact Hx|]. rewrite He. injection Hm as <-. injection Hs as <-. reflexivity.
  - exact (Hc (mkObjectKey "old" "ns")).
  - exact (Hc (mkObjectKey "other" "ns")).
Defined.
Example secrets_applied :
  map_to_list (content_of <$> shelf_objects apply_secrets.1 secret_kind)
  ≡ₚ [(mkObjectKey "a" "ns", "new"); (mkObjectKey "b" "ns", "new"); (mkObjectKey "other" "ns", "y")].
Proof. apply (bool_decide_unpack _). vm_compute. exact I. Qed.

(** The name and the namespace of an owner are hashed one after the other: two
    owners whose concatenations agree own the same objects, whatever the
    digest. *)
Definition owner_hash `{Digest} (name ns : string) : option string :=
  match getLabelsAndAnnotations (NewDesiredSet "s" "" None ∅ (Some (shelf_object secret_kind (mkObjectKey name ns) ("", ""))) None) with
  | inl p => p.1 !! LabelHash
  | inr _ => None
  end.
Example owners_collide (digest : Digest) : @owner_hash digest "web" "abc" = @owner_hash digest "weba" "bc".
Proof. vm_compute. reflexivity. Qed.

(** Without an informer nothing of the set is ever found, whatever the API
    server lists: the errors of meta.Accessor are dropped, and what is no longer
    wanted stays. *)
Example discovered_not_pruned :
  let o := NewDesiredSet "s" "" (Some (λ _, inl true)) ∅ None (Some two_secrets) in
  (@list_existing _ shelf_client false secret_kind "s" three_secrets).2 = Ret (∅, None) ∧
  match @Apply _ std_codec no_gzip std_digest std_sort shelf_client o true three_secrets with
  | (w', Ret None) => bool_decide (is_Some (shelf_of w' secret_kind !! mkObjectKey "old" "ns")) = true
  | _ => False
  end.
Proof. split; vm_compute; reflexivity. Qed.

(** ** getPatchStyle: how objects of a kind are patched, with its cache

    [New] is the scheme of client-go: the Go type of a kind, None if it is not
    registered; [PatchMeta] what a strategic patch needs to know of it. *)
Inductive PatchType := MergePatchType | StrategicMergePatchType.
Section PatchStyle.
Context {T L : Type}.
Variable New : GVK → result (option T).
Variable NewPatchMetaFromStruct : T → result L.
Definition patch_style (gvk : GVK) : result (PatchType * option L) :=
  match New gvk with
  | inr err => inr err
  | inl None => inl (MergePatchType, None)
  | inl (Some t) =>
      match NewPatchMetaFromStruct t with
      | inr err => inr err
      | inl meta => inl (StrategicMergePatchType, Some meta)
      end
  end.
Definition getPatchStyle (patchCache : gmap GVK (PatchType * option L)) (gvk : GVK)
    : gmap GVK (PatchType * option L) * result (PatchType * option L) :=
  match patchCache !! gvk with
  | Some entry => (patchCache, inl entry)
  | None =>
      match patch_style gvk with
      | inl entry => (<[gvk := entry]> patchCache, inl entry)
      | inr err => (patchCache, inr err)
      end
  end.
Fixpoint patch_styles (patchCache : gmap GVK (PatchType * option L)) (gvks : list GVK) : list (result (PatchType * option L)) :=
  match gvks with
  | [] => []
  | gvk :: gvks => let '(patchCache, r) := getPatchStyle patchCache gvk in r :: patch_styles patchCache gvks
  end.

(** The cache is not noticed: however kinds are asked for, each answer is the
    one of the scheme.  An error is not cached. *)
Theorem patch_cache_transparent gvks : patch_styles ∅ gvks = patch_style <$> gvks.
Proof.
  assert (∀ cache, map_Forall (λ g entry, patch_style g = inl entry) cache → patch_styles cache gvks = patch_style <$> gvks) as H.
  { induction gvks as [|g gvks IH]; intros cache Hc; [done|]. simpl. unfold getPatchStyle.
    destruct (cache !! g) as [entry|] eqn:Hg; [by rewrite (Hc _ _ Hg), (IH cache)|].
    destruct (patch_style g) as [entry|err] eqn:Hp; rewrite IH; try done.
    apply map_Forall_insert_2; done. }
  apply H, map_Forall_empty.
Qed.
End PatchStyle.
