(* ===== verification/Injectors.v ===== *)
(** * Injectors of object sets

    Models pkg/objectset/injectors: the registry of injectors (registry.go) and
    the YAML form of a set of objects (marshal.go), which an injector that runs a
    command would be given and give back; and the reader of YAML documents of
    k8s.io/apimachinery/pkg/util/yaml (vendor) it uses.

    How one object is written and read is the codec of ghodss/yaml, a class. *)

From S2P Require Import Prelude GoStrings Values Errors.
From Stdlib Require Import Ascii.

(** ** registry.go *)
Section Registry.
Context {I : Type}.
Record registry := mkRegistry { injectors : gmap string I; order : list string }.
Definition Register (r : registry) (name : string) (injector : I) : registry :=
  mkRegistry (<[name := injector]> (injectors r))
    (match injectors r !! name with Some _ => order r | None => order r ++ [name] end).
Definition Get (r : registry) (name : string) : option I := injectors r !! name.

(** The order lists each registered name once. *)
Definition registry_ordered (r : registry) : Prop := NoDup (order r) ∧ ∀ n, n ∈ order r ↔ is_Some (injectors r !! n).
Lemma Register_ordered r name injector : registry_ordered r → registry_ordered (Register r name injector).
Proof.
  intros [Hd Hn]. unfold Register, registry_ordered. simpl. destruct (injectors r !! name) as [i|] eqn:Hi; split; try done.
  - intros n. rewrite Hn, lookup_insert. case_decide; [|done]. subst. rewrite Hi. split; eauto.
  - apply NoDup_app. split; [done|]. split; [|apply NoDup_singleton].
    intros n Hin ->%list_elem_of_singleton. apply Hn in Hin as [? ?]. congruence.
  - intros n. rewrite elem_of_app, list_elem_of_singleton, Hn, lookup_insert. case_decide; [subst; by split; [eexists|right]|].
    split; [by intros [|]; [|congruence]|by left].
Qed.
End Registry.

(** ** Lines and documents *)
Definition newline : ascii := "010".
Definition strip_cr (s : string) : string := TrimSuffix s (String "013" "").
(** bufio's ReadLine until the end: lines without their ends; what follows the
    last end is a line if it is not empty. *)
Fixpoint terminated (l : list string) : list string :=
  match l with
  | [] => []
  | [s] => if decide (s = "") then [] else [s]
  | s :: l => strip_cr s :: terminated l
  end.
Definition read_lines (content : string) : list string := terminated (Split content newline).
(** A line as LineReader gives it. *)
Definition with_end (line : string) : string := line +:+ String newline "".
Definition yaml_separator (line : string) : bool :=
  HasPrefix line "---" && bool_decide (trim_right (str_drop 3 line) = "").
(** YAMLReader: the documents of the lines, of which [buffer] has been read.  A
    separator in front of a document belongs to it. *)
Fixpoint read_documents (lines : list string) (buffer : string) : list string :=
  match lines with
  | [] => if decide (buffer = "") then [] else [buffer]
  | line :: lines =>
      if yaml_separator line && bool_decide (buffer ≠ "") then buffer :: read_documents lines ""
      else read_documents lines (buffer +:+ with_end line)
  end.

(** ** marshal.go *)
Class YamlCodec (A : Type) := {
  yaml_Marshal : A → result string;
  yaml_Unmarshal : string → result (option obj);
  kind_string : A → string               (* GroupVersionKind, printed *)
}.
Section Marshal.
Context {A} `{codec : YamlCodec A}.
Fixpoint to_bytes (first : bool) (objects : list A) (buffer : string) : result string :=
  match objects with
  | [] => inl buffer
  | x :: objects =>
      let buffer := if first then buffer else buffer +:+ String newline ("---" +:+ String newline "") in
      match yaml_Marshal x with
      | inr err => inr (ErrorString ("failed to encode " +:+ kind_string x +:+ ": " +:+ Error err))
      | inl bytes => to_bytes false objects (buffer +:+ bytes)
      end
  end.
Definition ToBytes (objects : list A) : result string := to_bytes true objects "".
Fixpoint unmarshal_all (docs : list string) : result (list (option obj)) :=
  match docs with
  | [] => inl []
  | raw :: docs =>
      match yaml_Unmarshal raw with
      | inr err => inr err
      | inl data => match unmarshal_all docs with inr err => inr err | inl l => inl (data :: l) end
      end
  end.
Definition FromBytes (content : string) : result (list (option obj)) :=
  unmarshal_all (read_documents (read_lines content) "").

(** ** Round trip *)
Definition text (lines : list string) : string := foldr (λ line s, with_end line +:+ s) "" lines.
Definition plain_line (line : string) : Prop :=
  str_in newline line = false ∧ strip_cr line = line ∧ yaml_separator line = false.
(** What ghodss/yaml writes: at least one line, none of which ends in a carriage
    return or separates documents; what it reads back, also with an empty line
    behind it. *)
Definition writes (x : A) (data : option obj) : Prop :=
  ∃ lines, lines ≠ [] ∧ Forall plain_line lines ∧ yaml_Marshal x = inl (text lines) ∧
    yaml_Unmarshal (text lines) = inl data ∧ yaml_Unmarshal (text (lines ++ [""])) = inl data.

Lemma text_app l l' : text (l ++ l') = text l +:+ text l'.
Proof. induction l as [|x l IH]; simpl; [done|]. by rewrite IH, str_app_assoc. Qed.
Lemma with_end_not_empty line s : with_end line +:+ s ≠ "".
Proof. unfold with_end. by destruct line. Qed.

Lemma read_lines_text lines :
  Forall (λ line, str_in newline line = false ∧ strip_cr line = line) lines → read_lines (text lines) = lines.
Proof.
  unfold read_lines. induction 1 as [|line lines [Hn Hc] _ IH]; simpl; [done|].
  unfold with_end. rewrite str_app_assoc, str_app_cons. simpl. rewrite Split_cons by done.
  destruct (Split (text lines) newline) as [|x l] eqn:Hs; [by apply Split_nonempty in Hs|].
  change (strip_cr line :: terminated (x :: l) = line :: lines). by rewrite IH, Hc.
Qed.

Lemma read_plain lines rest buffer :
  Forall plain_line lines → read_documents (lines ++ rest) buffer = read_documents rest (buffer +:+ text lines).
Proof.
  intros Hl. revert buffer. induction Hl as [|line lines (_ & _ & Hs) _ IH]; intros buffer; simpl; [by rewrite str_app_nil_r|].
  rewrite Hs. simpl. by rewrite IH, str_app_assoc.
Qed.

(** The lines of a set, documents separated. *)
Fixpoint document_lines (docs : list (list string)) : list string :=
  match docs with [] => [] | [d] => d | d :: docs => d ++ "" :: "---" :: document_lines docs end.

Lemma to_bytes_text objects docs data buffer :
  Forall3 (λ x d (v : option obj), yaml_Marshal x = inl (text d)) objects docs data → docs ≠ [] →
  to_bytes true objects buffer = inl (buffer +:+ text (document_lines docs)).
Proof.
  assert (∀ objects docs data buffer, Forall3 (λ x d (v : option obj), yaml_Marshal x = inl (text d)) objects docs data →
    to_bytes false objects buffer = inl (buffer +:+ match docs with [] => "" | _ => text ("" :: "---" :: document_lines docs) end)) as Hrest.
  { clear. intros objects docs data buffer H. revert buffer. induction H as [|x d v objects docs data Hx _ IH]; intros buffer; simpl.
    - by rewrite str_app_nil_r.
    - rewrite Hx, IH. destruct docs as [|d' docs]; simpl; rewrite ?str_app_nil_r, !str_app_assoc; [done|].
      rewrite text_app. simpl. by rewrite ?str_app_assoc. }
  intros H Hne. destruct H as [|x d v objects docs data Hx H]; [done|]. simpl. rewrite Hx, (Hrest _ _ _ _ H).
  destruct docs as [|d' docs]; simpl; rewrite ?str_app_nil_r, ?str_app_assoc; [done|]. by rewrite text_app.
Qed.

Lemma plain_lines_readable docs :
  Forall (Forall plain_line) docs → Forall (λ line, str_in newline line = false ∧ strip_cr line = line) (document_lines docs).
Proof.
  induction 1 as [|d docs Hd _ IH]; [done|].
  assert (Forall (λ line, str_in newline line = false ∧ strip_cr line = line) d) as Hd' by (eapply Forall_impl; [done|]; by intros line (? & ? & _)).
  destruct docs as [|d' docs]; [done|]. change (document_lines (d :: d' :: docs)) with (d ++ "" :: "---" :: document_lines (d' :: docs)).
  apply Forall_app. split; [done|]. by repeat constructor.
Qed.

Lemma unmarshal_documents docs data :
  Forall2 (λ d v, d ≠ [] ∧ Forall plain_line d ∧ yaml_Unmarshal (text d) = inl v ∧ yaml_Unmarshal (text (d ++ [""])) = inl v) docs data →
  unmarshal_all (read_documents (document_lines docs) "") = inl data.
Proof.
  induction 1 as [|d v docs data (Hne & Hp & Hu & Hu') H IH]; [done|].
  assert (∀ l, text (d ++ l) ≠ "") as Htext by (intros l; destruct d; [done|apply with_end_not_empty]).
  destruct docs as [|d' docs].
  - inversion H; subst. change (document_lines [d]) with d. rewrite <- (app_nil_r d), read_plain by done. simpl.
    rewrite decide_False by (specialize (Htext []); by rewrite app_nil_r in Htext). simpl. by rewrite Hu.
  - change (document_lines (d :: d' :: docs)) with (d ++ [""] ++ "---" :: document_lines (d' :: docs)).
    rewrite read_plain by done. cbn [app read_documents]. change (yaml_separator "") with false. simpl.
    assert ("" +:+ text d +:+ with_end "" = text (d ++ [""])) as Ht by (by rewrite text_app).
    simpl in Ht. rewrite Ht. rewrite bool_decide_true by done. cbn [andb unmarshal_all]. rewrite Hu'.
    change (document_lines (d' :: docs)) with (match docs with [] => d' | _ :: _ => d' ++ "" :: "---" :: document_lines docs end) in IH.
    by rewrite IH.
Qed.

(** What was written is read back: each object's data, in order, however many
    objects there are, none included. *)
Theorem objects_roundtrip objects data :
  Forall2 writes objects data → ∃ bytes, ToBytes objects = inl bytes ∧ FromBytes bytes = inl data.
Proof.
  intros H. destruct objects as [|x objects]; [inversion H; subst; by exists ""|].
  assert (∃ docs, Forall3 (λ x d (v : option obj), yaml_Marshal x = inl (text d)) (x :: objects) docs data ∧
    Forall2 (λ d v, d ≠ [] ∧ Forall plain_line d ∧ yaml_Unmarshal (text d) = inl v ∧ yaml_Unmarshal (text (d ++ [""])) = inl v) docs data)
    as (docs & Hm & Hd).
  { revert H. generalize (x :: objects). intros l Hl. induction Hl as [|y v objs data (d & Hne & Hp & Hm & Hu & Hu') _ (docs & IHm & IHd)]; [exists []; by split; constructor|].
    exists (d :: docs). by split; constructor. }
  exists (text (document_lines docs)). split.
  - unfold ToBytes. rewrite (to_bytes_text _ docs data) by (assumption || (intros ->; inversion Hm)). done.
  - unfold FromBytes. rewrite read_lines_text; [by apply unmarshal_documents|]. apply plain_lines_readable.
    clear Hm H. induction Hd as [|d v docs data (_ & Hp & _) _ IH]; by constructor.
Qed.
End Marshal.

(** An object is its name here. *)
Section Example.
#[local] Instance name_codec : YamlCodec string :=
  {| yaml_Marshal := λ s, inl (with_end ("name: " +:+ s));
     yaml_Unmarshal := λ s, match Split2 s (String newline "") with line :: _ => inl (Some {[ "name" := VStr (str_drop 6 line) ]}) | [] => inl None end;
     kind_string := λ _, "v1, Kind=Name" |}.
Example two_objects :
  match ToBytes ["a"; "b"] with
  | inl bytes => match FromBytes bytes with inl l => (λ o, as_string (mget o "name")) <$> l = ["a"; "b"] | inr _ => False end
  | inr _ => False
  end.
Proof. vm_compute. reflexivity. Qed.
(** An empty list gives nothing, an empty text too. *)
Example no_objects : ToBytes (A := string) [] = inl "" ∧ FromBytes (A := string) "" = inl [].
Proof. split; reflexivity. Qed.
End Example.
