(* ===== verification/Throttle.v ===== *)
(** * Delaying and processing object sets

    pkg/objectset: template.go, the processor that makes desired sets, and the
    rate limiters of desiredset_apply.go in front of [Apply].  Every set has a
    token bucket under its hash, made when the set is first applied and dropped
    when it is removed.  The bucket is client-go's and a class here; times are
    seconds.  Getting a limiter and taking a token are one step. *)

From S2P Require Import Prelude GoStrings Values Errors Base64 Query Stores ObjectSet.

(** ** The token bucket

    NewTokenBucketRateLimiter(qps, burst) with qps = [rate_tokens] /
    [rate_seconds]: full at first, refilled at this rate and never above the
    burst. *)
Class RateLimiter (B : Type) := {
  NewTokenBucketRateLimiter : Z → Z → Z → B;
  TryAccept : Z → B → B * bool
}.
Fixpoint accepts {B} `{RateLimiter B} (b : B) (times : list Z) : Z :=
  match times with
  | [] => 0
  | now :: times => let '(b, ok) := TryAccept now b in (if ok then 1 else 0) + accepts b times
  end.
(** How long the times are apart that follow [t]. *)
Definition spell (t : Z) (times : list Z) : Z := default t (last times) - t.
(** The documented bound on what a new bucket gives out. *)
Class BucketLaw (B : Type) `{RateLimiter B} :=
  bucket_bound : ∀ tokens seconds burst t times, 0 < tokens → 0 < seconds → 0 ≤ burst → StronglySorted Z.le (t :: times) →
    seconds * accepts (NewTokenBucketRateLimiter tokens seconds burst) (t :: times) ≤ seconds * burst + tokens * spell t times.

(** ** template.go *)
Section Throttle.
Context {W B : Type} `{RateLimiter B} `{KubeCodec} `{Gzip} `{Digest} `{SortSlice}.
Variable client : KubeClient W.

Record Processor := mkProcessor {
  p_setID : string;
  p_codeVersion : string;
  p_discovery : option (GVK → result bool);
  p_clients : gset GVK
}.
Definition NewProcessor (setID : string) : Processor := mkProcessor setID "" None ∅.
Definition CodeVersion (t : Processor) (version : string) : Processor := mkProcessor (p_setID t) version (p_discovery t) (p_clients t).
Definition AllowDiscovery (t : Processor) (discovery : GVK → result bool) : Processor :=
  mkProcessor (p_setID t) (p_codeVersion t) (Some discovery) (p_clients t).
(** Client: by their kinds. *)
Definition Processor_Client (t : Processor) (clients : list GVK) : Processor :=
  mkProcessor (p_setID t) (p_codeVersion t) (p_discovery t) (foldl (λ s g, {[ g ]} ∪ s) (p_clients t) clients).
Definition Processor_NewDesiredSet (t : Processor) (owner : option kobject) (objs : option ObjectSet) : DesiredSet :=
  NewDesiredSet (p_setID t) (p_codeVersion t) (p_discovery t) (p_clients t) owner objs.

(** ** desiredset_apply.go: the limiter of a set *)
Abbreviation limiters := (gmap string B).
Definition new_bucket : B := NewTokenBucketRateLimiter 4 60 10.
Definition getRateLimit (o : DesiredSet) (rls : limiters) (inputID : string) : limiters * option B :=
  if ds_remove o then (delete inputID rls, None)
  else match rls !! inputID with
  | Some rl => (rls, Some rl)
  | None => (<[inputID := new_bucket]> rls, Some new_bucket)
  end.
(** The label under which a set is limited, if Apply comes that far. *)
Definition limited_as (o : DesiredSet) : option string :=
  match DesiredSet_Err o, getLabelsAndAnnotations o with
  | None, inl (labelSet, _) => Some (default "" (labelSet !! LabelHash))
  | _, _ => None
  end.
Definition try (now : Z) (o : DesiredSet) (rls : limiters) : limiters * bool :=
  match limited_as o with
  | None => (rls, true)
  | Some hash =>
      let '(rls, rl) := getRateLimit o rls hash in
      match rl with
      | None => (rls, true)
      | Some rl => let '(rl, ok) := TryAccept now rl in (<[hash := rl]> rls, ok)
      end
  end.
Definition Apply_now (now : Z) (o : DesiredSet) : prog (limiters * W) (option error) := λ '(rls, w),
  let '(rls, ok) := try now o rls in
  let '(w, r) := ObjectSet.Apply client o ok w in ((rls, w), r).
Definition Processor_Remove (now : Z) (t : Processor) (owner : option kobject) : prog (limiters * W) (option error) :=
  Apply_now now (Processor_NewDesiredSet t owner None).

(** ** What the limiters do

    Applies one after another, at their times. *)
Abbreviation event := (Z * DesiredSet)%type.
Fixpoint run_tries (rls : limiters) (l : list event) : limiters * list (option string * bool) :=
  match l with
  | [] => (rls, [])
  | (now, o) :: l =>
      let '(rls, ok) := try now o rls in
      let '(rls, oks) := run_tries rls l in (rls, (limited_as o, ok) :: oks)
  end.
Definition counts_for (h : string) (x : option string * bool) : bool := bool_decide (x.1 = Some h) && x.2.
(** How many of them were let through under a hash. *)
Definition let_through (h : string) (rls : limiters) (l : list event) : Z := Z.of_nat (length (List.filter (counts_for h) (run_tries rls l).2)).
Definition is_for (h : string) (e : event) : bool := bool_decide (limited_as e.2 = Some h).
Definition times_of (h : string) (l : list event) : list Z := (List.filter (is_for h) l).*1.
Definition kept (h : string) (l : list event) : Prop := Forall (λ e, limited_as e.2 = Some h → ds_remove e.2 = false) l.
Definition bucket (h : string) (rls : limiters) : B := default new_bucket (rls !! h).

(** A try is only about the bucket of its hash. *)
Lemma try_others now o rls h : limited_as o ≠ Some h → (try now o rls).1 !! h = rls !! h.
Proof.
  unfold try, getRateLimit. destruct (limited_as o) as [h'|]; [|done]. intros Hne.
  assert (h' ≠ h) by congruence.
  destruct (ds_remove o); [by apply lookup_delete_ne|].
  destruct (rls !! h') as [b|]; cbv beta iota zeta; (destruct (TryAccept _ _) as [b' ok]); simpl; by rewrite ?lookup_insert_ne.
Qed.
Lemma try_own now o rls h :
  limited_as o = Some h → ds_remove o = false →
  try now o rls = let '(rl, ok) := TryAccept now (bucket h rls) in (<[h := rl]> (<[h := bucket h rls]> rls), ok).
Proof.
  intros Ho Hr. unfold try, getRateLimit, bucket. rewrite Ho, Hr.
  destruct (rls !! h) as [rl|] eqn:Hrl; simpl; [|done]. by rewrite insert_id.
Qed.
Lemma bucket_insert h b rls : bucket h (<[h := b]> rls) = b.
Proof. unfold bucket. by rewrite lookup_insert_eq. Qed.
Lemma let_through_accepts h l : ∀ rls, kept h l → let_through h rls l = accepts (bucket h rls) (times_of h l).
Proof.
  unfold let_through. induction l as [|[now o] l IH]; intros rls Hk; [done|]. apply Forall_cons in Hk as [Ho Hk]. simpl in Ho.
  unfold times_of. cbn [run_tries List.filter]. unfold is_for at 1. cbn [snd].
  case_bool_decide as Hh.
  - rewrite (try_own now o rls h) by auto. cbn [fmap list_fmap accepts fst]. destruct (TryAccept now (bucket h rls)) as [rl ok].
    specialize (IH (<[h:=rl]> (<[h:=bucket h rls]> rls)) Hk). rewrite bucket_insert in IH.
    destruct (run_tries _ l) as [rls' oks]. simpl in IH |- *. unfold counts_for at 1. simpl. rewrite bool_decide_true by done.
    destruct ok; simpl; unfold times_of in IH; lia.
  - destruct (try now o rls) as [rls1 ok] eqn:Ht. assert (rls1 !! h = rls !! h) as He by (rewrite <- (try_others now o rls h Hh), Ht; done).
    specialize (IH rls1 Hk). unfold bucket in IH |- *. rewrite He in IH. destruct (run_tries rls1 l) as [rls' oks]. simpl in IH |- *.
    unfold counts_for at 1. simpl. rewrite bool_decide_false by done. done.
Qed.
Lemma times_within h t0 t1 l :
  StronglySorted Z.le (l.*1) → Forall (λ e, t0 ≤ e.1 ≤ t1) l → StronglySorted Z.le (times_of h l) ∧ Forall (λ t, t0 ≤ t ≤ t1) (times_of h l).
Proof.
  unfold times_of. induction l as [|[t o] l IH]; intros Hs Hf; [by split; constructor|].
  apply StronglySorted_inv in Hs as [Hs Ht]. apply Forall_cons in Hf as [Hto Hf]. destruct (IH Hs Hf) as [Hs' Hf']. simpl.
  destruct (is_for h (t, o)); [|done]. simpl. split; constructor; [done| |done|done].
  apply Forall_forall. intros x (e & -> & He)%list_elem_of_fmap. rewrite Forall_forall in Ht. apply Ht, list_elem_of_fmap.
  exists e. split; [done|]. apply list_elem_of_In in He. apply list_elem_of_In. by apply filter_In in He as [He _].
Qed.

(** A set that was not known is let through at most ten times at once and then
    four times a minute, whatever other sets are applied or removed meanwhile
    and as long as it is not removed itself. *)
Theorem applies_bounded `{!BucketLaw B} h rls l t0 t1 :
  rls !! h = None → kept h l → StronglySorted Z.le (l.*1) → Forall (λ e, t0 ≤ e.1 ≤ t1) l → t0 ≤ t1 →
  60 * let_through h rls l ≤ 600 + 4 * (t1 - t0).
Proof.
  intros Hn Hk Hs Hf Hle. rewrite let_through_accepts by done. unfold bucket. rewrite Hn. simpl.
  destruct (times_within h t0 t1 l Hs Hf) as [Hst Hft]. destruct (times_of h l) as [|t ts]; [simpl; lia|].
  pose proof (bucket_bound 4 60 10 t ts ltac:(lia) ltac:(lia) ltac:(lia) Hst) as Hb. fold new_bucket in Hb.
  assert (spell t ts ≤ t1 - t0).
  { apply Forall_cons in Hft as [Ht Hft]. unfold spell. destruct (last ts) as [t'|] eqn:Hl; simpl; [|lia].
    apply last_Some_elem_of in Hl. eapply Forall_forall in Hft; [|exact Hl]. simpl in Hft. lia. }
  lia.
Qed.

(** A set that is delayed has asked the cluster for nothing; one that is removed
    is never delayed, and its bucket is gone. *)
Theorem delayed_or_applied now o rls w :
  match try now o rls with
  | (rls', true) => Apply_now now o (rls, w) = (let '(w', r) := ObjectSet.Apply client o true w in ((rls', w'), r))
  | (rls', false) => Apply_now now o (rls, w) = ((rls', w), Ret (Some (Conflict "delaying object set"))) ∧ ds_remove o = false
  end.
Proof.
  unfold Apply_now. destruct (try now o rls) as [rls' []] eqn:Ht; [done|].
  unfold try, limited_as in Ht. destruct (DesiredSet_Err o) eqn:He; [done|].
  destruct (getLabelsAndAnnotations o) as [[labels annotations]|e] eqn:Hl; [|done].
  unfold getRateLimit in Ht. destruct (ds_remove o) eqn:Hr; [done|]. split; [|done].
  unfold ObjectSet.Apply. by rewrite He, Hl, Hr.
Qed.
Theorem removed_is_forgotten now o rls h :
  limited_as o = Some h → ds_remove o = true → try now o rls = (delete h rls, true).
Proof. intros Ho Hr. unfold try, getRateLimit. by rewrite Ho, Hr. Qed.
End Throttle.

(** ** A token bucket

    In units of one token over [seconds]; the law can hold. *)
Record tokens := mkTokens { tk_rate : Z; tk_unit : Z; tk_cap : Z; tk_level : Z; tk_last : option Z }.
#[export] Instance token_bucket : RateLimiter tokens := {|
  NewTokenBucketRateLimiter := λ t s b, mkTokens t s (s * b) (s * b) None;
  TryAccept := λ now b,
    let level := tk_level b + tk_rate b * (now - default now (tk_last b)) in
    let level := Z.min (tk_cap b) level in
    if decide (tk_unit b ≤ level) then (mkTokens (tk_rate b) (tk_unit b) (tk_cap b) (level - tk_unit b) (Some now), true)
    else (mkTokens (tk_rate b) (tk_unit b) (tk_cap b) level (Some now), false)
|}.
Lemma spell_cons t t' times : spell t (t' :: times) = (t' - t) + spell t' times.
Proof. unfold spell. destruct times as [|x l]; [simpl; lia|]. rewrite last_cons_cons. destruct (last (x :: l)) eqn:E; simpl; [lia|]. by apply last_None in E. Qed.
Lemma level_bounds rate unit cap times : 0 < rate → 0 < unit → 0 ≤ cap → ∀ level t, StronglySorted Z.le (t :: times) → 0 ≤ level →
  unit * accepts (mkTokens rate unit cap level (Some t)) times ≤ level + rate * spell t times.
Proof.
  intros Hr Hu Hc. induction times as [|t' times IH]; intros level t Hs Hl; [unfold spell; simpl; lia|].
  apply StronglySorted_inv in Hs as [Hs Ht]. apply Forall_cons in Ht as [Ht _]. rewrite spell_cons.
  cbn [accepts TryAccept token_bucket tk_level tk_rate tk_last tk_cap tk_unit from_option id].
  set (lv := Z.min cap (level + rate * (t' - t))). assert (0 ≤ lv ≤ level + rate * (t' - t)) by (subst lv; nia).
  destruct (decide (unit ≤ lv)) as [Hd|Hd].
  - cbv beta iota. specialize (IH (lv - unit) t' Hs ltac:(lia)). nia.
  - cbv beta iota. specialize (IH lv t' Hs ltac:(lia)). nia.
Qed.
#[export] Instance token_bucket_law : BucketLaw tokens.
Proof.
  intros rate unit burst t times Hr Hu Hb Hs. set (full := unit * burst). assert (0 ≤ full) by (subst full; nia).
  pose proof (level_bounds rate unit full times Hr Hu ltac:(done)) as Hlv.
  cbn [accepts NewTokenBucketRateLimiter TryAccept token_bucket tk_level tk_rate tk_last tk_cap tk_unit from_option id]. fold full.
  replace (Z.min full (full + rate * (t - t))) with full by lia.
  destruct (decide (unit ≤ full)) as [Hd|Hd].
  - cbv beta iota. specialize (Hlv (full - unit) t Hs ltac:(lia)). nia.
  - cbv beta iota. specialize (Hlv full t Hs ltac:(done)). nia.
Qed.

(** ** Example: eleven times at once, again after fifteen seconds, removed, and
    at once again. *)
Section Example.
#[local] Existing Instances std_codec no_gzip std_digest std_sort.
Definition secrets_processor : Processor := Processor_Client (NewProcessor "s") [secret_kind].
Definition applied_secrets : DesiredSet := Processor_NewDesiredSet secrets_processor None (Some two_secrets).
Definition removed_secrets : DesiredSet := Processor_NewDesiredSet secrets_processor None None.
Definition busy : list (Z * DesiredSet) :=
  replicate 11 (0, applied_secrets) ++ [(15, applied_secrets); (15, applied_secrets); (15, removed_secrets); (15, applied_secrets)].
Example busy_set :
  (run_tries (B := tokens) ∅ busy).2.*2 = replicate 10 true ++ [false; true; false; true; true] ∧
  match limited_as applied_secrets with
  | Some h => let_through (B := tokens) h ∅ (take 12 busy) = 11 ∧ kept h (take 12 busy) ∧ StronglySorted Z.le (take 12 busy).*1
  | None => False
  end.
Proof.
  split; [by vm_compute|]. vm_compute limited_as. split_and!; [by vm_compute| |]; repeat constructor; done.
Qed.
End Example.
