(* ===== verification/Client.v ===== *)
(** * The client library

    Models clientbase/common.go and clientbase/ops.go, the HTTP client of the
    API: how it finds the schemas of an API, which requests its operations
    send, and how it reads the answers.

    The HTTP client is a record of operations on a world, as a store is;
    encoding/json and net/url are classes.  What a caller gets is the decoded
    body.  The debug output and the closing of bodies are left out. *)

From S2P Require Import Prelude GoStrings Values Errors TypeNames Convert Base64 Schemas Query Http Urls Parse Stores.
From Stdlib Require Import Ascii.

(** ** What the client works with *)
Record Response := mkResponse {
  StatusCode : Z;
  Status : string;
  RespHeader : Header;
  RespBody : string * option error       (* ioutil.ReadAll: what was read, and the error *)
}.
Record outgoing := mkOutgoing {
  out_Method : string;
  out_URL : string;
  out_Header : Header;
  out_Body : option string
}.
Inductive transport := GivenTransport | RootCAs (pem : string) | InsecureSkipVerify.
Record HttpClient (W : Type) := mkHttpClient {
  NewRequest : string → string → option error;     (* the error of http.NewRequest for a method and a URL *)
  Do : transport → outgoing → prog W (result Response)
}.
Arguments NewRequest {W}.
Arguments Do {W}.

(** types.Resource, as far as it is decoded, and types.Schema with its links. *)
Record Resource := mkResource { ResType : string; ResLinks : gmap string string; ResActions : gmap string string }.
Record ClientSchema := mkClientSchema { cs_Schema : Schema; cs_Links : gmap string string }.

Class ClientJSON := {
  json_Marshal : value → result string;
  json_Unmarshal : string → result value;
  json_object : string → result (option obj);              (* into a map *)
  json_schemas : string → result (list ClientSchema)       (* into types.SchemaCollection *)
}.
(** net/url: a parsed URL whose query can be replaced. *)
Class UrlEdit := {
  parsed_url : Type;
  url_Parse : string → result parsed_url;
  RawQuery : parsed_url → string;
  set_RawQuery : parsed_url → string → parsed_url;
  url_String : parsed_url → string;
  RawQuery_set : ∀ u q, RawQuery (set_RawQuery u q) = q;
  url_Parse_String : ∀ s u q, url_Parse s = inl u →         (* a URL with a new query is printed as it is parsed *)
    url_Parse (url_String (set_RawQuery u (Values_Encode q))) = inl (set_RawQuery u (Values_Encode q))
}.

(** The errors of the package: its own APIError, and others. *)
Inductive client_error :=
| ResponseError (code : Z) (url msg status body : string)
| OtherError (err : error).
Definition client_errorf (msg : string) : client_error := OtherError (ErrorString msg).
Abbreviation answer A := (A + client_error)%type.

Record ClientOpts := mkClientOpts {
  OptURL : string;
  AccessKey : string;
  SecretKey : string;
  TokenKey : string;
  CACerts : string;
  Insecure : bool
}.
Definition getAuthHeader (c : ClientOpts) : string :=
  if negb (bool_decide (TokenKey c = "")) then "Bearer " +:+ TokenKey c
  else if negb (bool_decide (AccessKey c = "")) && negb (bool_decide (SecretKey c = "")) then
    "Basic " +:+ encode (AccessKey c +:+ ":" +:+ SecretKey c)
  else "".

Definition client_IsNotFound (err : client_error) : bool :=
  match err with ResponseError code _ _ _ _ => bool_decide (code = 404) | OtherError _ => false end.

Record APIBaseClient := mkAPIClient {
  Ops : option (ClientOpts * transport);      (* nil until NewAPIClient is done *)
  Types : gmap string ClientSchema
}.

(** strings matched by schemas.* are replaced; [plural] has no dollar sign, which
    would be a template. *)
Fixpoint replace_schemas (skip : bool) (plural s : string) : string :=
  match s with
  | "" => ""
  | String c s' =>
      if skip then
        if decide (c = "010"%char) then String c (replace_schemas false plural s') else replace_schemas true plural s'
      else if HasPrefix s "schemas" then plural +:+ replace_schemas true plural s'
      else String c (replace_schemas false plural s')
  end.

Section Client.
Context {W : Type} `{MapRange} `{GoFormat} `{ClientJSON} `{UrlEdit}.
Variable http : HttpClient W.
Variable sprint_resource : Resource → string.      (* the %v of a resource *)

Definition NewClientError (resp : Response) (url : string) : client_error :=
  let '(contents, err) := RespBody resp in
  let body := match err with Some _ => "Unreadable body." | None => contents end in
  let body := match json_object contents with
              | inr _ => body
              | inl data =>
                  foldl (λ buf (e : string * value),
                           if decide (e.1 ∈ ["id"; "links"; "actions"; "type"; "status"]) then buf
                           else match e.2 with
                                | VNil => buf
                                | v => (if decide (buf = "") then "" else buf +:+ ", ") +:+ e.1 +:+ "=" +:+ Sprint v
                                end)
                    "" (range (default ∅ data))
              end in
  ResponseError (StatusCode resp) url
    ("Bad response statusCode [" +:+ itoa (StatusCode resp) +:+ "]. Status [" +:+ Status resp +:+ "]. Body: [" +:+ body
       +:+ "] from [" +:+ url +:+ "]") (Status resp) body.

Definition filter_values (v : value) : list string := match v with VStrs l => l | _ => [Sprint v] end.
Definition appendFilters (urlString : string) (filters : gmap string value) : result string :=
  if decide (filters = ∅) then inl urlString
  else match url_Parse urlString with
  | inr err => inr err
  | inl u =>
      let q := foldl (λ q (e : string * value), foldl (λ q v, Values_Add q e.1 v) q (filter_values e.2))
                 (ParseQuery (RawQuery u)) (range filters) in
      inl (url_String (set_RawQuery u (Values_Encode q)))
  end.

(** ** clientbase/ops.go *)
Section Operations.
Variables (opts : ClientOpts) (tr : transport) (Types : gmap string ClientSchema).

Definition authorized : Header := {[ "Authorization" := [getAuthHeader opts] ]}.
(** http.NewRequest, SetupRequest and Client.Do *)
Definition send (method url : string) (header : Header) (body : option string) : prog W (answer Response) :=
  match NewRequest http method url with
  | Some err => mret (inr (OtherError err))
  | None => r ← Do http tr (mkOutgoing method url header body);
            mret match r with inl resp => inl resp | inr err => inr (OtherError err) end
  end.

Definition DoDelete (url : string) : prog W (option client_error) :=
  r ← send "DELETE" url authorized None;
  mret match r with
       | inr err => Some err
       | inl resp => if 300 <=? StatusCode resp then Some (NewClientError resp url) else None
       end.

(** The body of an answer that is not an error. *)
Definition read_all (resp : Response) : answer string :=
  match RespBody resp with (_, Some err) => inr (OtherError err) | (contents, None) => inl contents end.

Definition DoGet (url : string) (filters : gmap string value) : prog W (answer value) :=
  match appendFilters url filters with
  | inr err => mret (inr (OtherError err))
  | inl url =>
      r ← send "GET" url authorized None;
      mret match r with
           | inr err => inr err
           | inl resp =>
               if bool_decide (StatusCode resp = 200) then
                 match read_all resp with
                 | inr err => inr err
                 | inl contents =>
                     match json_Unmarshal contents with
                     | inl v => inl v
                     | inr err => inr (client_errorf ("Failed to parse: " +:+ contents +:+ ": " +:+ Error err))
                     end
                 end
               else inr (NewClientError resp url)
           end
  end.

Definition unknown_type (schemaType : string) : client_error := client_errorf ("Unknown schema type [" +:+ schemaType +:+ "]").
(** The schema of a type that offers a method. *)
Definition offering (schemaType method : string) (methods : Schema → list string) (what : string) : answer ClientSchema :=
  match Types !! schemaType with
  | None => inr (unknown_type schemaType)
  | Some schema =>
      if ContainsString (methods (cs_Schema schema)) method then inl schema
      else inr (client_errorf ("Resource type [" +:+ schemaType +:+ "] " +:+ what))
  end.

Definition DoList (schemaType : string) (filters : gmap string value) : prog W (answer value) :=
  match offering schemaType "GET" CollectionMethods "is not listable" with
  | inr err => mret (inr err)
  | inl schema =>
      match cs_Links schema !! "collection" with
      | None => mret (inr (client_errorf ("Resource type [" +:+ schemaType +:+ "] does not have a collection URL")))
      | Some url => DoGet url filters
      end
  end.
Definition DoNext (nextURL : string) : prog W (answer value) := DoGet nextURL ∅.

(** A nil object is sent as an empty map; an empty body leaves the result as it
    is. *)
Definition DoModify (method url : string) (createObj : option value) : prog W (answer (option value)) :=
  match json_Marshal (default (VMap ∅) createObj) with
  | inr err => mret (inr (OtherError err))
  | inl body =>
      r ← send method url (<["Content-Type" := ["application/json"]]> authorized) (Some body);
      mret match r with
           | inr err => inr err
           | inl resp =>
               if 300 <=? StatusCode resp then inr (NewClientError resp url)
               else match read_all resp with
                    | inr err => inr err
                    | inl contents =>
                        if decide (contents = "") then inl None
                        else match json_Unmarshal contents with inl v => inl (Some v) | inr err => inr (OtherError err) end
                    end
           end
  end.

Definition DoCreate (schemaType : string) (createObj : option value) : prog W (answer (option value)) :=
  match offering schemaType "POST" CollectionMethods "is not creatable" with
  | inr err => mret (inr err)
  | inl schema =>
      let url := match cs_Links schema !! "collection" with
                 | Some url => url
                 | None => replace_schemas false (PluralName (cs_Schema schema)) (default "" (cs_Links schema !! "self"))
                 end in
      DoModify "POST" url createObj
  end.

Definition no_self (existing : Resource) : client_error :=
  client_errorf ("failed to find self URL of [" +:+ sprint_resource existing +:+ "]").
(** The URL of an update: the self link, which asks to replace if need be. *)
Definition update_url (replace : bool) (selfURL : string) : answer string :=
  if negb replace then inl selfURL
  else match url_Parse selfURL with
       | inr err => inr (client_errorf ("failed to parse url " +:+ selfURL +:+ ": " +:+ Error err))
       | inl u => inl (url_String (set_RawQuery u (Values_Encode (Values_Set (ParseQuery (RawQuery u)) "_replace" "true"))))
       end.
Definition doUpdate (schemaType : string) (replace : bool) (existing : option Resource) (updates : option value)
  : prog W (answer (option value)) :=
  match existing with
  | None => mret (inr (client_errorf "Existing object is nil"))
  | Some existing =>
      match ResLinks existing !! "self" with
      | None => mret (inr (no_self existing))
      | Some selfURL =>
          match update_url replace selfURL with
          | inr err => mret (inr err)
          | inl url =>
              match offering schemaType "PUT" ResourceMethods "is not updatable" with
              | inr err => mret (inr err)
              | inl _ => DoModify "PUT" url updates
              end
          end
      end
  end.
Definition DoUpdate (schemaType : string) := doUpdate schemaType false.
Definition DoReplace (schemaType : string) := doUpdate schemaType true.

Definition DoByID (schemaType id : string) : prog W (answer value) :=
  match offering schemaType "GET" ResourceMethods "can not be looked up by ID" with
  | inr err => mret (inr err)
  | inl schema =>
      match cs_Links schema !! "collection" with
      | None => mret (inr (client_errorf ("Failed to find collection URL for [" +:+ schemaType +:+ "]")))
      | Some url => DoGet (url +:+ "/" +:+ id) ∅
      end
  end.

Definition DoResourceDelete (schemaType : string) (existing : Resource) : prog W (option client_error) :=
  match offering schemaType "DELETE" ResourceMethods "can not be deleted" with
  | inr err => mret (Some err)
  | inl _ =>
      match ResLinks existing !! "self" with
      | None => mret (Some (no_self existing))
      | Some selfURL => DoDelete selfURL
      end
  end.

(** doAction; [want]: there is an object for the answer. *)
Definition doAction (schemaType actionURL : string) (input : option value) (want : bool) : prog W (answer (option value)) :=
  match Types !! schemaType, json_Marshal <$> input with
  | None, _ => mret (inr (unknown_type schemaType))
  | Some _, Some (inr err) => mret (inr (OtherError err))
  | Some _, body =>
      let body := match body with Some (inl b) => Some b | _ => None end in
      r ← send "POST" actionURL (<["Content-Length" := ["0"]]> (<["Content-Type" := ["application/json"]]> authorized)) body;
      mret match r with
           | inr err => inr err
           | inl resp =>
               if 300 <=? StatusCode resp then inr (NewClientError resp actionURL)
               else match read_all resp with
                    | inr err => inr err
                    | inl contents =>
                        if want then match json_Unmarshal contents with inl v => inl (Some v) | inr err => inr (OtherError err) end
                        else inl None
                    end
           end
  end.
(** DoAction and DoCollectionAction: the actions of a resource or of a collection. *)
Definition DoAction (schemaType action : string) (existing : option Resource) (input : option value) (want : bool)
  : prog W (answer (option value)) :=
  match existing with
  | None => mret (inr (client_errorf "Existing object is nil"))
  | Some existing =>
      match ResActions existing !! action with
      | None => mret (inr (client_errorf ("action [" +:+ action +:+ "] not available on [" +:+ sprint_resource existing +:+ "]")))
      | Some url => doAction schemaType url input want
      end
  end.
End Operations.

(** ** clientbase/common.go *)
Definition client_transport (opts : ClientOpts) : transport :=
  if Insecure opts then InsecureSkipVerify
  else if decide (CACerts opts = "") then GivenTransport else RootCAs (CACerts opts).

(** NewAPIClient; [certs_ok] is AppendCertsFromPEM.  Bad certificates end it
    without an error. *)
Definition NewAPIClient (certs_ok : string → bool) (opts : ClientOpts) : prog W (APIBaseClient * option client_error) :=
  let result := mkAPIClient None ∅ in
  let tr := client_transport opts in
  let finish (resp : Response) :=
    match read_all resp with
    | inr err => (result, Some err)
    | inl contents =>
        match json_schemas contents with
        | inr err => (result, Some (OtherError err))
        | inl data => (mkAPIClient (Some (opts, tr)) (foldl (λ ts sc, <[ID (cs_Schema sc) := sc]> ts) ∅ data), None)
        end
    end in
  if negb (bool_decide (CACerts opts = "")) && negb (certs_ok (CACerts opts)) then mret (result, None)
  else
    r ← send tr "GET" (OptURL opts) (authorized opts) None;
    match r with
    | inr err => mret (result, Some err)
    | inl resp =>
        let schemasURLs := Header_Get (RespHeader resp) "X-API-Schemas" in
        if negb (bool_decide (StatusCode resp = 200)) then mret (result, Some (NewClientError resp (OptURL opts)))
        else if decide (schemasURLs = "") then
          mret (result, Some (client_errorf ("Failed to find schema at [" +:+ OptURL opts +:+ "]")))
        else if decide (schemasURLs = OptURL opts) then mret (finish resp)
        else
          r ← send tr "GET" schemasURLs (authorized opts) None;
          mret match r with
               | inr err => (result, Some err)
               | inl resp =>
                   if bool_decide (StatusCode resp = 200) then finish resp
                   else (result, Some (NewClientError resp schemasURLs))
               end
    end.

(** The headers Websocket dials with: the loop that copies the headers of the
    caller ranges over the new, empty map. *)
Definition websocket_header (opts : option ClientOpts) (headers : Header) : Header :=
  let httpHeaders : Header := ∅ in
  let httpHeaders := foldl (λ h (e : string * list string), <[e.1 := e.2]> h) httpHeaders (range httpHeaders) in
  match opts with
  | Some o => Values_Add httpHeaders "Authorization" (getAuthHeader o)
  | None => httpHeaders
  end.

(** The methods of the client pass on to those above; without operations they
    panic. *)
Section Methods.
Variable a : APIBaseClient.
Definition with_ops {A} (f : ClientOpts → transport → gmap string ClientSchema → prog W A) : prog W A :=
  match Ops a with None => lift Panic | Some (opts, tr) => f opts tr (Types a) end.
Definition client_List (schemaType : string) (filters : gmap string value) : prog W (answer value) :=
  with_ops (λ o tr ts, DoList o tr ts schemaType filters).
Definition client_Post (url : string) (createObj : option value) : prog W (answer (option value)) :=
  with_ops (λ o tr _, DoModify o tr "POST" url createObj).
Definition client_GetLink (resource : Resource) (link : string) : prog W (answer value) :=
  let url := default "" (ResLinks resource !! link) in
  if decide (url = "") then mret (inr (client_errorf ("failed to find link: " +:+ link)))
  else with_ops (λ o tr _, DoGet o tr url ∅).
Definition client_Create (schemaType : string) (createObj : option value) : prog W (answer (option value)) :=
  with_ops (λ o tr ts, DoCreate o tr ts schemaType createObj).
Definition client_Update (schemaType : string) (existing : option Resource) (updates : option value) : prog W (answer (option value)) :=
  with_ops (λ o tr ts, DoUpdate o tr ts schemaType existing updates).
Definition client_Replace (schemaType : string) (existing : option Resource) (updates : option value) : prog W (answer (option value)) :=
  with_ops (λ o tr ts, DoReplace o tr ts schemaType existing updates).
Definition client_ByID (schemaType id : string) : prog W (answer value) :=
  with_ops (λ o tr ts, DoByID o tr ts schemaType id).
Definition client_Delete (existing : option Resource) : prog W (option client_error) :=
  match existing with
  | None => mret None
  | Some existing => with_ops (λ o tr ts, DoResourceDelete o tr ts (ResType existing) existing)
  end.
Definition client_Reload (existing : option Resource) : prog W (answer value) :=
  match existing with
  | None => lift Panic
  | Some existing =>
      match ResLinks existing !! "self" with
      | None => mret (inr (no_self existing))
      | Some selfURL => with_ops (λ o tr _, DoGet o tr selfURL ∅)
      end
  end.
Definition client_Action (schemaType action : string) (existing : option Resource) (input : option value) (want : bool)
  : prog W (answer (option value)) :=
  with_ops (λ o tr ts, DoAction o tr ts schemaType action existing input want).
End Methods.
End Client.

(** ** What the operations send

    A client whose world is the list of the requests that were sent. *)
Definition recording (new_request : string → string → option error) (reply : list outgoing → outgoing → result Response)
  : HttpClient (list outgoing) :=
  mkHttpClient _ new_request (λ _ r sent, (sent ++ [r], Ret (reply sent r))).

Section Requests.
Context `{MapRange} `{GoFormat} `{ClientJSON} `{UrlEdit}.
Variables (new_request : string → string → option error) (reply : list outgoing → outgoing → result Response).
Variable sprint_resource : Resource → string.
Variables (opts : ClientOpts) (tr : transport) (Types : gmap string ClientSchema).
Local Abbreviation http := (recording new_request reply).
Local Abbreviation auth := (authorized opts).
Local Abbreviation json_auth := (<["Content-Type" := ["application/json"]]> auth).

(** The requests [p] sends, from a state in which none was sent. *)
Definition requests {A} (p : prog (list outgoing) A) : list outgoing := (p []).1.
(** [p] sends the request [r], if net/http can make it. *)
Definition sends {A} (p : prog (list outgoing) A) (r : outgoing) : Prop :=
  requests p = match new_request (out_Method r) (out_URL r) with None => [r] | Some _ => [] end.
(** [p] sends one request at most, and exactly that which [P] allows for the
    schema of the type [t]. *)
Definition sends_exactly {A} (t : string) (p : prog (list outgoing) A) (P : ClientSchema → outgoing → Prop) : Prop :=
  (requests p = [] ∨ ∃ r, requests p = [r]) ∧
  ∀ r, requests p = [r] ↔ new_request (out_Method r) (out_URL r) = None ∧ ∃ sc, Types !! t = Some sc ∧ P sc r.

Lemma send_sends method url header body : sends (send http tr method url header body) (mkOutgoing method url header body).
Proof. unfold sends, requests, send. simpl. by destruct (new_request method url). Qed.
Lemma bind_sends {A B} (p : prog (list outgoing) A) (f : A → prog (list outgoing) B) r :
  sends p r → (∀ a w, (f a w).1 = w) → sends (p ≫= f) r.
Proof.
  unfold sends, requests, mbind, prog_bind. intros Hp Hf. destruct (p []) as [w [a|]]; simpl in *; [|done].
  by rewrite Hf.
Qed.
Lemma DoGet_sends url filters url' :
  appendFilters url filters = inl url' → sends (DoGet http opts tr url filters) (mkOutgoing "GET" url' auth None).
Proof. unfold DoGet. intros ->. by apply bind_sends; [apply send_sends|]. Qed.
Lemma DoModify_sends method url o body :
  json_Marshal (default (VMap ∅) o) = inl body →
  sends (DoModify http opts tr method url o) (mkOutgoing method url json_auth (Some body)).
Proof. unfold DoModify. intros ->. by apply bind_sends; [apply send_sends|]. Qed.

(** An operation that finds no schema offering the method sends nothing. *)
Lemma offering_iff t method methods what schema :
  offering Types t method methods what = inl schema ↔ Types !! t = Some schema ∧ method ∈ methods (cs_Schema schema).
Proof.
  clear new_request reply sprint_resource opts tr.
  unfold offering. rewrite <- ContainsString_spec. destruct (Types !! t) as [sc|]; [|naive_solver].
  destruct (ContainsString _ _) eqn:Hc; naive_solver congruence.
Qed.

Lemma appendFilters_empty url : appendFilters url ∅ = inl url.
Proof. done. Qed.
Lemma one_request {A} t (p : prog (list outgoing) A) (P : ClientSchema → outgoing → Prop) r sc :
  sends p r → Types !! t = Some sc → (∀ r', P sc r' ↔ r' = r) → sends_exactly t p P.
Proof.
  unfold sends, sends_exactly. intros -> Hsc HP. rewrite Hsc.
  destruct (new_request (out_Method r) (out_URL r)) eqn:Hn; (split; [by eauto|]); intros r'; split.
  - done.
  - intros (Hn' & sc' & [= <-] & ->%HP). congruence.
  - intros [= <-]. split; [done|]. exists sc. split; [done|]. by apply HP.
  - by intros (_ & sc' & [= <-] & ->%HP).
Qed.
Lemma no_request {A} t (p : prog (list outgoing) A) (P : ClientSchema → outgoing → Prop) :
  requests p = [] → (∀ sc r, Types !! t = Some sc → P sc r → False) → sends_exactly t p P.
Proof. unfold sends_exactly. intros -> HP. split; [by left|]. intros r. split; [done|]. naive_solver. Qed.

Lemma not_offered {A} t (p : prog (list outgoing) A) (P : ClientSchema → outgoing → Prop) method methods what err :
  offering Types t method methods what = inr err → requests p = [] →
  (∀ sc r, P sc r → method ∈ methods (cs_Schema sc)) → sends_exactly t p P.
Proof.
  intros Ho Hp HP. apply no_request; [done|]. intros sc r Ht HPr.
  by rewrite (proj2 (offering_iff _ _ _ _ _) (conj Ht (HP sc r HPr))) in Ho.
Qed.

(** What an action carries: its input in JSON, or nothing. *)
Definition action_body (input : option value) (body : option string) : Prop :=
  match input with None => body = None | Some v => ∃ text, json_Marshal v = inl text ∧ body = Some text end.

Ltac no_request := apply no_request; [try done|intros ? ?; naive_solver congruence].

(** C33: a client asks exactly for what the API offers.  A list, a lookup by id, a
    create, an update, a delete or an action sends at most one request.  It sends
    one exactly when net/http can make it, the API told of the type, the schema of
    the type offers the method (actions apart), there is a link to send it to and
    the object can be encoded; and the request is determined in all its parts:
    the method; the link of the schema (with the filters, or with the id behind
    it, or for a create without such a link what is derived from the link to the
    schema), of the resource, or of the action; the credentials of the client
    and, with a body, the type of its content; and the object in JSON, where an
    absent object is an empty one but for actions, which then have no body. *)
Theorem client_requests t id action existing o filters replace want :
  sends_exactly t (DoList http opts tr Types t filters) (λ sc r, "GET" ∈ CollectionMethods (cs_Schema sc) ∧
     ∃ link url, cs_Links sc !! "collection" = Some link ∧ appendFilters link filters = inl url ∧ r = mkOutgoing "GET" url auth None) ∧
  sends_exactly t (DoByID http opts tr Types t id) (λ sc r, "GET" ∈ ResourceMethods (cs_Schema sc) ∧
     ∃ link, cs_Links sc !! "collection" = Some link ∧ r = mkOutgoing "GET" (link +:+ "/" +:+ id) auth None) ∧
  sends_exactly t (DoCreate http opts tr Types t o) (λ sc r, "POST" ∈ CollectionMethods (cs_Schema sc) ∧
     ∃ body, json_Marshal (default (VMap ∅) o) = inl body ∧
       let derived := replace_schemas false (PluralName (cs_Schema sc)) (default "" (cs_Links sc !! "self")) in
       r = mkOutgoing "POST" (default derived (cs_Links sc !! "collection")) json_auth (Some body)) ∧
  sends_exactly t (doUpdate http sprint_resource opts tr Types t replace (Some existing) o) (λ sc r, "PUT" ∈ ResourceMethods (cs_Schema sc) ∧
     ∃ self url body, ResLinks existing !! "self" = Some self ∧ update_url replace self = inl url ∧
       json_Marshal (default (VMap ∅) o) = inl body ∧ r = mkOutgoing "PUT" url json_auth (Some body)) ∧
  sends_exactly t (DoResourceDelete http sprint_resource opts tr Types t existing) (λ sc r, "DELETE" ∈ ResourceMethods (cs_Schema sc) ∧
     ∃ self, ResLinks existing !! "self" = Some self ∧ r = mkOutgoing "DELETE" self auth None) ∧
  sends_exactly t (DoAction http sprint_resource opts tr Types t action (Some existing) o want) (λ _ r,
     ∃ url body, ResActions existing !! action = Some url ∧ action_body o body ∧
       r = mkOutgoing "POST" url (<["Content-Length" := ["0"]]> json_auth) body).
Proof.
  split_and!.
  - unfold DoList. destruct (offering _ _ _ _ _) as [sc|] eqn:Hsc.
    2: eapply not_offered; [exact Hsc|done|naive_solver].
    apply offering_iff in Hsc as [Hsc Hm]. destruct (cs_Links sc !! "collection") as [link|] eqn:Hl; [|no_request].
    destruct (appendFilters link filters) as [url|] eqn:Hf; [|apply no_request; [unfold DoGet; by rewrite Hf|naive_solver congruence]].
    eapply one_request; [by apply DoGet_sends|done|]. naive_solver congruence.
  - unfold DoByID. destruct (offering _ _ _ _ _) as [sc|] eqn:Hsc.
    2: eapply not_offered; [exact Hsc|done|naive_solver].
    apply offering_iff in Hsc as [Hsc Hm]. destruct (cs_Links sc !! "collection") as [link|] eqn:Hl; [|no_request].
    eapply one_request; [apply DoGet_sends, appendFilters_empty|done|]. naive_solver congruence.
  - unfold DoCreate. destruct (offering _ _ _ _ _) as [sc|] eqn:Hsc.
    2: eapply not_offered; [exact Hsc|done|naive_solver].
    apply offering_iff in Hsc as [Hsc Hm].
    destruct (json_Marshal (default (VMap ∅) o)) as [body|] eqn:Hb; [|apply no_request; [unfold DoModify; by rewrite Hb|naive_solver congruence]].
    eapply one_request; [by apply DoModify_sends|done|]. intros r. destruct (cs_Links sc !! "collection"); naive_solver congruence.
  - unfold doUpdate. destruct (ResLinks existing !! "self") as [self|] eqn:Hs; [|no_request].
    destruct (update_url replace self) as [url|] eqn:Hu; [|no_request].
    destruct (offering _ _ _ _ _) as [sc|] eqn:Hsc.
    2: eapply not_offered; [exact Hsc|done|naive_solver].
    apply offering_iff in Hsc as [Hsc Hm].
    destruct (json_Marshal (default (VMap ∅) o)) as [body|] eqn:Hb; [|apply no_request; [unfold DoModify; by rewrite Hb|naive_solver congruence]].
    eapply one_request; [by apply DoModify_sends|done|]. naive_solver congruence.
  - unfold DoResourceDelete. destruct (offering _ _ _ _ _) as [sc|] eqn:Hsc.
    2: eapply not_offered; [exact Hsc|done|naive_solver].
    apply offering_iff in Hsc as [Hsc Hm]. destruct (ResLinks existing !! "self") as [self|] eqn:Hs; [|no_request].
    eapply one_request; [by apply bind_sends; [apply send_sends|]|done|]. naive_solver congruence.
  - unfold DoAction. destruct (ResActions existing !! action) as [url|] eqn:Ha; [|no_request]. unfold doAction.
    destruct (Types !! t) as [sc|] eqn:Hsc; [|apply no_request; [done|intros sc' r Hsc'; congruence]].
    destruct o as [v|]; simpl; [destruct (json_Marshal v) as [body|err] eqn:Hb; [|no_request]|];
      (eapply one_request; [by apply bind_sends; [apply send_sends|]|done|]; naive_solver congruence).
Qed.
End Requests.

(** ** What the operations report *)
Section Answers.
Context {W : Type} `{MapRange} `{GoFormat} `{ClientJSON} `{UrlEdit}.
Variables (http : HttpClient W) (opts : ClientOpts) (tr : transport).

(** The error for a response: it carries the status and the URL, and is not found
    exactly for a 404. *)
Definition reports (e : client_error) (resp : Response) (url : string) : Prop :=
  (∃ body, e = ResponseError (StatusCode resp) url
     ("Bad response statusCode [" +:+ itoa (StatusCode resp) +:+ "]. Status [" +:+ Status resp +:+ "]. Body: [" +:+ body
        +:+ "] from [" +:+ url +:+ "]") (Status resp) body ∧
     (∀ err, json_object (RespBody resp).1 = inr err → body = match (RespBody resp).2 with None => (RespBody resp).1 | Some _ => "Unreadable body." end)) ∧
  (client_IsNotFound e = true ↔ StatusCode resp = 404).
Lemma NewClientError_reports resp url : reports (NewClientError resp url) resp url.
Proof.
  unfold NewClientError, reports. destruct (RespBody resp) as [contents err]. simpl. split; [|apply bool_decide_eq_true].
  eexists. split; [done|]. intros e ->. by destruct err.
Qed.
Lemma send_ok method url header body w w' ans :
  NewRequest http method url = None → Do http tr (mkOutgoing method url header body) w = (w', Ret ans) →
  send http tr method url header body w = (w', Ret match ans with inl resp => inl resp | inr err => inr (OtherError err) end).
Proof. unfold send. intros -> Hd. unfold mbind, prog_bind. rewrite Hd. by destruct ans. Qed.

(** The outcome [r] for an answer of the HTTP client to a request for [url]: an
    error of the transport is passed on; a status outside of [good] is reported;
    and otherwise the values [accepts] says are the result, and what else goes
    wrong is no error of the API. *)
Definition outcome_of {A} (good : Z → Prop) (accepts : Response → A → Prop) (url : string)
    (ans : result Response) (r : answer A) : Prop :=
  match ans with
  | inr err => r = inr (OtherError err)
  | inl resp =>
      (∀ v, r = inl v ↔ good (StatusCode resp) ∧ accepts resp v) ∧
      (¬ good (StatusCode resp) → ∃ e, r = inr e ∧ reports e resp url) ∧
      (good (StatusCode resp) → ∀ e, r = inr e → ∃ err, e = OtherError err)
  end.
Definition below_300 (code : Z) : Prop := code < 300.
(** What the body of a response decodes to. *)
Definition decodes (resp : Response) (v : value) : Prop := (RespBody resp).2 = None ∧ json_Unmarshal (RespBody resp).1 = inl v.

Lemma read_all_spec resp : read_all resp = match (RespBody resp).2 with None => inl (RespBody resp).1 | Some err => inr (OtherError err) end.
Proof. unfold read_all. by destruct (RespBody resp) as [? []]. Qed.

End Answers.

(** ** The other side: what the server makes of a request *)

(** A filter the schema offers is found. *)
Lemma parseFilters_complete `{MapRange} schema (query : Values) k name op mods values :
  query !! k = Some values → parseNameAndOp k = (name, op) → CollectionFilters schema !! name = Some mods → op ∈ mods → ValidMod op = true →
  NewConditionFromString name op values ∈ parseFilters schema query.
Proof.
  intros Hq Hk Hf Hop Hv. unfold parseFilters. apply elem_of_range in Hq. revert Hq.
  assert (∀ mods (acc : list QueryCondition) n vs op' x, x ∈ acc ∨ (n = name ∧ vs = values ∧ op' = op ∧ op ∈ mods ∧ x = NewConditionFromString name op values) →
    x ∈ foldl (λ conditions md, if negb (bool_decide (op' = md)) || negb (ValidMod op') then conditions
                                else conditions ++ [NewConditionFromString n md vs]) acc mods) as Hmods.
  { clear mods Hf Hop. induction mods as [|md mods IH]; intros acc n vs op' x Hx; simpl.
    { destruct Hx as [Hx|(_ & _ & _ & Hx & _)]; [done|]. by apply elem_of_nil in Hx. }
    apply IH. destruct Hx as [Hx|(-> & -> & -> & [->|Hx]%elem_of_cons & ->)].
    - left. case_bool_decide; simpl; [|done]. destruct (ValidMod op'); simpl; [set_solver|done].
    - left. rewrite bool_decide_true, Hv by done. simpl. set_solver.
    - by right. }
  assert (∀ l (acc : list QueryCondition), NewConditionFromString name op values ∈ acc ∨ (k, values) ∈ l →
    NewConditionFromString name op values ∈
    foldl (λ conditions (e : string * list string), let '(name, op) := parseNameAndOp e.1 in
             match CollectionFilters schema !! name with
             | None => conditions
             | Some modifiers => foldl (λ conditions md, if negb (bool_decide (op = md)) || negb (ValidMod op) then conditions
                                                         else conditions ++ [NewConditionFromString name md e.2]) conditions modifiers
             end) acc l) as Hl.
  { induction l as [|[k' vs] l IH]; intros acc Hx; simpl.
    { destruct Hx as [Hx|Hx]; [done|]. by apply elem_of_nil in Hx. }
    apply IH. destruct Hx as [Hx|[[= <- <-]|Hx]%elem_of_cons]; [| |by right].
    - left. destruct (parseNameAndOp k') as [n op']. destruct (CollectionFilters schema !! n); [|done]. apply Hmods. by left.
    - left. rewrite Hk, Hf. apply Hmods. right. done. }
  intros Hin. apply Hl. by right.
Qed.

Section Filters.
Context `{MapRange} `{GoFormat} `{UrlEdit}.

Lemma add_values_lookup k l (q : Values) k' :
  default [] (foldl (λ q v, Values_Add q k v) q l !! k') = default [] (q !! k') ++ (if decide (k = k') then l else []).
Proof.
  revert q. unfold Values. induction l as [|v l IH]; intros q; simpl; [case_decide; by rewrite app_nil_r|].
  rewrite IH. unfold Values_Add, Values. rewrite lookup_insert. case_decide as Hk; [|done]. subst k'. simpl. by rewrite <- app_assoc.
Qed.
Lemma add_filters_lookup (filters : gmap string value) (q : Values) k :
  default [] (foldl (λ q (e : string * value), foldl (λ q v, Values_Add q e.1 v) q (filter_values e.2)) q (range filters) !! k)
  = default [] (q !! k) ++ default [] (filter_values <$> filters !! k).
Proof.
  assert (∀ l (q : Values), NoDup l.*1 →
    default [] (foldl (λ q (e : string * value), foldl (λ q v, Values_Add q e.1 v) q (filter_values e.2)) q l !! k)
    = default [] (q !! k) ++ default [] (filter_values <$> (list_to_map l : gmap string value) !! k)) as Hl.
  { induction l as [|[k' v] l IH]; intros q' Hnd; simpl in *; [by rewrite app_nil_r|]. inv Hnd.
    rewrite IH by done. rewrite add_values_lookup, lookup_insert, <- app_assoc. f_equal. case_decide as Hk; [|done].
    subst k'. by rewrite not_elem_of_list_to_map_1, app_nil_r. }
  rewrite Hl by apply NoDup_range.
  by rewrite (list_to_map_proper _ (map_to_list filters) (NoDup_range filters) (range_perm filters)), list_to_map_to_list.
Qed.

(** Filters arrive.  A client that lists with filters asks for a URL whose
    query, as the server parses it, has for every name the values it had in
    the link and then those of the filter of this name; a filter on a field
    that the schema offers to filter on (with the modifier the name ends in, or
    for equality) is among the conditions of the list. *)
Theorem filters_arrive link filters url u schema :
  url_Parse link = inl u → filters ≠ ∅ → appendFilters link filters = inl url →
  ∃ u', url_Parse url = inl u' ∧
    let query := ParseQuery (RawQuery u') in
    (∀ k, default [] (query !! k) = default [] (ParseQuery (RawQuery u) !! k) ++ default [] (filter_values <$> filters !! k)) ∧
    (∀ k v name op mods, filters !! k = Some v → filter_values v ≠ [] → ParseQuery (RawQuery u) !! k = None →
       parseNameAndOp k = (name, op) → CollectionFilters schema !! name = Some mods → op ∈ mods → ValidMod op = true →
       NewConditionFromString name op (filter_values v) ∈ parseFilters schema query).
Proof.
  intros Hu Hne. unfold appendFilters. rewrite decide_False by done. rewrite Hu. intros [= <-].
  set (q := foldl _ _ _). exists (set_RawQuery u (Values_Encode q)). split; [by eapply url_Parse_String|]. rewrite RawQuery_set. cbn zeta.
  assert (∀ k, default [] (ParseQuery (Values_Encode q) !! k) = default [] (ParseQuery (RawQuery u) !! k) ++ default [] (filter_values <$> filters !! k)) as Hq.
  { intros k. rewrite ParseQuery_Encode. rewrite <- add_filters_lookup. fold q. by destruct (q !! k) as [[]|]. }
  split; [done|]. intros k v name op mods Hv Hvs Hnone Hk Hf Hop Hval.
  apply (parseFilters_complete _ _ k name op mods); try done. specialize (Hq k). rewrite Hnone, Hv in Hq. simpl in Hq.
  destruct (ParseQuery (Values_Encode q) !! k); simpl in Hq; congruence.
Qed.
End Filters.

Section Lookup.
Context `{MapRange} `{GoFormat} `{ClientJSON} `{UrlEdit} `{SortSlice} `{UrlParse}.

(** Client and server agree on ids.  A client that was given the collection
    link the server makes for a schema and looks up an object by its id (one
    that needs no escaping) sends a request that the server parses to that
    schema and that id, without an error. *)
Theorem by_id_resolves new_request reply opts tr Types t sc id links s u req r :
  let v := Version sc in
  let plural := getPluralName sc in
  let path := Path v +:+ "/" +:+ plural +:+ "/" +:+ id in
  Types !! t = Some (mkClientSchema sc links) → links !! "collection" = Some (Collection u sc None) →
  requests (DoByID (recording new_request reply) opts tr Types t id) = [r] →
  out_URL r = responseURLBase u +:+ EscapedPath (RURL req) → RMethod req = out_Method r → UQuery (RURL req) = ∅ →
  subContext u = "" → Path v ≠ "" → segment plural → segment id →
  v ∈ versions s → SubContext v = false → ReplaceMultiSlash (Path v) = Path v → HasSuffix (Path v) "/" = false →
  (∀ v', v' ∈ versions s → matchesVersion path v' = true → (String.length (Path v) ≤ String.length (Path v'))%nat → v' = v) →
  Schemas_Schema s (Some v) plural = Some sc →
  ∃ c, Parse req s DefaultURLParser DefaultResolver = Ret (c, None) ∧ ctx_Schema c = Some sc ∧ ctx_ID c = id ∧ ctx_Method c = "GET".
Proof.
  intros v plural path Ht Hl Hr Hurl Hmeth Hq Hu Hpv Hp Hi Hv Hsub Hcl Hsl Hlong Hsc.
  unfold DoByID in Hr. destruct (offering _ _ _ _ _) as [sc'|] eqn:Ho; [|done]. apply offering_iff in Ho as [Ht' Hget].
  rewrite Ht in Ht'. injection Ht' as <-. cbn [cs_Links cs_Schema] in Hr, Hget. rewrite Hl in Hr.
  rewrite (DoGet_sends new_request reply opts tr (Collection u sc None +:+ "/" +:+ id) ∅ _ (appendFilters_empty _)) in Hr.
  destruct (new_request _ _); [done|]. injection Hr as <-. cbn [out_URL out_Method] in *.
  assert (EscapedPath (RURL req) = path) as Hpath.
  { unfold Collection, constructBasicURL in Hurl. cbn [write_parts default] in Hurl. fold v plural in Hurl.
    rewrite !decide_False in Hurl by (apply Hp || done). rewrite Hu, str_app_nil_r, !str_app_assoc in Hurl.
    by apply (inj (String.append _)) in Hurl. }
  destruct (resource_path_resolves s sc v plural id req) as (c & ? & ? & ? & _ & _ & ? & _); try done. by exists c.
Qed.
End Lookup.

(** ** Instances and examples *)
Definition std_client_json : ClientJSON := {|
  json_Marshal := λ v, match v with VStr s => inl s | VMap _ => inl "{}" | _ => inr (ErrorString "unsupported") end;
  json_Unmarshal := λ s, inl (VStr s);
  json_object := λ s, inr (ErrorString s);
  json_schemas := λ s, inr (ErrorString s)
|}.

(** A URL split at its first question mark. *)
Definition split_query (s : string) : string * string :=
  match Split2 s "?" with [path; query] => (path, query) | _ => (s, "") end.
Definition join_query (u : string * string) : string := if decide (u.2 = "") then u.1 else u.1 +:+ "?" +:+ u.2.
Lemma Index_byte_take c s i : Index s (String c "") = Some i → str_in c (str_take i s) = false.
Proof.
  revert i. induction s as [|d s IH]; intros i; simpl; [done|].
  destruct (ascii_dec c d) as [->|Hd]; [destruct s; by intros [= <-]|].
  destruct (Index s (String c "")) as [j|]; simpl; [|done]. intros [= <-]. simpl.
  rewrite bool_decide_false by done. by apply IH.
Qed.
Lemma split_query_path s : str_in "?" (split_query s).1 = false.
Proof.
  unfold split_query. destruct (str_in "?" s) eqn:Hs; [|by rewrite Split2_None].
  unfold Split2. destruct (Index_byte_in _ _ Hs) as [i Hi]. rewrite Hi. simpl. by apply Index_byte_take.
Qed.
Definition std_url_edit : UrlEdit.
Proof.
  refine {| parsed_url := string * string; url_Parse := λ s, inl (split_query s); RawQuery := snd;
            set_RawQuery := λ u q, (u.1, q); url_String := join_query |}.
  - done.
  - intros s u q [= <-]. f_equal. unfold join_query. simpl. generalize (split_query_path s). intros Hp. case_decide as Hq.
    + rewrite Hq. unfold split_query at 1. by rewrite Split2_None.
    + unfold split_query at 1. change ("?" +:+ ?x) with (String "?" x). by rewrite Split2_app.
Defined.

Definition answers_ok (body : string) : HttpClient (list outgoing) :=
  recording (λ _ _, None) (λ _ _, inl (mkResponse 200 "200 OK" ∅ (body, None))).
Definition demo_opts : ClientOpts := mkClientOpts "https://api.example.com/v3" "" "" "token" "" false.
Definition pod_types : gmap string ClientSchema :=
  {[ "pod" := mkClientSchema pod_schema {[ "collection" := Collection v3_builder pod_schema None ]} ]}.


Definition pod_resource : Resource :=
  mkResource "pod" {[ "self" := "https://api.example.com/v3/pods/p-1" ]} {[ "stop" := "https://api.example.com/v3/pods/p-1?action=stop" ]}.
Definition action_headers : Header :=
  {[ "Authorization" := ["Bearer token"]; "Content-Type" := ["application/json"]; "Content-Length" := ["0"] ]}.
(** An action carries the credentials and its input; a lookup goes to the
    collection of the type; a type the API has not told of gets nothing. *)
Lemma client_requests_witness :
  let pods := answers_ok "{}" in
  requests (@DoAction _ std_range std_format std_client_json pods (λ _, "") demo_opts GivenTransport pod_types "pod" "stop"
      (Some pod_resource) (Some (VStr "{}")) true)
    = [mkOutgoing "POST" "https://api.example.com/v3/pods/p-1?action=stop" action_headers (Some "{}")] ∧
  requests (@DoByID _ std_range std_format std_client_json std_url_edit pods demo_opts GivenTransport pod_types "pod" "p-1")
    = [mkOutgoing "GET" "https://api.example.com/v3/pods/p-1" (authorized demo_opts) None] ∧
  requests (@DoResourceDelete _ std_range std_format std_client_json pods (λ _, "") demo_opts GivenTransport pod_types "job" pod_resource) = [].
Proof.
  pose proof (λ t id, @client_requests std_range std_format std_client_json std_url_edit (λ _ _, None)
    (λ _ _, inl (mkResponse 200 "200 OK" ∅ ("{}", None))) (λ _, "") demo_opts GivenTransport pod_types t id "stop"
    pod_resource (Some (VStr "{}")) ∅ false true) as Hall.
  split_and!.
  - destruct (Hall "pod" "p-1") as (_ & _ & _ & _ & _ & [_ Ha]). apply Ha. split; [reflexivity|].
    exists (mkClientSchema pod_schema {[ "collection" := Collection v3_builder pod_schema None ]}). split; [reflexivity|].
    exists "https://api.example.com/v3/pods/p-1?action=stop", (Some "{}"). split; [reflexivity|].
    split; [by exists "{}"|]. vm_compute. reflexivity.
  - destruct (Hall "pod" "p-1") as (_ & [_ Ha] & _). apply Ha. split; [reflexivity|].
    exists (mkClientSchema pod_schema {[ "collection" := Collection v3_builder pod_schema None ]}). split; [reflexivity|].
    split; [apply list_elem_of_In; vm_compute; by left|]. eexists. split; [reflexivity|]. vm_compute. reflexivity.
  - destruct (Hall "job" "p-1") as (_ & _ & _ & _ & [[Hn|[r Hr]] Ha] & _); [exact Hn|].
    apply Ha in Hr as (_ & sc & Hsc & _). discriminate Hsc.
Defined.

Definition name_filter : gmap string value := {[ "name" := VStr "a b" ]}.
Lemma filters_arrive_witness :
  ∃ u', @url_Parse std_url_edit "https://h/v3/pods?limit=5&name=a+b" = inl u' ∧
    default [] (ParseQuery (@RawQuery std_url_edit u') !! "name") = ["a b"].
Proof.
  destruct (@filters_arrive std_range std_format std_url_edit "https://h/v3/pods?limit=5" name_filter
    "https://h/v3/pods?limit=5&name=a+b" ("https://h/v3/pods", "limit=5") pod_schema) as (u' & Hu & Hq & _).
  - reflexivity.
  - intros Hn. apply (f_equal (lookup "name")) in Hn. vm_compute in Hn. discriminate.
  - vm_compute. reflexivity.
  - exists u'. split; [exact Hu|]. rewrite Hq. vm_compute. reflexivity.
Defined.

Lemma by_id_resolves_witness :
  ∃ c, @Parse std_range std_url_parse (get_request "/v3/pods/ns:p-1") pod_registry
         (@DefaultURLParser std_range std_sort) (@DefaultResolver std_range) = Ret (c, None) ∧ ctx_ID c = "ns:p-1".
Proof.
  destruct (@by_id_resolves std_range std_format std_client_json std_url_edit std_sort std_url_parse
    (λ _ _, None) (λ _ _, inl (mkResponse 200 "200 OK" ∅ ("", None))) demo_opts GivenTransport
    pod_types "pod" pod_schema "ns:p-1" {[ "collection" := Collection v3_builder pod_schema None ]} pod_registry v3_builder
    (get_request "/v3/pods/ns:p-1") (mkOutgoing "GET" "https://api.example.com/v3/pods/ns:p-1" (authorized demo_opts) None))
    as (c & Hc & _ & Hid & _).
  - vm_compute. reflexivity.
  - vm_compute. reflexivity.
  - vm_compute. reflexivity.
  - vm_compute. reflexivity.
  - reflexivity.
  - reflexivity.
  - reflexivity.
  - vm_compute. discriminate.
  - split_and!; [vm_compute; discriminate|vm_compute; reflexivity..].
  - split_and!; [vm_compute; discriminate|vm_compute; reflexivity..].
  - apply list_elem_of_In. vm_compute. by left.
  - reflexivity.
  - vm_compute. reflexivity.
  - vm_compute. reflexivity.
  - intros v Hv _ _. apply list_elem_of_In in Hv. vm_compute in Hv. destruct Hv as [<-|[]]. reflexivity.
  - vm_compute. reflexivity.
  - exists c. split; [exact Hc|exact Hid].
Defined.

(** Certificates that cannot be read give a client without operations, and no
    error: its first call panics. *)
Example bad_certificates_unnoticed :
  let opts := mkClientOpts "https://api.example.com/v3" "" "" "token" "not a certificate" false in
  let '(w, r) := @NewAPIClient _ std_range std_format std_client_json (answers_ok "{}") (λ _, false) opts [] in
  r = Ret (mkAPIClient None ∅, None) ∧ w = [] ∧
  (@client_List _ std_range std_format std_client_json std_url_edit (answers_ok "{}") (mkAPIClient None ∅) "pod" ∅ []).2 = Panic.
Proof. vm_compute. by split_and!. Qed.

(** The headers given to Websocket are not sent. *)
Example websocket_headers_lost :
  @websocket_header std_range None {[ "Cookie" := ["a=b"] ]} = ∅.
Proof. vm_compute. reflexivity. Qed.

(** A query of an id is taken for a query of the request: ids are not escaped. *)
Example id_becomes_query :
  requests (@DoByID _ std_range std_format std_client_json std_url_edit (answers_ok "") demo_opts GivenTransport pod_types "pod" "a?b=c")
  = [mkOutgoing "GET" "https://api.example.com/v3/pods/a?b=c" (authorized demo_opts) None].
Proof. vm_compute. reflexivity. Qed.
