(* ===== verification/Reflect.v ===== *)
(** * Schemas from Go types

    Models types/reflection.go, which derives the schemas of an API from Go
    struct types and their tags, and the table of mappers of types/schemas.go
    that it consults.

    The struct types of a program are a table; a type refers to a struct by its
    number in it.  Schemas are built by a program that has the registry and the
    types that are being built as its state, may fail, and may panic.  The
    recursion through the types takes fuel; [import_terminates] says how much is
    enough.  A mapper is here its ModifySchema method, which may change the
    schema it is given and others of the registry. *)

From S2P Require Import Prelude GoStrings Values Errors TypeNames Convert Schemas Query Http Urls Parse Access.
From Stdlib Require Import Ascii.

(** ** Go types *)
Inductive kind :=
| KBool | KInt | KInt8 | KInt16 | KInt32 | KInt64 | KUint | KUint8 | KUint16 | KUint32 | KUint64 | KUintptr
| KFloat32 | KFloat64 | KComplex64 | KComplex128 | KArray | KChan | KFunc | KInterface | KString | KUnsafePointer.
Definition kind_String (k : kind) : string :=
  match k with
  | KBool => "bool" | KInt => "int" | KInt8 => "int8" | KInt16 => "int16" | KInt32 => "int32" | KInt64 => "int64"
  | KUint => "uint" | KUint8 => "uint8" | KUint16 => "uint16" | KUint32 => "uint32" | KUint64 => "uint64" | KUintptr => "uintptr"
  | KFloat32 => "float32" | KFloat64 => "float64" | KComplex64 => "complex64" | KComplex128 => "complex128" | KArray => "array"
  | KChan => "chan" | KFunc => "func" | KInterface => "interface" | KString => "string" | KUnsafePointer => "unsafe.Pointer"
  end.
(** The name and the package of a defined type, empty for others. *)
Inductive gotype :=
| TBasic (k : kind) (name pkg : string)
| TPtr (elem : gotype)
| TMap (name pkg : string) (elem : gotype)
| TSlice (name pkg : string) (elem : gotype)
| TStruct (n : nat).
#[export] Instance kind_eq_dec : EqDecision kind.
Proof. solve_decision. Defined.
#[export] Instance gotype_eq_dec : EqDecision gotype.
Proof. solve_decision. Defined.

Record StructField := mkStructField {
  FName : string;
  FPkgPath : string;         (* empty for an exported field *)
  FAnonymous : bool;
  FJSON : string;            (* the json tag *)
  FNorman : string;          (* the norman tag *)
  FType : gotype
}.
Record StructType := mkStructType { StName : string; StPkg : string; StFields : list StructField }.

(** The updates of one member of the Field struct. *)
Definition set_Type (f : Field) (x : string) : Field :=
  mkField x (Default f) (Nullable f) (Create f) (WriteOnly f) (Required f) (Update f) (MinLength f) (MaxLength f) (Min f) (Max f) (Options f) (ValidChars f) (InvalidChars f) (Description f) (FieldCodeName f) (DynamicField f).
Definition set_Default (f : Field) (x : value) : Field :=
  mkField (Type_ f) x (Nullable f) (Create f) (WriteOnly f) (Required f) (Update f) (MinLength f) (MaxLength f) (Min f) (Max f) (Options f) (ValidChars f) (InvalidChars f) (Description f) (FieldCodeName f) (DynamicField f).
Definition set_Nullable (f : Field) (x : bool) : Field :=
  mkField (Type_ f) (Default f) x (Create f) (WriteOnly f) (Required f) (Update f) (MinLength f) (MaxLength f) (Min f) (Max f) (Options f) (ValidChars f) (InvalidChars f) (Description f) (FieldCodeName f) (DynamicField f).
Definition set_Create (f : Field) (x : bool) : Field :=
  mkField (Type_ f) (Default f) (Nullable f) x (WriteOnly f) (Required f) (Update f) (MinLength f) (MaxLength f) (Min f) (Max f) (Options f) (ValidChars f) (InvalidChars f) (Description f) (FieldCodeName f) (DynamicField f).
Definition set_WriteOnly (f : Field) (x : bool) : Field :=
  mkField (Type_ f) (Default f) (Nullable f) (Create f) x (Required f) (Update f) (MinLength f) (MaxLength f) (Min f) (Max f) (Options f) (ValidChars f) (InvalidChars f) (Description f) (FieldCodeName f) (DynamicField f).
Definition set_Required (f : Field) (x : bool) : Field :=
  mkField (Type_ f) (Default f) (Nullable f) (Create f) (WriteOnly f) x (Update f) (MinLength f) (MaxLength f) (Min f) (Max f) (Options f) (ValidChars f) (InvalidChars f) (Description f) (FieldCodeName f) (DynamicField f).
Definition set_Update (f : Field) (x : bool) : Field :=
  mkField (Type_ f) (Default f) (Nullable f) (Create f) (WriteOnly f) (Required f) x (MinLength f) (MaxLength f) (Min f) (Max f) (Options f) (ValidChars f) (InvalidChars f) (Description f) (FieldCodeName f) (DynamicField f).
Definition set_MinLength (f : Field) (x : Z) : Field :=
  mkField (Type_ f) (Default f) (Nullable f) (Create f) (WriteOnly f) (Required f) (Update f) (Some x) (MaxLength f) (Min f) (Max f) (Options f) (ValidChars f) (InvalidChars f) (Description f) (FieldCodeName f) (DynamicField f).
Definition set_MaxLength (f : Field) (x : Z) : Field :=
  mkField (Type_ f) (Default f) (Nullable f) (Create f) (WriteOnly f) (Required f) (Update f) (MinLength f) (Some x) (Min f) (Max f) (Options f) (ValidChars f) (InvalidChars f) (Description f) (FieldCodeName f) (DynamicField f).
Definition set_Min (f : Field) (x : Z) : Field :=
  mkField (Type_ f) (Default f) (Nullable f) (Create f) (WriteOnly f) (Required f) (Update f) (MinLength f) (MaxLength f) (Some x) (Max f) (Options f) (ValidChars f) (InvalidChars f) (Description f) (FieldCodeName f) (DynamicField f).
Definition set_Max (f : Field) (x : Z) : Field :=
  mkField (Type_ f) (Default f) (Nullable f) (Create f) (WriteOnly f) (Required f) (Update f) (MinLength f) (MaxLength f) (Min f) (Some x) (Options f) (ValidChars f) (InvalidChars f) (Description f) (FieldCodeName f) (DynamicField f).
Definition set_Options (f : Field) (x : list string) : Field :=
  mkField (Type_ f) (Default f) (Nullable f) (Create f) (WriteOnly f) (Required f) (Update f) (MinLength f) (MaxLength f) (Min f) (Max f) x (ValidChars f) (InvalidChars f) (Description f) (FieldCodeName f) (DynamicField f).
Definition set_ValidChars (f : Field) (x : string) : Field :=
  mkField (Type_ f) (Default f) (Nullable f) (Create f) (WriteOnly f) (Required f) (Update f) (MinLength f) (MaxLength f) (Min f) (Max f) (Options f) x (InvalidChars f) (Description f) (FieldCodeName f) (DynamicField f).
Definition set_InvalidChars (f : Field) (x : string) : Field :=
  mkField (Type_ f) (Default f) (Nullable f) (Create f) (WriteOnly f) (Required f) (Update f) (MinLength f) (MaxLength f) (Min f) (Max f) (Options f) (ValidChars f) x (Description f) (FieldCodeName f) (DynamicField f).
Definition set_CodeName (f : Field) (x : string) : Field :=
  mkField (Type_ f) (Default f) (Nullable f) (Create f) (WriteOnly f) (Required f) (Update f) (MinLength f) (MaxLength f) (Min f) (Max f) (Options f) (ValidChars f) (InvalidChars f) (Description f) x (DynamicField f).

Section Types.
Variable structs : list StructType.
Definition struct (n : nat) : StructType := default (mkStructType "" "" []) (structs !! n).
Definition type_Name (t : gotype) : string :=
  match t with TBasic _ name _ | TMap name _ _ | TSlice name _ _ => name | TPtr _ => "" | TStruct n => StName (struct n) end.
Definition type_PkgPath (t : gotype) : string :=
  match t with TBasic _ _ pkg | TMap _ pkg _ | TSlice _ pkg _ => pkg | TPtr _ => "" | TStruct n => StPkg (struct n) end.

(** ** Tags *)
Definition jsonName (f : StructField) : string := default "" (head (Split2 (FJSON f) ",")).
Definition k8s_meta (name : string) (f : StructField) : bool :=
  bool_decide (type_Name (FType f) = name) && HasSuffix (type_PkgPath (FType f)) "k8s.io/apimachinery/pkg/apis/meta/v1".
Definition k8sType (f : StructField) : bool := k8s_meta "TypeMeta" f.
Definition k8sObject (f : StructField) : bool := k8s_meta "ObjectMeta" f.

Definition getKeyValue (input : string) : string * string :=
  match Split2 input "=" with [key; value] => (key, value) | _ => (input, "") end.
Definition split (input : string) : list string :=
  filter (λ part, part ≠ "") (i ← Split input "|"; TrimSpace <$> Split i " ").

Context `{GoFormat}.
Definition toInt (value : string) (f : StructField) : result Z :=
  match ParseInt value with
  | Some i => inl i
  | None => inr (ErrorString ("invalid number on field " +:+ FName f +:+ ": " +:+ Error (parse_int_error value)))
  end.
(** One part of the norman tag. *)
Definition apply_part (f : StructField) (part : string) (field : Field) : result Field :=
  let '(key, value) := getKeyValue part in
  let number (set : Field → Z → Field) : result Field :=
    match toInt value f with inl i => inl (set field i) | inr err => inr err end in
  if decide (part = "") then inl field
  else if decide (key = "type") then inl (set_Type field value)
  else if decide (key = "codeName") then inl (set_CodeName field value)
  else if decide (key = "default") then inl (set_Default field (VStr value))
  else if decide (key = "nullable") then inl (set_Nullable field true)
  else if decide (key = "notnullable") then inl (set_Nullable field false)
  else if decide (key = "nocreate") then inl (set_Create field false)
  else if decide (key = "writeOnly") then inl (set_WriteOnly field true)
  else if decide (key = "required") then inl (set_Required field true)
  else if decide (key = "noupdate") then inl (set_Update field false)
  else if decide (key = "minLength") then number set_MinLength
  else if decide (key = "maxLength") then number set_MaxLength
  else if decide (key = "min") then number set_Min
  else if decide (key = "max") then number set_Max
  else if decide (key = "options") then
    let field := set_Options field (split value) in
    inl (if decide (Type_ field = "") then set_Type field "enum" else field)
  else if decide (key = "validChars") then inl (set_ValidChars field value)
  else if decide (key = "invalidChars") then inl (set_InvalidChars field value)
  else inr (ErrorString ("invalid tag " +:+ key +:+ " on field " +:+ FName f)).
Fixpoint apply_parts (f : StructField) (parts : list string) (field : Field) : result Field :=
  match parts with
  | [] => inl field
  | part :: parts' => match apply_part f part field with inl field => apply_parts f parts' field | inr err => inr err end
  end.
Definition applyTag (f : StructField) (field : Field) : result Field := apply_parts f (Split (FNorman f) ",") field.

(** ** Fields *)
Definition deRef (t : gotype) : gotype := match t with TPtr e => e | _ => t end.
Definition is_number (t : gotype) : bool :=
  match t with
  | TBasic (KInt | KUint32 | KInt32 | KUint64 | KInt64 | KFloat32 | KFloat64) _ _ => true
  | _ => false
  end.
(** The field before its tag is applied. *)
Definition initial_field (f : StructField) : Field :=
  let field := mkField "" VNil true true false false true None None None None [] "" "" "" (FName f) false in
  match FType f with
  | TPtr _ => field
  | TBasic KBool _ _ => set_Default (set_Nullable field false) (VBool false)
  | t => if is_number t then set_Default (set_Nullable field false) (VInt 0) else field
  end.
(** The default in the type of the field. *)
Definition typed_default (field : Field) : result Field :=
  match Default field with
  | VNil => inl field
  | v =>
      if decide (Type_ field = "int") then match ToNumber v with inl n => inl (set_Default field (VInt64 n)) | inr err => inr err end
      else if decide (Type_ field = "float") then match ToFloat v with inl n => inl (set_Default field (VFloat n)) | inr err => inr err end
      else if decide (Type_ field = "boolean") then inl (set_Default field (VBool (ToBool v)))
      else inl field
  end.
Definition field_name (f : StructField) : string :=
  if decide (jsonName f = "") then
    let name := LowerTitle (FName f) in
    if HasSuffix name "ID" then TrimSuffix name "ID" +:+ "Id" else name
  else jsonName f.

(** ** Schemas *)
Definition with_methods (s : Schema) (collection resource : list string) : Schema :=
  mkSchema (ID s) (Embed s) (EmbedType s) (CodeName s) (CodeNamePlural s) (SType s) (BaseType s)
    (Version s) (PluralName s) resource (ResourceFields s) (ResourceActions s) collection
    (CollectionActions s) (CollectionFilters s) (DynamicSchemaVersion s) (Scope s) (InternalSchema s).
Definition with_scope (s : Schema) (scope : string) : Schema :=
  mkSchema (ID s) (Embed s) (EmbedType s) (CodeName s) (CodeNamePlural s) (SType s) (BaseType s)
    (Version s) (PluralName s) (ResourceMethods s) (ResourceFields s) (ResourceActions s) (CollectionMethods s)
    (CollectionActions s) (CollectionFilters s) (DynamicSchemaVersion s) scope (InternalSchema s).
Definition with_internal (s internal : Schema) : Schema :=
  mkSchema (ID s) (Embed s) (EmbedType s) (CodeName s) (CodeNamePlural s) (SType s) (BaseType s)
    (Version s) (PluralName s) (ResourceMethods s) (ResourceFields s) (ResourceActions s) (CollectionMethods s)
    (CollectionActions s) (CollectionFilters s) (DynamicSchemaVersion s) (Scope s) (Some internal).
Definition with_filters (s : Schema) (filters : gmap string (list string)) : Schema :=
  mkSchema (ID s) (Embed s) (EmbedType s) (CodeName s) (CodeNamePlural s) (SType s) (BaseType s)
    (Version s) (PluralName s) (ResourceMethods s) (ResourceFields s) (ResourceActions s) (CollectionMethods s)
    (CollectionActions s) filters (DynamicSchemaVersion s) (Scope s) (InternalSchema s).
(** What both types.Resource and a Kubernetes object give a schema. *)
Definition with_rest (s : Schema) : Schema := with_methods s ["GET"; "POST"] ["GET"; "PUT"; "DELETE"].

(** The modifiers a list can be filtered by, by the type of the field. *)
Definition filter_mods (t : string) : list string :=
  if decide (t ∈ ["enum"; "date"; "dnsLabel"; "hostname"; "string"; "int"]) then ["eq"; "ne"; "in"; "notin"]
  else if decide (t = "boolean") then ["eq"; "ne"]
  else if IsReferenceType t then ["eq"; "ne"; "in"; "notin"] else [].
End Types.

(** ** The state of an import

    [TypeMapper] is what typeMapper.ModifySchema computes for the conversion of
    data: the fields that hold objects, lists of objects and maps of objects
    with a schema of their own. *)
Definition SchemaMapper : Type := Schema → Schemas → (Schema * Schemas) * option error.
Record TypeMapper := mkTypeMapping {
  tm_root : bool;
  tm_typeName : string;
  tm_subSchemas : gmap string Schema;
  tm_subArraySchemas : gmap string Schema;
  tm_subMapSchemas : gmap string Schema
}.
Record Importer := mkImporter {
  registry : Schemas;
  processingTypes : list (nat * Schema);               (* of a half built schema only the id is read *)
  typeNames : list (gotype * string);                  (* the latest name of a type comes first *)
  mappers : gmap string (gmap string (list SchemaMapper));
  DefaultMappers : option (list SchemaMapper);
  DefaultPostMappers : option (list SchemaMapper);
  typeMappers : list ((string * string) * TypeMapper)  (* the Mapper of the schemas, by path and id *)
}.
Definition set_registry (im : Importer) (s : Schemas) : Importer :=
  mkImporter s (processingTypes im) (typeNames im) (mappers im) (DefaultMappers im) (DefaultPostMappers im) (typeMappers im).
Definition set_processing (im : Importer) (l : list (nat * Schema)) : Importer :=
  mkImporter (registry im) l (typeNames im) (mappers im) (DefaultMappers im) (DefaultPostMappers im) (typeMappers im).
Definition add_typeMapper (im : Importer) (sc : Schema) (t : TypeMapper) : Importer :=
  mkImporter (registry im) (processingTypes im) (typeNames im) (mappers im) (DefaultMappers im) (DefaultPostMappers im)
    (((Path (Version sc), ID sc), t) :: typeMappers im).

(** Programs on this state: an error ends them, as do a panic and the end of the
    fuel. *)
Inductive outcome (A : Type) := OutOfFuel | Panicked | Returned (im : Importer) (r : result A).
Arguments OutOfFuel {A}.
Arguments Panicked {A}.
Arguments Returned {A}.
Definition imp (A : Type) : Type := Importer → outcome A.
#[export] Instance imp_ret : MRet imp := λ A a im, Returned im (inl a).
#[export] Instance imp_bind : MBind imp := λ A B f m im,
  match m im with
  | Returned im' (inl a) => f a im'
  | Returned im' (inr err) => Returned im' (inr err)
  | OutOfFuel => OutOfFuel
  | Panicked => Panicked
  end.
Definition get_importer : imp Importer := λ im, Returned im (inl im).
Definition change_importer (f : Importer → Importer) : imp unit := λ im, Returned (f im) (inl tt).
Definition of_result {A} (r : result A) : imp A := λ im, Returned im r.
(** The error in other words. *)
Definition wrap_error {A} (f : error → error) (m : imp A) : imp A := λ im,
  match m im with Returned im' (inr err) => Returned im' (inr (f err)) | r => r end.
(** A deferred call. *)
Definition deferring {A} (f : Importer → Importer) (m : imp A) : imp A := λ im,
  match m im with Returned im' r => Returned (f im') r | r => r end.
Fixpoint imp_fold {A B} (f : B → A → imp B) (l : list A) (b : B) : imp B :=
  match l with [] => mret b | a :: l' => b' ← f b a; imp_fold f l' b' end.

Section Importing.
Context `{MapRange} `{SchemaFormat} `{GoFormat}.
Variable structs : list StructType.
Variables resourceType namespacedType : nat.       (* types.Resource and types.Namespaced *)
Variable type_String : nat → string.               (* the %s of a struct type *)
Local Abbreviation struct := (struct structs).

Definition getTypeName (im : Importer) (t : gotype) : string :=
  match list_find (λ e : gotype * string, e.1 = t) (typeNames im) with
  | Some (_, (_, name)) => name
  | None => LowerTitle (type_Name structs t)
  end.

(** ** types/schemas.go: the table of mappers *)
Definition AddMapper (im : Importer) (v : APIVersion) (schemaID : string) (m : SchemaMapper) : Importer :=
  let table := default ∅ (mappers im !! Path v) in
  mkImporter (registry im) (processingTypes im) (typeNames im)
    (<[Path v := <[schemaID := default [] (table !! schemaID) ++ [m]]> table]> (mappers im))
    (DefaultMappers im) (DefaultPostMappers im) (typeMappers im).
Definition mapper (im : Importer) (v : APIVersion) (name : string) : list SchemaMapper :=
  let '(path, name) := match LastIndex name "/" with
                       | Some idx => (str_take idx name, str_drop (S idx) name)
                       | None => (Path v, name)
                       end in
  default [] (mappers im !! path ≫= (!!) name).

(** Mappers.ModifySchema: until the first error. *)
Fixpoint Mappers_ModifySchema (l : list SchemaMapper) (sc : Schema) (s : Schemas) : (Schema * Schemas) * option error :=
  match l with
  | [] => ((sc, s), None)
  | m :: l' => match m sc s with ((sc, s), None) => Mappers_ModifySchema l' sc s | r => r end
  end.

(** typeMapper.ModifySchema; [sub wanted] are the fields of one of the three maps. *)
Inductive holder := HoldsOne | HoldsArray | HoldsMap.
#[local] Instance holder_eq_dec : EqDecision holder.
Proof. solve_decision. Defined.
Definition holds (t : string) : holder * string :=
  if IsArrayType t then (HoldsArray, SubType t) else if IsMapType t then (HoldsMap, SubType t) else (HoldsOne, t).
Definition sub_schemas (wanted : holder) (s : Schemas) (sc : Schema) : gmap string Schema :=
  foldl (λ m (e : string * Field),
           let '(h, t) := holds (Type_ e.2) in
           match Schemas_Schema s (Some (Version sc)) t with
           | Some sub => if decide (h = wanted) then <[e.1 := sub]> m else m
           | None => m
           end) ∅ (range (ResourceFields (default sc (InternalSchema sc)))).
Definition typeMapper_ModifySchema (l : list SchemaMapper) (root : bool) (sc : Schema) (s : Schemas)
  : TypeMapper * ((Schema * Schemas) * option error) :=
  (mkTypeMapping root (Path (Version sc) +:+ "/schemas/" +:+ ID sc)
     (sub_schemas HoldsOne s sc) (sub_schemas HoldsArray s sc) (sub_schemas HoldsMap s sc),
   Mappers_ModifySchema l sc s).

(** setupFilters *)
Definition setupFilters (sc : Schema) : Schema :=
  if negb (ContainsString (CollectionMethods sc) "GET") then sc
  else with_filters sc
         (foldl (λ fs (e : string * Field), if decide (filter_mods (Type_ e.2) = []) then fs else <[e.1 := filter_mods (Type_ e.2)]> fs)
            (CollectionFilters sc) (range (ResourceFields sc))).

(** ** The recursion through the types *)
Section Step.
Variable import_struct : APIVersion → nat → imp (option Schema).     (* importType; [None] is the nil schema *)
Variable read_embedded : Schema → nat → imp Schema.                  (* readFields *)

Fixpoint determineSchemaType (v : APIVersion) (t : gotype) : imp string :=
  match t with
  | TBasic KUint8 _ _ => mret "byte"
  | TBasic KBool _ _ => mret "boolean"
  | TBasic (KInt | KInt32 | KUint32 | KUint64 | KInt64) _ _ => mret "int"
  | TBasic (KFloat32 | KFloat64) _ _ => mret "float"
  | TBasic KInterface _ _ => mret "json"
  | TBasic KString _ _ => mret "string"
  | TBasic k _ _ => of_result (inr (ErrorString ("unknown type kind " +:+ kind_String k)))
  | TPtr _ => of_result (inr (ErrorString "unknown type kind ptr"))
  | TMap _ _ e => sub ← determineSchemaType v (deRef e); mret ("map[" +:+ sub +:+ "]")
  | TSlice _ _ e =>
      sub ← determineSchemaType v (deRef e);
      mret (if decide (sub = "byte") then "base64" else "array[" +:+ sub +:+ "]")
  | TStruct n =>
      let name := StName (struct n) in
      if decide (name = "Time") then mret "date"
      else if decide (name = "IntOrString") then mret "intOrString"
      else if decide (name = "Quantity") then mret "string"
      else sc ← import_struct v n;
           match sc with Some sc => mret (ID sc) | None => λ _, Panicked end
  end.

(** The loop of readFields over the fields of [t]: the schema, hasType and
    hasMeta. *)
Definition read_field (t : nat) (acc : Schema * bool * bool) (f : StructField) : imp (Schema * bool * bool) :=
  let '(sc, hasType, hasMeta) := acc in
  if negb (bool_decide (FPkgPath f = "")) || bool_decide (jsonName f = "-") then mret acc
  else
    let hasType := hasType || FAnonymous f && bool_decide (jsonName f = "") && k8sType structs f in
    let hasMeta := hasMeta || FAnonymous f && bool_decide (jsonName f = "metadata") && k8sObject structs f in
    if FAnonymous f && bool_decide (jsonName f = "") then
      match deRef (FType f) with
      | TStruct n =>
          let sc := if decide (n = namespacedType) then with_scope sc "namespace" else sc in
          sc ← read_embedded sc n; mret (sc, hasType, hasMeta)
      | _ => mret (sc, hasType, hasMeta)
      end
    else if decide (field_name f ∈ ["links"; "actions"]) then mret (sc, hasType, hasMeta)
    else
      field ← of_result (applyTag f (initial_field f));
      field ← (if decide (Type_ field = "") then
                 inferred ← wrap_error (λ err, ErrorString ("failed inspecting type " +:+ type_String t +:+ ", field " +:+ field_name f
                                                              +:+ ": " +:+ Error err))
                              (determineSchemaType (Version sc) (deRef (FType f)));
                 mret (set_Type field inferred)
               else mret field : imp Field);
      field ← of_result (typed_default field);
      mret (set_fields sc (<[field_name f := field]> (ResourceFields sc)), hasType, hasMeta).
Definition read_fields (sc : Schema) (t : nat) : imp Schema :=
  let sc := if decide (t = resourceType) then with_rest sc else sc in
  acc ← imp_fold (read_field t) (StFields (struct t)) (sc, false, false);
  mret (let '(sc, hasType, hasMeta) := acc in if (hasType : bool) && hasMeta then with_rest sc else sc).

Definition new_schema (v : APIVersion) (t : nat) (typeName : string) : Schema :=
  mkSchema typeName false "" (StName (struct t)) "" "" "" v "" [] ∅ ∅ [] ∅ ∅ "" "" None.
Definition newSchemaFromType (v : APIVersion) (t : nat) (typeName : string) : imp Schema :=
  let sc := new_schema v t typeName in
  _ ← change_importer (λ im, set_processing im ((t, sc) :: processingTypes im));
  deferring (λ im, set_processing im (filter (λ e : nat * Schema, e.1 ≠ t) (processingTypes im))) (read_embedded sc t).

Definition listable (sc : Schema) : bool := bool_decide (CanList AllAccess sc None = None).
(** What importType does with a schema it has built; [add] is AddSchema. *)
Definition finish_import (add : Schemas → Schema → option Schemas) (l : list SchemaMapper) (sc : Schema) : imp (option Schema) :=
  im ← get_importer;
  let '(tm, ((sc, s), err)) := typeMapper_ModifySchema l (listable sc) sc (registry im) in
  _ ← change_importer (λ im, set_registry im s);
  match err with
  | Some err => of_result (inr err)
  | None =>
      let sc := setupFilters sc in
      match add s sc with
      | None => λ _, OutOfFuel
      | Some s =>
          _ ← change_importer (λ im, let im' := set_registry im s in
                                     if is_fresh (registry im) sc false then add_typeMapper im' sc tm else im');
          of_result match Schemas_Err s with
                    | Some err => inr err
                    | None => inl (Schemas_Schema s (Some (Version sc)) (ID sc))
                    end
      end
  end.
Definition import_type (add : Schemas → Schema → option Schemas) (v : APIVersion) (t : nat) (overrides : list nat) : imp (option Schema) :=
  im ← get_importer;
  let typeName := getTypeName im (TStruct t) in
  match Schemas_Schema (registry im) (Some v) typeName, list_find (λ e : nat * Schema, e.1 = t) (processingTypes im) with
  | Some existing, _ => mret (Some existing)
  | None, Some (_, (_, half)) => mret (Some half)
  | None, None =>
      sc ← newSchemaFromType v t typeName;
      im ← get_importer;
      let l := mapper im (Version sc) (ID sc) in
      let l := match DefaultMappers im with Some d => if listable sc then d ++ l else l | None => l end in
      let l := match DefaultPostMappers im with Some d => l ++ d | None => l end in
      sc ← (if decide (length l = 0)%nat then mret sc
            else internal ← newSchemaFromType v t typeName; mret (with_internal sc internal) : imp Schema);
      sc ← imp_fold read_embedded overrides sc;
      finish_import add l sc
  end.
End Step.

(** readFields and importType, each call one unit of fuel deeper. *)
Fixpoint readFields (fuel : nat) (sc : Schema) (t : nat) : imp Schema :=
  match fuel with
  | O => λ _, OutOfFuel
  | S n => read_fields (λ v t, importType n v t []) (readFields n) sc t
  end
with importType (fuel : nat) (v : APIVersion) (t : nat) (overrides : list nat) : imp (option Schema) :=
  match fuel with
  | O => λ _, OutOfFuel
  | S n => import_type (readFields n) (AddSchema n) v t overrides
  end.

(** ** The exported operations *)
Definition TypeName (im : Importer) (name : string) (obj : gotype) : Importer :=
  mkImporter (registry im) (processingTypes im) ((obj, name) :: typeNames im) (mappers im) (DefaultMappers im)
    (DefaultPostMappers im) (typeMappers im).
(** Several mappers are added as one that runs them in turn. *)
Definition AddMapperForType (im : Importer) (v : APIVersion) (obj : gotype) (l : list SchemaMapper) : Importer :=
  match l with
  | [] => im
  | [m] => AddMapper im v (getTypeName im obj) m
  | l => AddMapper im v (getTypeName im obj) (Mappers_ModifySchema l)
  end.
(** Import of an object; the overrides are structs.  The fields of a type that is
    not a struct cannot be read. *)
Definition Import (fuel : nat) (v : APIVersion) (obj : gotype) (overrides : list nat) : imp (option Schema) :=
  match obj with
  | TStruct t => importType fuel v t overrides
  | _ => im ← get_importer;
         match Schemas_Schema (registry im) (Some v) (getTypeName im obj) return imp (option Schema) with
         | Some existing => mret (Some existing)
         | None => λ _, Panicked
         end
  end.
Definition MustImport (fuel : nat) (v : APIVersion) (obj : gotype) (overrides : list nat) : imp unit := λ im,
  match obj with
  | TPtr _ => Panicked
  | _ => match Import fuel v obj overrides im with
         | Returned im' (inl _) => Returned im' (inl tt)
         | Returned _ (inr _) | Panicked => Panicked
         | OutOfFuel => OutOfFuel
         end
  end.
End Importing.

(** ** What a program that succeeds leaves *)
Definition wp {A} (m : imp A) (Q : A → Importer → Prop) (im : Importer) : Prop :=
  ∀ im' a, m im = Returned im' (inl a) → Q a im'.

Lemma wp_ret {A} (a : A) Q im : Q a im → wp (mret a) Q im.
Proof. by intros HQ im' a' [= <- <-]. Qed.
Lemma wp_bind {A B} (m : imp A) (f : A → imp B) Q im : wp m (λ a, wp (f a) Q) im → wp (m ≫= f) Q im.
Proof.
  intros Hm im' b. unfold mbind, imp_bind. destruct (m im) as [| |im1 [a|]] eqn:Hr; try done. by apply (Hm im1 a).
Qed.
Lemma wp_mono {A} (m : imp A) (Q Q' : A → Importer → Prop) im : wp m Q im → (∀ a im', Q a im' → Q' a im') → wp m Q' im.
Proof. intros Hm HQ im' a Hr. by apply HQ, Hm. Qed.
Lemma wp_get Q im : Q im im → wp get_importer Q im.
Proof. by intros HQ im' a [= <- <-]. Qed.
Lemma wp_change f Q im : Q tt (f im) → wp (change_importer f) Q im.
Proof. by intros HQ im' a [= <- <-]. Qed.
Lemma wp_result {A} (r : result A) (Q : A → Importer → Prop) im : (∀ a, r = inl a → Q a im) → wp (of_result r) Q im.
Proof. intros HQ im' a [= <- Hr]. by apply HQ. Qed.
Lemma wp_wrap {A} f (m : imp A) Q im : wp m Q im → wp (wrap_error f m) Q im.
Proof. intros Hm im' a. unfold wrap_error. destruct (m im) as [| |im1 [a1|]] eqn:Hr; try done. intros [= <- <-]. by apply Hm. Qed.
Lemma wp_deferring {A} f (m : imp A) Q im : wp m (λ a im', Q a (f im')) im → wp (deferring f m) Q im.
Proof. intros Hm im' a. unfold deferring. destruct (m im) as [| |im1 r] eqn:Hr; try done. intros [= <- ->]. by apply (Hm im1 a). Qed.
Lemma wp_fold {A B} (f : B → A → imp B) l b (I : B → Importer → Prop) im :
  I b im → (∀ a b im, a ∈ l → I b im → wp (f b a) I im) → wp (imp_fold f l b) I im.
Proof.
  intros Hb Hf. revert b im Hb. induction l as [|a l IH]; intros b im Hb; simpl; [by apply wp_ret|].
  apply wp_bind. eapply wp_mono; [apply Hf; [by left|done]|]. intros b' im' Hb'. apply IH; [|done]. intros. apply Hf; [by right|done].
Qed.

(** ** Well-typed schemas

    A type expression is made of scalars, lists and maps over the types that are
    known. *)
Inductive wf_type (known : string → Prop) : string → Prop :=
| wf_scalar t : t ∈ ["byte"; "boolean"; "int"; "float"; "json"; "string"; "date"; "intOrString"; "base64"] → wf_type known t
| wf_map t : wf_type known t → wf_type known ("map[" +:+ t +:+ "]")
| wf_array t : wf_type known t → wf_type known ("array[" +:+ t +:+ "]")
| wf_known t : known t → wf_type known t.
(** The default of a field has the type of the field. *)
Definition default_ok (f : Field) : Prop :=
  (Type_ f = "int" → Default f = VNil ∨ ∃ n, Default f = VInt64 n) ∧
  (Type_ f = "float" → Default f = VNil ∨ ∃ x, Default f = VFloat x) ∧
  (Type_ f = "boolean" → Default f = VNil ∨ ∃ b, Default f = VBool b).
Definition field_ok (known : string → Prop) (f : Field) : Prop := wf_type known (Type_ f) ∧ default_ok f.
Definition schema_ok (known : string → Prop) (sc : Schema) : Prop :=
  ∀ name f, ResourceFields sc !! name = Some f → field_ok known f.

Lemma wf_type_mono (K K' : string → Prop) t : (∀ t, K t → K' t) → wf_type K t → wf_type K' t.
Proof. intros HK. induction 1; eauto using wf_scalar, wf_map, wf_array, wf_known. Qed.
Lemma schema_ok_mono (K K' : string → Prop) sc : (∀ t, K t → K' t) → schema_ok K sc → schema_ok K' sc.
Proof. intros HK Hsc name f Hf. destruct (Hsc name f Hf) as [Ht Hd]. split; [by eapply wf_type_mono|done]. Qed.

Lemma typed_default_ok `{GoFormat} f f' : typed_default f = inl f' → Type_ f' = Type_ f ∧ default_ok f'.
Proof.
  unfold typed_default, default_ok. intros Ht. destruct (Default f) eqn:Hd;
    repeat (case_decide || destruct (ToNumber _) || destruct (ToFloat _)); simplify_eq; simpl; (split; [done|]);
    (split_and!; intros ?; try first [congruence | by eauto]).
Qed.

(** The types given in tags. *)
Definition tagged `{GoFormat} (structs : list StructType) (t : string) : Prop :=
  t ≠ "" ∧ ∃ st f field, st ∈ structs ∧ f ∈ StFields st ∧ applyTag f (initial_field f) = inl field ∧ Type_ field = t.

(** What is asked of a mapper: it keeps the identity of the schema and what is
    registered, and field types that were known. *)
Record polite_mapper (D : string → Prop) (m : SchemaMapper) : Prop := {
  polite_schema : ∀ sc s sc' s', m sc s = ((sc', s'), None) →
    ID sc' = ID sc ∧ Version sc' = Version sc ∧ Embed sc' = Embed sc;
  polite_registry : ∀ sc s sc' s', m sc s = ((sc', s'), None) → registry_ok s →
    registry_ok s' ∧ AddHook s' = AddHook s ∧ ∀ p i, is_Some (filed s' p i) ↔ is_Some (filed s p i);
  polite_types : ∀ sc s sc' s' (K : string → Prop), m sc s = ((sc', s'), None) → (∀ t, D t → K t) →
    schema_ok K sc → (∀ p i x, p = Path (Version sc) → filed s p i = Some x → schema_ok K x) →
    schema_ok K sc' ∧ ∀ p i x, p = Path (Version sc) → filed s' p i = Some x → schema_ok K x
}.
(** A hook that completes a schema without touching what it describes. *)
Definition polite_hook (s : Schemas) : Prop :=
  ∀ f, AddHook s = Some f → ∀ sc, ID (f sc) = ID sc ∧ Version (f sc) = Version sc ∧ Embed (f sc) = Embed sc ∧
                                  ResourceFields (f sc) = ResourceFields sc.

Section AddPolite.
Context `{MapRange} `{SchemaFormat}.
Lemma AddSchema_polite n s sc s' :
  polite_hook s → Embed sc = false → registry_ok s → AddSchema n s sc = Some s' →
  registry_ok s' ∧ AddHook s' = AddHook s ∧
  ∀ p i, (if decide (p = Path (Version sc) ∧ i = ID sc)
          then ∃ x, filed s' p i = Some x ∧ (filed s p i = Some x ∨ ResourceFields x = ResourceFields sc)
          else filed s' p i = filed s p i).
Proof.
  intros Hh He Hok Ha. split; [by apply (proj1 (add_remove_ok n) s sc false)|]. unfold AddSchema in Ha. destruct n as [|n]; [done|]. simpl in Ha.
  destruct (setupDefaults s sc) as [s1 sc1] eqn:Hd. apply setupDefaults_same in Hd as (Hp & _ & _ & _ & Hhk & Hi & Hv & HE & _ & Hf).
  assert (ID (apply_hook s1 sc1) = ID sc ∧ Version (apply_hook s1 sc1) = Version sc ∧ Embed (apply_hook s1 sc1) = Embed sc ∧
          ResourceFields (apply_hook s1 sc1) = ResourceFields sc) as (Hi' & Hv' & HE' & Hf').
  { unfold apply_hook. rewrite Hhk. destruct (AddHook s) as [f|] eqn:Hs; [|done].
    destruct (Hh f Hs sc1) as (-> & -> & -> & ->). done. }
  rewrite HE', He in Ha. injection Ha as <-. split; [by rewrite register_hook|].
  intros p i. rewrite register_filed, Hi', Hv'. assert (∀ p i, filed s1 p i = filed s p i) as Hfl by (intros; unfold filed; by rewrite Hp).
  case_decide as Hc; [|done]. destruct Hc as [-> ->]. unfold registered, is_fresh. rewrite Hi', Hv', Hfl.
  destruct (filed s (Path (Version sc)) (ID sc)) as [old|]; simpl; eexists; eauto.
Qed.

(** A lookup by a plain name finds what is filed under the path. *)
Lemma doSchema_path s v name t :
  registry_ok s → Contains name "/schemas/" = false → doSchema s (Some v) name = Some t → filed s (Path v) (ID t) = Some t.
Proof.
  intros Hok Hn. unfold doSchema. rewrite Hn. intros (m & Hm & Ht)%bind_Some. destruct (m !! name) as [sc|] eqn:Hmn.
  - injection Ht as ->. assert (filed s (Path v) name = Some t) as Hf by (unfold filed; by rewrite Hm).
    by destruct (ok_filed _ Hok _ _ _ Hf) as [_ <-].
  - apply fmap_Some in Ht as ([k [i sc]] & Hl & ->). apply list_find_Some in Hl as (Hl & _).
    apply list_elem_of_lookup_2, elem_of_range in Hl. simpl in *.
    assert (filed s (Path v) i = Some sc) as Hf by (unfold filed; by rewrite Hm). by destruct (ok_filed _ Hok _ _ _ Hf) as [_ <-].
Qed.
End AddPolite.

Lemma filter_all {A} (P : A → Prop) `{∀ x, Decision (P x)} l : Forall P l → filter P l = l.
Proof. induction 1 as [|x l Hx Hl IH]; [done|]. by rewrite filter_cons_True, IH. Qed.

Lemma Mappers_polite D l : Forall (polite_mapper D) l → polite_mapper D (Mappers_ModifySchema l).
Proof.
  induction 1 as [|m l Hm Hl IH]; split; simpl; try (intros; simplify_eq; naive_solver).
  - intros sc s sc' s' He. destruct (m sc s) as [[sc1 s1] [err|]] eqn:Hr; [done|].
    destruct (polite_schema _ _ Hm _ _ _ _ Hr) as (? & ? & ?), (polite_schema _ _ IH _ _ _ _ He) as (? & ? & ?). split_and!; congruence.
  - intros sc s sc' s' He Hok. destruct (m sc s) as [[sc1 s1] [err|]] eqn:Hr; [done|].
    destruct (polite_registry _ _ Hm _ _ _ _ Hr Hok) as (Hok1 & ? & Hf1).
    destruct (polite_registry _ _ IH _ _ _ _ He Hok1) as (Hok2 & ? & Hf2).
    split_and!; [done|congruence|]. intros p i. by rewrite Hf2.
  - intros sc s sc' s' K He HK Hsc Hs. destruct (m sc s) as [[sc1 s1] [err|]] eqn:Hr; [done|].
    destruct (polite_types _ _ Hm _ _ _ _ K Hr HK Hsc Hs) as [Hsc1 Hs1].
    destruct (polite_schema _ _ Hm _ _ _ _ Hr) as (_ & Hv & _). rewrite <- Hv in Hs1 |- *.
    by apply (polite_types _ _ IH _ _ _ _ K He HK Hsc1).
Qed.

Section Closed.
Context `{MapRange} `{SchemaFormat} `{GoFormat}.
Variables (structs : list StructType) (resourceType namespacedType : nat) (type_String : nat → string).
Variables (v : APIVersion) (D : string → Prop).
Hypothesis D_tagged : ∀ t, tagged structs t → D t.

(** The types that may be used: declared ones, registered ones, those that are
    being built, and [E]. *)
Definition in_use (im : Importer) (E : string → Prop) (t : string) : Prop :=
  D t ∨ is_Some (filed (registry im) (Path v) t) ∨ (∃ e, e ∈ processingTypes im ∧ ID e.2 = t) ∨ E t.
Record import_ok (E : string → Prop) (im : Importer) : Prop := {
  io_registry : registry_ok (registry im);
  io_hook : polite_hook (registry im);
  io_mappers : ∀ p name, Forall (polite_mapper D) (default [] (mappers im !! p ≫= (!!) name));
  io_defaults : Forall (polite_mapper D) (default [] (DefaultMappers im)) ∧ Forall (polite_mapper D) (default [] (DefaultPostMappers im));
  io_names : ∀ t, Contains (getTypeName structs im (TStruct t)) "/schemas/" = false;
  io_closed : ∀ i x, filed (registry im) (Path v) i = Some x → schema_ok (in_use im E) x
}.
(** What a part of an import leaves of the state. *)
Definition extends (im im' : Importer) : Prop :=
  processingTypes im' = processingTypes im ∧ ∀ i, is_Some (filed (registry im) (Path v) i) → is_Some (filed (registry im') (Path v) i).
(** A schema under construction. *)
Definition built (E : string → Prop) (name : string) (sc : Schema) (im : Importer) : Prop :=
  schema_ok (in_use im E) sc ∧ ID sc = name ∧ Version sc = v ∧ Embed sc = false.

(** The name of a schema an import returns. *)
Definition found (im : Importer) (t : string) : Prop :=
  is_Some (filed (registry im) (Path v) t) ∨ ∃ e, e ∈ processingTypes im ∧ ID e.2 = t.
Lemma found_in_use im E t : found im t → in_use im E t.
Proof. unfold found, in_use. tauto. Qed.

Lemma extends_refl im : extends im im.
Proof. done. Qed.
Lemma extends_trans im1 im2 im3 : extends im1 im2 → extends im2 im3 → extends im1 im3.
Proof. intros [Hp Hf] [Hp' Hf']. split; [congruence|]. auto. Qed.
Lemma in_use_mono E im im' t : extends im im' → in_use im E t → in_use im' E t.
Proof. intros [Hp Hf] [?|[?|[?|?]]]; unfold in_use; rewrite ?Hp; auto. Qed.
Lemma built_mono E name sc im im' : extends im im' → built E name sc im → built E name sc im'.
Proof. intros He (Hs & ?). split; [|done]. eapply schema_ok_mono; [|done]. intros t. by apply in_use_mono. Qed.
Lemma in_use_weaken (E E' : string → Prop) im t : (∀ t, E t → E' t) → in_use im E t → in_use im E' t.
Proof. intros HE [?|[?|[?|?]]]; unfold in_use; auto. Qed.
Lemma import_ok_weaken (E E' : string → Prop) im : (∀ t, E t → E' t) → import_ok E im → import_ok E' im.
Proof.
  intros HE [H1' H2' H3' H4' H5' H6']. split; try done. intros i x Hx. eapply schema_ok_mono; [|by eapply H6'].
  intros t. by apply in_use_weaken.
Qed.

(** The two recursive calls keep the invariant, for every [E]. *)
Definition sound_read (r : Schema → nat → imp Schema) : Prop := ∀ E name sc t im,
  import_ok E im → built E name sc im →
  wp (r sc t) (λ sc' im', import_ok E im' ∧ extends im im' ∧ built E name sc' im') im.
Definition sound_import (i : APIVersion → nat → imp (option Schema)) : Prop := ∀ E t im,
  import_ok E im →
  wp (i v t) (λ o im', import_ok E im' ∧ extends im im' ∧ ∀ sc, o = Some sc → found im' (ID sc)) im.

Section Step.
Variables (import_struct : APIVersion → nat → imp (option Schema)) (read_embedded : Schema → nat → imp Schema).
Hypotheses (Himport : sound_import import_struct) (Hread : sound_read read_embedded).

Lemma determine_sound t E im :
  import_ok E im →
  wp (determineSchemaType structs import_struct v t) (λ s im', import_ok E im' ∧ extends im im' ∧ wf_type (in_use im' E) s) im.
Proof.
  set (P := λ t, ∀ im, import_ok E im →
    wp (determineSchemaType structs import_struct v t) (λ s im', import_ok E im' ∧ extends im im' ∧ wf_type (in_use im' E) s) im).
  assert (P t ∧ P (deRef t)) as [Ht _]; [|apply Ht]. clear im. unfold P.
  assert (∀ s im, import_ok E im → s ∈ ["byte"; "boolean"; "int"; "float"; "json"; "string"; "date"; "intOrString"; "base64"] →
    wp (mret s) (λ s im', import_ok E im' ∧ extends im im' ∧ wf_type (in_use im' E) s) im) as Hscalar.
  { intros s im Hok Hs. apply wp_ret. split_and!; [done|apply extends_refl|by apply wf_scalar]. }
  induction t as [k nm pkg|t [IH _]|nm pkg t [_ IH]|nm pkg t [_ IH]|n]; cbn [deRef];
    lazymatch goal with |- ?X ∧ ?X => enough X as HX by (split; exact HX) | _ => split; [done|exact IH] end; intros im Hok;
    cbn [determineSchemaType].
  - destruct k; try (apply Hscalar; [done|set_solver]); by apply wp_result.
  - apply wp_bind. eapply wp_mono; [by apply IH|]. intros sub im' (? & ? & ?). apply wp_ret. split_and!; [done..|]. by apply wf_map.
  - apply wp_bind. eapply wp_mono; [by apply IH|]. intros sub im' (? & ? & ?). apply wp_ret. split_and!; [done..|].
    case_decide; [apply wf_scalar; set_solver|by apply wf_array].
  - repeat (case_decide; [apply Hscalar; [done|set_solver]|]).
    apply wp_bind. eapply wp_mono; [by apply Himport|]. intros [sc|] im' (? & ? & Hsc); [|done].
    apply wp_ret. split_and!; [done..|]. by apply wf_known, found_in_use, Hsc.
Qed.

(** One field of a struct that belongs to the program. *)
Lemma read_field_sound E name t f acc im0 im :
  f ∈ StFields (struct structs t) → extends im0 im → import_ok E im → built E name acc.1.1 im →
  wp (read_field structs namespacedType type_String import_struct read_embedded t acc f)
     (λ acc' im', import_ok E im' ∧ extends im0 im' ∧ built E name acc'.1.1 im') im.
Proof.
  intros Hin Hext Hok Hb. unfold read_field. destruct acc as [[sc hasType] hasMeta]. simpl in Hb.
  destruct (_ || _); [by apply wp_ret|]. destruct (_ && bool_decide (jsonName f = "")).
  { destruct (deRef (FType f)) as [| | | |n]; try by apply wp_ret.
    apply wp_bind. eapply wp_mono; [apply (Hread E name); [done|]|].
    - destruct Hb as (Hs & Hi & Hv & He). by case_decide.
    - intros sc' im' (? & ? & ?). apply wp_ret. split_and!; [done|by eapply extends_trans|done]. }
  case_decide as Hbl; [by apply wp_ret|]. apply wp_bind, wp_result. intros field Htag. apply wp_bind.
  set (Q := λ (fld : Field) im', import_ok E im' ∧ extends im im' ∧ wf_type (in_use im' E) (Type_ fld)).
  eapply (wp_mono _ Q).
  { case_decide as Hty; [|apply wp_ret].
    - destruct Hb as (_ & _ & -> & _). apply wp_bind, wp_wrap. eapply wp_mono; [by apply determine_sound|].
      intros s im' (? & ? & ?). apply wp_ret. by split_and!.
    - split_and!; [done|apply extends_refl|]. apply wf_known. left. apply D_tagged. split; [done|].
      exists (struct structs t), f, field. split_and!; try done. unfold struct in *.
      destruct (structs !! t) eqn:Hst; simpl in *; [by eapply list_elem_of_lookup_2|by apply elem_of_nil in Hin]. }
  intros fld im' (Hok' & Hext' & Hwf). apply wp_bind, wp_result. intros fld' (Hty & Hd)%typed_default_ok. apply wp_ret. simpl.
  split_and!; [done|by eapply extends_trans|]. destruct (built_mono _ _ _ _ _ Hext' Hb) as (Hs & ? & ? & ?). split; [|done].
  intros n' g. simpl. rewrite lookup_insert. case_decide; [intros [= <-]; by split; [rewrite Hty|]|]. apply Hs.
Qed.

Lemma read_fields_sound : sound_read (read_fields structs resourceType namespacedType type_String import_struct read_embedded).
Proof.
  intros E name sc t im Hok Hb. unfold read_fields. apply wp_bind.
  eapply (wp_mono _ (λ (acc : Schema * bool * bool) im', import_ok E im' ∧ extends im im' ∧ built E name acc.1.1 im')).
  - apply wp_fold; [split_and!; [done|apply extends_refl|]; simpl; by case_decide|].
    intros f acc im' Hin (? & ? & ?). by apply read_field_sound.
  - intros [[sc' hasType] hasMeta] im' (? & ? & Hb'). apply wp_ret. split_and!; [done..|]. by destruct (hasType && hasMeta).
Qed.

(** A schema has been built: its name is in use until it is registered. *)
Lemma newSchemaFromType_sound E name t im :
  import_ok E im → list_find (λ e : nat * Schema, e.1 = t) (processingTypes im) = None →
  let E' := λ x, E x ∨ x = name in
  wp (newSchemaFromType structs read_embedded v t name) (λ sc im', import_ok E' im' ∧ extends im im' ∧ built E' name sc im') im.
Proof.
  intros Hok Hnew E'. unfold newSchemaFromType. apply wp_bind, wp_change, wp_deferring.
  set (sc0 := new_schema structs v t name). set (im1 := set_processing im _).
  assert (∀ x, in_use im E x → in_use im1 E x) as Hmono.
  { intros x [?|[?|[(e & He & ?)|?]]]; unfold in_use; auto. right; right; left. exists e. split; [by right|done]. }
  assert (import_ok E im1) as Hok1.
  { destruct Hok as [? ? ? ? ? Hcl]. split; try done. intros i x Hx. eapply schema_ok_mono; [apply Hmono|by eapply Hcl]. }
  eapply wp_mono; [apply (Hread E name); [done|]|].
  { split_and!; [|done..]. intros n f. simpl. by rewrite lookup_empty. }
  intros sc im2 (Hok2 & [Hp Hf] & (Hs & Hrest)). simpl in Hp.
  set (im3 := set_processing im2 _).
  assert (processingTypes im3 = processingTypes im) as Hp3.
  { simpl. rewrite Hp, filter_cons_False by naive_solver. apply filter_all. by apply list_find_None in Hnew. }
  assert (∀ x, in_use im2 E x → in_use im3 E' x) as Hmono3.
  { intros x [?|[?|[(e & He & ?)|?]]]; unfold in_use, E'; auto. rewrite Hp3. rewrite Hp in He.
    apply elem_of_cons in He as [->|He]; [by subst; auto 10|]. right; right; left. by exists e. }
  split_and!.
  - destruct Hok2 as [? ? ? ? ? Hcl]. split; try done. intros i x Hx. eapply schema_ok_mono; [apply Hmono3|by eapply Hcl].
  - split; [done|]. intros i Hi. by apply Hf.
  - split; [|done]. by eapply schema_ok_mono.
Qed.

Lemma setupFilters_same sc : ID (setupFilters sc) = ID sc ∧ Version (setupFilters sc) = Version sc ∧ Embed (setupFilters sc) = Embed sc ∧
  ResourceFields (setupFilters sc) = ResourceFields sc.
Proof. unfold setupFilters. by destruct (negb _). Qed.

Lemma finish_import_sound n l (E E' : string → Prop) name sc im :
  Forall (polite_mapper D) l → (∀ t, E' t → E t ∨ t = name) → Contains name "/schemas/" = false →
  import_ok E' im → built E' name sc im →
  wp (finish_import (AddSchema n) l sc) (λ o im', import_ok E im' ∧ extends im im' ∧ ∀ sc, o = Some sc → found im' (ID sc)) im.
Proof.
  intros Hl HE Hname Hok (Hs & Hi & Hv & He). unfold finish_import. apply wp_bind, wp_get. unfold typeMapper_ModifySchema.
  destruct (Mappers_ModifySchema l sc (registry im)) as [[sc1 s1] [err|]] eqn:Hm; [by apply wp_bind, wp_change, wp_result|].
  apply wp_bind, wp_change. pose proof (Mappers_polite D l Hl) as Hpol.
  destruct (polite_schema _ _ Hpol _ _ _ _ Hm) as (Hi1 & Hv1 & He1).
  destruct (polite_registry _ _ Hpol _ _ _ _ Hm (io_registry _ _ Hok)) as (Hreg1 & Hhook1 & Hfiled1).
  destruct (polite_types _ _ Hpol _ _ _ _ (in_use im E') Hm) as [Hs1 Hcl1]; [unfold in_use; auto|done| |].
  { intros p i x -> Hx. rewrite Hv in Hx. by apply (io_closed _ _ Hok i). }
  rewrite Hv in Hcl1. destruct (setupFilters_same sc1) as (Hi2 & Hv2 & He2 & Hf2). set (sc2 := setupFilters sc1) in *.
  destruct (AddSchema n s1 sc2) as [s2|] eqn:Ha; [|done]. apply wp_bind, wp_change, wp_result. intros o Ho.
  destruct (AddSchema_polite n s1 sc2 s2) as (Hreg2 & Hhook2 & Hfiled2); try done.
  { intros f Hf. rewrite Hhook1 in Hf. by apply (io_hook _ _ Hok). }
  { congruence. }
  rewrite Hv2, Hv1, Hi2, Hi1, Hv, Hi in *. destruct (Schemas_Err s2) eqn:Herr; [done|]. injection Ho as <-.
  match goal with |- import_ok E ?x ∧ _ => set (im2 := x) end.
  assert (registry im2 = s2) as Hr2 by (unfold im2; by destruct (is_fresh _ _ _)).
  assert (processingTypes im2 = processingTypes im) as Hp2 by (unfold im2; by destruct (is_fresh _ _ _)).
  assert (∀ i, is_Some (filed (registry im) (Path v) i) ∨ i = name → is_Some (filed s2 (Path v) i)) as Hgrow.
  { intros i Hi'. specialize (Hfiled2 (Path v) i). case_decide as Hc; [destruct Hfiled2 as (x & -> & _); by eexists|].
    rewrite Hfiled2, Hfiled1. destruct Hi'; [done|]. naive_solver. }
  assert (∀ t, in_use im E' t → in_use im2 E t) as Huse.
  { intros t Ht. unfold in_use in *. rewrite Hr2, Hp2. destruct Ht as [?|[?|[?|[?| ->]%HE]]]; eauto. }
  split_and!.
  - destruct Hok as [Hok1 Hok2 Hok3 Hok4 Hok5 Hok6]. split.
    + by rewrite Hr2.
    + rewrite Hr2. intros f Hf. rewrite Hhook2, Hhook1 in Hf. by apply Hok2.
    + unfold im2. by destruct (is_fresh _ _ _).
    + unfold im2. by destruct (is_fresh _ _ _).
    + unfold im2. by destruct (is_fresh _ _ _).
    + intros i x. rewrite Hr2. intros Hx. apply (schema_ok_mono (in_use im E')); [done|]. specialize (Hfiled2 (Path v) i). case_decide as Hc.
      * destruct Hfiled2 as (y & Hy & [Hy'|Hy']); rewrite Hx in Hy; injection Hy as <-; [by eapply Hcl1|].
        intros nm f. rewrite Hy', Hf2. apply Hs1.
      * rewrite Hfiled2 in Hx. by eapply Hcl1.
  - split; [done|]. rewrite Hr2. auto.
  - intros sc' Hsc'. left. rewrite Hr2. apply doSchema_path in Hsc'; [by eexists|done..].
Qed.

(** The mappers of a type are those of the table and the defaults. *)
Lemma chosen_mappers_polite E im (sc : Schema) :
  import_ok E im →
  let l := mapper im (Version sc) (ID sc) in
  let l := match DefaultMappers im with Some d => if listable sc then d ++ l else l | None => l end in
  Forall (polite_mapper D) match DefaultPostMappers im with Some d => l ++ d | None => l end.
Proof.
  intros Hok. destruct (io_defaults _ _ Hok) as [Hd Hpost]. pose proof (io_mappers _ _ Hok) as Hm.
  assert (Forall (polite_mapper D) (mapper im (Version sc) (ID sc))) as Hmap by (unfold mapper; destruct (LastIndex _ _); apply Hm).
  destruct (DefaultMappers im), (DefaultPostMappers im); cbn [default] in *; try destruct (listable sc); rewrite ?Forall_app; auto.
Qed.

(** The copy of a schema that mappers are going to change. *)
Lemma internal_sound E name t sc (l : list SchemaMapper) im :
  import_ok E im → built E name sc im → list_find (λ e : nat * Schema, e.1 = t) (processingTypes im) = None →
  let E' := λ x, E x ∨ x = name in
  wp (if decide (length l = 0)%nat then mret sc
      else internal ← newSchemaFromType structs read_embedded v t name; mret (with_internal sc internal))
     (λ sc im', import_ok E' im' ∧ extends im im' ∧ built E' name sc im') im.
Proof.
  intros Hok Hb Hnew E'.
  assert (∀ im', extends im im' → built E' name sc im') as Hb'.
  { intros im' Hext. destruct (built_mono _ _ _ _ _ Hext Hb) as (Hs & ?). split; [|done].
    eapply schema_ok_mono; [|exact Hs]. intros x. apply in_use_weaken. by left. }
  case_decide.
  - apply wp_ret. split_and!; [by eapply import_ok_weaken; [|done]; left|apply extends_refl|apply Hb', extends_refl].
  - apply wp_bind. eapply wp_mono; [by apply newSchemaFromType_sound|].
    intros copy im2 (Hok2 & Hext2 & _). apply wp_ret. split_and!; [done..|]. by destruct (Hb' im2 Hext2).
Qed.

Lemma import_type_sound n overrides : sound_import (λ v t, import_type structs read_embedded (AddSchema n) v t overrides).
Proof.
  intros E t im Hok. unfold import_type. apply wp_bind, wp_get. set (name := getTypeName structs im (TStruct t)).
  pose proof (io_names _ _ Hok t) as Hname. fold name in Hname.
  destruct (Schemas_Schema (registry im) (Some v) name) as [existing|] eqn:Hex.
  { apply wp_ret. split_and!; [done|apply extends_refl|]. intros sc [= <-]. left.
    apply doSchema_path in Hex; [by eexists|apply Hok|done]. }
  destruct (list_find _ _) as [[k [t' half]]|] eqn:Hhalf.
  { apply wp_ret. split_and!; [done|apply extends_refl|]. intros sc [= <-]. right.
    apply list_find_Some in Hhalf as (Hin & _). apply list_elem_of_lookup_2 in Hin. by exists (t', half). }
  set (E1 := λ x, E x ∨ x = name). apply wp_bind. eapply wp_mono; [by apply newSchemaFromType_sound|].
  intros sc im1 (Hok1 & Hext1 & Hb1). apply wp_bind, wp_get.
  pose proof (chosen_mappers_polite _ im1 sc Hok1) as Hpolite. cbn zeta in Hpolite |- *.
  match goal with |- context [finish_import _ ?l _] => set (mappers := l) in * end. clearbody mappers.
  set (E2 := λ x, E1 x ∨ x = name). apply wp_bind.
  eapply wp_mono; [apply (internal_sound E1 name t); [done..|by rewrite (proj1 Hext1)]|].
  intros sc1 im2 (Hok2 & Hext2 & Hb2). apply wp_bind.
  eapply (wp_mono _ (λ sc im', import_ok E2 im' ∧ extends im im' ∧ built E2 name sc im')).
  { apply wp_fold; [split_and!; [done|by eapply extends_trans|done]|]. intros o sc' im' _ (? & ? & ?). eapply wp_mono; [by apply (Hread E2 name)|].
    intros sc'' im'' (? & ? & ?). split_and!; [done|by eapply extends_trans|done]. }
  intros sc2 im3 (Hok3 & Hext3 & Hb3). eapply wp_mono; [apply (finish_import_sound n mappers E E2 name); try done|].
  { unfold E2, E1. naive_solver. }
  intros o im4 (? & ? & ?). split_and!; [done|by eapply extends_trans|done].
Qed.
End Step.

Lemma import_sound fuel :
  sound_read (readFields structs resourceType namespacedType type_String fuel) ∧
  ∀ overrides, sound_import (λ v t, importType structs resourceType namespacedType type_String fuel v t overrides).
Proof.
  induction fuel as [|n [IHr IHi]]; [done|]. split; cbn [readFields importType].
  - apply read_fields_sound; [apply IHi|done].
  - intros overrides. by apply import_type_sound.
Qed.

(** C24: imported schemas are well typed.  When an import of a Go type into a
    registry that is in order succeeds (with mappers and a hook that are polite
    and type names without the string /schemas/), the registry is in order
    afterwards, nothing is left half built, and the schema is registered.  In
    order means: every field of every schema of the version has a type that is
    made of scalars, lists and maps over types that a tag or a mapper declares
    and over registered schemas, so that no type expression dangles, also when
    types refer to each other in a circle; and a default of a number or boolean
    field is a number or a boolean. *)
Theorem import_closed fuel t overrides im im' sc :
  import_ok (λ _, False) im → processingTypes im = [] →
  importType structs resourceType namespacedType type_String fuel v t overrides im = Returned im' (inl (Some sc)) →
  import_ok (λ _, False) im' ∧ processingTypes im' = [] ∧ is_Some (filed (registry im') (Path v) (ID sc)) ∧
  ∀ i x name f, filed (registry im') (Path v) i = Some x → ResourceFields x !! name = Some f →
    wf_type (λ t, D t ∨ is_Some (filed (registry im') (Path v) t)) (Type_ f) ∧ default_ok f.
Proof.
  intros Hok Hp Hr. destruct (proj2 (import_sound fuel) overrides (λ _, False) t im Hok im' (Some sc) Hr) as (Hok' & [Hp' _] & Hsc).
  rewrite Hp in Hp'. split_and!; [done|done| |].
  - destruct (Hsc sc eq_refl) as [?|(e & He & _)]; [done|]. rewrite Hp' in He. by apply elem_of_nil in He.
  - intros i x name f Hx Hf. destruct (io_closed _ _ Hok' i x Hx name f Hf) as [Ht Hd]. split; [|done].
    eapply wf_type_mono; [|done]. intros y [?|[?|[(e & He & _)|[]]]]; [by left|by right|]. rewrite Hp' in He. by apply elem_of_nil in He.
Qed.
End Closed.

(** ** Enough fuel *)
Definition returns_imp {A} (m : imp A) (im : Importer) : Prop := m im ≠ OutOfFuel.
Lemma returns_ret {A} (a : A) im : returns_imp (mret a) im.
Proof. done. Qed.
Lemma returns_result {A} (r : result A) im : returns_imp (of_result r) im.
Proof. done. Qed.
Lemma returns_bind {A B} (m : imp A) (f : A → imp B) im :
  returns_imp m im → wp m (λ a, returns_imp (f a)) im → returns_imp (m ≫= f) im.
Proof.
  unfold returns_imp, wp, mbind, imp_bind. intros Hm Hf. destruct (m im) as [| |im1 [a|]]; try done. by apply Hf.
Qed.
Lemma returns_wrap {A} f (m : imp A) im : returns_imp m im → returns_imp (wrap_error f m) im.
Proof. unfold returns_imp, wrap_error. by destruct (m im) as [| |im1 [a|]]. Qed.
Lemma returns_deferring {A} f (m : imp A) im : returns_imp m im → returns_imp (deferring f m) im.
Proof. unfold returns_imp, deferring. by destruct (m im). Qed.
Lemma returns_fold {A B} (f : B → A → imp B) l b (I : B → Importer → Prop) im :
  I b im → (∀ a b im, a ∈ l → I b im → returns_imp (f b a) im ∧ wp (f b a) I im) → returns_imp (imp_fold f l b) im.
Proof.
  intros Hb Hf. revert b im Hb. induction l as [|a l IH]; intros b im Hb; simpl; [done|].
  destruct (Hf a b im) as [Hr Hw]; [by left|done|]. apply returns_bind; [done|]. eapply wp_mono; [done|]. intros b' im' Hb'.
  apply IH; [|done]. intros. apply Hf; [by right|done].
Qed.

Section Terminates.
Context `{MapRange} `{SchemaFormat} `{GoFormat}.
Variables (structs : list StructType) (resourceType namespacedType : nat) (type_String : nat → string).
Variables (v : APIVersion) (D : string → Prop).
Hypothesis D_tagged : ∀ t, tagged structs t → D t.
(** Structs embed only structs of a smaller rank. *)
Variables (rank : nat → nat) (R : nat).
Hypothesis rank_bound : ∀ t, (rank t ≤ R)%nat.
Hypothesis rank_embedded : ∀ t f n, f ∈ StFields (struct structs t) → FPkgPath f = "" → FAnonymous f = true → jsonName f = "" →
  deRef (FType f) = TStruct n → (rank n < rank t)%nat.
Local Abbreviation ok := (import_ok structs v D).
Local Abbreviation sound_read := (sound_read structs v D).
Local Abbreviation sound_import := (sound_import structs v D).
Local Abbreviation built := (built v D).
Local Open Scope nat_scope.

(** The struct types that are not being built, and the fuel two calls need. *)
Definition missing (P : list (nat * Schema)) : nat := length (filter (λ t, t ∉ P.*1) (seq 0 (length structs))).
Definition need_import (p : nat) : nat := 2 + p * (R + 2).
Definition need_read (p r : nat) : nat := need_import p + 1 + r.

Lemma missing_cons P t sc : t < length structs → t ∉ P.*1 → S (missing ((t, sc) :: P)) = missing P.
Proof.
  intros Ht Hn. unfold missing. simpl.
  assert (∀ l, NoDup l → length (filter (λ x, x ∉ t :: P.*1) l) + (if decide (t ∈ l) then 1 else 0) = length (filter (λ x, x ∉ P.*1) l)) as Hl.
  { induction l as [|x l IH]; intros Hnd; [done|]. inv Hnd. specialize (IH ltac:(done)). rewrite !filter_cons.
    destruct (decide (x = t)) as [->|Hx].
    - rewrite (decide_False (P := t ∉ t :: P.*1)) by set_solver. rewrite (decide_True (P := t ∉ P.*1)) by done.
      rewrite (decide_True (P := t ∈ t :: l)) by set_solver. rewrite (decide_False (P := t ∈ l)) in IH by done. simpl. lia.
    - assert ((if decide (t ∈ x :: l) then 1 else 0) = if decide (t ∈ l) then 1 else 0) as ->
        by (destruct (decide (t ∈ l)); [by rewrite decide_True by set_solver|by rewrite decide_False by set_solver]).
      destruct (decide (x ∈ P.*1)) as [Hin|Hin].
      + rewrite (decide_False (P := x ∉ t :: P.*1)), (decide_False (P := x ∉ P.*1)) by set_solver. done.
      + rewrite (decide_True (P := x ∉ t :: P.*1)), (decide_True (P := x ∉ P.*1)) by set_solver. simpl. lia. }
  specialize (Hl (seq 0 (length structs)) (NoDup_seq _ _)). rewrite decide_True in Hl by (apply elem_of_seq; lia).
  etrans; [|exact Hl]. by rewrite Nat.add_1_r.
Qed.

Section Step.
Variables (import_struct : APIVersion → nat → imp (option Schema)) (read_embedded : Schema → nat → imp Schema).
Variable P : list (nat * Schema).
Hypotheses (Simport : sound_import import_struct) (Sread : sound_read read_embedded).
Hypothesis Rimport : ∀ E t im, ok E im → processingTypes im = P → returns_imp (import_struct v t) im.

Lemma determine_returns t E im : ok E im → processingTypes im = P → returns_imp (determineSchemaType structs import_struct v t) im.
Proof.
  set (Q := λ t, ∀ im, ok E im → processingTypes im = P → returns_imp (determineSchemaType structs import_struct v t) im).
  assert (Q t ∧ Q (deRef t)) as [Ht _]; [|apply Ht]. clear im. unfold Q.
  induction t as [k nm pkg|t [IH _]|nm pkg t [_ IH]|nm pkg t [_ IH]|n]; cbn [deRef];
    lazymatch goal with |- ?X ∧ ?X => enough X as HX by (split; exact HX) | _ => split; [done|exact IH] end; intros im Hok Hp;
    cbn [determineSchemaType].
  - by destruct k.
  - apply returns_bind; [by apply IH|done].
  - apply returns_bind; [by apply IH|done].
  - repeat (case_decide; [done|]). apply returns_bind; [by eapply Rimport|]. by intros im' [sc|] _.
Qed.

Lemma read_fields_returns r E name sc t im :
  (∀ E name sc t' im, rank t' < r → ok E im → processingTypes im = P → built E name sc im → returns_imp (read_embedded sc t') im) →
  rank t ≤ r → ok E im → processingTypes im = P → built E name sc im →
  returns_imp (read_fields structs resourceType namespacedType type_String import_struct read_embedded sc t) im.
Proof.
  intros Rread Hr Hok Hp Hb. unfold read_fields. apply returns_bind; [|done].
  apply (returns_fold _ _ _ (λ acc im', ok E im' ∧ extends v im im' ∧ built E name acc.1.1 im')).
  { split_and!; [done|apply extends_refl|]. simpl. by case_decide. }
  intros f acc im' Hin (Hok' & Hext & Hb'). split; [|by apply read_field_sound].
  assert (processingTypes im' = P) as Hp' by (by rewrite (proj1 Hext)). clear Hb. destruct acc as [[sc' hasType] hasMeta]. simpl in Hb'.
  unfold read_field. destruct (negb (bool_decide (FPkgPath f = "")) || _) eqn:Hskip; [done|].
  apply orb_false_elim in Hskip as [Hexp%negb_false_iff%bool_decide_eq_true _].
  destruct (FAnonymous f && bool_decide (jsonName f = "")) eqn:Hanon.
  { apply andb_prop in Hanon as [Hanon Hjson%bool_decide_eq_true]. destruct (deRef (FType f)) as [| | | |n] eqn:Hty; try done.
    apply returns_bind; [|done]. apply (Rread E name); [|done..|by case_decide]. pose proof (rank_embedded t f n). naive_solver lia. }
  destruct (decide (field_name f ∈ _)); [apply returns_ret|]. apply returns_bind; [apply returns_result|]. apply wp_result. intros field _.
  apply returns_bind; [|intros im2 a _; by apply returns_bind].
  destruct (decide (Type_ field = "")); [|apply returns_ret]. apply returns_bind; [|done]. apply returns_wrap.
  destruct Hb' as (_ & _ & -> & _). by apply (determine_returns _ E).
Qed.
End Step.

Lemma AddSchema_returns n s sc : polite_hook s → Embed sc = false → is_Some (AddSchema (S n) s sc).
Proof.
  intros Hh He. unfold AddSchema. simpl. destruct (setupDefaults s sc) as [s1 sc1] eqn:Hd.
  apply setupDefaults_same in Hd as (_ & _ & _ & _ & Hhk & _ & _ & HE & _).
  assert (Embed (apply_hook s1 sc1) = false) as ->; [|by eexists]. unfold apply_hook. rewrite Hhk.
  destruct (AddHook s) as [f|] eqn:Hs; [|congruence]. destruct (Hh f Hs sc1) as (_ & _ & -> & _). congruence.
Qed.

Lemma finish_import_returns n l E name sc im :
  Forall (polite_mapper D) l → ok E im → built E name sc im → returns_imp (finish_import (AddSchema (S n)) l sc) im.
Proof.
  intros Hl Hok (_ & _ & _ & He). unfold finish_import. apply returns_bind; [done|]. apply wp_get. unfold typeMapper_ModifySchema.
  destruct (Mappers_ModifySchema l sc (registry im)) as [[sc1 s1] err] eqn:Hm.
  apply returns_bind; [done|]. apply wp_change. destruct err as [err|]; [done|]. pose proof (Mappers_polite D l Hl) as Hpol.
  destruct (polite_schema _ _ Hpol _ _ _ _ Hm) as (_ & _ & He1).
  destruct (polite_registry _ _ Hpol _ _ _ _ Hm (io_registry _ _ _ _ _ Hok)) as (_ & Hhook1 & _).
  destruct (AddSchema_returns n s1 (setupFilters sc1)) as [s2 ->].
  - intros f Hf. rewrite Hhook1 in Hf. by apply (io_hook _ _ _ _ _ Hok).
  - destruct (setupFilters_same sc1) as (_ & _ & -> & _). congruence.
  - by apply returns_bind.
Qed.

Lemma import_type_returns n read_embedded t overrides E im :
  sound_read read_embedded →
  (t ∉ (processingTypes im).*1 → ∀ x E name sc im', ok E im' → processingTypes im' = (t, x) :: processingTypes im → built E name sc im' →
     returns_imp (read_embedded sc t) im') →
  (∀ o E name sc im', o ∈ overrides → ok E im' → processingTypes im' = processingTypes im → built E name sc im' →
     returns_imp (read_embedded sc o) im') →
  ok E im → returns_imp (import_type structs read_embedded (AddSchema (S n)) v t overrides) im.
Proof.
  intros Sread Rnew Rover Hok. unfold import_type. apply returns_bind; [done|]. apply wp_get.
  set (name := getTypeName structs im (TStruct t)).
  destruct (Schemas_Schema (registry im) (Some v) name) as [existing|]; [apply returns_ret|].
  destruct (list_find _ _) as [[k [t' half]]|] eqn:Hnew; [apply returns_ret|].
  assert (t ∉ (processingTypes im).*1) as Ht.
  { apply list_find_None in Hnew. intros ([t' x] & -> & Hin)%list_elem_of_fmap. by eapply Forall_forall in Hnew. }
  assert (∀ E im', ok E im' → processingTypes im' = processingTypes im →
    returns_imp (newSchemaFromType structs read_embedded v t name) im') as Rschema.
  { intros E' im' Hok' Hp. unfold newSchemaFromType. apply returns_bind; [done|]. apply wp_change, returns_deferring.
    eapply (Rnew Ht _ (λ x, E' x ∨ True) name); [|simpl; by rewrite Hp|].
    - destruct Hok' as [? ? ? ? ? Hcl]. split; try done. intros i x Hx. eapply schema_ok_mono; [|by eapply Hcl].
      intros y _. unfold in_use. tauto.
    - split_and!; [|done..]. intros nm f. simpl. by rewrite lookup_empty. }
  apply returns_bind; [by eapply Rschema|]. eapply wp_mono; [by apply newSchemaFromType_sound|].
  intros sc im1 (Hok1 & Hext1 & Hb1). apply returns_bind; [done|]. apply wp_get.
  pose proof (chosen_mappers_polite structs v D _ im1 sc Hok1) as Hl. cbn zeta in Hl |- *.
  match goal with |- context [finish_import _ ?l _] => set (mappers := l) in * end. clearbody mappers.
  set (E1 := λ x, E x ∨ x = name) in *. set (E2 := λ x, E1 x ∨ x = name).
  set (I := λ sc im', ok E2 im' ∧ extends v im im' ∧ built E2 name sc im').
  apply returns_bind.
  { case_decide; [apply returns_ret|]. apply returns_bind; [|done]. eapply Rschema; [done|]. by rewrite (proj1 Hext1). }
  eapply wp_mono; [apply (internal_sound structs type_String v D _ Sread E1 name t); [done..|by rewrite (proj1 Hext1)]|].
  intros sc1 im2 (Hok2 & Hext2 & Hb2).
  assert (I sc1 im2) as HI by (split_and!; [done|by eapply extends_trans|done]).
  assert (∀ o sc im', o ∈ overrides → I sc im' → wp (read_embedded sc o) I im') as Hover.
  { intros o sc' im' _ (? & ? & ?). eapply wp_mono; [by apply (Sread E2 name)|].
    intros sc'' im'' (? & ? & ?). split_and!; [done|by eapply extends_trans|done]. }
  apply returns_bind.
  { apply (returns_fold _ _ _ I); [done|]. intros o sc' im' Ho HI'. split; [|by apply Hover].
    destruct HI' as (? & [Hp _] & ?). by eapply Rover. }
  eapply wp_mono; [by apply (wp_fold _ _ _ I)|]. intros sc2 im3 (Hok3 & _ & Hb3). by eapply finish_import_returns.
Qed.

Local Abbreviation read := (readFields structs resourceType namespacedType type_String).
Local Abbreviation import := (importType structs resourceType namespacedType type_String).

Lemma import_returns fuel :
  (∀ E name sc t im, ok E im → built E name sc im → need_read (missing (processingTypes im)) (rank t) ≤ fuel → returns_imp (read fuel sc t) im) ∧
  (∀ E t overrides im, ok E im → need_import (missing (processingTypes im)) ≤ fuel →
     (overrides ≠ [] → need_read (missing (processingTypes im)) R < fuel) → returns_imp (import fuel v t overrides) im).
Proof.
  induction fuel as [|n [IHr IHi]]; [unfold need_read, need_import; split; lia|].
  destruct (import_sound structs resourceType namespacedType type_String v D D_tagged n) as [Sr Si].
  split; cbn [readFields importType].
  - intros E name sc t im Hok Hb Hf. unfold need_read in Hf.
    apply (read_fields_returns _ _ (processingTypes im) (Si []) Sr) with (r := rank t) (E := E) (name := name); try done.
    + intros E' t' im' Hok' Hp. apply (IHi E'); [done|rewrite Hp; lia|done].
    + intros E' name' sc' t' im' Hr Hok' Hp Hb'. apply (IHr E' name'); [done..|]. unfold need_read. rewrite Hp. lia.
  - intros E t overrides im Hok Hf Ho. destruct n as [|n]; [unfold need_import in Hf; lia|].
    apply (import_type_returns n _ t overrides E); [done| | |done].
    + intros Ht x E' name sc im' Hok' Hp Hb. destruct (decide (t < length structs)) as [Hlt|Hge].
      * apply (IHr E' name); [done..|]. rewrite Hp. pose proof (missing_cons (processingTypes im) t x Hlt Ht).
        unfold need_read, need_import in *. pose proof (rank_bound t). nia.
      * cbn [readFields]. unfold read_fields. apply returns_bind; [|done].
        unfold struct. rewrite lookup_ge_None_2 by lia. done.
    + intros o E' name sc im' Hin Hok' Hp Hb. apply (IHr E' name); [done..|]. rewrite Hp.
      assert (overrides ≠ []) as Hne by (by intros ->; apply elem_of_nil in Hin). specialize (Ho Hne).
      unfold need_read in *. pose proof (rank_bound o). lia.
Qed.

(** An import ends.  When structs embed each other only to a finite depth
    [R] (a struct may refer to itself through its other fields), and under the
    conditions of the previous theorem, [(n + 1) * (R + 2) + 2] nested calls are
    enough to import any of the [n] struct types of a program, with any
    overrides. *)
Theorem import_terminates fuel t overrides im :
  import_ok structs v D (λ _, False) im → processingTypes im = [] → (length structs + 1) * (R + 2) + 2 ≤ fuel →
  importType structs resourceType namespacedType type_String fuel v t overrides im ≠ OutOfFuel.
Proof.
  intros Hok Hp Hf. assert (missing (processingTypes im) ≤ length structs) as Hm.
  { unfold missing. rewrite length_filter. by rewrite length_seq. }
  apply (proj2 (import_returns fuel) (λ _, False)); [done| |intros _]; unfold need_read, need_import; nia.
Qed.
End Terminates.

(** ** A program *)
Definition new_importer : Importer := mkImporter (NewSchemas None) [] [] ∅ None None [].
Lemma new_importer_ok structs v D :
  (∀ t, Contains (LowerTitle (StName (struct structs t))) "/schemas/" = false) → import_ok structs v D (λ _, False) new_importer.
Proof.
  intros Hn. split; [apply NewSchemas_ok|done| |by split|done|done].
  intros p name. simpl. rewrite lookup_empty. constructor.
Qed.

Abbreviation str_type := (TBasic KString "" "").
Definition json_field (name json norman : string) (t : gotype) : StructField := mkStructField name "" false json norman t.
Definition embedded_field (name : string) (t : gotype) : StructField := mkStructField name "" true "" "" t.
(** types.Resource, types.Namespaced, and two types that refer to each other. *)
Definition pet_structs : list StructType := [
  mkStructType "Resource" "types"
    [json_field "ID" "id,omitempty" "" str_type; json_field "Type" "type,omitempty" "" str_type;
     json_field "Links" "links" "" (TMap "" "" str_type); json_field "Actions" "actions" "" (TMap "" "" str_type)];
  mkStructType "Namespaced" "types" [];
  mkStructType "Pet" "zoo"
    [embedded_field "Resource" (TStruct 0); json_field "Name" "" "required,minLength=1" str_type;
     json_field "Owner" "owner" "" (TPtr (TStruct 3)); json_field "Age" "age" "min=0,default=1" (TBasic KInt64 "" "");
     json_field "OwnerID" "" "type=reference[person]" str_type];
  mkStructType "Person" "zoo"
    [json_field "Kind" "kind" "options=keeper|visitor" str_type; json_field "Pets" "pets" "" (TSlice "" "" (TPtr (TStruct 2)))]
].
Abbreviation import_pet := (@importType std_range std_schema_format std_format pet_structs 0 1 (λ _, "zoo.Pet") 22 v3 2 [] new_importer).
Lemma pet_names t : Contains (LowerTitle (StName (struct pet_structs t))) "/schemas/" = false.
Proof. by destruct t as [|[|[|[|t]]]]. Qed.

Lemma import_closed_witness :
  ∃ im sc, import_pet = Returned im (inl (Some sc)) ∧ is_Some (filed (registry im) "/v3" (ID sc)) ∧ processingTypes im = [].
Proof.
  destruct import_pet as [| |im [[sc|]|]] eqn:Hr; try (vm_compute in Hr; discriminate).
  destruct (@import_closed std_range std_schema_format std_format pet_structs 0 1 (λ _, "zoo.Pet") v3 (@tagged std_format pet_structs)
    (λ _ Ht, Ht) 22 2 [] new_importer im sc) as (_ & Hp & Hf & _).
  - apply new_importer_ok. exact pet_names.
  - reflexivity.
  - exact Hr.
  - exists im, sc. split; [reflexivity|]. split; [exact Hf|exact Hp].
Defined.

Definition pet_rank (t : nat) : nat := if decide (t = 2)%nat then 1 else 0.
Lemma import_terminates_witness : import_pet ≠ OutOfFuel.
Proof.
  apply (@import_terminates std_range std_schema_format std_format pet_structs 0 1 (λ _, "zoo.Pet") v3 (@tagged std_format pet_structs)
    (λ _ Ht, Ht) pet_rank 1).
  - intros t. unfold pet_rank. destruct (decide _); lia.
  - intros t f n Hin _ Ha _ Hty. apply list_elem_of_In in Hin.
    destruct t as [|[|[|[|t]]]]; simpl in Hin; repeat destruct Hin as [<-|Hin]; try done; simpl in *; simplify_eq. unfold pet_rank. simpl. lia.
  - apply new_importer_ok. exact pet_names.
  - reflexivity.
  - simpl. lia.
Defined.

(** What was imported: the fields, their types and the typed default. *)
Example imported_pet :
  match import_pet with
  | Returned im (inl (Some sc)) =>
      (ID sc, CollectionMethods sc, (λ name, Type_ (field_of sc name)) <$> ["id"; "name"; "owner"; "age"; "ownerId"],
       Default (field_of sc "age"), (λ p, Type_ (field_of p "kind")) <$> filed (registry im) "/v3" "person", CollectionFilters sc !! "name")
  | _ => ("", [], [], VNil, None, None)
  end
  = ("pet", ["GET"; "POST"], ["string"; "string"; "person"; "int"; "reference[person]"], VInt64 1, Some "enum", Some ["eq"; "ne"; "in"; "notin"]).
Proof. vm_compute. reflexivity. Qed.

(** A person is imported while pets are being built: the pets of a person have
    the type pet, but the mapper of persons does not know of it and does not
    convert them. *)
Example recursive_type_not_mapped :
  match import_pet with
  | Returned im (inl _) =>
      ((λ p, Type_ (field_of p "pets")) <$> filed (registry im) "/v3" "person",
       (λ e : nat * ((string * string) * TypeMapper), size (tm_subArraySchemas e.2.2)) <$>
         list_find (λ e, e.1 = ("/v3", "person")) (typeMappers im))
  | _ => (None, None)
  end
  = (Some "array[pet]", Some 0%nat).
Proof. vm_compute. reflexivity. Qed.

(** A struct that embeds a pointer to itself is read without end. *)
Definition loop_structs : list StructType := [mkStructType "Node" "zoo" [embedded_field "Node" (TPtr (TStruct 0))]].
Example self_embedding_diverges fuel sc im :
  @readFields std_range std_schema_format std_format loop_structs 7 8 (λ _, "zoo.Node") fuel sc 0 im = OutOfFuel.
Proof.
  revert sc. induction fuel as [|n IH]; intros sc; [done|]. cbn [readFields]. unfold read_fields. simpl.
  unfold mbind, imp_bind. cbn. by rewrite IH.
Qed.
