(* ===== verification/Rest.v ===== *)
(** * Requests to a Kubernetes API server

    Models what the clients of this repository use of
    k8s.io/client-go/rest/request.go (vendor): a request is built by a chain of
    calls that keep the first error, and is sent to the path its parts make.
    Also package path, by which the parts are joined.

    The transport, with its retries and its throttling, is a parameter: it is
    given a verb, a path, a query and a body, and returns the body of a
    response or an error. *)

From S2P Require Import Prelude GoStrings Values Errors Query Http Parse Stores.
From Stdlib Require Import Ascii.

(** ** Package path *)
(** The parts of a cleaned path; [out] has those before, the last one first. *)
Fixpoint clean_parts (rooted : bool) (out parts : list string) : list string :=
  match parts with
  | [] => reverse out
  | p :: parts =>
      if decide (p = "" ∨ p = ".") then clean_parts rooted out parts
      else if decide (p = "..") then
        match out with
        | x :: out' => if decide (x = "..") then clean_parts rooted (".." :: out) parts else clean_parts rooted out' parts
        | [] => clean_parts rooted (if rooted then [] else [".."]) parts
        end
      else clean_parts rooted (p :: out) parts
  end.
Definition path_Clean (s : string) : string :=
  let rooted := HasPrefix s "/" in
  let t := (if rooted then "/" else "") +:+ Join (clean_parts rooted [] (Split s "/")) "/" in
  if decide (t = "") then "." else t.
Fixpoint path_Join (elems : list string) : string :=
  match elems with
  | [] => ""
  | e :: rest => if decide (e = "") then path_Join rest else path_Clean (Join elems "/")
  end.

(** ** Requests *)
Record Request := mkRequest {
  r_verb : string;
  r_pathPrefix : string;
  r_namespace : option string;           (* [None]: not set *)
  r_resource : string;
  r_resourceName : string;
  r_subresource : string;
  r_params : Values;
  r_contentType : option string;
  r_body : option string;
  r_err : option error
}.
Definition set_pathPrefix (r : Request) (x : string) : Request :=
  mkRequest (r_verb r) x (r_namespace r) (r_resource r) (r_resourceName r) (r_subresource r) (r_params r) (r_contentType r) (r_body r) (r_err r).
Definition set_namespace (r : Request) (x : string) : Request :=
  mkRequest (r_verb r) (r_pathPrefix r) (Some x) (r_resource r) (r_resourceName r) (r_subresource r) (r_params r) (r_contentType r) (r_body r) (r_err r).
Definition set_resource (r : Request) (x : string) : Request :=
  mkRequest (r_verb r) (r_pathPrefix r) (r_namespace r) x (r_resourceName r) (r_subresource r) (r_params r) (r_contentType r) (r_body r) (r_err r).
Definition set_resourceName (r : Request) (x : string) : Request :=
  mkRequest (r_verb r) (r_pathPrefix r) (r_namespace r) (r_resource r) x (r_subresource r) (r_params r) (r_contentType r) (r_body r) (r_err r).
Definition set_subresource (r : Request) (x : string) : Request :=
  mkRequest (r_verb r) (r_pathPrefix r) (r_namespace r) (r_resource r) (r_resourceName r) x (r_params r) (r_contentType r) (r_body r) (r_err r).
Definition set_params (r : Request) (x : Values) : Request :=
  mkRequest (r_verb r) (r_pathPrefix r) (r_namespace r) (r_resource r) (r_resourceName r) (r_subresource r) x (r_contentType r) (r_body r) (r_err r).
Definition set_content (r : Request) (ct body : option string) : Request :=
  mkRequest (r_verb r) (r_pathPrefix r) (r_namespace r) (r_resource r) (r_resourceName r) (r_subresource r) (r_params r) ct body (r_err r).
Definition failed (r : Request) (err : error) : Request :=
  mkRequest (r_verb r) (r_pathPrefix r) (r_namespace r) (r_resource r) (r_resourceName r) (r_subresource r) (r_params r) (r_contentType r) (r_body r) (Some err).
(** A call of the chain does nothing once there is an error. *)
Definition unless_err (f : Request → Request) (r : Request) : Request := match r_err r with Some _ => r | None => f r end.

(** A client: the path its requests begin with, the content type of its
    objects, strconv.Quote, and its transport. *)
Record sent := mkSent { sent_verb : string; sent_path : string; sent_query : Values; sent_type : option string; sent_body : option string }.
Record RestClient (W : Type) := mkRestClient {
  rc_pathPrefix : string;
  rc_ContentType : string;
  rc_quote : string → string;
  rc_Do : sent → prog W (result string);
  rc_Stream : sent → prog W (result string)
}.
Arguments mkRestClient {W}.
Arguments rc_pathPrefix {W}.
Arguments rc_ContentType {W}.
Arguments rc_quote {W}.
Arguments rc_Do {W}.
Arguments rc_Stream {W}.

Definition NameMayNotBe : list string := ["."; ".."].
Definition NameMayNotContain : list string := ["/"; "%"].
Definition IsValidPathSegmentName (name : string) : list string :=
  match filter (λ illegal, name = illegal) NameMayNotBe with
  | illegal :: _ => ["may not be '" +:+ illegal +:+ "'"]
  | [] => (λ illegal, "may not contain '" +:+ illegal +:+ "'") <$> filter (λ illegal, Contains name illegal = true) NameMayNotContain
  end.

Section Building.
Context {W : Type} (c : RestClient W).
Local Abbreviation q := (rc_quote c).
(** fmt's form of a list of strings. *)
Definition sprint_strings (l : list string) : string := "[" +:+ Join l " " +:+ "]".
Definition invalid (what name : string) : error :=
  ErrorString ("invalid " +:+ what +:+ " " +:+ q name +:+ ": " +:+ sprint_strings (IsValidPathSegmentName name)).
Definition already_set (what old new : string) : error :=
  ErrorString (what +:+ " already set to " +:+ q old +:+ ", cannot change to " +:+ q new).

Definition Verb (verb : string) : Request := mkRequest verb (rc_pathPrefix c) None "" "" "" ∅ None None None.
Definition PatchVerb (patchType : string) : Request := set_content (Verb "PATCH") (Some patchType) None.

Definition Prefix (segments : list string) : Request → Request :=
  unless_err (λ r, set_pathPrefix r (path_Join [r_pathPrefix r; path_Join segments])).
Definition Namespace (namespace : string) : Request → Request :=
  unless_err (λ r, match r_namespace r with
                   | Some old => failed r (already_set "namespace" old namespace)
                   | None => if decide (IsValidPathSegmentName namespace = []) then set_namespace r namespace
                             else failed r (invalid "namespace" namespace)
                   end).
Definition NamespaceIfScoped (namespace : string) (scoped : bool) : Request → Request :=
  if scoped then Namespace namespace else id.
Definition Resource (resource : string) : Request → Request :=
  unless_err (λ r, if decide (r_resource r ≠ "") then failed r (already_set "resource" (r_resource r) resource)
                   else if decide (IsValidPathSegmentName resource = []) then set_resource r resource
                   else failed r (invalid "resource" resource)).
Definition Name (name : string) : Request → Request :=
  unless_err (λ r, if decide (name = "") then failed r (ErrorString "resource name may not be empty")
                   else if decide (r_resourceName r ≠ "") then failed r (already_set "resource name" (r_resourceName r) name)
                   else if decide (IsValidPathSegmentName name = []) then set_resourceName r name
                   else failed r (invalid "resource name" name)).
Definition SubResource (subresources : list string) : Request → Request :=
  unless_err (λ r, let subresource := path_Join subresources in
                   if decide (r_subresource r ≠ "") then failed r (already_set "subresource" (r_resource r) subresource)
                   else match filter (λ s, IsValidPathSegmentName s ≠ []) subresources with
                        | s :: _ => failed r (invalid "subresource" s)
                        | [] => set_subresource r subresource
                        end).
(** The parameters as the codec encodes them. *)
Definition VersionedParams (params : result Values) : Request → Request :=
  unless_err (λ r, match params with
                   | inr err => failed r err
                   | inl ps => set_params r (union_with (λ old new, Some (old ++ new)) (r_params r) ps)
                   end).
(** An encoded object, nil, or bytes. *)
Inductive request_body := ObjectBody (data : result string) | NilBody | BytesBody (data : string).
Definition Body (b : request_body) : Request → Request :=
  unless_err (λ r, match b with
                   | NilBody => r
                   | BytesBody data => set_content r (r_contentType r) (Some data)
                   | ObjectBody (inl data) => set_content r (Some (rc_ContentType c)) (Some data)
                   | ObjectBody (inr err) => failed r err
                   end).

Definition URL_path (r : Request) : string :=
  let p := r_pathPrefix r in
  let p := match r_namespace r with Some ns => if decide (ns = "") then p else path_Join [p; "namespaces"; ns] | None => p end in
  let p := if decide (r_resource r = "") then p else path_Join [p; ToLower (r_resource r)] in
  if decide (r_resourceName r = "" ∧ r_subresource r = "") then p else path_Join [p; r_resourceName r; r_subresource r].
Definition sent_of (r : Request) : sent := mkSent (r_verb r) (URL_path r) (r_params r) (r_contentType r) (r_body r).

(** The tests in front of a request. *)
Definition request_error (r : Request) : option error :=
  match r_err r with
  | Some err => Some err
  | None =>
      if decide (r_verb r ∈ ["GET"; "PUT"; "DELETE"] ∧ r_namespace r = Some "" ∧ r_resourceName r ≠ "")
      then Some (ErrorString "an empty namespace may not be set when a resource name is provided")
      else if decide (r_verb r = "POST" ∧ r_namespace r = Some "")
      then Some (ErrorString "an empty namespace may not be set during creation")
      else None
  end.
Definition Do (r : Request) : prog W (result string) :=
  match request_error r with Some err => mret (inr err) | None => rc_Do c (sent_of r) end.
Definition Stream (r : Request) : prog W (result string) :=
  match r_err r with Some err => mret (inr err) | None => rc_Stream c (sent_of r) end.
End Building.

(** ** Paths made of plain segments *)
Definition plain (s : string) : Prop := s ≠ "" ∧ s ≠ "." ∧ s ≠ ".." ∧ str_in "/" s = false.
Definition abs (l : list string) : string := "/" +:+ Join l "/".
(** The segments of the elements of a path. *)
Definition segs (elems : list string) : list string :=
  filter (λ p, p ≠ "" ∧ p ≠ ".") (concat ((λ e, Split e "/") <$> elems)).

Lemma clean_parts_plain rooted out parts :
  ".." ∉ parts → clean_parts rooted out parts = reverse out ++ filter (λ p, p ≠ "" ∧ p ≠ ".") parts.
Proof.
  revert out. induction parts as [|p parts IH]; intros out Hp; simpl; [by rewrite filter_nil, app_nil_r|].
  apply not_elem_of_cons in Hp as [Hne Hp]. rewrite filter_cons.
  destruct (decide (p = "" ∨ p = ".")) as [He|He]; [rewrite decide_False by tauto; by apply IH|].
  rewrite (decide_False (P := p = "..")) by congruence. rewrite decide_True by tauto.
  rewrite IH by done. by rewrite reverse_cons, <- app_assoc.
Qed.

Lemma Split_Join_concat elems : elems ≠ [] → Split (Join elems "/") "/" = concat ((λ e, Split e "/") <$> elems).
Proof.
  induction elems as [|e elems IH]; [done|]. intros _. destruct elems as [|e' elems]; [simpl; by rewrite app_nil_r|].
  rewrite Join_cons by done. change ("/" +:+ ?x) with (String "/" x). rewrite Split_app, IH by done. done.
Qed.

Lemma segs_cons e es : segs (e :: es) = segs [e] ++ segs es.
Proof. unfold segs. csimpl. by rewrite !filter_app, app_nil_r. Qed.
Lemma segs_one e : segs [e] = filter (λ p, p ≠ "" ∧ p ≠ ".") (Split e "/").
Proof. unfold segs. cbn [fmap list_fmap concat]. by rewrite app_nil_r. Qed.
Lemma segs_empty : segs [""] = [].
Proof. done. Qed.
Lemma segs_plain s : plain s → segs [s] = [s].
Proof.
  intros (? & ? & ? & Hs). rewrite segs_one, Split_single by done. by rewrite filter_cons, decide_True.
Qed.
Lemma filter_plain l : Forall plain l → filter (λ p, p ≠ "" ∧ p ≠ ".") l = l.
Proof. induction 1 as [|s l (? & ? & ? & ?) _ IH]; [done|]. by rewrite filter_cons, decide_True, IH. Qed.
Lemma plain_no_slash l : Forall plain l → Forall (λ s, str_in "/" s = false) l.
Proof. intros Hl. eapply Forall_impl; [exact Hl|]. by intros s (? & ? & ? & ?). Qed.
Lemma plain_no_dots l : Forall plain l → ".." ∉ l.
Proof. rewrite Forall_forall. intros Hl (? & ? & ? & ?)%Hl. done. Qed.
Lemma concat_Split l : Forall plain l → concat ((λ e, Split e "/") <$> l) = l.
Proof. induction 1 as [|s l (_ & _ & _ & Hs) _ IH]; [done|]. csimpl. by rewrite IH, Split_single. Qed.
Lemma Split_rel l : Forall plain l → l ≠ [] → Split (Join l "/") "/" = l.
Proof. intros Hl Hne. apply Split_Join; [done|]. by apply plain_no_slash. Qed.
Lemma segs_rel l : Forall plain l → segs [Join l "/"] = l.
Proof.
  intros Hl. destruct (decide (l = [])) as [->|Hne]; [done|].
  by rewrite segs_one, Split_rel, filter_plain.
Qed.
Lemma Split_abs l : Split (abs l) "/" = "" :: Split (Join l "/") "/".
Proof. by apply (Split_cons "/" "" (Join l "/")). Qed.
Lemma segs_abs l : Forall plain l → segs [abs l] = l.
Proof.
  intros Hl. rewrite <- (segs_rel l Hl) at 2. rewrite !segs_one, Split_abs.
  rewrite filter_cons, decide_False; [done|tauto].
Qed.

Lemma path_Join_cons e es : e ≠ "" → path_Join (e :: es) = path_Clean (Join (e :: es) "/").
Proof. intros. cbn [path_Join]. by rewrite decide_False. Qed.
Lemma path_Join_rooted e es :
  HasPrefix e "/" = true → ".." ∉ concat ((λ e, Split e "/") <$> e :: es) → path_Join (e :: es) = abs (segs (e :: es)).
Proof.
  intros He Hd. rewrite path_Join_cons by (by intros ->). unfold path_Clean.
  assert (HasPrefix (Join (e :: es) "/") "/" = true) as ->.
  { apply prefix_inv in He as [t ->]. destruct es; [apply HasPrefix_app|]. rewrite Join_cons by done. rewrite str_app_assoc. apply HasPrefix_app. }
  rewrite Split_Join_concat by done. rewrite clean_parts_plain by done. by rewrite decide_False.
Qed.
Lemma no_dots_segs e : ".." ∉ segs [e] → ".." ∉ Split e "/".
Proof. rewrite segs_one, list_elem_of_filter. intros Hn He. by apply Hn. Qed.

(** Joining to an absolute path: empty elements vanish. *)
Lemma path_Join_abs l es :
  Forall plain l → Forall (λ e, Forall plain (segs [e])) es → path_Join (abs l :: es) = abs (l ++ segs es).
Proof.
  intros Hl Hes. rewrite path_Join_rooted; [by rewrite segs_cons, segs_abs|apply (HasPrefix_app "/")|].
  cbn [fmap list_fmap concat]. rewrite not_elem_of_app. split; [by apply no_dots_segs; rewrite segs_abs; [apply plain_no_dots|]|].
  induction Hes as [|e es He _ IH]; simpl; [apply not_elem_of_nil|]. rewrite not_elem_of_app. split; [|done].
  by apply no_dots_segs, plain_no_dots.
Qed.
(** Joining plain or empty elements to a relative path. *)
Lemma path_Join_rel es :
  Forall (λ e, e = "" ∨ plain e) es → path_Join es = Join (filter (λ e, e ≠ "") es) "/".
Proof.
  induction 1 as [|e es [->|He] Hes IH]; [done| |].
  { csimpl. rewrite IH. by rewrite filter_cons, decide_False by naive_solver. }
  rewrite filter_cons, decide_True by apply He. rewrite path_Join_cons by apply He. unfold path_Clean.
  assert (HasPrefix (Join (e :: es) "/") "/" = false) as Hp.
  { destruct (HasPrefix _ _) eqn:Hp; [|done]. apply prefix_inv in Hp as [t Ht]. destruct He as (Hne & _ & _ & He).
    destruct e as [|x e]; [done|]. destruct es; [|rewrite Join_cons in Ht by done]; simpl in Ht; injection Ht as -> _; by simpl in He. }
  rewrite Hp.
  rewrite Split_Join_concat by done.
  assert (Hf : filter (λ p, p ≠ "" ∧ p ≠ ".") (concat ((λ e, Split e "/") <$> e :: es)) = e :: filter (λ e, e ≠ "") es).
  { change (segs (e :: es) = e :: filter (λ e, e ≠ "") es). rewrite segs_cons, segs_plain by done. csimpl. f_equal.
    clear - Hes. induction Hes as [|x es [->|Hx] _ IH]; [done| |].
    - rewrite segs_cons, segs_empty, filter_cons, decide_False by naive_solver. done.
    - rewrite segs_cons, segs_plain, filter_cons, decide_True by (done || apply Hx). csimpl. by rewrite IH. }
  rewrite clean_parts_plain.
  { rewrite Hf. rewrite decide_False; [done|]. intros Hn. destruct e; [by destruct He|]. by destruct (filter _ es). }
  assert (Hnd : ∀ l, Forall (λ e, e = "" ∨ plain e) l → ".." ∉ concat ((λ e, Split e "/") <$> l)).
  { clear. induction 1 as [|x l Hx _ IH]; [apply not_elem_of_nil|]. cbn [fmap list_fmap concat]. rewrite not_elem_of_app. split; [|done].
    destruct Hx as [->|Hx]; [unfold Split; simpl; set_solver|]. apply no_dots_segs. rewrite segs_plain by done.
    apply plain_no_dots. by repeat constructor; apply Hx. }
  apply Hnd. by constructor; [right|].
Qed.
Lemma plain_elems es : Forall (λ e, e = "" ∨ plain e) es → Forall (λ e, Forall plain (segs [e])) es.
Proof. intros Hes. eapply Forall_impl; [exact Hes|]. intros s [->|Hs]; [done|]. rewrite segs_plain by done. by apply Forall_singleton. Qed.
Lemma abs_inj l l' : Forall plain l → Forall plain l' → abs l = abs l' → l = l'.
Proof. intros Hl Hl' He. rewrite <- (segs_abs l Hl), <- (segs_abs l' Hl'). by rewrite He. Qed.

(** Segments a request accepts, and the case of a resource. *)
Lemma valid_segment s : IsValidPathSegmentName s = [] → s ≠ "" → plain s.
Proof.
  unfold IsValidPathSegmentName. destruct (filter _ NameMayNotBe) as [|x l] eqn:Hf; [|done]. intros Hc Hne.
  assert (∀ x, x ∈ NameMayNotBe → s ≠ x) as Hb.
  { intros x Hx ->. assert (x ∈ filter (λ illegal, x = illegal) NameMayNotBe) as Hin by by apply list_elem_of_filter.
    rewrite Hf in Hin. by apply elem_of_nil in Hin. }
  apply fmap_nil_inv in Hc.
  assert (Contains s "/" ≠ true) as Hs.
  { intros Hs. assert ("/" ∈ filter (λ illegal, Contains s illegal = true) NameMayNotContain) as Hin by (apply list_elem_of_filter; split; [done|by left]).
    rewrite Hc in Hin. by apply elem_of_nil in Hin. }
  split_and!; [done|apply Hb; by left|apply Hb; by right; left|].
  apply not_true_is_false. intros Hin. apply Hs. unfold Contains. by apply bool_decide_eq_true, Index_byte_in.
Qed.

Lemma ToLower_plain s : plain s → plain (ToLower s).
Proof.
  intros (Hne & Hd & Hdd & Hs).
  assert (∀ c, to_lower c = "." → c = ".")%char as Hdot by (intros [[] [] [] [] [] [] [] []]; vm_compute; congruence).
  split_and!.
  - by destruct s.
  - intros He. apply Hd. destruct s as [|a [|b s]]; try done. by injection He as ->%Hdot.
  - intros He. apply Hdd. destruct s as [|a [|b [|c s]]]; try done. by injection He as ->%Hdot ->%Hdot.
  - revert Hs. clear. unfold ToLower. induction s as [|c s IH]; [done|]. simpl. intros [Hc Hs]%orb_false_elim. rewrite IH by done. rewrite orb_false_r.
    apply bool_decide_eq_false in Hc. apply bool_decide_eq_false. intros He. apply Hc. revert He.
    destruct c as [[] [] [] [] [] [] [] []]; vm_compute; congruence.
Qed.
