(* ===== verification/ObjectClient.v ===== *)
(** * The client of the controllers

    Models objectclient/object_client.go: the client through which controllers
    create, read, change and delete the objects of one kind in a Kubernetes API
    server.

    An object is that of [ObjectSet].  Objects are changed in place, so
    [Create] also returns the object of the caller.  The codecs of
    k8s.io/apimachinery are a class; requests are those of [Rest]. *)

From S2P Require Import Prelude GoStrings Values Errors Query Http Parse Stores ObjectSet Rest.
From Stdlib Require Import Ascii.

Local Notation "x |> f" := (f x) (at level 50, left associativity, only parsing).

Class KubeEncoding := {
  GetOptions : Type;
  ListOptions : Type;
  DeleteOptions : Type;
  EncodeGet : GetOptions → result Values;         (* metav1.ParameterCodec *)
  EncodeList : ListOptions → result Values;
  EncodeDelete : DeleteOptions → result string;
  Encode : kobject → result string;
  DecodeUnstructured : kobject → string → with_error kobject;          (* into an object that is given *)
  DecodeUnstructuredList : string → with_error (list kobject)
}.

(** What an ObjectFactory makes, and how a response is decoded into it. *)
Record ObjectFactory := mkFactory {
  f_Object : kobject;
  f_Decode : kobject → string → with_error kobject;
  f_DecodeList : string → with_error (list kobject)
}.
Record APIResource := mkAPIResource { ar_Name : string; ar_Namespaced : bool }.
Record ObjectClient (W : Type) := mkObjectClient {
  restClient : RestClient W;
  watchClient : option (RestClient W);       (* of a restwatch.WatchClient *)
  resource : APIResource;
  gvk : GVK;
  ns : string;
  Factory : ObjectFactory
}.
Arguments mkObjectClient {W}.
Arguments restClient {W}.
Arguments watchClient {W}.
Arguments resource {W}.
Arguments gvk {W}.
Arguments ns {W}.
Arguments Factory {W}.
Definition NewObjectClient {W} (namespace : string) (c : RestClient W) (watch : option (RestClient W)) (r : APIResource) (g : GVK)
    (f : ObjectFactory) : ObjectClient W := mkObjectClient c watch r g namespace f.

(** ** Kinds *)
Definition apiVersion (g : GVK) : string :=
  if decide (g_Group g = "") then g_Version g else g_Group g +:+ "/" +:+ g_Version g.
Definition set_apiVersion (g : GVK) (s : string) : GVK :=
  if decide (s = "" ∨ s = "/") then mkGVK "" "" (g_Kind g)
  else match Split s "/" with
       | [v] => mkGVK "" v (g_Kind g)
       | [group; v] => mkGVK group v (g_Kind g)
       | _ => mkGVK "" s (g_Kind g)
       end.
Definition set_kind (g : GVK) (kind : string) : GVK := mkGVK (g_Group g) (g_Version g) kind.

Section Operations.
Context {W : Type} `{KubeEncoding}.
Implicit Types (p : ObjectClient W) (o : kobject).

Definition UnstructuredObjectFactory : ObjectFactory :=
  mkFactory (mkObject (mkGVK "" "" "") (Some (mkMeta "" "" ∅ ∅ "")) (VMap ∅)) DecodeUnstructured DecodeUnstructuredList.
Definition UnstructuredClient p : ObjectClient W :=
  mkObjectClient (restClient p) (watchClient p) (resource p) (gvk p) (ns p) UnstructuredObjectFactory.
Definition getAPIPrefix p : string := if decide (g_Group (gvk p) = "") then "api" else "apis".

(** What all requests begin with. *)
Definition prefixed p (r : Request) : Request := r |> Prefix [getAPIPrefix p; g_Group (gvk p); g_Version (gvk p)].
Definition scoped p (n : string) : Request → Request := NamespaceIfScoped (restClient p) n (ar_Namespaced (resource p)).
Definition on_resource p : Request → Request := Resource (restClient p) (ar_Name (resource p)).

(** Result.Into *)
Definition into p (r : result string) : with_error kobject :=
  match r with
  | inr err => (f_Object (Factory p), Some err)
  | inl body => if decide (body = "") then (f_Object (Factory p), Some (ErrorString "0-length response"))
                else f_Decode (Factory p) (f_Object (Factory p)) body
  end.
Definition Error (r : result string) : option error := match r with inr err => Some err | inl _ => None end.

(** The namespace of an object, or else that of the client. *)
Definition namespace_of p o : string :=
  match o_meta o with Some m => if decide (m_namespace m = "") then ns p else m_namespace m | None => ns p end.
(** What Create changes of its object. *)
Definition stamped p o : kobject :=
  let meta := (λ m, set_labels m (<["cattle.io/creator" := "norman"]> (m_labels m))) <$> o_meta o in
  let g := o_gvk o in
  let g := if decide (g_Kind g = "") then set_kind g (g_Kind (gvk p)) else g in
  let g := if decide (apiVersion g = "") then set_apiVersion g (apiVersion (gvk p)) else g in
  mkObject g meta (o_content o).

Definition Create p o : prog W (kobject * with_error kobject) :=
  let n := namespace_of p o in
  let o := stamped p o in
  r ← Do (restClient p) (Verb (restClient p) "POST" |> prefixed p |> scoped p n |> on_resource p
                           |> Body (restClient p) (ObjectBody (Encode o)));
  mret (o, into p r).

Definition GetNamespaced p (namespace name : string) (opts : GetOptions) : prog W (with_error kobject) :=
  let r := Verb (restClient p) "GET" |> prefixed p in
  let r := if decide (namespace = "") then r else r |> Namespace (restClient p) namespace in
  r ← Do (restClient p) (r |> on_resource p |> VersionedParams (EncodeGet opts) |> Name (restClient p) name);
  mret (into p r).

Definition Get p (name : string) (opts : GetOptions) : prog W (with_error kobject) :=
  r ← Do (restClient p) (Verb (restClient p) "GET" |> prefixed p |> scoped p (ns p) |> on_resource p
                           |> VersionedParams (EncodeGet opts) |> Name (restClient p) name);
  mret (into p r).

Definition missing_name : error := ErrorString "object missing name".
Definition Update p (name : string) o : prog W (with_error kobject) :=
  let n := namespace_of p o in
  if decide (name = "") then mret (f_Object (Factory p), Some missing_name)
  else
    r ← Do (restClient p) (Verb (restClient p) "PUT" |> prefixed p |> scoped p n |> on_resource p
                             |> Name (restClient p) name |> Body (restClient p) (ObjectBody (Encode o)));
    mret (into p r).

Definition delete_body (opts : option DeleteOptions) : request_body :=
  match opts with None => NilBody | Some opts => ObjectBody (EncodeDelete opts) end.
Definition DeleteNamespaced p (namespace name : string) (opts : option DeleteOptions) : prog W (option error) :=
  let r := Verb (restClient p) "DELETE" |> prefixed p in
  let r := if decide (namespace = "") then r else r |> Namespace (restClient p) namespace in
  r ← Do (restClient p) (r |> on_resource p |> Name (restClient p) name |> Body (restClient p) (delete_body opts));
  mret (Error r).
Definition Delete p (name : string) (opts : option DeleteOptions) : prog W (option error) :=
  r ← Do (restClient p) (Verb (restClient p) "DELETE" |> prefixed p |> scoped p (ns p) |> on_resource p
                           |> Name (restClient p) name |> Body (restClient p) (delete_body opts));
  mret (Error r).
Definition DeleteCollection p (opts : option DeleteOptions) (list_opts : ListOptions) : prog W (option error) :=
  r ← Do (restClient p) (Verb (restClient p) "DELETE" |> prefixed p |> scoped p (ns p) |> on_resource p
                           |> VersionedParams (EncodeList list_opts) |> Body (restClient p) (delete_body opts));
  mret (Error r).

Definition List p (opts : ListOptions) : prog W (with_error (list kobject)) :=
  r ← Do (restClient p) (Verb (restClient p) "GET" |> prefixed p |> scoped p (ns p) |> on_resource p
                           |> VersionedParams (EncodeList opts));
  mret match r with
       | inr err => ([], Some err)
       | inl body => if decide (body = "") then ([], Some (ErrorString "0-length response")) else f_DecodeList (Factory p) body
       end.

Definition Watch p (opts : ListOptions) : prog W (result string) :=
  let c := default (restClient p) (watchClient p) in
  Stream c (Verb c "GET" |> prefixed p |> Prefix ["watch"] |> scoped p (ns p) |> on_resource p |> VersionedParams (EncodeList opts)).

Definition Patch p (name : string) o (patchType data : string) (subresources : list string) : prog W (with_error kobject) :=
  let n := namespace_of p o in
  if decide (name = "") then mret (f_Object (Factory p), Some missing_name)
  else
    r ← Do (restClient p) (PatchVerb (restClient p) patchType |> prefixed p |> scoped p n |> on_resource p
                             |> SubResource (restClient p) subresources |> Name (restClient p) name
                             |> Body (restClient p) (BytesBody data));
    mret (into p r).
End Operations.

(** ** structuredDecoder: the objects of a watch *)
Section Decoding.
(** A status is told from other objects by its Go type. *)
Context {Status : Type} (status_kind : Status → string) (unmarshal_status : string → result Status).
Inductive decoded := DObject (o : kobject) | DStatus (s : Status).
(** json.Unmarshal into an interface that holds a pointer: the JSON null sets
    the interface to nil ([None]). *)
Context (unmarshal : decoded → string → result (option decoded)).
Definition Decode (factory : ObjectFactory) (data : string) (defaults : option GVK) (target : option decoded)
    : go (option decoded * option GVK * option error) :=
  let target := default (DObject (f_Object factory)) target in
  match unmarshal target data with
  | inr err =>
      Ret match unmarshal_status data with
          | inl s => if decide (ToLower (status_kind s) = "status") then (Some (DStatus s), defaults, None) else (None, None, Some err)
          | inr _ => (None, None, Some err)
          end
  | inl None => Panic
  | inl (Some (DStatus s)) => Ret (Some (DStatus s), defaults, None)
  | inl (Some (DObject o)) =>
      if decide (ToLower (g_Kind (o_gvk o)) = "status") then
        Ret match unmarshal_status data with
            | inl s => (Some (DStatus s), defaults, None)
            | inr err => (None, None, Some err)
            end
      else Ret (Some (DObject o), defaults, None)
  end.
End Decoding.

(** ** Where requests go *)
Section Addresses.
Context {W : Type} `{KubeEncoding}.
Variable base : list string.
Hypothesis base_plain : Forall plain base.
Implicit Types (p : ObjectClient W) (o : kobject).

Record client_ok p : Prop := {
  co_base : rc_pathPrefix (restClient p) = abs base;
  co_group : g_Group (gvk p) = "" ∨ plain (g_Group (gvk p));
  co_version : plain (g_Version (gvk p));
  co_resource : plain (ar_Name (resource p))
}.

(** The path of the resource of a client in a namespace. *)
Definition in_namespace (n : string) : list string := if decide (n = "") then [] else ["namespaces"; n].
Definition api_segments p : list string :=
  base ++ filter (λ s, s ≠ "") [getAPIPrefix p; g_Group (gvk p); g_Version (gvk p)].
Definition collection_segments p (n : string) : list string := api_segments p ++ in_namespace n ++ [ToLower (ar_Name (resource p))].
Definition collection_path p (n : string) : string := abs (collection_segments p n).
Definition object_path p (n name : string) : string := abs (collection_segments p n ++ [name]).

Lemma plain_literal s : s ∈ ["api"; "apis"; "namespaces"; "watch"] → plain s.
Proof. intros Hs. repeat (apply elem_of_cons in Hs as [->|Hs]; [by vm_compute|]). by apply elem_of_nil in Hs. Qed.
Lemma prefix_plain p : plain (getAPIPrefix p).
Proof. unfold getAPIPrefix. case_decide; apply plain_literal; set_solver. Qed.
Lemma api_segments_plain p : client_ok p → Forall plain (api_segments p).
Proof.
  intros Hp. apply Forall_app. split; [done|]. apply Forall_forall. intros s [Hs Hin]%list_elem_of_filter.
  apply elem_of_cons in Hin as [->|Hin]; [apply prefix_plain|]. apply elem_of_cons in Hin as [->|Hin]; [by destruct (co_group _ Hp)|].
  apply elem_of_cons in Hin as [->|Hin]; [apply Hp|]. by apply elem_of_nil in Hin.
Qed.
Lemma in_namespace_plain n : n = "" ∨ plain n → Forall plain (in_namespace n).
Proof.
  unfold in_namespace. intros [->|Hn]; case_decide; try done. repeat constructor; try apply Hn; try apply plain_literal; set_solver.
Qed.
Lemma collection_plain p n : client_ok p → n = "" ∨ plain n → Forall plain (collection_segments p n).
Proof.
  intros Hp Hn. apply Forall_app. split; [by apply api_segments_plain|]. apply Forall_app. split; [by apply in_namespace_plain|].
  apply Forall_singleton, ToLower_plain, Hp.
Qed.

(** The request after the prefix: nothing else is set. *)
Lemma prefixed_eq p r :
  client_ok p → r_err r = None → r_pathPrefix r = abs base → prefixed p r = set_pathPrefix r (abs (api_segments p)).
Proof.
  intros Hp He Hr. unfold prefixed, Prefix, unless_err. rewrite He, Hr. f_equal.
  rewrite (path_Join_rel [getAPIPrefix p; _; _]).
  - rewrite path_Join_abs; [|done|].
    + by rewrite segs_rel by (pose proof (api_segments_plain p Hp) as [_ Ha]%Forall_app; exact Ha).
    + apply Forall_singleton. rewrite segs_rel; pose proof (api_segments_plain p Hp) as [_ Ha]%Forall_app; exact Ha.
  - apply Forall_cons; split; [right; apply prefix_plain|]. apply Forall_cons; split; [apply Hp|]. apply Forall_singleton. right. apply Hp.
Qed.

(** The path of a request that was built without an error. *)
Lemma URL_path_eq p r n name :
  client_ok p → r_pathPrefix r = abs (api_segments p) → default "" (r_namespace r) = n → n = "" ∨ plain n →
  r_resource r = ar_Name (resource p) → r_resourceName r = name → r_subresource r = "" → name = "" ∨ plain name →
  URL_path r = if decide (name = "") then collection_path p n else object_path p n name.
Proof.
  intros Hp Hpre Hns Hn Hres Hname Hsub Hplain. unfold URL_path. rewrite Hpre, Hres, Hname, Hsub.
  assert (match r_namespace r with Some ns => if decide (ns = "") then abs (api_segments p) else path_Join [abs (api_segments p); "namespaces"; ns]
          | None => abs (api_segments p) end = abs (api_segments p ++ in_namespace n)) as ->.
  { destruct (r_namespace r) as [x|]; simpl in Hns; subst n; unfold in_namespace; case_decide; rewrite ?app_nil_r; try done.
    destruct Hn as [|Hn]; [done|]. assert (plain "namespaces") by (apply plain_literal; set_solver).
    rewrite path_Join_abs; [|by apply api_segments_plain|].
    - by rewrite segs_cons, !segs_plain.
    - apply plain_elems. repeat apply Forall_cons_2; auto. }
  assert (plain (ToLower (ar_Name (resource p)))) as Hl by apply ToLower_plain, Hp.
  rewrite (decide_False (P := ar_Name (resource p) = "")) by apply Hp.
  rewrite path_Join_abs.
  2:{ apply Forall_app. split; [by apply api_segments_plain|by apply in_namespace_plain]. }
  2:{ apply Forall_singleton. rewrite segs_plain by done. by apply Forall_singleton. }
  rewrite segs_plain, <- app_assoc by done. fold (collection_segments p n). destruct Hplain as [->|Hpl].
  - by rewrite !decide_True.
  - rewrite !decide_False by (destruct Hpl; tauto). rewrite path_Join_abs.
    + by rewrite segs_cons, segs_plain, segs_empty, app_nil_r.
    + by apply collection_plain.
    + apply plain_elems. repeat apply Forall_cons_2; auto.
Qed.

(** What is known of a request that is being built, unless it has failed. *)
Definition stage p (verb : string) (sc : option string) (res name : string) (B : option string → Prop) (r : Request) : Prop :=
  r_err r = None →
  r_verb r = verb ∧ r_pathPrefix r = abs (api_segments p) ∧ r_namespace r = sc ∧ r_resource r = res ∧ r_resourceName r = name ∧
  r_subresource r = "" ∧ B (r_body r) ∧ (default "" sc = "" ∨ plain (default "" sc)) ∧ (name = "" ∨ plain name).
Ltac in_stage r := unfold stage; intros Hst; unfold unless_err; destruct (r_err r) eqn:?; [intros ?; congruence|]; specialize (Hst eq_refl);
  destruct Hst as (? & ? & ? & ? & ? & ? & ? & ? & ?).

Lemma stage_start p r : client_ok p → r_err r = None → r_pathPrefix r = abs base → r_namespace r = None → r_resource r = "" →
  r_resourceName r = "" → r_subresource r = "" → r_body r = None → stage p (r_verb r) None "" "" (λ b, b = None) (prefixed p r).
Proof. intros Hp He Hb ? ? ? ? ? _. rewrite prefixed_eq by done. simpl. split_and!; auto. Qed.
Lemma stage_Namespace p c verb n B r : stage p verb None "" "" B r → stage p verb (Some n) "" "" B (Namespace (W := W) c n r).
Proof.
  unfold Namespace. in_stage r. rewrite H2. intros He. destruct (decide (IsValidPathSegmentName n = [])) as [Hv|]; [|done].
  simpl. split_and!; try done. destruct (decide (n = "")); [by left|right]. by apply valid_segment.
Qed.
Lemma stage_Resource p verb sc B r : client_ok p → stage p verb sc "" "" B r → stage p verb sc (ar_Name (resource p)) "" B (on_resource p r).
Proof.
  intros Hp. unfold on_resource, Resource. in_stage r. rewrite decide_False by (intros Hn; by apply Hn).
  intros He. destruct (decide (IsValidPathSegmentName (ar_Name (resource p)) = [])); [|done]. simpl. by split_and!.
Qed.
Lemma stage_Name p c verb sc res name B r :
  stage p verb sc res "" B r → stage p verb sc res name (λ b, B b ∧ plain name) (Name (W := W) c name r).
Proof.
  unfold Name. in_stage r. destruct (decide (name = "")); [done|].
  rewrite decide_False by (intros Hn; by apply Hn). destruct (decide (IsValidPathSegmentName name = [])) as [Hv|]; [|done].
  intros _. pose proof (valid_segment _ Hv). simpl. split_and!; auto.
Qed.
Lemma stage_Params p verb sc res name B ps r : stage p verb sc res name B r → stage p verb sc res name B (VersionedParams ps r).
Proof. unfold VersionedParams. in_stage r. destruct ps; [|done]. intros _. simpl. by split_and!. Qed.
Lemma stage_Body p c verb sc res name B b r : stage p verb sc res name B r →
  stage p verb sc res name (λ x, (∃ x, B x) ∧ match b with NilBody => B x | BytesBody d => x = Some d | ObjectBody d => ∃ y, d = inl y ∧ x = Some y end) (Body (W := W) c b r).
Proof. unfold Body. in_stage r. destruct b as [[]| |]; try done; intros _; simpl; split_and!; eauto. Qed.
Lemma stage_Sub p c verb sc res name B r : stage p verb sc res name B r → stage p verb sc res name B (SubResource (W := W) c [] r).
Proof. unfold SubResource. in_stage r. rewrite decide_False by (intros Hn; by apply Hn). intros _. simpl. by split_and!. Qed.

(** A built request is refused, or sent to where its parts say. *)
Lemma Do_cases p verb sc name B r :
  client_ok p → stage p verb sc (ar_Name (resource p)) name B r →
  (∃ err, Do (restClient p) r = mret (inr err)) ∨
  ∃ s, Do (restClient p) r = rc_Do (restClient p) s ∧ sent_verb s = verb ∧ B (sent_body s) ∧ (default "" sc = "" ∨ plain (default "" sc)) ∧
    (verb ∈ ["GET"; "PUT"; "DELETE"] → sc = Some "" → name = "") ∧ (verb = "POST" → sc ≠ Some "") ∧
    sent_path s = if decide (name = "") then collection_path p (default "" sc) else object_path p (default "" sc) name.
Proof.
  intros Hp Hs. unfold Do. destruct (request_error r) as [err|] eqn:He; [by left; exists err|]. right. exists (sent_of r).
  revert He. unfold request_error. destruct (r_err r) eqn:Hr; [done|]. destruct (Hs Hr) as (Hv & ? & Hns & ? & Hnm & ? & ? & ? & ?).
  rewrite Hv, Hns, Hnm. destruct (decide (verb ∈ _ ∧ _)) as [|Hd1]; [done|]. destruct (decide (verb = "POST" ∧ _)) as [|Hd2]; [done|].
  intros _. split_and!; try done.
  - intros Hin ->. apply dec_stable. intros Hne. by apply Hd1.
  - intros -> ->. by apply Hd2.
  - simpl. apply URL_path_eq; try done; by rewrite Hns.
Qed.

(** A program that fails without asking, or asks once. *)
Definition asks {A} p (m : prog W A) (f : result string → A) (Q : sent → Prop) : Prop :=
  (∃ err, m = mret (f (inr err))) ∨
  ∃ s, Q s ∧ ∀ w, m w = match rc_Do (restClient p) s w with (w', Ret r) => (w', Ret (f r)) | (w', Panic) => (w', Panic) end.
Lemma asks_Do {A} p verb sc name B r (f : result string → A) (Q : sent → Prop) :
  client_ok p → stage p verb sc (ar_Name (resource p)) name B r →
  (∀ s, sent_verb s = verb → B (sent_body s) → (default "" sc = "" ∨ plain (default "" sc)) →
     (verb ∈ ["GET"; "PUT"; "DELETE"] → sc = Some "" → name = "") → (verb = "POST" → sc ≠ Some "") →
     sent_path s = (if decide (name = "") then collection_path p (default "" sc) else object_path p (default "" sc) name) → Q s) →
  asks p (r ← Do (restClient p) r; mret (f r)) f Q.
Proof.
  intros Hp Hs HQ. destruct (Do_cases p verb sc name B r Hp Hs) as [[err Hd]|(s & Hd & ? & ? & ? & ? & ? & ?)]; rewrite Hd.
  - left. by exists err.
  - right. exists s. split; [by apply HQ|]. intros w. unfold mbind, prog_bind. by destruct (rc_Do _ _ _) as [? []].
Qed.
Lemma stage_scoped p verb n B r :
  stage p verb None "" "" B r → stage p verb (if ar_Namespaced (resource p) then Some n else None) "" "" B (scoped p n r).
Proof. unfold scoped, NamespaceIfScoped. destruct (ar_Namespaced _); [apply stage_Namespace|done]. Qed.
Lemma stage_given p verb n B r :
  stage p verb None "" "" B r →
  stage p verb (if decide (n = "") then None else Some n) "" "" B (if decide (n = "") then r else Namespace (restClient p) n r).
Proof. case_decide; [done|apply stage_Namespace]. Qed.

(** The namespace a request of a client goes to. *)
Definition scope p (n : string) : string := if ar_Namespaced (resource p) then n else "".
Definition scope_ok (n : string) : Prop := n = "" ∨ plain n.

Section Requests.
Variable p : ObjectClient W.
Hypothesis Hp : client_ok p.
Lemma start verb : stage p verb None "" "" (λ b, b = None) (prefixed p (Verb (restClient p) verb)).
Proof. by apply (stage_start p (Verb (restClient p) verb)); [|done|apply Hp|..]. Qed.
Lemma scope_default n : default "" (if ar_Namespaced (resource p) then Some n else None) = scope p n.
Proof. unfold scope. by destruct (ar_Namespaced _). Qed.
Lemma given_default (n : string) : default "" (if decide (n = "") then None else Some n) = n.
Proof. by case_decide. Qed.

Lemma Create_asks o :
  asks p (Create p o) (λ r, (stamped p o, into p r))
    (λ s, sent_verb s = "POST" ∧ sent_path s = collection_path p (scope p (namespace_of p o)) ∧ scope_ok (scope p (namespace_of p o)) ∧
          (ar_Namespaced (resource p) = true → namespace_of p o ≠ "") ∧ ∃ b, Encode (stamped p o) = inl b ∧ sent_body s = Some b).
Proof.
  unfold Create. eapply asks_Do; [done|apply stage_Body, stage_Resource, stage_scoped, start; done|].
  cbn beta. intros s Hv [_ Hb] Hn _ Hpost Hpath. rewrite scope_default in *. split_and!; try done.
  intros Hns He. apply Hpost; [done|]. by rewrite Hns, He.
Qed.
(** The requests for one object. *)
Definition object_request (verb n name : string) (b : option string → Prop) (s : sent) : Prop :=
  sent_verb s = verb ∧ sent_path s = object_path p n name ∧ scope_ok n ∧ plain name ∧ b (sent_body s).
Lemma plain_nonempty s : plain s → s ≠ "".
Proof. by intros []. Qed.
Ltac solve_request := cbn beta; intros; destruct_and?; rewrite ?scope_default, ?given_default in *; split_and!; try done;
  match goal with H : sent_path _ = _ |- _ => rewrite decide_False in H by (by apply plain_nonempty); exact H end.
Lemma GetNamespaced_asks n name opts :
  asks p (GetNamespaced p n name opts) (into p) (object_request "GET" n name (λ _, True)).
Proof.
  unfold GetNamespaced. eapply asks_Do; [done|apply stage_Name, stage_Params, stage_Resource, stage_given, start; done|].
  solve_request.
Qed.
Lemma Get_asks name opts :
  asks p (Get p name opts) (into p) (object_request "GET" (scope p (ns p)) name (λ _, True)).
Proof.
  unfold Get. eapply asks_Do; [done|apply stage_Name, stage_Params, stage_Resource, stage_scoped, start; done|].
  solve_request.
Qed.
Lemma Update_asks name o :
  asks p (Update p name o) (into p)
    (object_request "PUT" (scope p (namespace_of p o)) name (λ b, ∃ y, Encode o = inl y ∧ b = Some y)).
Proof.
  unfold Update. case_decide; [by left; exists missing_name|].
  eapply asks_Do; [done|apply stage_Body, stage_Name, stage_Resource, stage_scoped, start; done|].
  cbn beta. intros s ? [[? [_ ?]] ?]. solve_request.
Qed.
Lemma DeleteNamespaced_asks n name opts :
  asks p (DeleteNamespaced p n name opts) Error (object_request "DELETE" n name (λ _, True)).
Proof.
  unfold DeleteNamespaced. eapply asks_Do; [done|apply stage_Body, stage_Name, stage_Resource, stage_given, start; done|].
  cbn beta. intros s ? [[? [_ ?]] ?]. solve_request.
Qed.
Lemma Delete_asks name opts :
  asks p (Delete p name opts) Error (object_request "DELETE" (scope p (ns p)) name (λ _, True)).
Proof.
  unfold Delete. eapply asks_Do; [done|apply stage_Body, stage_Name, stage_Resource, stage_scoped, start; done|].
  cbn beta. intros s ? [[? [_ ?]] ?]. solve_request.
Qed.
Lemma Patch_asks name o patchType data :
  asks p (Patch p name o patchType data []) (into p)
    (object_request "PATCH" (scope p (namespace_of p o)) name (λ b, b = Some data)).
Proof.
  unfold Patch. case_decide; [by left; exists missing_name|].
  eapply asks_Do; [done| |].
  - apply stage_Body, stage_Name, stage_Sub, stage_Resource, stage_scoped; [done|].
    by apply (stage_start p (PatchVerb (restClient p) patchType)); [|done|apply Hp|..].
  - cbn beta. intros s ? [[? [_ ?]] ?]. solve_request.
Qed.
End Requests.

(** The path of an object tells its kind, its namespace and its name. *)
Definition address p (n name : string) : string * string * string * string * string :=
  (g_Group (gvk p), g_Version (gvk p), n, ToLower (ar_Name (resource p)), name).
Lemma api_filter p : client_ok p →
  filter (λ s, s ≠ "") [getAPIPrefix p; g_Group (gvk p); g_Version (gvk p)] =
  if decide (g_Group (gvk p) = "") then ["api"; g_Version (gvk p)] else ["apis"; g_Group (gvk p); g_Version (gvk p)].
Proof.
  intros Hp. unfold getAPIPrefix. destruct (decide (g_Group (gvk p) = "")) as [Hg|Hg]; rewrite ?Hg;
    repeat (rewrite filter_cons; first [rewrite decide_True by (done || by apply plain_nonempty, Hp)|rewrite decide_False by tauto]); done.
Qed.
Lemma object_path_inj p n name p' n' name' :
  client_ok p → client_ok p' → scope_ok n → scope_ok n' → plain name → plain name' →
  object_path p n name = object_path p' n' name' → address p n name = address p' n' name'.
Proof.
  intros Hp Hp' Hn Hn' Hname Hname' He.
  assert (∀ p n name, client_ok p → scope_ok n → plain name → Forall plain (collection_segments p n ++ [name])) as Hpl.
  { intros. apply Forall_app. split; [by apply collection_plain|by apply Forall_singleton]. }
  apply abs_inj in He; [|by apply Hpl..]. revert He. unfold collection_segments, api_segments. rewrite <- !app_assoc.
  intros He%app_inv_head. revert He. rewrite !api_filter by done. unfold in_namespace, address.
  destruct (decide (g_Group (gvk p) = "")) as [Hg|Hg], (decide (g_Group (gvk p') = "")) as [Hg'|Hg'];
    destruct (decide (n = "")), (decide (n' = "")); simpl; intros He; simplify_eq; congruence.
Qed.

Lemma Join_snoc l s : l ≠ [] → Join (l ++ [s]) "/" = Join l "/" +:+ "/" +:+ s.
Proof.
  induction l as [|x l IH]; [done|]. intros _. destruct l as [|y l]; [done|].
  change ((x :: y :: l) ++ [s]) with (x :: ((y :: l) ++ [s])). rewrite !Join_cons, IH by done. by rewrite !str_app_assoc.
Qed.
Lemma collection_object p n name : collection_path p n +:+ "/" +:+ name = object_path p n name.
Proof.
  unfold collection_path, object_path, abs. rewrite Join_snoc; [by rewrite str_app_assoc|].
  unfold collection_segments. by destruct (api_segments p), (in_namespace n).
Qed.

(** ** The objects of a server *)
(** An API server that files objects by their paths: what it holds, the name in
    a body, and whether a body is that of an object that is being deleted. *)
Variables (clients : ObjectClient W → Prop) (stored : W → string → option string).
Variables (body_name : string → string) (terminating : string → bool).
Definition elsewhere (path : string) (w w' : W) : Prop := ∀ path', path' ≠ path → stored w' path' = stored w path'.
Record rest_server : Prop := {
  rs_clients : ∀ p, clients p → client_ok p;
  rs_name : ∀ o m b, Encode o = inl b → o_meta o = Some m → body_name b = m_name m;
  rs_get : ∀ p n name s w, clients p → object_request p "GET" n name (λ _, True) s →
    ∃ r, rc_Do (restClient p) s w = (w, Ret r) ∧ ∀ b, r = inl b → stored w (sent_path s) = Some b;
  rs_change : ∀ p verb n name s w, clients p → verb ∈ ["PUT"; "PATCH"] → object_request p verb n name is_Some s →
    ∃ w' r, rc_Do (restClient p) s w = (w', Ret r) ∧ elsewhere (sent_path s) w w' ∧
      ∀ b, r = inl b → is_Some (stored w (sent_path s)) ∧ stored w' (sent_path s) = Some b;
  rs_delete : ∀ p n name s w, clients p → object_request p "DELETE" n name (λ _, True) s →
    ∃ w' r, rc_Do (restClient p) s w = (w', Ret r) ∧ elsewhere (sent_path s) w w' ∧
      ∀ b, r = inl b → stored w' (sent_path s) = None ∨ ∃ b, stored w' (sent_path s) = Some b ∧ terminating b = true;
  rs_create : ∀ p n s b w, clients p → sent_verb s = "POST" → sent_path s = collection_path p n → sent_body s = Some b → body_name b ≠ "" →
    ∃ w' r, rc_Do (restClient p) s w = (w', Ret r) ∧ let path := sent_path s +:+ "/" +:+ body_name b in elsewhere path w w' ∧
      ∀ b', r = inl b' → plain (body_name b) ∧ stored w path = None ∧ stored w' path = Some b'
}.

(** What the client makes of it: a map from addresses to objects. *)
Definition object_at (w : W) p (n name : string) : option string := stored w (object_path p n name).
Definition only_at p (n name : string) (w w' : W) : Prop :=
  ∀ p' n' name', clients p' → scope_ok n' → plain name' → address p' n' name' ≠ address p n name →
    object_at w' p' n' name' = object_at w p' n' name'.
Definition decodes p (b : string) (r : with_error kobject) : Prop := f_Decode (Factory p) (f_Object (Factory p)) b = r.

Lemma elsewhere_only_at p n name w w' :
  rest_server → clients p → scope_ok n → plain name → elsewhere (object_path p n name) w w' → only_at p n name w w'.
Proof.
  intros Hs Hp Hn Hname He p' n' name' Hp' Hn' Hname' Ha. apply He. intros Hpath. apply Ha.
  by apply object_path_inj; try done; apply Hs.
Qed.
Lemma into_ok p r : (into p r).2 = None → ∃ b, r = inl b ∧ decodes p b (into p r).
Proof.
  unfold into. destruct r as [b|]; [|done]. intros Hr. exists b. split; [done|]. revert Hr. by case_decide.
Qed.
Lemma read_at p n name (m : prog W (with_error kobject)) w :
  rest_server → clients p → asks p m (into p) (object_request p "GET" n name (λ _, True)) →
  ∃ r, m w = (w, Ret r) ∧ (r.2 = None → ∃ b, object_at w p n name = Some b ∧ decodes p b r).
Proof.
  intros Hs Hp [[err ->]|(s & Hreq & Hm)]; [by eexists|]. destruct (rs_get Hs p n name s w Hp Hreq) as (r & Hd & Hr).
  exists (into p r). rewrite Hm, Hd. split; [done|]. intros (b & -> & Hb)%into_ok. exists b. split; [|done].
  destruct Hreq as (_ & Hpath & _). unfold object_at. rewrite <- Hpath. by apply Hr.
Qed.
Lemma change_at p verb n name (m : prog W (with_error kobject)) w :
  rest_server → clients p → verb ∈ ["PUT"; "PATCH"] → asks p m (into p) (object_request p verb n name is_Some) →
  ∃ w' r, m w = (w', Ret r) ∧ only_at p n name w w' ∧
    (r.2 = None → ∃ b, is_Some (object_at w p n name) ∧ object_at w' p n name = Some b ∧ decodes p b r).
Proof.
  intros Hs Hp Hv [[err ->]|(s & Hreq & Hm)]; [by eexists _, _|]. destruct (rs_change Hs p verb n name s w Hp Hv Hreq) as (w' & r & Hd & Hels & Hr).
  exists w', (into p r). rewrite Hm, Hd. destruct Hreq as (_ & Hpath & Hn & Hname & _). rewrite Hpath in *.
  split_and!; [done|by apply elsewhere_only_at|]. intros (b & -> & Hb)%into_ok. exists b. destruct (Hr b eq_refl). by split_and!.
Qed.
Lemma delete_at p n name (m : prog W (option error)) w :
  rest_server → clients p → asks p m Error (object_request p "DELETE" n name (λ _, True)) →
  ∃ w' r, m w = (w', Ret r) ∧ only_at p n name w w' ∧
    (r = None → object_at w' p n name = None ∨ ∃ b, object_at w' p n name = Some b ∧ terminating b = true).
Proof.
  intros Hs Hp [[err ->]|(s & Hreq & Hm)]; [by eexists _, _|]. destruct (rs_delete Hs p n name s w Hp Hreq) as (w' & r & Hd & Hels & Hr).
  exists w', (Error r). rewrite Hm, Hd. destruct Hreq as (_ & Hpath & Hn & Hname & _). rewrite Hpath in *.
  split_and!; [done|by apply elsewhere_only_at|]. destruct r as [b|]; [|done]. intros _. by apply (Hr b).
Qed.
Lemma asks_mono {A} p (m : prog W A) f (Q Q' : sent → Prop) : asks p m f Q → (∀ s, Q s → Q' s) → asks p m f Q'.
Proof. intros [?|(s & ? & ?)] HQ; [by left|]. right. exists s. by split; [apply HQ|]. Qed.

(** C37: the client of the controllers is a map of objects.  Over a server that
    files objects by their paths, every operation of the client returns, and
    whatever names and namespaces it is given it changes at most the object it
    is called for: the object of that group, version, namespace, resource (its
    case apart) and name.  When it returns without an error, a create found
    nothing there and leaves the object, labelled as created by norman; an
    update or a patch found an object and replaced it; a read returns what is
    there; after a delete the object is gone or marked for deletion. *)
Theorem objects_are_a_map p w :
  rest_server → clients p →
  (∀ o m, o_meta o = Some m → m_name m ≠ "" →
     let n := scope p (namespace_of p o) in
     ∃ w' r, Create p o w = (w', Ret (stamped p o, r)) ∧ (plain (m_name m) → only_at p n (m_name m) w w') ∧
       (r.2 = None → ∃ b, object_at w p n (m_name m) = None ∧ object_at w' p n (m_name m) = Some b ∧ decodes p b r)) ∧
  (∀ n name opts, ∃ r, GetNamespaced p n name opts w = (w, Ret r) ∧ (r.2 = None → ∃ b, object_at w p n name = Some b ∧ decodes p b r)) ∧
  (∀ name opts, ∃ r, Get p name opts w = (w, Ret r) ∧ (r.2 = None → ∃ b, object_at w p (scope p (ns p)) name = Some b ∧ decodes p b r)) ∧
  (∀ name o patchType data m, m = Update p name o ∨ m = Patch p name o patchType data [] →
     let n := scope p (namespace_of p o) in
     ∃ w' r, m w = (w', Ret r) ∧ only_at p n name w w' ∧
       (r.2 = None → ∃ b, is_Some (object_at w p n name) ∧ object_at w' p n name = Some b ∧ decodes p b r)) ∧
  (∀ n name opts m, m = DeleteNamespaced p n name opts ∨ n = scope p (ns p) ∧ m = Delete p name opts →
     ∃ w' r, m w = (w', Ret r) ∧ only_at p n name w w' ∧
       (r = None → object_at w' p n name = None ∨ ∃ b, object_at w' p n name = Some b ∧ terminating b = true)).
Proof.
  intros Hs Hp. pose proof (rs_clients Hs p Hp) as Hok. split_and!.
  - intros o m Hm Hne n. destruct (Create_asks p Hok o) as [[err ->]|(s & (Hv & Hpath & Hn & _ & b & Henc & Hb) & Heq)]; [by eexists _, _|].
    assert (body_name b = m_name m) as Hbn by (by rewrite (rs_name Hs (stamped p o) _ _ Henc (f_equal (fmap _) Hm))).
    destruct (rs_create Hs p n s b w Hp Hv Hpath Hb) as (w' & r & Hd & Hels & Hr); [by rewrite Hbn|].
    cbn zeta in *. rewrite Hbn, Hpath, collection_object in *.
    exists w', (into p r). rewrite Heq, Hd. split_and!; [done|by intros; apply elsewhere_only_at|].
    intros (b' & -> & ?)%into_ok. exists b'. destruct (Hr b' eq_refl) as (_ & ? & ?). by split_and!.
  - intros n name opts. by eapply read_at, GetNamespaced_asks.
  - intros name opts. by eapply read_at, Get_asks.
  - intros name o patchType data m Hm n.
    destruct Hm as [->| ->]; [eapply (change_at p "PUT")|eapply (change_at p "PATCH")]; try done; try (by set_solver).
    + eapply asks_mono; [by apply Update_asks|]. intros s (? & ? & ? & ? & b & _ & Hb). by split_and!; rewrite ?Hb.
    + eapply asks_mono; [by apply Patch_asks|]. intros s (? & ? & ? & ? & Hb). by split_and!; rewrite ?Hb.
  - intros n name opts m [->|[-> ->]]; eapply delete_at; try done; [by apply DeleteNamespaced_asks|by apply Delete_asks].
Qed.
End Addresses.

(** ** A server *)
Definition name_encoding : KubeEncoding := {|
  GetOptions := unit; ListOptions := unit; DeleteOptions := unit;
  EncodeGet := λ _, inl ∅; EncodeList := λ _, inl ∅; EncodeDelete := λ _, inl "{}";
  Encode := λ o, match o_meta o with Some m => inl (m_name m) | None => inl "" end;
  DecodeUnstructured := λ o b, (mkObject (o_gvk o) (Some (mkMeta b "" ∅ ∅ "")) (o_content o), None);
  DecodeUnstructuredList := λ _, ([], None)
|}.
#[local] Existing Instance name_encoding.
Definition not_found : error := StatusError 404 "NotFound" "not found".
Definition file_server (s : sent) : prog (gmap string string) (result string) := λ w,
  let path := sent_path s in
  let body := default "" (sent_body s) in
  if decide (sent_verb s = "POST") then
    let path := path +:+ "/" +:+ body in
    if decide (IsValidPathSegmentName body = [] ∧ body ≠ "" ∧ w !! path = None) then (<[path := body]> w, Ret (inl body))
    else (w, Ret (inr (AlreadyExists path)))
  else match w !! path with
       | None => (w, Ret (inr not_found))
       | Some b => if decide (sent_verb s = "GET") then (w, Ret (inl b))
                   else if decide (sent_verb s = "DELETE") then (delete path w, Ret (inl b))
                   else (<[path := body]> w, Ret (inl body))
       end.
Definition file_client : RestClient (gmap string string) := mkRestClient "/k8s" "application/json" id file_server (λ _, mret (inl "")).
Definition kind_client (group version kind res : string) (namespaced : bool) : ObjectClient (gmap string string) :=
  NewObjectClient "" file_client None (mkAPIResource res namespaced) (mkGVK group version kind) UnstructuredObjectFactory.
Definition pods := kind_client "" "v1" "Pod" "pods" true.
Definition deployments := kind_client "apps" "v1" "Deployment" "deployments" true.
Definition file_clients (p : ObjectClient (gmap string string)) : Prop := p ∈ [pods; deployments].

Lemma file_clients_rest p : file_clients p → restClient p = file_client.
Proof. intros Hp. by apply elem_of_cons in Hp as [->|Hp]; [|apply list_elem_of_singleton in Hp as ->]. Qed.
Lemma file_server_ok : rest_server ["k8s"] file_clients (λ w path, w !! path) id (λ _, false).
Proof.
  split.
  - intros p Hp. apply elem_of_cons in Hp as [->|Hp]; [|apply list_elem_of_singleton in Hp as ->]; split;
      first [done|by vm_compute|by left|by right; vm_compute].
  - intros o m b Hb Hm. simpl in Hb. rewrite Hm in Hb. by injection Hb as <-.
  - intros p n name s w Hp (Hv & _). assert (restClient p = file_client) as -> by (by apply file_clients_rest).
    simpl. unfold file_server. rewrite Hv. simpl. destruct (w !! sent_path s) eqn:Hl; eexists; split; try done. by intros ? [= <-].
  - intros p verb n name s w Hp Hverb (Hv & _ & _ & _ & b & Hb).
    assert (restClient p = file_client) as -> by (by apply file_clients_rest).
    assert (verb ≠ "POST" ∧ verb ≠ "GET" ∧ verb ≠ "DELETE") as (? & ? & ?) by (by apply elem_of_cons in Hverb as [->|Hverb]; [|apply list_elem_of_singleton in Hverb as ->]).
    simpl. unfold file_server. rewrite Hv, Hb. simpl. rewrite (decide_False (P := verb = "POST")) by done.
    destruct (w !! sent_path s) eqn:Hl; rewrite ?decide_False by done; eexists _, _; split_and!; try reflexivity; try done.
    + intros path Hne. by rewrite lookup_insert_ne.
    + intros ? [= <-]. split; [by eexists|]. apply lookup_insert_eq.
  - intros p n name s w Hp (Hv & _). assert (restClient p = file_client) as -> by (by apply file_clients_rest).
    simpl. unfold file_server. rewrite Hv. simpl. destruct (w !! sent_path s) eqn:Hl; eexists _, _; split_and!; try reflexivity; try done.
    + intros path Hne. by rewrite lookup_delete_ne.
    + intros ? _. left. apply lookup_delete_eq.
  - intros p n s b w Hp Hv Hpath Hb Hne. assert (restClient p = file_client) as -> by (by apply file_clients_rest).
    simpl. unfold file_server. rewrite Hv, Hb. simpl.
    destruct (decide (IsValidPathSegmentName b = [] ∧ _)) as [(Hok & _ & Hl)|]; eexists _, _; split_and!; try reflexivity; try done.
    + intros path Hd. by rewrite lookup_insert_ne.
    + intros ? [= <-]. split_and!; [by apply valid_segment|done|apply lookup_insert_eq].
Qed.

Definition a_pod (namespace name : string) : kobject := mkObject (mkGVK "" "" "") (Some (mkMeta name namespace ∅ ∅ "")) (VMap ∅).
Lemma objects_are_a_map_witness :
  let w := (Create pods (a_pod "default" "web") ∅).1 in
  w !! "/k8s/api/v1/namespaces/default/pods/web" = Some "web" ∧
  (∃ w' r, Create deployments (a_pod "default" "web") w = (w', Ret (stamped deployments (a_pod "default" "web"), r)) ∧
     object_at ["k8s"] (λ w path, w !! path) w' pods "default" "web" = Some "web") ∧
  ∃ w' r, DeleteNamespaced pods "default" "web" None w = (w', Ret r) ∧ object_at ["k8s"] (λ w path, w !! path) w' pods "default" "web" = None.
Proof.
  intros w. split; [by vm_compute|].
  assert (file_clients deployments ∧ file_clients pods) as [Hd Hp] by (split; [by right; left|by left]).
  assert (plain "default" ∧ plain "web") as [? ?] by (by vm_compute).
  destruct (objects_are_a_map ["k8s"] ltac:(by repeat constructor) file_clients (λ w path, w !! path) id (λ _, false) deployments w file_server_ok Hd)
    as (Hcreate & _).
  destruct (objects_are_a_map ["k8s"] ltac:(by repeat constructor) file_clients (λ w path, w !! path) id (λ _, false) pods w file_server_ok Hp)
    as (_ & _ & _ & _ & Hdelete).
  split.
  - destruct (Hcreate (a_pod "default" "web") (mkMeta "web" "default" ∅ ∅ "") eq_refl) as (w' & r & He & Honly & _); [done|].
    exists w', r. split; [exact He|]. rewrite (Honly ltac:(done) pods "default" "web" Hp); [by vm_compute|by right|done|by vm_compute].
  - destruct (Hdelete "default" "web" None _ (or_introl eq_refl)) as (w' & r & He & _ & Hgone). exists w', r. split; [exact He|].
    destruct (Hgone ltac:(revert He; vm_compute; congruence)) as [?|(? & _ & ?)]; done.
Defined.

(** A name that would leave the collection is refused. *)
Example names_stay : (GetNamespaced pods "default" "../secrets/x" () {[ "/k8s/api/v1/namespaces/default/secrets/x" := "x" ]}).2 =
  Ret (f_Object UnstructuredObjectFactory,
       Some (ErrorString "invalid resource name ../secrets/x: [may not contain '/']")).
Proof. by vm_compute. Qed.

(** The JSON null in a watch sets the interface to nil, whose kind is then
    asked for. *)
Example null_event_panics (unmarshal_status : string → result unit) :
  Decode (λ _, "") unmarshal_status (λ o data, if decide (data = "null") then inl None else inl (Some o)) UnstructuredObjectFactory "null" None None = Panic.
Proof. done. Qed.
