(* ===== verification/Crd.v ===== *)
(** * Custom resource definitions

    Models store/crd/init.go: the definitions of custom resources for schemas
    are created in a Kubernetes API server, waited for, and a proxy store over
    each is given to its schema.  Also the calls of the generated client it
    makes (vendor, apiextensions-apiserver, customresourcedefinition.go) on top
    of [Rest], and the polling of k8s.io/apimachinery/pkg/util/wait.

    A pointer to a schema is a string; the stores that were assigned are a map
    from pointers.  How many ticks a poll receives before its timeout closes
    the channel is a parameter. *)

From S2P Require Import Prelude GoStrings Values Errors TypeNames Schemas Query Http Parse Stores ProxyStore Rest.
From Stdlib Require Import Ascii.

Local Notation "x |> f" := (f x) (at level 50, left associativity, only parsing).

Record CRD := mkCRD {
  crd_Name : string;
  crd_Group : string;
  crd_Version : string;
  crd_Plural : string;
  crd_Kind : string;
  crd_Scope : string;
  crd_AcceptedKind : string;
  crd_AcceptedPlural : string;
  crd_Conditions : list (string * string)        (* type and status *)
}.
Definition empty_crd : CRD := mkCRD "" "" "" "" "" "" "" "" [].
Class CrdCodec := {
  EncodeCrd : CRD → result string;
  DecodeCrd : string → with_error CRD;           (* into an empty one *)
  DecodeCrdList : string → with_error (list CRD)
}.

Section Crd.
Context {W : Type} `{CrdCodec} `{MapRange}.
(** What ClientGetter.APIExtClient returns. *)
Variables (c : RestClient W) (client_error : option error).

(** ** The generated client *)
Definition on_crds : Request → Request := Resource c "customresourcedefinitions".
Definition crd_into {A} (empty : A) (decode : string → with_error A) (r : result string) : with_error A :=
  match r with
  | inr err => (empty, Some err)
  | inl body => if decide (body = "") then (empty, Some (ErrorString "0-length response")) else decode body
  end.
Definition crd_Create (crd : CRD) : prog W (with_error CRD) :=
  r ← Do c (Verb c "POST" |> on_crds |> Body c (ObjectBody (EncodeCrd crd)));
  mret (crd_into empty_crd DecodeCrd r).
Definition crd_Get (name : string) : prog W (with_error CRD) :=
  r ← Do c (Verb c "GET" |> on_crds |> Name c name |> VersionedParams (inl ∅));
  mret (crd_into empty_crd DecodeCrd r).
Definition crd_List : prog W (with_error (list CRD)) :=
  r ← Do c (Verb c "GET" |> on_crds |> VersionedParams (inl ∅));
  mret (crd_into [] DecodeCrdList r).

(** ** wait.Poll *)
Definition ErrWaitTimeout : error := ErrorString "timed out waiting for the condition".
(** [f] returns what it waits for, or nothing yet. *)
Fixpoint Poll {A} (ticks : nat) (f : prog W (option A * option error)) : prog W (result A) :=
  '(a, err) ← f;
  match err, a with
  | Some err, _ => mret (inr err)
  | None, Some a => mret (inl a)
  | None, None => match ticks with O => mret (inr ErrWaitTimeout) | S n => Poll n f end
  end.

(** ** store/crd *)
Variable ctx_Err : W → option error.             (* context.Context.Err *)
Variable ticks : string → nat.
Definition established (crd : CRD) : bool := bool_decide (("Established", "True") ∈ crd_Conditions crd).

Definition getReadyCRDs : prog W (result (gmap string CRD)) :=
  '(items, err) ← crd_List;
  mret match err with
       | Some err => inr err
       | None => inl (foldl (λ res crd, if established crd then <[crd_Name crd := crd]> res else res) ∅ items)
       end.

Definition IsAlreadyExists (err : option error) : bool :=
  match err ≫= api_status with Some (_, reason, _) => bool_decide (reason = "AlreadyExists") | None => false end.
Definition crd_plural (sc : Schema) : string := ToLower (PluralName sc).
Definition crd_name (sc : Schema) : string := ToLower (crd_plural sc +:+ "." +:+ Group (Version sc)).
Definition new_crd (sc : Schema) : CRD :=
  mkCRD (crd_name sc) (Group (Version sc)) (Version_ (Version sc)) (crd_plural sc) (Capitalize (ID sc))
    (if decide (Scope sc = "namespace") then "Namespaced" else "Cluster") "" "" [].
Definition createCRD (sc : Schema) (ready : gmap string CRD) : prog W (with_error CRD) :=
  match ready !! crd_name sc with
  | Some crd => mret (crd, None)
  | None =>
      '(crd, err) ← crd_Create (new_crd sc);
      mret (if IsAlreadyExists err then (crd, None) else (crd, err))
  end.

Definition waitCRD (name : string) : prog W (result CRD) :=
  Poll (ticks name) (
    '(crd, err) ← crd_Get name;
    match err with
    | Some err => mret (None, Some err)
    | None => if established crd then mret (Some crd, None) else λ w, (w, Ret (None, ctx_Err w))
    end).

(** The two loops of CreateCRDs. *)
Fixpoint create_crds (schemas : list (string * Schema)) (ready status : gmap string CRD) : prog W (result (gmap string CRD)) :=
  match schemas with
  | [] => mret (inl status)
  | (ptr, sc) :: schemas =>
      '(crd, err) ← createCRD sc ready;
      match err with
      | Some err => mret (inr err)
      | None => create_crds schemas ready (<[ptr := crd]> status)
      end
  end.
Fixpoint wait_crds (entries : list (string * CRD)) (ready status : gmap string CRD) : prog W (result (gmap string CRD)) :=
  match entries with
  | [] => mret (inl status)
  | (ptr, crd) :: entries =>
      match ready !! crd_Name crd with
      | Some readyCrd => wait_crds entries ready (<[ptr := readyCrd]> status)
      | None =>
          r ← waitCRD (crd_Name crd);
          match r with
          | inr err => mret (inr err)
          | inl crd => wait_crds entries ready (<[ptr := crd]> status)
          end
      end
  end.
Definition CreateCRDs (schemas : list (string * Schema)) : prog W (result (gmap string CRD)) :=
  match client_error with
  | Some err => mret (inr err)
  | None =>
      r ← getReadyCRDs;
      match r with
      | inr err => mret (inr err)
      | inl ready =>
          r ← create_crds schemas ready ∅;
          match r with
          | inr err => mret (inr err)
          | inl status =>
              r ← getReadyCRDs;
              match r with
              | inr err => mret (inr err)
              | inl ready => wait_crds (range status) ready status
              end
          end
      end
  end.

Definition crd_store (storageContext : string) (crd : CRD) : proxy :=
  mkProxy storageContext ["apis"] (crd_Group crd) (crd_Version crd) (crd_AcceptedKind crd) (crd_AcceptedPlural crd).
Fixpoint assign_stores (storageContext : string) (status : gmap string CRD) (schemas : list (string * Schema)) (stores : gmap string proxy)
    : gmap string proxy * option error :=
  match schemas with
  | [] => (stores, None)
  | (ptr, sc) :: schemas =>
      match status !! ptr with
      | None => (stores, Some (ErrorString ("failed to create create/find CRD for " +:+ ID sc)))
      | Some crd => assign_stores storageContext status schemas (<[ptr := crd_store storageContext crd]> stores)
      end
  end.
Definition AssignStores (storageContext : string) (schemas : list (string * Schema)) (stores : gmap string proxy)
    : prog W (gmap string proxy * option error) :=
  r ← CreateCRDs schemas;
  mret match r with
       | inr err => (stores, Some err)
       | inl status => assign_stores storageContext status schemas stores
       end.

(** The function a batch runs; [pointer] is where the registry keeps a schema. *)
Fixpoint find_schemas (s : Schemas) (v : APIVersion) (pointer : Schema → string) (ids : list string) : go (list (string * Schema)) :=
  match ids with
  | [] => Ret []
  | id :: ids =>
      match Schemas_Schema s (Some v) id with
      | None => Panic
      | Some sc => l ← find_schemas s v pointer ids; Ret ((pointer sc, sc) :: l)
      end
  end.
Definition BatchCreateCRDs (storageContext : string) (s : Schemas) (v : APIVersion) (pointer : Schema → string) (ids : list string)
    (stores : gmap string proxy) : prog W (gmap string proxy) :=
  schemas ← lift (find_schemas s v pointer ids);
  '(stores, err) ← AssignStores storageContext schemas stores;
  match err with Some _ => lift Panic | None => mret stores end.

(** ** What an assignment promises *)
(** A program that returns, with a result as described. *)
Definition ends {A} (m : prog W A) (Q : A → Prop) : Prop := ∀ w, ∃ w' a, m w = (w', Ret a) ∧ Q a.
Lemma ends_ret {A} (a : A) (Q : A → Prop) : Q a → ends (mret a) Q.
Proof. intros HQ w. by exists w, a. Qed.
Lemma ends_bind {A B} (m : prog W A) (f : A → prog W B) P Q : ends m P → (∀ a, P a → ends (f a) Q) → ends (m ≫= f) Q.
Proof.
  intros Hm Hf w. destruct (Hm w) as (w' & a & He & Ha). destruct (Hf a Ha w') as (w2 & b & Hb & HQ).
  exists w2, b. split; [|done]. unfold mbind, prog_bind. by rewrite He.
Qed.

(** The transport returns; the API server answers with the definition it was
    asked for, and has none without a name; and only a response tells that
    something exists. *)
Record crd_server : Prop := {
  cs_returns : ∀ s, ends (rc_Do c s) (λ _, True);
  cs_get : ∀ name w w' crd, crd_Get name w = (w', Ret (crd, None)) → crd_Name crd = name;
  cs_create : ∀ crd w w' crd', crd_Create crd w = (w', Ret (crd', None)) → crd_Name crd' = crd_Name crd;
  cs_list : ∀ w w' items, crd_List w = (w', Ret (items, None)) → Forall (λ crd, crd_Name crd ≠ "") items;
  cs_decode : ∀ body, IsAlreadyExists (DecodeCrd body).2 = false
}.
Hypothesis server : crd_server.

Lemma ends_Do r : ends (Do c r) (λ _, True).
Proof. unfold Do. destruct (request_error r); [by apply ends_ret|apply server]. Qed.
(** A returning program's result is one it can return. *)
Lemma ends_results {A} (m : prog W A) (Q : A → Prop) : ends m (λ _, True) → (∀ w w' a, m w = (w', Ret a) → Q a) → ends m Q.
Proof. intros Hm HQ w. destruct (Hm w) as (w' & a & He & _). exists w', a. split; [done|by eapply HQ]. Qed.
Lemma ends_request {A} (f : result string → A) r : ends (x ← Do c r; mret (f x)) (λ _, True).
Proof. eapply ends_bind; [apply ends_Do|]. intros x _. by apply ends_ret. Qed.

Lemma get_ends name : ends (crd_Get name) (λ r, r.2 = None → crd_Name r.1 = name ∧ name ≠ "").
Proof.
  apply ends_results; [apply ends_request|]. intros w w' [crd err] He Herr. simpl in *. subst err. split; [by eapply cs_get|].
  intros ->. unfold crd_Get, Do in He. simpl in He. by injection He as _ <-.
Qed.
Lemma create_ends crd : ends (crd_Create crd) (λ r, (r.2 = None → crd_Name r.1 = crd_Name crd) ∧ (IsAlreadyExists r.2 = true → crd_Name r.1 = "")).
Proof.
  apply ends_results; [apply ends_request|]. intros w w' [crd' err] He. split; simpl; [intros ->; by eapply cs_create|].
  unfold crd_Create, mbind, prog_bind in He. destruct (Do c _ w) as [w1 [r|]]; [|done]. injection He as _ He.
  revert He. unfold crd_into. destruct r as [body|]; [case_decide|]; intros He; simplify_eq; try done.
  intros Ha. pose proof (cs_decode server body) as Hb. rewrite He in Hb. simpl in Hb. congruence.
Qed.

Definition ready_ok (ready : gmap string CRD) : Prop := ∀ n crd, ready !! n = Some crd → established crd = true ∧ crd_Name crd = n ∧ n ≠ "".
Lemma ready_ends : ends getReadyCRDs (λ r, ∀ ready, r = inl ready → ready_ok ready).
Proof.
  eapply ends_bind; [apply (ends_results _ (λ r, r.2 = None → Forall (λ crd, crd_Name crd ≠ "") r.1)); [apply ends_request|]|].
  { intros w w' [items err] He Herr. simpl in *. subst err. by eapply cs_list. }
  intros [items err] Hl. apply ends_ret. destruct err; [done|]. intros ready [= <-]. specialize (Hl eq_refl). simpl in Hl.
  assert (ready_ok ∅) as Hr by (by intros n crd Hx; rewrite lookup_empty in Hx). revert Hr. generalize (∅ : gmap string CRD).
  induction Hl as [|crd items Hne _ IH]; intros m Hm; simpl; [done|]. apply IH. destruct (established crd) eqn:He; [|done].
  intros n crd' [[<- <-]|[_ Hx]]%lookup_insert_Some; [by split_and!|by apply Hm].
Qed.

(** A definition for a schema: made for it, or (when the server has one that is
    not established) without a name. *)
Lemma createCRD_ends sc ready : ready_ok ready →
  ends (createCRD sc ready) (λ r, r.2 = None → crd_Name r.1 = crd_name sc ∨ crd_Name r.1 = "").
Proof.
  intros Hr. unfold createCRD. destruct (ready !! crd_name sc) as [crd|] eqn:Hl.
  - apply ends_ret. intros _. left. by apply Hr in Hl as (_ & ? & _).
  - eapply ends_bind; [apply create_ends|]. intros [crd err] [Hnone Hex]. apply ends_ret. simpl in *.
    destruct (IsAlreadyExists err) eqn:He; simpl; intros; [right|left]; by auto.
Qed.
Lemma Poll_ends {A} n (f : prog W (option A * option error)) (Q : A → Prop) :
  ends f (λ r, ∀ a, r.2 = None → r.1 = Some a → Q a) → ends (Poll n f) (λ r, ∀ a, r = inl a → Q a).
Proof.
  intros Hf. induction n as [|n IH]; cbn [Poll]; (eapply ends_bind; [exact Hf|]); intros [[a|] [err|]] Ha; try (by apply ends_ret);
    try exact IH; apply ends_ret; intros ? [= <-]; by apply Ha.
Qed.
Lemma waitCRD_ends name : ends (waitCRD name) (λ r, ∀ crd, r = inl crd → established crd = true ∧ crd_Name crd = name ∧ name ≠ "").
Proof.
  apply (Poll_ends _ _ (λ crd, established crd = true ∧ crd_Name crd = name ∧ name ≠ "")).
  eapply ends_bind; [apply get_ends|]. intros [crd [err|]] Hg; [by apply ends_ret|].
  destruct (established crd) eqn:He; [apply ends_ret|intros w; by eexists _, _]. intros crd' _ [= <-]. split; [done|by apply Hg].
Qed.

Lemma create_crds_ends schemas ready status : ready_ok ready →
  ends (create_crds schemas ready status) (λ r, ∀ st, r = inl st →
    (∀ ptr, ptr ∈ schemas.*1 → ∃ sc crd, (ptr, sc) ∈ schemas ∧ st !! ptr = Some crd ∧ (crd_Name crd = crd_name sc ∨ crd_Name crd = "")) ∧
    (∀ ptr, ptr ∉ schemas.*1 → st !! ptr = status !! ptr)).
Proof.
  intros Hr. revert status. induction schemas as [|[ptr sc] schemas IH]; intros status; simpl.
  - apply ends_ret. intros st [= <-]. split; [|done]. by intros ? ?%elem_of_nil.
  - eapply ends_bind; [by apply createCRD_ends|]. intros [crd [err|]] Hc; [by apply ends_ret|].
    intros w. destruct (IH (<[ptr := crd]> status) w) as (w' & r & He & HQ). exists w', r. split; [done|].
    intros st Hst. destruct (HQ st Hst) as [Hin Hout]. split.
    + intros ptr' Hp. destruct (decide (ptr' ∈ schemas.*1)) as [Hp'|Hp'].
      * destruct (Hin ptr' Hp') as (sc' & crd' & ? & ?). exists sc', crd'. split; [by right|done].
      * apply elem_of_cons in Hp as [->|]; [|done]. exists sc, crd. split_and!; [by left| |by apply Hc].
        rewrite Hout by done. apply lookup_insert_eq.
    + intros ptr' [Hne Hp]%not_elem_of_cons. rewrite Hout by done. by rewrite lookup_insert_ne.
Qed.
Lemma wait_crds_ends entries ready status : ready_ok ready → NoDup entries.*1 →
  ends (wait_crds entries ready status) (λ r, ∀ st, r = inl st →
    (∀ ptr crd, (ptr, crd) ∈ entries → ∃ crd', st !! ptr = Some crd' ∧ established crd' = true ∧ crd_Name crd' = crd_Name crd ∧ crd_Name crd ≠ "") ∧
    (∀ ptr, ptr ∉ entries.*1 → st !! ptr = status !! ptr)).
Proof.
  intros Hr. revert status. induction entries as [|[ptr crd] entries IH]; intros status Hnd; simpl.
  - apply ends_ret. intros st [= <-]. split; [|done]. by intros ? ? ?%elem_of_nil.
  - apply NoDup_cons in Hnd as [Hnot Hnd].
    assert (∀ crd', established crd' = true ∧ crd_Name crd' = crd_Name crd ∧ crd_Name crd ≠ "" → ∀ w, ∃ w' r,
      wait_crds entries ready (<[ptr := crd']> status) w = (w', Ret r) ∧ ∀ st, r = inl st →
      (∀ p x, (p, x) ∈ (ptr, crd) :: entries → ∃ crd', st !! p = Some crd' ∧ established crd' = true ∧ crd_Name crd' = crd_Name x ∧ crd_Name x ≠ "") ∧
      (∀ p, p ∉ ptr :: entries.*1 → st !! p = status !! p)) as Hstep.
    { intros crd' Hcrd w. destruct (IH (<[ptr := crd']> status) Hnd w) as (w' & r & He & HQ). exists w', r. split; [done|].
      intros st Hst. destruct (HQ st Hst) as [Hin Hout]. split.
      - intros p x [[= -> ->]|Hp]%elem_of_cons; [|by apply Hin]. exists crd'. split; [|done]. rewrite Hout by done. apply lookup_insert_eq.
      - intros p [Hne Hp]%not_elem_of_cons. rewrite Hout by done. by rewrite lookup_insert_ne. }
    destruct (ready !! crd_Name crd) as [readyCrd|] eqn:Hl; [exact (Hstep readyCrd (Hr _ _ Hl))|].
    eapply ends_bind; [apply waitCRD_ends|]. intros [crd'|err] Hw; [exact (Hstep crd' (Hw crd' eq_refl))|by apply ends_ret].
Qed.

Lemma CreateCRDs_ends schemas : ends (CreateCRDs schemas) (λ r, ∀ st, r = inl st → ∀ ptr, ptr ∈ schemas.*1 →
  ∃ sc crd, (ptr, sc) ∈ schemas ∧ st !! ptr = Some crd ∧ established crd = true ∧ crd_Name crd = crd_name sc).
Proof.
  unfold CreateCRDs. destruct client_error; [by apply ends_ret|]. eapply ends_bind; [apply ready_ends|]. intros [ready|err] Hr; [|by apply ends_ret].
  eapply ends_bind; [apply create_crds_ends; by apply Hr|]. intros [status|err] Hst; [|by apply ends_ret].
  eapply ends_bind; [apply ready_ends|]. intros [ready'|err] Hr'; [|by apply ends_ret].
  intros w. destruct (wait_crds_ends (range status) ready' status (Hr' _ eq_refl) (NoDup_range status) w) as (w' & r & He & HQ).
  exists w', r. split; [done|]. intros st Hr1 ptr Hptr. destruct (HQ st Hr1) as [Hin _].
  destruct (Hst status eq_refl) as [Hs _]. destruct (Hs ptr Hptr) as (sc & crd & Hsc & Hl & Hname).
  destruct (Hin ptr crd) as (crd' & ? & ? & Hn & Hne); [by apply elem_of_range|].
  exists sc, crd'. split_and!; try done. rewrite Hn. by destruct Hname.
Qed.

Lemma assign_stores_ok storageContext status l stores :
  (∀ ptr, ptr ∈ l.*1 → is_Some (status !! ptr)) →
  ∃ stores', assign_stores storageContext status l stores = (stores', None) ∧
    (∀ ptr sc, (ptr, sc) ∈ l → ∃ crd, status !! ptr = Some crd ∧ stores' !! ptr = Some (crd_store storageContext crd)) ∧
    (∀ ptr, ptr ∉ l.*1 → stores' !! ptr = stores !! ptr).
Proof.
  revert stores. induction l as [|[ptr sc] l IH]; intros st Hl; simpl; [exists st; split_and!; [done|by intros ? ? ?%elem_of_nil|done]|].
  destruct (Hl ptr) as [crd Hcrd]; [by left|]. rewrite Hcrd.
  destruct (IH (<[ptr := crd_store storageContext crd]> st)) as (stores' & -> & Hin & Hout); [intros; apply Hl; by right|].
  exists stores'. split_and!; [done| |].
  - intros ptr' sc1 Hp. destruct (decide (ptr' ∈ l.*1)) as [[[? sc2] [-> Hp2]]%list_elem_of_fmap|Hp']; [by apply (Hin _ sc2)|].
    apply elem_of_cons in Hp as [[= -> ->]|Hp]; [|by destruct Hp'; apply (list_elem_of_fmap_2 fst _ (ptr', sc1))].
    exists crd. split; [done|]. rewrite Hout by done. apply lookup_insert_eq.
  - intros ptr' [Hne Hp]%not_elem_of_cons. rewrite Hout by done. by rewrite lookup_insert_ne.
Qed.

(** C38: a schema gets a store over an established definition, or no store is
    assigned.  Whatever the API server answers and however long it takes,
    AssignStores returns.  If it returns without an error, each schema it was
    given has a proxy store over a custom resource definition that the server
    reported as established and that has the name of the schema (its plural
    name and group), with the kind and plural the server accepted; the stores
    of other schemas are as before.  If it returns an error no store has
    changed. *)
Theorem stores_are_established storageContext schemas stores w :
  (∀ ptr sc sc', (ptr, sc) ∈ schemas → (ptr, sc') ∈ schemas → sc = sc') →
  ∃ w' stores' err, AssignStores storageContext schemas stores w = (w', Ret (stores', err)) ∧
    match err with
    | Some _ => stores' = stores
    | None =>
        (∀ ptr sc, (ptr, sc) ∈ schemas → ∃ crd, stores' !! ptr = Some (crd_store storageContext crd) ∧
           established crd = true ∧ crd_Name crd = crd_name sc) ∧
        (∀ ptr, ptr ∉ schemas.*1 → stores' !! ptr = stores !! ptr)
    end.
Proof.
  intros Hptr. destruct (CreateCRDs_ends schemas w) as (w' & r & He & HQ). unfold AssignStores, mbind, prog_bind. rewrite He.
  destruct r as [status|err]; [|by exists w', stores, (Some err)]. specialize (HQ status eq_refl).
  destruct (assign_stores_ok storageContext status schemas stores) as (stores' & -> & Hin & Hout).
  { intros ptr Hp. destruct (HQ ptr Hp) as (? & ? & _ & ? & _). by eexists. }
  exists w', stores', None. split_and!; [done| |done].
  intros ptr sc Hsc. destruct (HQ ptr) as (sc' & crd & Hsc' & Hcrd & ? & ?); [by apply (list_elem_of_fmap_2 fst _ (ptr, sc))|].
  destruct (Hin ptr sc Hsc) as (crd' & Hcrd' & Hst). rewrite Hcrd in Hcrd'. injection Hcrd' as <-.
  exists crd. by rewrite (Hptr ptr sc sc').
Qed.
End Crd.

(** ** A server *)
(** Definitions are their names; one that is read is established. *)
Definition name_crd (body : string) : CRD :=
  match body with
  | String "+" name => mkCRD name "zoo.io" "v1" "pets" "Pet" "Cluster" "Pet" "pets" [("NamesAccepted", "True"); ("Established", "True")]
  | String _ name => mkCRD name "zoo.io" "v1" "pets" "Pet" "Cluster" "Pet" "pets" []
  | "" => empty_crd
  end.
Definition name_codec : CrdCodec := {|
  EncodeCrd := λ crd, inl (crd_Name crd); DecodeCrd := λ body, (name_crd body, None); DecodeCrdList := λ _, ([], None) |}.
#[local] Existing Instance name_codec.
#[local] Existing Instance std_range.
Definition crds_path : string := "/customresourcedefinitions".
Definition crd_answer (s : sent) : prog (list string) (result string) := λ w,
  if decide (sent_verb s = "POST") then
    let name := default "" (sent_body s) in
    if decide (name ∈ w) then (w, Ret (inr (AlreadyExists name))) else (name :: w, Ret (inl ("-" +:+ name)))
  else if decide (sent_path s = crds_path) then (w, Ret (inl "items"))
  else
    let name := str_drop (S (String.length crds_path)) (sent_path s) in
    if decide (name ∈ w) then (w, Ret (inl ("+" +:+ name))) else (w, Ret (inr (StatusError 404 "NotFound" name))).
Definition crd_client : RestClient (list string) := mkRestClient "/" "application/json" id crd_answer (λ _, mret (inl "")).

Lemma crd_path name : plain name → path_Join [path_Join ["/"; "customresourcedefinitions"]; name; ""] = crds_path +:+ "/" +:+ name.
Proof.
  intros Hn. change "/" with (abs []) at 1. assert (plain "customresourcedefinitions") as Hc by by vm_compute.
  rewrite path_Join_abs, segs_plain by (done || by apply plain_elems; repeat apply Forall_cons_2; auto).
  rewrite path_Join_abs.
  - by rewrite segs_cons, segs_plain, segs_empty.
  - by apply Forall_singleton.
  - apply plain_elems. repeat apply Forall_cons_2; auto.
Qed.

Lemma crd_answer_get s name w : sent_verb s = "GET" → sent_path s = crds_path +:+ "/" +:+ name →
  crd_answer s w = if decide (name ∈ w) then (w, Ret (inl ("+" +:+ name))) else (w, Ret (inr (StatusError 404 "NotFound" name))).
Proof.
  intros Hv Hp. unfold crd_answer. rewrite Hv, Hp. rewrite (decide_False (P := "GET" = "POST")) by done.
  rewrite (decide_False (P := _ = crds_path)) by done.
  change (S (String.length crds_path)) with (String.length (crds_path +:+ "/")). by rewrite <- str_app_assoc, str_drop_app.
Qed.
Lemma crd_get_request name :
  let r := VersionedParams (inl ∅) (Name crd_client name (on_crds crd_client (Verb crd_client "GET"))) in
  is_Some (request_error r) ∨ request_error r = None ∧ sent_verb (sent_of r) = "GET" ∧ sent_path (sent_of r) = crds_path +:+ "/" +:+ name.
Proof.
  intros r. unfold r, Name, unless_err. cbn -[decide IsValidPathSegmentName URL_path].
  destruct (decide (name = "")); [left; by eexists|]. destruct (decide (IsValidPathSegmentName name = [])) as [Hv|]; [|left; by eexists].
  right. split_and!; [done..|]. pose proof (valid_segment _ Hv ltac:(done)) as Hpl. unfold URL_path. cbn -[decide path_Join].
  rewrite decide_False by naive_solver. exact (crd_path name Hpl).
Qed.
Lemma crd_server_ok : crd_server crd_client.
Proof.
  split.
  - intros s w. simpl. unfold crd_answer. repeat case_decide; by eexists _, _.
  - intros name w w' crd. unfold crd_Get, Do. destruct (crd_get_request name) as [[err ->]|(-> & Hv & Hp)]; [by intros [= _ <-]|].
    unfold mbind, prog_bind. change (rc_Do crd_client) with crd_answer. rewrite (crd_answer_get _ name) by done.
    case_decide; intros [= _ <-]; done.
  - intros crd w w' crd'. unfold crd_Create, Do, mbind, prog_bind. simpl. unfold crd_answer. simpl.
    case_decide; intros He; by injection He as _ <-.
  - intros w w' items He. vm_compute in He. by injection He as _ <-.
  - done.
Qed.

(** The schema pod of the version /v3, at a pointer. *)
Definition pod_pointers : list (string * Schema) := [("pod", pod_schema)].
Lemma stores_are_established_witness :
  ∃ w' stores', AssignStores crd_client None (λ _, None) (λ _, 5%nat) "default" pod_pointers ∅ [] = (w', Ret (stores', None)) ∧
    ∃ crd, stores' !! "pod" = Some (crd_store "default" crd) ∧ established crd = true ∧ crd_Name crd = crd_name pod_schema.
Proof.
  destruct (stores_are_established crd_client None (λ _, None) (λ _, 5%nat) crd_server_ok "default" pod_pointers ∅ [])
    as (w' & stores' & err & He & Hs).
  - intros ptr sc sc' [= -> ->]%list_elem_of_singleton [= ->]%list_elem_of_singleton. done.
  - destruct err as [err|]; [by vm_compute in He|]. exists w', stores'. split; [exact He|]. apply Hs. by left.
Defined.

(** A definition that exists but is not established yet: the client returns an
    empty definition with the AlreadyExists error, which is dropped, and the
    wait for a definition without a name fails. *)
Example existing_crd_fails :
  (AssignStores crd_client None (λ _, None) (λ _, 5%nat) "default" pod_pointers ∅ [crd_name pod_schema]).2 =
  Ret (∅, Some (ErrorString "resource name may not be empty")).
Proof. by vm_compute. Qed.
