(* ===== verification/Subscribe.v ===== *)
(** * Subscriptions

    Models pkg/subscribe/handler.go: a websocket over which the changes of the
    resources of an API version are sent.

    The handler starts one goroutine per schema, which watches the store of the
    schema and passes its events through an unbuffered channel to the loop that
    writes them.  The state holds the goroutines, the loop and the connection;
    a step is what one of them does between two points where it can wait for
    another.  A watch is a channel: the events that are ready, and whether the
    store may send more.  The stores, the websocket and the ticker are the
    environment: events arrive as long as the channel is open, a store may
    close it at any time, a write may fail, the client may go, time passes.
    A channel that is not closed leaves its goroutine waiting; what the model
    takes from the contract of a store is that the channel of a request that
    is cancelled can be closed, its last events delivered or not.  The model
    ends with the loop: the handler then closes the connection.
    [st_events] and [handed] record history and are not read by the code. *)

From S2P Require Import Prelude GoStrings Values Errors TypeNames Convert Schemas Builder Query Http Urls Parse Access Stores SchemaStore Server Writer.
From Stdlib Require Import Ascii.

(** ** Which schemas *)
Definition matches (items : list string) (item : string) : bool :=
  match items with [] => true | _ => ContainsString items item end.

(** ** The state *)
(** A goroutine ranges over the channel of its watch: the events that are ready
    and whether the store may still send. *)
Inductive phase := Starting | Watching (ready : list (option obj)) (open : bool) | Finished.
Record stream := mkStream {
  st_schema : Schema;
  st_phase : phase;
  st_events : list (option obj);     (* what the store has sent *)
  handed : list (option obj)         (* what the loop has received of it *)
}.
Inductive frame := Ping | Event (i : nat) (item : option obj) (text : string).
Record subscription (W : Type) := mkSubscription {
  world : W;
  streams : list stream;
  cancelled : bool;
  conn_open : bool;
  done_ : bool;
  frames : list frame
}.
Arguments mkSubscription {W}.
Arguments world {W}.
Arguments streams {W}.
Arguments cancelled {W}.
Arguments conn_open {W}.
Arguments done_ {W}.
Arguments frames {W}.

Section Subscribe.
Context {W : Type} `{GoFormat} `{MapRange} `{K8sValidation}.
Variables (validators : Schema → option (obj → option error)) (fuel : nat) (ref_validator : option ReferenceValidator).
Variables (formatter : Schema → option (APIContext → RawResource → go RawResource))
  (collection_formatter : Schema → option (APIContext → GenericCollection → go GenericCollection)).
Variable ac : AccessControl.
Variable store_of : Schema → option (Store W).
Variable JSONEncoder : output → result string.
Implicit Types (s : subscription W) (c : APIContext).
Local Abbreviation version_body := (VersionBody validators fuel ref_validator formatter collection_formatter ac).

(** The version of the context is dereferenced. *)
Definition getMatchingSchemas c : go (list Schema) :=
  let resourceTypes := default [] (UQuery (RURL (ctx_Request c)) !! "resourceTypes") in
  match ctx_Version c with
  | None => Panic
  | Some v => Ret (filter (λ sc, matches resourceTypes (ID sc) = true ∧ is_Some (store_of sc)) (range (SchemasForVersion (ctx_Schemas c) v)).*2)
  end.

(** ** The loop that writes *)
Definition quoted (x : string) : string := String (ascii_of_nat 34) (x +:+ String (ascii_of_nat 34) "").
Definition header (name : string) : string := "{" +:+ quoted "name" +:+ ":" +:+ quoted name +:+ "," +:+ quoted "data" +:+ ":".
(** The text of an event: nothing if its type is unknown. *)
Definition event_text c (item : option obj) : go (option (result string)) :=
  let name := match mget item ".removed" with VBool true => "resource.remove" | _ => "resource.change" end in
  match Schemas_Schema (ctx_Schemas c) (ctx_Version c) (ToString (mget item "type")) with
  | None => Ret None
  | Some schema =>
      out ← version_body c (Some (Version schema)) (BMap item);
      Ret (Some match match out with ONone => inl "" | _ => JSONEncoder out end with
                | inl body => inl (header name +:+ body +:+ "}")
                | inr err => inr err
                end)
  end.
Definition ping_text : string := header "ping" +:+ "{}" +:+ "}".

Definition set_stream s (i : nat) (st : stream) : subscription W :=
  mkSubscription (world s) (<[i := st]> (streams s)) (cancelled s) (conn_open s) (done_ s) (frames s).
Definition cancel s : subscription W := mkSubscription (world s) (streams s) true (conn_open s) (done_ s) (frames s).
Definition set_phase (st : stream) (p : phase) : stream := mkStream (st_schema st) p (st_events st) (handed st).
(** writeData: the frame is sent, unless the connection is closed or the write
    fails, which cancels the request. *)
Definition writeData s (f : frame) (ok : bool) : subscription W :=
  if ok && conn_open s then mkSubscription (world s) (streams s) (cancelled s) (conn_open s) (done_ s) (frames s ++ [f])
  else cancel s.

(** The loop receives an event from stream [i]. *)
Definition receive c s (i : nat) (st : stream) (item : option obj) (rest : list (option obj)) (open : bool) (ok : bool) : go (subscription W) :=
  let s := set_stream s i (mkStream (st_schema st) (Watching rest open) (st_events st) (handed st ++ [item])) in
  text ← event_text c item;
  Ret match text with
      | None => s
      | Some (inr _) => cancel s
      | Some (inl text) => writeData s (Event i item text) ok
      end.

(** ** The goroutine of a stream *)
(** A goroutine of the group returns: its error cancels the request. *)
Definition finish_stream s (i : nat) (st : stream) (err : option error) : subscription W :=
  let s := set_stream s i (set_phase st Finished) in match err with Some _ => cancel s | None => s end.
Definition start_stream c s (i : nat) (st : stream) : go (subscription W) :=
  match store_of (st_schema st) with
  | None => Panic
  | Some store =>
      let opts := parse_QueryOptions (RMethod (ctx_Request c)) (ctx_Pagination c) (st_schema st) (ctx_Query c) in
      match s_Watch store c (st_schema st) opts (world s) with
      | (_, Panic) => Panic
      | (w, Ret (_, (events, err))) =>
          let s := mkSubscription w (streams s) (cancelled s) (conn_open s) (done_ s) (frames s) in
          match err, events with
          | Some _, _ | None, None => Ret (finish_stream s i st err)
          | None, Some ready => Ret (set_stream s i (mkStream (st_schema st) (Watching ready true) ready (handed st)))
          end
      end
  end.
(** The channel is closed and empty: the range ends. *)
Definition end_stream s (i : nat) (st : stream) : subscription W := finish_stream s i st (Some (ErrorString "disconnect")).

(** ** The goroutine that reads *)
(** NextReader fails: the client has gone. *)
Definition client_gone s : subscription W := mkSubscription (world s) (streams s) true false (done_ s) (frames s).

(** ** What can happen *)
Definition finished (st : stream) : Prop := st_phase st = Finished.
Definition end_loop s : subscription W := mkSubscription (world s) (streams s) (cancelled s) (conn_open s) true (frames s).
(** What the goroutines and the loop do, and the store of a request that is
    cancelled, which closes the channel after [n] of the events it had ready. *)
Inductive work c s : go (subscription W) → Prop :=
| work_start i st : streams s !! i = Some st → st_phase st = Starting → work c s (start_stream c s i st)
| work_receive i st item rest open ok : streams s !! i = Some st → st_phase st = Watching (item :: rest) open → done_ s = false →
    work c s (receive c s i st item rest open ok)
| work_end i st : streams s !! i = Some st → st_phase st = Watching [] false → work c s (Ret (end_stream s i st))
| work_cut i st rest n : streams s !! i = Some st → st_phase st = Watching rest true → cancelled s = true →
    work c s (Ret (set_stream s i (set_phase st (Watching (take n rest) false))))
| work_done : Forall finished (streams s) → done_ s = false → work c s (Ret (end_loop s)).
(** The ticker, the client, and a store that closes a channel. *)
Inductive environment s : subscription W → Prop :=
| env_ping ok : done_ s = false → environment s (writeData s Ping ok)
| env_gone : conn_open s = true → environment s (client_gone s)
| env_close i st rest : streams s !! i = Some st → st_phase st = Watching rest true →
    environment s (set_stream s i (set_phase st (Watching rest false))).
(** The store sends an event. *)
Definition arrive s (i : nat) (st : stream) (ready : list (option obj)) (item : option obj) : subscription W :=
  set_stream s i (mkStream (st_schema st) (Watching (ready ++ [item]) true) (st_events st ++ [item]) (handed st)).
Inductive step c s : go (subscription W) → Prop :=
| step_work r : work c s r → step c s r
| step_env s' : environment s s' → step c s (Ret s')
| step_arrive i st rest item : streams s !! i = Some st → st_phase st = Watching rest true → step c s (Ret (arrive s i st rest item)).
(** Nothing to do: a watch is open, has nothing ready, and was not cancelled. *)
Definition waiting s : Prop :=
  cancelled s = false ∧ ∃ i st, streams s !! i = Some st ∧ st_phase st = Watching [] true.

(** The handler, up to its loop; [upgrade] is what upgrading the connection
    returns. *)
Definition handler c (upgrade : option error) (w : W) : go (result (subscription W)) :=
  schemas ← getMatchingSchemas c;
  Ret match schemas with
      | [] => inr (NewAPIError NotFound "no resources types matched")
      | _ => match upgrade with
             | Some err => inr err
             | None => inl (mkSubscription w ((λ sc, mkStream sc Starting [] []) <$> schemas) false true false [])
             end
      end.
Inductive reachable c (s0 : subscription W) : subscription W → Prop :=
| reach_start : reachable c s0 s0
| reach_step s s' : reachable c s0 s → step c s (Ret s') → reachable c s0 s'.

(** ** The invariant *)
(** The events of a stream that were written, and those whose type is known. *)
Definition written (i : nat) (fs : list frame) : list (option obj) :=
  omap (λ f, match f with Event j item _ => if decide (i = j) then Some item else None | Ping => None end) fs.
Definition known c (item : option obj) : Prop := is_Some (Schemas_Schema (ctx_Schemas c) (ctx_Version c) (ToString (mget item "type"))).
#[local] Instance known_dec c item : Decision (known c item) := _.
Definition pending (st : stream) : list (option obj) := match st_phase st with Watching ready _ => ready | _ => [] end.
Record stream_ok c s (i : nat) (st : stream) : Prop := {
  so_start : st_phase st = Starting → handed st = [];
  so_order : handed st ++ pending st `prefix_of` st_events st;
  so_all : cancelled s = false → handed st ++ pending st = st_events st;
  so_live : ∀ ready, st_phase st = Watching ready true → handed st ++ ready = st_events st;
  so_written : written i (frames s) `sublist_of` handed st;
  so_complete : cancelled s = false → written i (frames s) = filter (known c) (handed st)
}.
Record sub_ok c (schemas : list Schema) s : Prop := {
  so_schemas : st_schema <$> streams s = schemas;
  so_streams : ∀ i st, streams s !! i = Some st → stream_ok c s i st;
  so_text : ∀ i item text, Event i item text ∈ frames s → is_Some (streams s !! i) ∧ event_text c item = Ret (Some (inl text));
  so_done : done_ s = true → Forall finished (streams s);
  so_conn : conn_open s = false → cancelled s = true
}.

Lemma written_snoc i fs f : written i (fs ++ [f]) = written i fs ++ written i [f].
Proof. apply omap_app. Qed.

(** Cancelling, and changing one stream, keep the invariant. *)
Lemma stream_ok_cancel c s i st : stream_ok c s i st → stream_ok c (cancel s) i st.
Proof. intros []. by split. Qed.
Lemma cancel_ok c schemas s : sub_ok c schemas s → sub_ok c schemas (cancel s).
Proof. intros [? Hs ? ? ?]. split; try done. intros i st Hi. by apply stream_ok_cancel, Hs. Qed.
Lemma set_stream_ok c schemas s i st st' :
  sub_ok c schemas s → streams s !! i = Some st → st_schema st' = st_schema st → (done_ s = true → finished st') →
  stream_ok c s i st' → sub_ok c schemas (set_stream s i st').
Proof.
  intros [Hsc Hst Htext Hd Hco] Hi Hsch Hfin Hok. pose proof (lookup_lt_Some _ _ _ Hi) as Hlt. split; simpl.
  - rewrite <- Hsc. rewrite list_fmap_insert, Hsch. apply list_insert_id. by rewrite list_lookup_fmap, Hi.
  - intros j stj Hj. assert (stream_ok c s j stj) as []; [|by split]. destruct (decide (i = j)) as [<-|Hne].
    + rewrite list_lookup_insert_eq in Hj by done. by injection Hj as <-.
    + rewrite list_lookup_insert_ne in Hj by done. by apply Hst.
  - intros j item text Hin. destruct (Htext _ _ _ Hin) as [Hj ?]. split; [|done].
    apply lookup_lt_is_Some. rewrite length_insert. by apply lookup_lt_is_Some.
  - intros Hdone. apply Forall_insert; [by apply Hd|by apply Hfin].
  - exact Hco.
Qed.
Lemma writeData_ok c schemas s f ok :
  sub_ok c schemas s → (∀ i item text, f = Event i item text → False) → sub_ok c schemas (writeData s f ok).
Proof.
  intros Hok Hf. unfold writeData. destruct (ok && conn_open s); [|by apply cancel_ok]. destruct f as [|i item text]; [|by destruct (Hf i item text)].
  destruct Hok as [Hsc Hst Htext Hd Hco]. split; simpl; try done.
  - intros i st Hi. destruct (Hst i st Hi). split; simpl; try done; rewrite written_snoc, app_nil_r; done.
  - intros i item text [Hin|Hin%list_elem_of_singleton]%elem_of_app; [by apply Htext|done].
Qed.

Lemma finish_ok c schemas s i st err :
  sub_ok c schemas s → streams s !! i = Some st → pending st = [] → sub_ok c schemas (finish_stream s i st err).
Proof.
  intros Hok Hi Hp. assert (sub_ok c schemas (set_stream s i (set_phase st Finished))) as Hok'.
  { apply (set_stream_ok _ _ _ _ st); try done. destruct (so_streams _ _ _ Hok i st Hi) as [_ Ho Ha _ Hw Hc]. rewrite Hp in Ho, Ha. by split. }
  unfold finish_stream. destruct err; [by apply cancel_ok|done].
Qed.
Lemma start_ok c schemas s i st s' :
  sub_ok c schemas s → streams s !! i = Some st → st_phase st = Starting → start_stream c s i st = Ret s' → done_ s = false →
  sub_ok c schemas s'.
Proof.
  intros Hok Hi Hp. unfold start_stream. destruct (store_of _); [|done]. destruct (s_Watch _ _ _ _ _) as [w [[o [ready err]]|]]; [|done].
  intros He Hd. pose proof (so_start _ _ _ _ (so_streams _ _ _ Hok i st Hi) Hp) as Hh. assert (sub_ok c schemas (mkSubscription w (streams s) (cancelled s) (conn_open s) (done_ s) (frames s))) as Hw.
  { destruct Hok as [? Hst ? ? ?]. split; try done. intros j stj Hj. destruct (Hst j stj Hj). by split. }
  assert (pending st = []) as Hpend by (unfold pending; by rewrite Hp).
  destruct err as [err|]; [injection He as <-; by eapply (finish_ok _ _ _ i st (Some err))|].
  destruct ready as [ready|]; injection He as <-; [|by eapply (finish_ok _ _ _ i st None)].
  apply (set_stream_ok _ _ _ _ st); try done; [simpl; congruence|].
  destruct (so_streams _ _ _ Hw i st Hi) as [_ Ho Ha _ Hwr Hc]. split; simpl in *; rewrite Hh in *; try done. by intros ? [= ->].
Qed.
(** The store closes the channel of a stream, or sends an event. *)
Lemma open_not_done c schemas s i st : sub_ok c schemas s → streams s !! i = Some st → st_phase st ≠ Finished → done_ s = false.
Proof.
  intros Hok Hi Hne. destruct (done_ s) eqn:Hd; [|done]. pose proof (so_done _ _ _ Hok Hd) as Hf. by apply (Forall_lookup_1 _ _ _ _ Hf) in Hi.
Qed.
Lemma close_ok c schemas s i st rest n :
  sub_ok c schemas s → streams s !! i = Some st → st_phase st = Watching rest true → cancelled s = true ∨ take n rest = rest →
  sub_ok c schemas (set_stream s i (set_phase st (Watching (take n rest) false))).
Proof.
  intros Hok Hi Hp Hn. assert (done_ s = false) as Hd by (eapply open_not_done; [done..|]; by rewrite Hp).
  apply (set_stream_ok _ _ _ _ st); try done; [congruence|].
  destruct (so_streams _ _ _ Hok i st Hi) as [_ _ _ Hl Hwr Hc]. specialize (Hl _ Hp). split; simpl; try done.
  - rewrite <- Hl. exists (drop n rest). unfold pending. simpl. by rewrite <- app_assoc, take_drop.
  - intros Hcan. destruct Hn as [?| ->]; [congruence|done].
Qed.
Lemma arrive_ok c schemas s i st rest item :
  sub_ok c schemas s → streams s !! i = Some st → st_phase st = Watching rest true → sub_ok c schemas (arrive s i st rest item).
Proof.
  intros Hok Hi Hp. assert (done_ s = false) as Hd by (eapply open_not_done; [done..|]; by rewrite Hp).
  apply (set_stream_ok _ _ _ _ st); try done; [simpl; congruence|].
  destruct (so_streams _ _ _ Hok i st Hi) as [_ _ _ Hl Hwr Hc]. specialize (Hl _ Hp).
  assert (handed st ++ rest ++ [item] = st_events st ++ [item]) as Hn by (by rewrite app_assoc, Hl).
  split; unfold pending; simpl; rewrite ?Hn; try done. by intros ready [= <-].
Qed.
Lemma receive_ok c schemas s i st item rest open ok s' :
  sub_ok c schemas s → streams s !! i = Some st → st_phase st = Watching (item :: rest) open → done_ s = false →
  receive c s i st item rest open ok = Ret s' → sub_ok c schemas s'.
Proof.
  intros Hok Hi Hp Hd. unfold receive. set (st' := mkStream _ _ _ _). set (s1 := set_stream s i st').
  destruct (so_streams _ _ _ Hok i st Hi) as [_ Ho Ha Hl Hw Hc]. unfold pending in Ho, Ha. rewrite Hp in Ho, Ha.
  assert (∀ ready, st_phase st' = Watching ready true → handed st' ++ ready = st_events st') as Hlive.
  { simpl. intros ready [= -> ->]. rewrite <- app_assoc. by apply Hl. }
  assert (Hhand : handed st' ++ pending st' = handed st ++ item :: rest) by (simpl; by rewrite <- app_assoc).
  destruct (event_text c item) as [text|] eqn:Ht; [|done]. simpl. intros [= <-].
  assert (known c item ↔ is_Some text) as Hknown.
  { unfold known. unfold event_text in Ht. destruct (Schemas_Schema _ _ _); [|by injection Ht as <-].
    destruct (version_body _ _ _); [|done]. injection Ht as <-. split; by eexists. }
  (* the state without the last frame, where the event is lost unless its type is unknown *)
  assert (cancelled s = false → text = None → sub_ok c schemas s1) as Hskip.
  { intros Hcan ->. apply (set_stream_ok _ _ _ _ st); try done; [congruence|]. split; rewrite ?Hhand; try (simpl; discriminate); auto.
    - simpl. by apply sublist_inserts_r.
    - intros _. simpl. rewrite filter_app, filter_cons, decide_False, app_nil_r; [auto|]. rewrite Hknown. by intros [].  }
  assert (sub_ok c schemas (cancel s1)) as Hcancel.
  { apply (set_stream_ok c schemas (cancel s) i st); try done; [by apply cancel_ok|simpl; congruence|].
    split; rewrite ?Hhand; try (simpl; discriminate); try done. simpl. by apply sublist_inserts_r. }
  destruct text as [[text|err]|]; [|done|].
  2:{ destruct (cancelled s) eqn:Hcan; [|by apply Hskip]. destruct Hcancel as [? Hst ? ? ?]. split; try done.
      intros j stj Hj. destruct (Hst j stj Hj). split; simpl; try done; congruence. }
  unfold writeData. destruct (ok && conn_open s1); [|done].
  destruct Hcancel as [Hsc Hst Htext Hdone _]. split; simpl; try done; [| |apply Hok].
  - intros j stj Hj. destruct (Hst j stj Hj) as [Hs1 Ho1 Ha1 Hl1 Hw1 _]. split; simpl; try done; rewrite ?written_snoc; simpl.
    + intros Hcan. destruct (decide (i = j)) as [<-|Hne].
      * rewrite list_lookup_insert_eq in Hj by (by eapply lookup_lt_Some). injection Hj as <-. rewrite Hhand. by apply Ha.
      * rewrite list_lookup_insert_ne in Hj by done. by apply (so_all _ _ _ _ (so_streams _ _ _ Hok j stj Hj)).
    + destruct (decide (j = i)) as [->|Hne]; [|by rewrite app_nil_r].
      rewrite list_lookup_insert_eq in Hj by (by eapply lookup_lt_Some). injection Hj as <-. by apply sublist_app.
    + intros Hcan. destruct (decide (j = i)) as [->|Hne].
      * rewrite list_lookup_insert_eq in Hj by (by eapply lookup_lt_Some). injection Hj as <-. simpl. rewrite filter_app, <- Hc by done.
        f_equal. rewrite filter_cons, decide_True; [done|]. apply Hknown. by eexists.
      * rewrite list_lookup_insert_ne in Hj by done. rewrite app_nil_r. by apply (so_complete _ _ _ _ (so_streams _ _ _ Hok j stj Hj)).
  - intros j x t [Hin|Hin%list_elem_of_singleton]%elem_of_app; [by apply Htext|]. injection Hin as -> -> ->. split; [|done].
    apply lookup_lt_is_Some. rewrite length_insert. by eapply lookup_lt_Some.
Qed.

(** The steps of a stream as functions. *)
Definition run_start c s (i : nat) : go (subscription W) :=
  match streams s !! i with
  | Some st => match st_phase st with Starting => start_stream c s i st | _ => Panic end
  | None => Panic
  end.
Definition run_receive c s (i : nat) (ok : bool) : go (subscription W) :=
  match streams s !! i with
  | Some st => match st_phase st with Watching (item :: rest) open => if done_ s then Panic else receive c s i st item rest open ok | _ => Panic end
  | None => Panic
  end.
Lemma run_start_step c s i s' : run_start c s i = Ret s' → step c s (Ret s').
Proof.
  unfold run_start. destruct (streams s !! i) as [st|] eqn:Hi; [|done]. destruct (st_phase st) eqn:Hp; [|done..].
  intros <-. by eapply step_work, work_start.
Qed.
Lemma run_receive_step c s i ok s' : run_receive c s i ok = Ret s' → step c s (Ret s').
Proof.
  unfold run_receive. destruct (streams s !! i) as [st|] eqn:Hi; [|done]. destruct (st_phase st) as [|[|item rest] open|] eqn:Hp; try done.
  destruct (done_ s) eqn:Hd; [done|]. intros <-. by eapply step_work, work_receive.
Qed.

Lemma work_ok c schemas s s' : sub_ok c schemas s → work c s (Ret s') → sub_ok c schemas s'.
Proof.
  intros Hok Hw. inversion Hw as [i st Hi Hp He|i st item rest open ok Hi Hp Hd He|i st Hi Hp|i st rest n Hi Hp Hcan|Hf Hd]; subst.
  - eapply start_ok; try done. eapply open_not_done; [done..|]. by rewrite Hp.
  - by eapply receive_ok.
  - apply finish_ok; try done. unfold pending. by rewrite Hp.
  - apply close_ok; auto.
  - destruct Hok as [? Hst ? ? ?]. split; try done. intros i st Hi. destruct (Hst i st Hi). by split.
Qed.
Lemma sub_environment_ok c schemas s s' : sub_ok c schemas s → environment s s' → sub_ok c schemas s'.
Proof.
  intros Hok He. destruct He as [ok Hd|Ho|i st rest Hi Hp]; [by apply writeData_ok| |].
  - apply cancel_ok in Hok as [? Hst ? ? ?]. split; try done. intros i st Hi. destruct (Hst i st Hi). by split.
  - rewrite <- (take_ge rest (length rest)) at 1 by done. apply close_ok; auto. right. by apply take_ge.
Qed.
Lemma sub_step_ok c schemas s s' : sub_ok c schemas s → step c s (Ret s') → sub_ok c schemas s'.
Proof. intros Hok Hs. inversion Hs; subst; [by eapply work_ok|by eapply sub_environment_ok|by apply arrive_ok]. Qed.
Lemma reachable_ok c schemas s0 s : sub_ok c schemas s0 → reachable c s0 s → sub_ok c schemas s.
Proof. intros Hok Hr. induction Hr; [done|by eapply sub_step_ok; eauto]. Qed.
Lemma handler_ok c upgrade w s0 : handler c upgrade w = Ret (inl s0) → ∃ schemas, getMatchingSchemas c = Ret schemas ∧ sub_ok c schemas s0.
Proof.
  unfold handler. destruct (getMatchingSchemas c) as [schemas|]; [|done]. simpl. intros He. exists schemas. split; [done|].
  destruct schemas as [|sc l]; [done|]. destruct upgrade; [done|]. injection He as <-. split; simpl; try done.
  - f_equal. induction l as [|x l IH]; [done|]. simpl. by rewrite IH.
  - intros i st Hi. assert (handed st = [] ∧ st_phase st = Starting ∧ st_events st = []) as (Hh & Hp & He).
    { change (((λ sc, mkStream sc Starting [] []) <$> sc :: l) !! i = Some st) in Hi.
      rewrite list_lookup_fmap in Hi. destruct ((sc :: l) !! i); [|done]. by injection Hi as <-. }
    split; unfold pending; rewrite ?Hp, ?Hh, ?He; try done.
  - intros i item text Hin. by apply elem_of_nil in Hin.
Qed.

#[local] Instance finished_dec st : Decision (finished st).
Proof. unfold finished. destruct (st_phase st); [by right|by right|by left]. Defined.
(** Until the loop has ended, something can go on, or a watch is open and has
    nothing to deliver. *)
Lemma work_or_waiting c s : done_ s = false → (∃ r, work c s r) ∨ waiting s.
Proof.
  intros Hd. destruct (decide (Forall finished (streams s))) as [Hf|Hf]; [left; eexists; by apply work_done|].
  apply not_Forall_Exists in Hf; [|apply _].
  apply Exists_exists in Hf as (st & [i Hi]%list_elem_of_lookup & Hnf). unfold finished in Hnf.
  destruct (st_phase st) as [|[|item rest] open|] eqn:Hp; [left; eexists; by eapply work_start| | |done].
  - destruct open; [|left; eexists; by eapply work_end].
    destruct (cancelled s) eqn:Hcan; [left; eexists; by apply (work_cut c s i st [] 0)|right]. split; [done|by exists i, st].
  - left. eexists. by apply (work_receive c s i st item rest open true).
Qed.

(** C39: a subscription delivers what its watches deliver.  In every state that
    any interleaving of the goroutines, the loop, failing writes, a leaving
    client and the ticker can reach: there is one stream for each schema of the
    version with a store that was asked for; the loop has received a prefix of
    the events of its watch, in order (and, unless the request was cancelled,
    none is lost between the goroutine and the loop); what was written of a
    stream is among what was received, in order, each with its own text, and
    unless the request was cancelled it is every event whose type is known;
    when the loop has ended, every goroutine has; and until it has, something
    can go on, unless the request was not cancelled and the store has left the
    channel of a watch open with nothing to deliver. *)
Theorem subscription_delivers c upgrade w s0 s :
  handler c upgrade w = Ret (inl s0) → reachable c s0 s →
  (∃ schemas, getMatchingSchemas c = Ret schemas ∧ st_schema <$> streams s = schemas ∧
     ∀ sc, sc ∈ schemas → is_Some (store_of sc) ∧
       matches (default [] (UQuery (RURL (ctx_Request c)) !! "resourceTypes")) (ID sc) = true) ∧
  (∀ i st, streams s !! i = Some st → handed st `prefix_of` st_events st ∧ written i (frames s) `sublist_of` handed st ∧
     (cancelled s = false → handed st ++ pending st = st_events st ∧ written i (frames s) = filter (known c) (handed st))) ∧
  (∀ i item text, Event i item text ∈ frames s → is_Some (streams s !! i) ∧ event_text c item = Ret (Some (inl text))) ∧
  (done_ s = true → Forall finished (streams s)) ∧
  (done_ s = false → (∃ r, work c s r) ∨ waiting s).
Proof.
  intros Hh Hr. destruct (handler_ok c upgrade w s0 Hh) as (schemas & Hget & Hok0).
  pose proof (reachable_ok _ _ _ _ Hok0 Hr) as Hok. split_and!.
  - exists schemas. split_and!; [done|apply Hok|]. revert Hget. unfold getMatchingSchemas. destruct (ctx_Version c); [|done].
    intros [= <-] sc [[? ?] _]%list_elem_of_filter. done.
  - intros i st Hi. destruct (so_streams _ _ _ Hok i st Hi) as [_ Ho Ha _ Hw Hc]. split_and!; try done; [|by auto].
    eapply prefix_app_l, Ho.
  - apply Hok.
  - apply Hok.
  - apply work_or_waiting.
Qed.

(** ** The end *)
Local Open Scope nat_scope.
Definition is_starting (st : stream) : nat := match st_phase st with Starting => 1 | _ => 0 end.
Definition stream_work (st : stream) : nat :=
  match st_phase st with Watching ready open => S (length ready) + (if open then 1 else 0) | _ => 0 end.
Definition to_start s : nat := sum_list (is_starting <$> streams s).
Definition total_work s : nat := sum_list (stream_work <$> streams s) + (if done_ s then 0 else 1).
Lemma sum_insert (f : stream → nat) (l : list stream) i st st' :
  l !! i = Some st → sum_list (f <$> <[i := st']> l) + f st = sum_list (f <$> l) + f st'.
Proof.
  revert i. induction l as [|x l IH]; intros [|i] Hi; simplify_eq/=; [unfold fmap; lia|]. specialize (IH _ Hi). unfold fmap in *. lia.
Qed.
Lemma to_start_set s s' i st st' : streams s !! i = Some st → streams s' = <[i := st']> (streams s) →
  to_start s' + is_starting st = to_start s + is_starting st'.
Proof. intros Hi Hs. unfold to_start. rewrite Hs. by apply sum_insert. Qed.
Lemma total_work_set s s' i st st' : streams s !! i = Some st → streams s' = <[i := st']> (streams s) → done_ s' = done_ s →
  total_work s' + stream_work st = total_work s + stream_work st'.
Proof. intros Hi Hs Hd. unfold total_work. rewrite Hs, Hd. pose proof (sum_insert stream_work (streams s) i st st' Hi). lia. Qed.
(** A watching stream that goes on with less to do, the loop as it was. *)
Lemma less_work s s' i st st' : streams s !! i = Some st → streams s' = <[i := st']> (streams s) → done_ s' = done_ s →
  is_starting st = 0 → is_starting st' = 0 → stream_work st' < stream_work st → to_start s' = to_start s ∧ total_work s' < total_work s.
Proof.
  intros Hi Hs Hd Hz Hz' Hlt. pose proof (to_start_set s s' i st st' Hi Hs). pose proof (total_work_set s s' i st st' Hi Hs Hd). lia.
Qed.

Lemma finish_sets s i st err : streams (finish_stream s i st err) = <[i := set_phase st Finished]> (streams s) ∧
  done_ (finish_stream s i st err) = done_ s.
Proof. by destruct err. Qed.
Lemma start_sets c s i st s' : start_stream c s i st = Ret s' →
  ∃ st', streams s' = <[i := st']> (streams s) ∧ st_phase st' ≠ Starting.
Proof.
  unfold start_stream. destruct (store_of _); [|done]. destruct (s_Watch _ _ _ _ _) as [w [[o [ready [err|]]]|]]; [|destruct ready|done];
    intros [= <-]; by eexists.
Qed.
Lemma receive_sets c s i st item rest open ok s' : receive c s i st item rest open ok = Ret s' →
  ∃ st', streams s' = <[i := st']> (streams s) ∧ st_phase st' = Watching rest open ∧ done_ s' = done_ s.
Proof.
  unfold receive. destruct (event_text c item) as [[[text|err]|]|]; [| | |done]; simpl; intros [= <-].
  - unfold writeData. destruct (ok && _); by eexists.
  - by eexists.
  - by eexists.
Qed.
Lemma work_decreases c s s' : work c s (Ret s') →
  to_start s' < to_start s ∨ to_start s' = to_start s ∧ total_work s' < total_work s.
Proof.
  intros Hw. inversion Hw as [i st Hi Hp He|i st item rest open ok Hi Hp Hd He|i st Hi Hp Heq|i st rest n Hi Hp Hcan Heq|Hf Hd Heq].
  - left. destruct (start_sets _ _ _ _ _ He) as (st' & Hs & Hst). pose proof (to_start_set s s' i st st' Hi Hs).
    unfold is_starting in *. rewrite Hp in *. destruct (st_phase st'); [done|lia..].
  - right. destruct (receive_sets _ _ _ _ _ _ _ _ _ He) as (st' & Hs & Hst & Hsame).
    apply (less_work s s' i st st' Hi Hs Hsame); unfold is_starting, stream_work; rewrite ?Hp, ?Hst; simpl; lia.
  - right. destruct (finish_sets s i st (Some (ErrorString "disconnect"))) as [Hs Hd].
    apply (less_work s _ i st _ Hi Hs Hd); unfold is_starting, stream_work; rewrite ?Hp; simpl; lia.
  - right. apply (less_work s _ i st (set_phase st (Watching (take n rest) false)) Hi); try done;
      unfold is_starting, stream_work; rewrite ?Hp; simpl; rewrite ?length_take; lia.
  - right. unfold to_start, total_work. simpl. rewrite Hd. lia.
Qed.
Lemma environment_no_work s s' : environment s s' → to_start s' = to_start s ∧ total_work s' ≤ total_work s.
Proof.
  intros He. destruct He as [ok Hd|Ho|i st rest Hi Hp]; [unfold writeData; by destruct (ok && _)|done|].
  destruct (less_work s (set_stream s i (set_phase st (Watching rest false))) i st (set_phase st (Watching rest false)) Hi); try done;
    unfold is_starting, stream_work; rewrite ?Hp; simpl; lia.
Qed.

(** ** Cancellation *)
Lemma cancelled_writeData s f ok : cancelled (writeData s f ok) = cancelled s || negb (ok && conn_open s).
Proof. unfold writeData. destruct (ok && conn_open s), (cancelled s); done. Qed.
Lemma receive_cancelled c s i st item rest open ok s' : receive c s i st item rest open ok = Ret s' →
  (cancelled s = true → cancelled s' = true) ∧ (known c item → frames s' = frames s → cancelled s' = true).
Proof.
  unfold receive. destruct (event_text c item) as [text|] eqn:Ht; [|done]. simpl. intros [= <-].
  assert (text = None → ¬ known c item) as Hnone.
  { intros ->. unfold event_text in Ht. unfold known. destruct (Schemas_Schema _ _ _); [|by intros []]. by destruct (version_body _ _ _). }
  destruct text as [[text|err]|]; [|done|split; [done|by intros ?%Hnone]].
  rewrite cancelled_writeData. simpl. split; [by intros ->|]. intros _. unfold writeData. simpl.
  destruct (ok && conn_open s); simpl; [|by rewrite orb_true_r]. intros Hf%(f_equal length). rewrite length_app in Hf. simpl in Hf. lia.
Qed.
Lemma start_cancelled c s i st s' : start_stream c s i st = Ret s' → cancelled s = true → cancelled s' = true.
Proof.
  unfold start_stream. destruct (store_of _); [|done]. destruct (s_Watch _ _ _ _ _) as [w [[o [ready [err|]]]|]]; [|destruct ready|done];
    intros [= <-] Hc; first [exact Hc|reflexivity].
Qed.
Lemma cancelled_stays c s s' : step c s (Ret s') → cancelled s = true → cancelled s' = true.
Proof.
  intros Hs Hcan. inversion Hs as [r Hw Hr|x He Hr|i st rest item Hi Hp Hr]; [| |exact Hcan].
  - inversion Hw as [i st Hi Hp He|i st item rest open ok Hi Hp Hd He|i st Hi Hp Heq|i st rest n Hi Hp Hc Heq|Hf Hd Heq]; subst; try done.
    + exact (start_cancelled _ _ _ _ _ He Hcan).
    + exact (proj1 (receive_cancelled _ _ _ _ _ _ _ _ _ He) Hcan).
  - destruct He; try done. by rewrite cancelled_writeData, Hcan.
Qed.

(** What goes wrong: the client goes, a ping or an event is not written, a watch
    cannot be started, a watch ends. *)
Inductive setback c s : subscription W → Prop :=
| setback_client : conn_open s = true → setback c s (client_gone s)
| setback_ping ok : done_ s = false → ok = false ∨ conn_open s = false → setback c s (writeData s Ping ok)
| setback_event i st item rest open ok s' : streams s !! i = Some st → st_phase st = Watching (item :: rest) open → done_ s = false →
    receive c s i st item rest open ok = Ret s' → known c item → frames s' = frames s → setback c s s'
| setback_watch i st store w o ready err s' : streams s !! i = Some st → st_phase st = Starting → store_of (st_schema st) = Some store →
    s_Watch store c (st_schema st) (parse_QueryOptions (RMethod (ctx_Request c)) (ctx_Pagination c) (st_schema st) (ctx_Query c)) (world s)
      = (w, Ret (o, (ready, Some err))) →
    start_stream c s i st = Ret s' → setback c s s'
| setback_closed i st : streams s !! i = Some st → st_phase st = Watching [] false → setback c s (end_stream s i st).
Lemma setback_step c s s' : setback c s s' → step c s (Ret s').
Proof.
  intros Hs. destruct Hs as [Ho|ok Hd _|i st item rest open ok s' Hi Hp Hd He _ _|i st store w o ready err s' Hi Hp _ _ He|i st Hi Hp].
  - by apply step_env, env_gone.
  - by apply step_env, env_ping.
  - rewrite <- He. by apply step_work, work_receive.
  - rewrite <- He. by apply step_work, work_start.
  - by apply step_work, work_end.
Qed.
Lemma setback_cancels c s s' : setback c s s' → cancelled s' = true.
Proof.
  intros Hs. destruct Hs as [Ho|ok Hd Hf|i st item rest open ok s' Hi Hp Hd He Hk Hf|i st store w o ready err s' Hi Hp Hst Hw He|i st Hi Hp]; try done.
  - rewrite cancelled_writeData. destruct Hf as [->| ->]; [|rewrite andb_false_r]; apply orb_true_r.
  - exact (proj2 (receive_cancelled _ _ _ _ _ _ _ _ _ He) Hk Hf).
  - revert He. unfold start_stream. rewrite Hst, Hw. by intros [= <-].
Qed.

(** C40: a subscription that is cancelled ends, and what goes wrong cancels it.
    However long its watches stay open: a client that goes, a ping or an event
    (of a known type) that is not written, a watch that fails and a watch whose
    channel is closed each cancel the request, it stays cancelled, and it is
    cancelled whenever the connection is closed; a cancelled request has work
    left until the loop has ended and every goroutine with it; and work runs
    out: whatever the ticker, the client and the closing stores do in between,
    no run goes on for ever unless events arrive for ever. *)
Theorem subscription_ends c upgrade w s0 :
  handler c upgrade w = Ret (inl s0) →
  (∀ s, reachable c s0 s →
    (∀ s', setback c s s' → step c s (Ret s') ∧ cancelled s' = true) ∧
    (∀ s', step c s (Ret s') → cancelled s = true → cancelled s' = true) ∧
    (conn_open s = false → cancelled s = true) ∧
    (cancelled s = true → (∀ r, ¬ work c s r) → done_ s = true ∧ Forall finished (streams s))) ∧
  well_founded (λ s' s, ∃ s1, rtc environment s s1 ∧ work c s1 (Ret s')).
Proof.
  intros Hh. split.
  - intros s Hr. destruct (handler_ok c upgrade w s0 Hh) as (schemas & _ & Hok0). pose proof (reachable_ok _ _ _ _ Hok0 Hr) as Hok.
    split_and!.
    + intros s' Hs. split; [by apply setback_step|by eapply setback_cancels].
    + intros s'. apply cancelled_stays.
    + apply Hok.
    + intros Hcan Hno. destruct (done_ s) eqn:Hd; [split; [done|by apply (so_done c schemas)]|].
      destruct (work_or_waiting c s Hd) as [[r Hw]|[? _]]; [by destruct (Hno r)|congruence].
  - assert (∀ n m s, to_start s = n → total_work s = m → Acc (λ s' s, ∃ s1, rtc environment s s1 ∧ work c s1 (Ret s')) s) as Hacc;
      [|intros s; by eapply Hacc].
    induction n as [n IHn] using lt_wf_ind. induction m as [m IHm] using lt_wf_ind. intros s Hn Hm. constructor. intros s' (s1 & Hp & Hw).
    assert (to_start s1 = n ∧ total_work s1 ≤ m) as [Hn1 Hm1].
    { clear Hw IHn IHm. revert m Hn Hm. induction Hp as [|x y z Hxy _ IH]; intros m Hn Hm; [lia|].
      destruct (environment_no_work _ _ Hxy) as [? ?]. destruct (IH (total_work y)); [congruence|done|lia]. }
    destruct (work_decreases _ _ _ Hw) as [Hlt|[He Hlt]]; [exact (IHn (to_start s') ltac:(lia) (total_work s') s' eq_refl eq_refl)|].
    exact (IHm (total_work s') ltac:(lia) s' ltac:(lia) eq_refl).
Qed.
End Subscribe.

(** ** A subscription *)
Definition pet_event (t id : string) : option obj := Some {[ "id" := VStr id; "type" := VStr t ]}.
Definition watched_store : Store unit :=
  mkStore "" (λ _ _ _, mret (None, None)) (λ _ _ o, mret (o, ([], None))) (λ _ _ _, mret (None, None))
    (λ _ _ _ _, mret (None, None)) (λ _ _ _, mret (None, None))
    (λ _ _ o, mret (o, (Some [pet_event "pet" "p-1"; pet_event "unknown" "u"], None))).
Definition pet_store (sc : Schema) : option (Store unit) := if decide (ID sc = "pet") then Some watched_store else None.
Definition id_encoder (o : output) : result string := inl match o with OResource r => RID r | _ => "null" end.
Definition subscribe_context : APIContext :=
  set_url_builder pets_context (Some (mkUrlBuilder "https://api.example.com/v3/subscribe" "https://api.example.com" v3 "" ∅)).
Definition texts (s : subscription unit) : list string := omap (λ f, match f with Event _ _ text => Some text | Ping => None end) (frames s).

#[local] Existing Instances std_format std_range std_k8s.
Section Demo.
Variable ac : AccessControl.
Definition demo_start : go (result (subscription unit)) := handler pet_store subscribe_context None ().
Definition demo_receive (s : subscription unit) : go (subscription unit) :=
  run_receive (λ _, None) 5 None (λ _, None) (λ _, None) ac id_encoder subscribe_context s 0 true.
Definition demo_run : go (subscription unit) :=
  match demo_start with
  | Ret (inl s) => s ← run_start pet_store subscribe_context s 0; s ← demo_receive s; demo_receive s
  | _ => Panic
  end.
Abbreviation demo f := (f (λ _, None) 5%nat None (λ _, None) (λ _, None) ac pet_store id_encoder subscribe_context).
Lemma demo_reachable s : demo_run = Ret s → ∃ s0, demo_start = Ret (inl s0) ∧ demo (reachable (W := unit)) s0 s.
Proof.
  unfold demo_run. destruct demo_start as [[s0|]|]; [|done..]. intros Hr. exists s0. split; [done|].
  destruct (run_start _ _ _ _) as [s1|] eqn:H1; [|done]. simpl in Hr. destruct (demo_receive s1) as [s2|] eqn:H2; [|done]. simpl in Hr.
  eapply reach_step; [eapply reach_step; [eapply reach_step; [apply reach_start|]|]|]; [by eapply run_start_step|by eapply run_receive_step..].
Qed.
End Demo.

Lemma subscription_delivers_witness :
  ∃ s, demo_run AllAccess = Ret s ∧ texts s = [header "resource.change" +:+ "p-1" +:+ "}"] ∧ ID <$> (st_schema <$> streams s) = ["pet"] ∧
    ((∃ r, work (λ _, None) 5 None (λ _, None) (λ _, None) AllAccess pet_store id_encoder subscribe_context s r) ∨ waiting s).
Proof.
  destruct (demo_run AllAccess) as [s|] eqn:Hr; [|vm_compute in Hr; discriminate Hr].
  destruct (demo_reachable AllAccess s Hr) as (s0 & Hs & Hreach).
  destruct (subscription_delivers (H := std_format) (H0 := std_range) (H1 := std_k8s) (λ _, None) 5 None (λ _, None) (λ _, None) AllAccess pet_store id_encoder subscribe_context None () s0 s Hs Hreach) as ((schemas & Hget & Hsc & _) & _ & _ & _ & Hgo).
  exists s. split_and!; [done| | |].
  - assert (texts <$> demo_run AllAccess = Ret [header "resource.change" +:+ "p-1" +:+ "}"]) as He by (vm_compute; reflexivity).
    rewrite Hr in He. by injection He.
  - rewrite Hsc. change (getMatchingSchemas pet_store subscribe_context = Ret schemas) in Hget.
    assert ((λ l : list Schema, ID <$> l) <$> getMatchingSchemas pet_store subscribe_context = Ret ["pet"]) as He by (vm_compute; reflexivity).
    rewrite Hget in He. by injection He.
  - apply Hgo. assert (done_ <$> demo_run AllAccess = Ret false) as He by (vm_compute; reflexivity). rewrite Hr in He. by injection He.
Defined.
(** The pets are sent, then the client goes: from there on the subscription can
    only end. *)
Lemma subscription_ends_witness :
  ∃ s0 s, demo_run AllAccess = Ret s ∧ cancelled s = false ∧ cancelled (client_gone s) = true ∧
    (∀ s', reachable (λ _, None) 5 None (λ _, None) (λ _, None) AllAccess pet_store id_encoder subscribe_context s0 s' → cancelled s' = true →
       (∀ r, ¬ work (λ _, None) 5 None (λ _, None) (λ _, None) AllAccess pet_store id_encoder subscribe_context s' r) →
       done_ s' = true ∧ Forall finished (streams s')).
Proof.
  destruct (demo_run AllAccess) as [s|] eqn:Hr; [|vm_compute in Hr; discriminate Hr].
  destruct (demo_reachable AllAccess s Hr) as (s0 & Hs & Hreach).
  assert (cancelled <$> demo_run AllAccess = Ret false) as Hc by (vm_compute; reflexivity).
  assert (conn_open <$> demo_run AllAccess = Ret true) as Ho by (vm_compute; reflexivity).
  rewrite Hr in Hc, Ho. injection Hc as Hc. injection Ho as Ho.
  destruct (subscription_ends (H := std_format) (H0 := std_range) (H1 := std_k8s) (λ _, None) 5 None (λ _, None) (λ _, None) AllAccess pet_store id_encoder subscribe_context None () s0 Hs) as [He _].
  exists s0, s. split; [done|]. split; [exact Hc|]. split.
  - destruct (He s Hreach) as (Hset & _). by apply Hset, setback_client.
  - intros s' Hreach' Hcan Hno. destruct (He s' Hreach') as (_ & _ & _ & Hend). by apply Hend.
Defined.

(** The handler does not ask access control for the schemas it watches: what may
    not be listed is sent all the same. *)
Example subscription_skips_access_control :
  ac_CanList no_access subscribe_context pet_schema ≠ None ∧
  texts <$> demo_run no_access = Ret [header "resource.change" +:+ "p-1" +:+ "}"].
Proof. split; [done|vm_compute; reflexivity]. Qed.
