(* ===== verification/SchemaMoves.v ===== *)
(** * Mappers that change other schemas

    Models the ModifySchema methods of types/mapper that look at, or change,
    schemas other than the one they are given (move.go, batchmove.go,
    slice_to_map.go, read_only.go, union_embed.go, rename_reference.go,
    set_value.go), the mappers that only check a field, and the mappers built
    from these (object.go, metadata.go).

    A schema of the registry is changed in place, through the pointer that the
    registry, its list of schemas and its back references share.  Which entries
    of the list and of the back references are that very object is a parameter,
    [SchemaIdentity]: it is not determined by what the schemas hold. *)

From S2P Require Import Prelude GoStrings Values Errors TypeNames Convert Schemas Mappers SchemaMappers Query Http Urls Parse Access Reflect Rest.
From Stdlib Require Import Ascii.

Class SchemaIdentity := { is_copy : Schemas → string → string → Schema → bool }.

(** ** Pointers to schemas *)
(** The schema a mapper is given, or a registered one. *)
Inductive pointer := Given | Registered (path id : string).
Definition pointed (p : pointer) (sc : Schema) (s : Schemas) : Schema :=
  match p with Given => sc | Registered path id => default sc (filed s path id) end.
Definition pointer_to (sc : Schema) : pointer := Registered (Path (Version sc)) (ID sc).

Section Moves.
Context `{MapRange} `{SchemaIdentity}.

Definition update_schema (s : Schemas) (path id : string) (f : Schema → Schema) : Schemas :=
  let f' x := if is_copy s path id x then f x else x in
  mkSchemas (alter (alter f id) path (schemasByPath s))
    ((λ l : list BackReference, (λ b, mkBackReference (RefField b) (f' (RefSchema b))) <$> l) <$> references s)
    (versions s) (f' <$> schemas s) (AddHook s) (errors s).
Definition change_at (p : pointer) (f : Schema → Schema) (st : Schema * Schemas) : Schema * Schemas :=
  match p with Given => (f st.1, st.2) | Registered path id => (st.1, update_schema st.2 path id f) end.

(** getField: the schema that holds the field, its name there, and the field. *)
Fixpoint walk (sc : Schema) (s : Schemas) (p : pointer) (parts : list string) : result (pointer * string) :=
  match parts with
  | [] => inl (p, "")
  | [name] => inl (p, name)
  | part :: parts =>
      let schema := pointed p sc s in
      let t := Type_ (field_of schema part) in
      let t := if IsArrayType t then SubType t else t in
      match Schemas_Schema s (Some (Version schema)) t with
      | None => inr (ErrorString ("failed to find field or schema for " +:+ part +:+ " on " +:+ ID schema))
      | Some sub => walk sc s (pointer_to sub) parts
      end
  end.
Definition getField (sc : Schema) (s : Schemas) (target : string) : result (pointer * string * option Field) :=
  match walk sc s Given (Split target "/") with
  | inl (p, name) => inl (p, name, ResourceFields (pointed p sc s) !! name)
  | inr err => inr err
  end.

Definition moved (m : Move) (name : string) (f : Field) : Field :=
  set_CodeName f (if decide (MCodeName m = "") then Capitalize name else MCodeName m).
Definition Move_ModifySchema (m : Move) : SchemaMapper := λ sc s,
  match getField sc s (MFrom m) with
  | inr err => ((sc, s), Some err)
  | inl (_, _, None) => ((sc, s), Some (ErrorString ("failed to find field " +:+ MFrom m +:+ " on schema " +:+ ID sc)))
  | inl (from, _, Some f) =>
      match getField sc s (MTo m) with
      | inr err => ((sc, s), Some err)
      | inl (to, name, existing) =>
          if bool_decide (is_Some existing) && negb (Contains (MTo m) "/") && negb (DestDefined m)
          then ((sc, s), Some (ErrorString ("field " +:+ MTo m +:+ " already exists on schema " +:+ ID sc)))
          else
            let st := if NoDeleteFromField m then (sc, s) else change_at from (λ x, delete_field x (MFrom m)) (sc, s) in
            let st := if DestDefined m then st else change_at to (λ x, set_field x name (moved m name f)) st in
            (st, None)
      end
  end.

(** BatchMove: the moves it adds to those it has, and what they do. *)
Definition batch (from : list string) (to : string) (destDefined noDelete : bool) : list Move :=
  (λ f, mkMove f (path_Join [to; f]) "" destDefined noDelete) <$> from.
Definition BatchMove_ModifySchema (moves : list Move) (from : list string) (to : string) (destDefined noDelete : bool) (sc : Schema) (s : Schemas)
    : list Move * ((Schema * Schemas) * option error) :=
  let moves := moves ++ batch from to destDefined noDelete in
  (moves, Mappers_ModifySchema (Move_ModifySchema <$> moves) sc s).

Definition SliceToMap_ModifySchema (m : SliceToMap) : SchemaMapper := λ sc s,
  match ValidateField (SField m) sc with
  | Some err => ((sc, s), Some err)
  | None =>
      match getField sc s (SField m +:+ "/" +:+ SKey m) with
      | inr err => ((sc, s), Some err)
      | inl (sub, name, _) =>
          let field := field_of sc (SField m) in
          if negb (IsArrayType (Type_ field)) then ((sc, s), Some (ErrorString ("field " +:+ SField m +:+ " on " +:+ ID sc +:+ " is not an array")))
          else
            let sc := set_field sc (SField m) (with_type field ("map[" +:+ SubType (Type_ field) +:+ "]") (Options field)) in
            (change_at sub (λ x, delete_field x name) (sc, s), None)
      end
  end.

(** ReadOnly: with [subFields] also the fields of the schema of the field. *)
Definition all_read_only (sc : Schema) : Schema := set_fields sc (read_only <$> ResourceFields sc).
Definition readOnly (subFields : bool) (field : Field) (sc : Schema) (s : Schemas) : Field * Schemas :=
  (read_only field,
   if subFields then
     match Schemas_Schema s (Some (Version sc)) (Type_ field) with
     | Some sub => update_schema s (Path (Version sub)) (ID sub) all_read_only
     | None => s
     end
   else s).
Definition set_read_only (subFields : bool) (st : Schema * Schemas) (e : string * Field) : Schema * Schemas :=
  let '(f, s) := readOnly subFields e.2 st.1 st.2 in (set_field st.1 e.1 f, s).
Definition ReadOnly_ModifySchema (field : string) (optional subFields : bool) : SchemaMapper := λ sc s,
  if decide (field = "*") then (foldl (set_read_only subFields) (sc, s) (range (ResourceFields sc)), None)
  else match ValidateField field sc with
       | Some err => ((sc, s), if optional then None else Some err)
       | None => (set_read_only subFields (sc, s) (field, field_of sc field), None)
       end.

(** UnionEmbed: the embeds it makes, and what they do. *)
Fixpoint union_embeds (fields : list UnionMapping) (embeds : gmap string Embed_) (sc : Schema) (s : Schemas)
    : gmap string Embed_ * ((Schema * Schemas) * option error) :=
  match fields with
  | [] => (embeds, ((sc, s), None))
  | mapping :: fields =>
      let '(sc, embedded, err) := Embed_ModifySchema (mkEmbed (FieldName mapping) false false [] true [] false) sc s in
      match err with
      | Some err => (embeds, ((sc, s), Some err))
      | None =>
          match filter (λ check, ResourceFields sc !! check = None) (CheckFields mapping) with
          | check :: _ => (embeds, ((sc, s), Some (ErrorString ("missing check field " +:+ check +:+ " on schema " +:+ ID sc))))
          | [] => union_embeds fields (<[FieldName mapping := mkEmbed (FieldName mapping) false false [] true embedded false]> embeds) sc s
          end
      end
  end.
Definition UnionEmbed_ModifySchema (fields : list UnionMapping) (sc : Schema) (s : Schemas) := union_embeds fields ∅ sc s.

(** RenameReference: the moves of the references, whose mapper it keeps. *)
Definition rename_move (name : string) (f : Field) : option Move :=
  if IsReferenceType (Type_ f) && HasSuffix name "Name" then
    let stem := TrimSuffix name "Name" in Some (mkMove name (stem +:+ "Id") (Capitalize (stem +:+ "ID")) false false)
  else if IsArrayType (Type_ f) && IsReferenceType (SubType (Type_ f)) && HasSuffix name "Names" then
    let stem := TrimSuffix name "Names" in Some (mkMove name (stem +:+ "Ids") (Capitalize (stem +:+ "IDs")) false false)
  else None.
Definition rename_moves (sc : Schema) : list Move := omap (λ e : string * Field, rename_move e.1 e.2) (range (ResourceFields sc)).
Definition RenameReference_ModifySchema : SchemaMapper := λ sc s, Mappers_ModifySchema (Move_ModifySchema <$> rename_moves sc) sc s.

Definition SetValue_ModifySchema (v : SetValue) (ignoreDefinition : bool) : SchemaMapper := λ sc s,
  if ignoreDefinition then ((sc, s), None)
  else match getField sc s (getTo v) with
       | inr err => ((sc, s), Some err)
       | inl (_, _, None) => ((sc, s), Some (ErrorString ("failed to find defined field for " +:+ getTo v +:+ " on schemas " +:+ ID sc)))
       | inl (_, _, Some _) => ((sc, s), None)
       end.

(** Mappers that only look, and those that change only what they are given. *)
Definition checked (field : string) (ignoreDefinition : bool) : SchemaMapper := λ sc s,
  ((sc, s), if ignoreDefinition then None else ValidateField field sc).
Definition local (f : Schema → Schema * option error) : SchemaMapper := λ sc s, let '(sc, err) := f sc in ((sc, s), err).
Definition Embed_mapper_schema (e : Embed_) : SchemaMapper := λ sc s, let '(sc, _, err) := Embed_ModifySchema e sc s in ((sc, s), err).
Definition Scope_ModifySchema (sIf sIfNot : string) (l : list SchemaMapper) : SchemaMapper := λ sc s,
  if Scope_run sIf sIfNot sc then Mappers_ModifySchema l sc s else ((sc, s), None).
Definition Root_ModifySchema (m : SchemaMapper) : SchemaMapper := λ sc s, if listable sc then m sc s else ((sc, s), None).

Definition NewMetadataMapper : list SchemaMapper := [
  local (ChangeType_ModifySchema "name" "dnsLabel");
  local (Drop_ModifySchema "generateName" false);
  Move_ModifySchema (mkMove "uid" "uuid" "UUID" false false);
  local (Drop_ModifySchema "resourceVersion" false);
  local (Drop_ModifySchema "generation" false);
  Move_ModifySchema (mkMove "creationTimestamp" "created" "" false false);
  Move_ModifySchema (mkMove "deletionTimestamp" "removed" "" false false);
  local (Drop_ModifySchema "deletionGracePeriodSeconds" false);
  local (Drop_ModifySchema "initializers" false);
  local (Drop_ModifySchema "clusterName" false);
  ReadOnly_ModifySchema "*" false false;
  local (Access_ModifySchema {[ "name" := "c"; "namespace" := "c"; "labels" := "cu"; "annotations" := "cu" ]} false)
].
Definition DisplayName_ModifySchema : SchemaMapper := Mappers_ModifySchema [
  Move_ModifySchema (mkMove "name" "id" "" false false);
  Move_ModifySchema (mkMove "displayName" "name" "" false false);
  local (Access_ModifySchema {[ "id" := ""; "name" := "cru" ]} false)
].
Definition NewObject (mappers : list SchemaMapper) : list SchemaMapper := [
  (λ sc s, ((sc, s), None));
  Embed_mapper_schema (mkEmbed "metadata" false false [] false [] false);
  Embed_mapper_schema (mkEmbed "spec" true false [] false [] false);
  ReadOnly_ModifySchema "status" true true;
  local (Drop_ModifySchema "kind" false);
  local (Drop_ModifySchema "apiVersion" false);
  Move_ModifySchema (mkMove "selfLink" ".selfLink" "" true false);
  Scope_ModifySchema "" "namespace" [local (Drop_ModifySchema "namespace" false)];
  local (Drop_ModifySchema "finalizers" true)
] ++ mappers.

(** ** What a move does to a schema *)
Lemma walk_flat sc s target : str_in "/" target = false → walk sc s Given (Split target "/") = inl (Given, target).
Proof. intros Ht. by rewrite Split_single. Qed.
Lemma getField_flat sc s target : str_in "/" target = false → getField sc s target = inl (Given, target, ResourceFields sc !! target).
Proof. intros Ht. unfold getField. by rewrite walk_flat. Qed.
Lemma Contains_slash t : str_in "/" t = false → Contains t "/" = false.
Proof. intros Ht. unfold Contains. by rewrite Index_byte_None. Qed.

(** C35: A move within a schema.  It succeeds exactly if the field it moves
    exists and, unless the destination is declared to be defined, the
    destination does not.  Then the destination has the field under its new
    code name, the source is gone unless it is to stay, and no other field and
    no registered schema has changed; otherwise nothing has. *)
Theorem move_schema_correct m sc s :
  str_in "/" (MFrom m) = false → str_in "/" (MTo m) = false →
  let '((sc', s'), err) := Move_ModifySchema m sc s in
  s' = s ∧
  match err with
  | None =>
      ∃ f, ResourceFields sc !! MFrom m = Some f ∧ (DestDefined m = false → ResourceFields sc !! MTo m = None) ∧
        ID sc' = ID sc ∧ Version sc' = Version sc ∧ Embed sc' = Embed sc ∧
        ∀ name, ResourceFields sc' !! name =
          (if decide (name = MTo m ∧ DestDefined m = false) then Some (moved m (MTo m) f)
           else if decide (name = MFrom m ∧ NoDeleteFromField m = false) then None else ResourceFields sc !! name)
  | Some _ => sc' = sc ∧ (ResourceFields sc !! MFrom m = None ∨ DestDefined m = false ∧ is_Some (ResourceFields sc !! MTo m))
  end.
Proof.
  intros Hfrom Hto. unfold Move_ModifySchema. rewrite !getField_flat by done. destruct (ResourceFields sc !! MFrom m) as [f|] eqn:Hf; [|by auto].
  rewrite Contains_slash by done. simpl. destruct (bool_decide (is_Some (ResourceFields sc !! MTo m)) && true && negb (DestDefined m)) eqn:Hb.
  { apply andb_true_iff in Hb as [[Hs%bool_decide_eq_true _]%andb_true_iff Hd%negb_true_iff]. split_and!; auto. }
  assert (DestDefined m = false → ResourceFields sc !! MTo m = None) as Hnone.
  { intros Hd. rewrite Hd, andb_true_r in Hb. apply andb_false_iff in Hb as [Hb|]; [|done]. apply bool_decide_eq_false in Hb.
    by apply eq_None_not_Some. }
  clear Hb. destruct (DestDefined m), (NoDeleteFromField m); simpl; (split; [done|]); exists f; split_and!; try done;
    intros name; simpl; rewrite ?lookup_insert, ?lookup_delete; repeat case_decide; naive_solver.
Qed.

(** ** Mappers that keep types closed *)
Section Polite.
Variable D : string → Prop.
(** A changed schema is the same to others, and its types are those there were. *)
Definition keeps (sc sc' : Schema) : Prop :=
  ID sc' = ID sc ∧ Version sc' = Version sc ∧ Embed sc' = Embed sc ∧
  ∀ K : string → Prop, (∀ t, D t → K t) → schema_ok K sc → schema_ok K sc'.
Lemma same_keeps sc : keeps sc sc.
Proof. by split_and!. Qed.
Lemma keeps_then a b c : keeps a b → keeps b c → keeps a c.
Proof. intros (? & ? & ? & Hab) (? & ? & ? & Hbc). split_and!; try congruence. intros K HK Ha. by apply Hbc, Hab. Qed.
Lemma keeps_fields sc fs :
  (∀ K : string → Prop, (∀ t, D t → K t) → schema_ok K sc → ∀ name f, fs !! name = Some f → field_ok K f) → keeps sc (set_fields sc fs).
Proof. intros Hf. split_and!; [done..|]. intros K HK Hsc name f Hn. by eapply Hf. Qed.
Lemma keeps_set sc name f :
  (∀ K : string → Prop, (∀ t, D t → K t) → schema_ok K sc → field_ok K f) → keeps sc (set_field sc name f).
Proof.
  intros Hf. apply keeps_fields. intros K HK Hsc name' f' [[_ <-]|[_ ?]]%lookup_insert_Some; [by apply Hf|by eapply Hsc].
Qed.
Lemma keeps_delete sc name : keeps sc (delete_field sc name).
Proof. apply keeps_fields. intros K HK Hsc name' f' [_ ?]%lookup_delete_Some. by eapply Hsc. Qed.
Lemma field_of_ok K sc name f : schema_ok K sc → ResourceFields sc !! name = Some f → field_ok K (field_of sc name).
Proof. intros Hsc Hf. unfold field_of. rewrite Hf. by eapply Hsc. Qed.
Lemma ValidateField_None field sc : ValidateField field sc = None → is_Some (ResourceFields sc !! field).
Proof. unfold ValidateField. by destruct (ResourceFields sc !! field). Qed.

Lemma polite_local f : (∀ sc sc', f sc = (sc', None) → keeps sc sc') → polite_mapper D (local f).
Proof.
  intros Hf. unfold local. split; intros sc s sc' s'; destruct (f sc) as [x err] eqn:Hx.
  - intros [= <- <- ->]. by destruct (Hf _ _ Hx) as (? & ? & ? & _).
  - by intros [= <- <- ->].
  - intros K [= <- <- ->] HK Hsc Hs. destruct (Hf _ _ Hx) as (_ & _ & _ & Hk). split; [by apply Hk|done].
Qed.
Lemma polite_checked field ignore : polite_mapper D (checked field ignore).
Proof. split; intros; unfold checked in *; simplify_eq; done. Qed.
Lemma until_error_keeps {A} (f : Schema → A → Schema * option error) l sc sc' :
  (∀ a sc sc', f sc a = (sc', None) → keeps sc sc') → until_error f l sc = (sc', None) → keeps sc sc'.
Proof.
  intros Hf. revert sc. induction l as [|a l IH]; intros sc; simpl; [intros [= ->]; apply same_keeps|].
  destruct (f sc a) as [sc1 [err|]] eqn:Ha; [done|]. intros Hl. eapply keeps_then; [by eapply Hf|by apply IH].
Qed.
(** A field that is put back with its type and its default. *)
Lemma keeps_put_back sc name f' : is_Some (ResourceFields sc !! name) →
  Type_ f' = Type_ (field_of sc name) → Default f' = Default (field_of sc name) → keeps sc (set_field sc name f').
Proof.
  intros [f Hf] Ht Hd. apply keeps_set. intros K _ Hsc. unfold field_ok, default_ok. rewrite Ht, Hd. by apply (field_of_ok K sc name f).
Qed.
Lemma polite_Drop field ignore : polite_mapper D (local (Drop_ModifySchema field ignore)).
Proof.
  apply polite_local. intros sc sc'. unfold Drop_ModifySchema. destruct (ResourceFields sc !! field), ignore; intros [= <-]; apply keeps_delete.
Qed.
Lemma polite_Access fields optional : polite_mapper D (local (Access_ModifySchema fields optional)).
Proof.
  apply polite_local. intros sc sc'. apply until_error_keeps. intros [name access] x x'. simpl.
  destruct (ValidateField name x) eqn:Hv; [destruct optional; intros [= <-]; apply same_keeps|].
  intros [= <-]. apply keeps_put_back; [by apply ValidateField_None|done..].
Qed.
Lemma polite_Required fields : polite_mapper D (local (Required_ModifySchema fields)).
Proof.
  apply polite_local. intros sc sc'. apply until_error_keeps. intros name x x'.
  destruct (ValidateField name x) eqn:Hv; [done|]. intros [= <-]. apply keeps_put_back; [by apply ValidateField_None|done..].
Qed.
Lemma polite_Copy c : polite_mapper D (local (Copy_ModifySchema c)).
Proof.
  apply polite_local. intros sc sc'. unfold Copy_ModifySchema. destruct (ResourceFields sc !! CFrom c) as [f|] eqn:Hf; [|done].
  intros [= <-]. apply keeps_set. intros K _ Hsc. by eapply Hsc.
Qed.
(** A type that has no defaults of its own and that is declared. *)
Definition plain_type (t : string) : Prop := D t ∧ t ∉ ["int"; "float"; "boolean"].
Lemma keeps_type sc name t options : plain_type t → keeps sc (set_field sc name (with_type (field_of sc name) t options)).
Proof.
  intros [Ht Hn]. apply keeps_set. intros K HK _. split; [by apply wf_known, HK|]. unfold default_ok. simpl. split_and!; intros ->; set_solver.
Qed.
Lemma polite_ChangeType field t : plain_type t → polite_mapper D (local (ChangeType_ModifySchema field t)).
Proof.
  intros Ht. apply polite_local. intros sc sc'. unfold ChangeType_ModifySchema. destruct (ValidateField _ _); [done|]. intros [= <-]. by apply keeps_type.
Qed.
Lemma polite_Enum field options : D "enum" → polite_mapper D (local (Enum_ModifySchema field options)).
Proof.
  intros Ht. apply polite_local. intros sc sc'. unfold Enum_ModifySchema. destruct (ValidateField _ _); [done|]. intros [= <-].
  apply keeps_type. split; [done|set_solver].
Qed.
Lemma polite_Move m : str_in "/" (MFrom m) = false → str_in "/" (MTo m) = false → polite_mapper D (Move_ModifySchema m).
Proof.
  intros Hfrom Hto. assert (∀ sc s sc' s', Move_ModifySchema m sc s = (sc', s', None) → keeps sc sc' ∧ s' = s) as Hm.
  { intros sc s sc' s' He. pose proof (move_schema_correct m sc s Hfrom Hto) as Hc. rewrite He in Hc.
    destruct Hc as (-> & f & Hf & _ & Hi & Hv & HE & Hall). split; [|done]. split_and!; [done..|]. intros K _ Hsc name f' Hn.
    rewrite Hall in Hn. destruct (decide _); [injection Hn as <-; by apply (Hsc _ _ Hf)|]. destruct (decide _); [done|]. by eapply Hsc. }
  split; intros sc s sc' s'.
  - intros He. by destruct (Hm _ _ _ _ He) as [(? & ? & ? & _) _].
  - intros He Hok. by destruct (Hm _ _ _ _ He) as [_ ->].
  - intros K He HK Hsc Hs. destruct (Hm _ _ _ _ He) as [(_ & _ & _ & Hk) ->]. split; [by apply Hk|done].
Qed.
(** A registered schema changed by [f], which keeps its identity and the types
    of its fields. *)
Definition same_types (f : Schema → Schema) : Prop := ∀ sc,
  ID (f sc) = ID sc ∧ Version (f sc) = Version sc ∧
  ∀ name, (λ x, (Type_ x, Default x)) <$> ResourceFields (f sc) !! name = (λ x, (Type_ x, Default x)) <$> ResourceFields sc !! name.
Lemma filed_update s path id f p i :
  filed (update_schema s path id f) p i = if decide (p = path ∧ i = id) then f <$> filed s p i else filed s p i.
Proof.
  unfold filed, update_schema. cbn [schemasByPath].
  destruct (decide (p = path)) as [->|Hp]; [|rewrite lookup_alter_ne by done; by rewrite decide_False by naive_solver].
  rewrite lookup_alter_eq. destruct (schemasByPath s !! path) as [m|]; simpl; [|by destruct (decide _)].
  destruct (decide (i = id)) as [->|Hi]; [rewrite lookup_alter_eq, decide_True by done; done|].
  rewrite lookup_alter_ne by done. by rewrite decide_False by naive_solver.
Qed.
Lemma filed_update_inv s path id f p i x : filed (update_schema s path id f) p i = Some x →
  ∃ y, filed s p i = Some y ∧ (x = y ∨ x = f y).
Proof. rewrite filed_update. case_decide; [|by eauto]. intros (y & ? & ->)%fmap_Some. by eauto. Qed.
Lemma same_types_ok f K sc : same_types f → schema_ok K sc → schema_ok K (f sc).
Proof.
  intros Hf Hsc name x Hx. destruct (Hf sc) as (_ & _ & Hn). specialize (Hn name). rewrite Hx in Hn.
  destruct (ResourceFields sc !! name) as [y|] eqn:Hy; [|done]. injection Hn as Ht Hd.
  destruct (Hsc _ _ Hy). unfold field_ok, default_ok. by rewrite Ht, Hd.
Qed.
Lemma same_types_refers f sc k name : same_types f →
  (∃ x, ResourceFields sc !! name = Some x ∧ refers sc k (name, x)) → ∃ x, ResourceFields (f sc) !! name = Some x ∧ refers (f sc) k (name, x).
Proof.
  intros Hf (x & Hx & Hr). destruct (Hf sc) as (_ & Hv & Hn). specialize (Hn name). rewrite Hx in Hn.
  destruct (ResourceFields (f sc) !! name) as [y|]; [|done]. injection Hn as Ht _. exists y. split; [done|].
  unfold refers, refKey in *. simpl in *. by rewrite Ht, Hv.
Qed.
Lemma update_schema_ok s path id f : same_types f → registry_ok s → registry_ok (update_schema s path id f).
Proof.
  intros Hf Hok.
  assert (∀ p i, is_Some (filed s p i) → is_Some (filed (update_schema s path id f) p i)) as Hfiled.
  { intros p i [x Hx]. rewrite filed_update, Hx. destruct (decide _); by eexists. }
  split.
  - intros p i sc (y & Hy & [-> | ->])%filed_update_inv; destruct (ok_filed _ Hok _ _ _ Hy) as [<- <-]; [done|].
    by destruct (Hf y) as (-> & -> & _).
  - apply (ok_versions _ Hok).
  - intros p. rewrite (ok_paths _ Hok p). simpl. rewrite lookup_alter. destruct (decide (path = p)) as [->|]; [|done]. by rewrite fmap_is_Some.
  - intros k br. simpl. rewrite lookup_fmap. destruct (references s !! k) as [l|] eqn:Hl; simpl; [|by intros ?%elem_of_nil].
    intros ([field x] & -> & Hx)%list_elem_of_fmap. assert ((mkBackReference field x) ∈ default [] (references s !! k)) as Hb by by rewrite Hl.
    destruct (ok_refs _ Hok _ _ Hb) as [Hr Hs]. simpl in *. destruct (is_copy s path id x); [|by auto].
    destruct (Hf x) as (Hi & Hv & _). rewrite Hi, Hv. split; [by apply same_types_refers|by apply Hfiled].
Qed.
Lemma all_read_only_same : same_types all_read_only.
Proof. intros sc. split_and!; [done..|]. intros name. simpl. rewrite lookup_fmap. by destruct (ResourceFields sc !! name). Qed.

(** Registered schemas, changed without touching what they describe. *)
Record still (s s' : Schemas) : Prop := {
  still_ok : registry_ok s → registry_ok s';
  still_hook : AddHook s' = AddHook s;
  still_filed : ∀ p i, is_Some (filed s' p i) ↔ is_Some (filed s p i);
  still_types : ∀ (K : string → Prop) p, (∀ i x, filed s p i = Some x → schema_ok K x) → ∀ i x, filed s' p i = Some x → schema_ok K x
}.
Lemma still_refl s : still s s.
Proof. by split. Qed.
Lemma still_trans a b c : still a b → still b c → still a c.
Proof.
  intros [A1 A2 A3 A4] [B1 B2 B3 B4]. split; [by auto|congruence|by intros; rewrite B3|]. intros K p Ha. by apply B4, A4.
Qed.
Lemma still_update s path id f : same_types f → still s (update_schema s path id f).
Proof.
  intros Hf. split; [by apply update_schema_ok|done| |].
  - intros p i. rewrite filed_update. case_decide; [by rewrite fmap_is_Some|done].
  - intros K p Hs i x (y & Hy & [-> | ->])%filed_update_inv; [by eapply Hs|]. by eapply same_types_ok, Hs.
Qed.
Lemma polite_steps (m : SchemaMapper) : (∀ sc s sc' s', m sc s = (sc', s', None) → keeps sc sc' ∧ still s s') → polite_mapper D m.
Proof.
  intros Hm. split; intros sc s sc' s'.
  - intros He. by destruct (Hm _ _ _ _ He) as [(? & ? & ? & _) _].
  - intros He Hok. destruct (Hm _ _ _ _ He) as [_ [H1 H2 H3 _]]. auto.
  - intros K He HK Hsc Hs. destruct (Hm _ _ _ _ He) as [(_ & _ & _ & Hk) [_ _ _ Ht]]. split; [by apply Hk|].
    intros p i x -> Hx. eapply (Ht K (Path (Version sc))); [|done]. intros. by eapply Hs.
Qed.

Lemma set_read_only_kept sub st name f :
  ResourceFields st.1 !! name = Some f →
  keeps st.1 (set_read_only sub st (name, f)).1 ∧ still st.2 (set_read_only sub st (name, f)).2.
Proof.
  intros Hf. unfold set_read_only, readOnly. simpl. split.
  - apply keeps_set. intros K _ Hsc. exact (Hsc _ _ Hf).
  - destruct sub; [|apply still_refl]. destruct (Schemas_Schema _ _ _); [apply still_update, all_read_only_same|apply still_refl].
Qed.
Lemma set_read_only_other sub st name f name' : name' ≠ name →
  ResourceFields (set_read_only sub st (name, f)).1 !! name' = ResourceFields st.1 !! name'.
Proof. intros Hn. unfold set_read_only. simpl. by rewrite lookup_insert_ne. Qed.
Lemma read_only_all sub l st :
  NoDup l.*1 → (∀ e, e ∈ l → ResourceFields st.1 !! e.1 = Some e.2) →
  keeps st.1 (foldl (set_read_only sub) st l).1 ∧ still st.2 (foldl (set_read_only sub) st l).2.
Proof.
  revert st. induction l as [|[name f] l IH]; intros st Hnd Hl; simpl; [split; [apply same_keeps|apply still_refl]|].
  apply NoDup_cons in Hnd as [Hn Hnd]. destruct (set_read_only_kept sub st name f) as [Hk Hs]; [by apply (Hl (name, f)); left|].
  destruct (IH (set_read_only sub st (name, f)) Hnd) as [Hk' Hs'].
  { intros [name' f'] He. cbn [fst snd]. rewrite set_read_only_other; [apply (Hl (name', f')); by right|].
    intros ->. apply Hn, list_elem_of_fmap. by exists (name, f'). }
  split; [by eapply keeps_then|by eapply still_trans].
Qed.
Lemma polite_ReadOnly field optional sub : polite_mapper D (ReadOnly_ModifySchema field optional sub).
Proof.
  apply polite_steps. intros sc s sc' s'. unfold ReadOnly_ModifySchema. case_decide.
  - destruct (foldl _ _ _) as [sc1 s1] eqn:Hl. intros [= <- <-].
    pose proof (read_only_all sub (range (ResourceFields sc)) (sc, s)) as Hr. rewrite Hl in Hr. apply Hr.
    + apply NoDup_range.
    + intros [name f]. apply elem_of_range.
  - destruct (ValidateField field sc) eqn:Hv.
    { destruct optional; [|done]. intros [= <- <-]. split; [apply same_keeps|apply still_refl]. }
    apply ValidateField_None in Hv as [f Hf]. destruct (set_read_only _ _ _) as [sc1 s1] eqn:Hr. intros [= <- <-].
    assert (field_of sc field = f) as Hfo by (unfold field_of; by rewrite Hf).
    pose proof (set_read_only_kept sub (sc, s) field f Hf) as Hk. by rewrite Hfo in Hr; rewrite Hr in Hk.
Qed.
Lemma polite_if (b : Schema → bool) m : polite_mapper D m → polite_mapper D (λ sc s, if b sc then m sc s else ((sc, s), None)).
Proof.
  intros [H1 H2 H3]. split; intros sc s sc' s'; destruct (b sc); eauto; intros; simplify_eq; try done; naive_solver.
Qed.
Lemma polite_Scope sIf sIfNot l : Forall (polite_mapper D) l → polite_mapper D (Scope_ModifySchema sIf sIfNot l).
Proof. intros Hl. apply (polite_if (Scope_run sIf sIfNot) (Mappers_ModifySchema l)). by apply Mappers_polite. Qed.
Lemma polite_Root m : polite_mapper D m → polite_mapper D (Root_ModifySchema m).
Proof. apply (polite_if listable). Qed.

(** The mapper of object metadata keeps types closed, where the names
    of resources are a type. *)
Theorem metadata_mapper_polite : D "dnsLabel" → Forall (polite_mapper D) NewMetadataMapper.
Proof.
  intros HD. unfold NewMetadataMapper.
  repeat (apply Forall_cons; split; [first [by apply polite_Drop | by apply polite_Move | by apply polite_ReadOnly | by apply polite_Access |
    apply polite_ChangeType; split; [done|set_solver]]|]). by apply Forall_nil.
Qed.
End Polite.
End Moves.

(** ** Examples *)
(** Every entry of that name is the registered schema itself. *)
Definition shared_schemas : SchemaIdentity := {| is_copy := λ _ path id x, bool_decide (Path (Version x) = path ∧ ID x = id) |}.

Lemma move_schema_correct_witness :
  let '((sc, s), err) := @Move_ModifySchema std_range shared_schemas (mkMove "name" "title" "" false false) outer_schema spec_registry in
  s = spec_registry ∧ err = None.
Proof.
  pose proof (@move_schema_correct std_range shared_schemas (mkMove "name" "title" "" false false) outer_schema spec_registry eq_refl eq_refl) as Hm.
  destruct (Move_ModifySchema _ _ _) as [[sc s] err] eqn:Hr. destruct Hm as [Hs _]. split; [exact Hs|].
  vm_compute in Hr. by injection Hr.
Defined.

Lemma metadata_mapper_polite_witness :
  ("dnsLabel" ∈ ["dnsLabel"]) ∧ Forall (polite_mapper (λ t, t ∈ ["dnsLabel"])) (@NewMetadataMapper std_range shared_schemas).
Proof.
  assert ("dnsLabel" ∈ ["dnsLabel"]) as Hd by by left. split; [exact Hd|].
  exact (@metadata_mapper_polite std_range shared_schemas (λ t, t ∈ ["dnsLabel"]) Hd).
Defined.

(** A move out of another schema copies the field: what is deleted there is a
    field named like the whole path. *)
Example nested_source_stays :
  let '((sc, s), err) := @Move_ModifySchema std_range shared_schemas (mkMove "spec/image" "image" "" false false) outer_schema spec_registry in
  (err, Type_ <$> ResourceFields sc !! "image", (λ x, Type_ (field_of x "image")) <$> filed s "/v3" "podSpec")
  = (None, Some "string", Some "string").
Proof. vm_compute. reflexivity. Qed.

(** A move into another schema adds the field there, and replaces what it had. *)
Example nested_move :
  let '((sc, s), err) := @Move_ModifySchema std_range shared_schemas (mkMove "name" "spec/image" "" false false) outer_schema spec_registry in
  (err, ResourceFields sc !! "name", (λ x, FieldCodeName (field_of x "image")) <$> filed s "/v3" "podSpec")
  = (None, None, Some "Image").
Proof. vm_compute. reflexivity. Qed.

(** A list of specs becomes a map of specs by image. *)
Example slice_to_map :
  let '((sc, s), err) := @SliceToMap_ModifySchema std_range shared_schemas (mkSliceToMap "specs" "image")
    (plain_schema "deployment" {[ "specs" := typed_field "array[podSpec]" ]}) spec_registry in
  (err, Type_ (field_of sc "specs"), (λ x, ResourceFields x !! "image") <$> filed s "/v3" "podSpec")
  = (None, "map[podSpec]", Some None).
Proof. vm_compute. reflexivity. Qed.
