(* ===== verification/Customize.v ===== *)
(** * Customized imports

    types/reflection.go: MustCustomizeType and MustImportAndCustomize, which
    change an imported schema in place, through the pointer that the registry
    holds ([SchemaMoves] says what shares it). *)

From S2P Require Import Prelude GoStrings Values Errors TypeNames Convert Schemas Mappers SchemaMappers Query Http Urls Parse Access Reflect Rest SchemaMoves.

Section Customize.
Context `{MapRange} `{SchemaFormat} `{GoFormat} `{SchemaIdentity}.
Variable structs : list StructType.
Variables resourceType namespacedType : nat.
Variable type_String : nat → string.

(** Panics if the type was not imported. *)
Definition MustCustomizeType (v : APIVersion) (obj : gotype) (f : Schema → Schema) : imp unit := λ im,
  match Schemas_Schema (registry im) (Some v) (getTypeName structs im obj) with
  | None => Panicked
  | Some schema => Returned (set_registry im (update_schema (registry im) (Path (Version schema)) (ID schema) f)) (inl tt)
  end.
Definition MustImportAndCustomize (fuel : nat) (v : APIVersion) (obj : gotype) (f : Schema → Schema) (overrides : list nat) : imp unit :=
  _ ← MustImport structs resourceType namespacedType type_String fuel v obj overrides;
  MustCustomizeType v obj f.

(** A customization changes the schema of the type and no other; when it keeps
    the types of the fields, the registry stays closed and well typed. *)
Lemma MustCustomizeType_changes v obj f im im' u :
  registry_ok (registry im) → Contains (getTypeName structs im obj) "/schemas/" = false →
  MustCustomizeType v obj f im = Returned im' u →
  ∃ sc, Schemas_Schema (registry im) (Some v) (getTypeName structs im obj) = Some sc ∧
    (∀ p i, filed (registry im') p i =
      if decide (p = Path v ∧ i = ID sc) then Some (f sc) else filed (registry im) p i).
Proof.
  intros Hok Hn. unfold MustCustomizeType. destruct (Schemas_Schema _ _ _) as [sc|] eqn:Hs; [|done]. intros [= <- _].
  pose proof (doSchema_path _ _ _ _ Hok Hn Hs) as Hf. destruct (ok_filed _ Hok _ _ _ Hf) as [Hp _]. exists sc. split; [done|].
  intros p i. simpl. rewrite filed_update, Hp. case_decide as Hpi; [|done]. destruct Hpi as [-> ->]. by rewrite Hf.
Qed.
Section Kept.
Variables (v : APIVersion) (D : string → Prop).
Hypothesis tagged_types : ∀ t, tagged structs t → D t.
Abbreviation import_ok := (import_ok structs v D).
Lemma MustCustomizeType_keeps E obj f im im' u :
  same_types f → import_ok E im → MustCustomizeType v obj f im = Returned im' u → import_ok E im'.
Proof.
  intros Hf [Hreg Hhook Hmap Hdef Hname Hclosed]. unfold MustCustomizeType. destruct (Schemas_Schema _ _ _) as [sc|]; [|done]. intros [= <- _].
  destruct (still_update (registry im) (Path (Version sc)) (ID sc) f Hf) as [S1 S2 S3 S4].
  split; simpl; [by apply S1| |done..|].
  - unfold polite_hook in *. by rewrite S2.
  - intros i x. apply (S4 (in_use v D (set_registry im _) E) (Path v)). intros j y Hy. eapply schema_ok_mono; [|by eapply Hclosed].
    intros t [?|[Hr|Hr]]; [by left| |by right; right]. right; left. by apply S3.
Qed.
(** An import of a struct that is customized: the import is one that would have
    succeeded alone, the customization changes its schema and no other, and the
    registry stays closed and well typed if the types of the fields are kept. *)
Theorem customized_import fuel t f overrides im im' :
  import_ok (λ _, False) im → MustImportAndCustomize fuel v (TStruct t) f overrides im = Returned im' (inl tt) →
  ∃ im1 sc, MustImport structs resourceType namespacedType type_String fuel v (TStruct t) overrides im = Returned im1 (inl tt) ∧
    import_ok (λ _, False) im1 ∧
    Schemas_Schema (registry im1) (Some v) (getTypeName structs im1 (TStruct t)) = Some sc ∧
    (∀ p i, filed (registry im') p i = if decide (p = Path v ∧ i = ID sc) then Some (f sc) else filed (registry im1) p i) ∧
    (same_types f → import_ok (λ _, False) im').
Proof.
  intros Hok. unfold MustImportAndCustomize, mbind, imp_bind.
  destruct (MustImport _ _ _ _ fuel v (TStruct t) overrides im) as [| |im1 [[]|]] eqn:Hm; try done. intros Hc.
  assert (import_ok (λ _, False) im1) as Hok1.
  { unfold MustImport, Import in Hm. destruct (importType _ _ _ _ fuel v t overrides im) as [| |im2 [r|]] eqn:Hr; try done. injection Hm as <-.
    by destruct (proj2 (import_sound structs resourceType namespacedType type_String v D tagged_types fuel) overrides (λ _, False) t im Hok im2 r Hr). }
  destruct (MustCustomizeType_changes v (TStruct t) f im1 im' _ (io_registry _ _ _ _ _ Hok1) (io_names _ _ _ _ _ Hok1 t) Hc) as (sc & Hsc & Hall).
  exists im1, sc. split_and!; try done. intros Hf. by eapply MustCustomizeType_keeps.
Qed.
End Kept.
End Customize.

(** ** Example: the pets of a zoo, of which only lists are offered; a type that
    was not imported cannot be customized. *)
Definition only_lists (sc : Schema) : Schema :=
  mkSchema (ID sc) (Embed sc) (EmbedType sc) (CodeName sc) (CodeNamePlural sc) (SType sc) (BaseType sc) (Version sc) (PluralName sc)
    [] (ResourceFields sc) (ResourceActions sc) ["GET"] (CollectionActions sc)
    (CollectionFilters sc) (DynamicSchemaVersion sc) (Scope sc) (InternalSchema sc).
Lemma only_lists_same : same_types only_lists.
Proof. by intros sc. Qed.
Example customized_pets :
  match @MustImportAndCustomize std_range std_schema_format std_format shared_schemas pet_structs 0 1 (λ _, "zoo.Pet") 22 v3 (TStruct 2) only_lists []
          new_importer with
  | Returned im _ => (CollectionMethods <$> filed (registry im) "/v3" "pet") = Some ["GET"] ∧
      (CollectionMethods <$> filed (registry im) "/v3" "person") = Some []
  | _ => False
  end ∧
  @MustCustomizeType std_range shared_schemas pet_structs v3 (TStruct 2) only_lists new_importer = Panicked.
Proof. by vm_compute. Qed.
