(* ===== verification/Generator.v ===== *)
(** * The code generator

    Models generator/generator.go, funcs.go and default.go: what is derived from
    a schema for the templates (Go types, fields, actions, names), and which
    files Generate and GenerateControllerForTypes write.  The execution of a
    template, the directories and the external tools are programs of the
    environment.  PkgName, which the registry does not use, is a
    function of the schema. *)

From S2P Require Import Prelude GoStrings Values Errors TypeNames Convert Schemas Query Http Urls Parse Access Stores Reflect Rest.
From Stdlib Require Import Ascii.

Record fieldInfo := mkFieldInfo { FIName : string; FIType : string }.
Definition blackListTypes : list string := ["schema"; "resource"; "collection"].

(** ** funcs.go *)
(** The expression matches a lower-case letter and the capital after it. *)
Fixpoint underscored (s : string) : string :=
  match s with
  | "" => ""
  | String a rest =>
      match rest with
      | String b rest' => if is_lower a && is_upper b then String a (String "_" (String b (underscored rest'))) else String a (underscored rest)
      | "" => String a ""
      end
  end.
Definition addUnderscore (input : string) : string := ToLower (underscored input).
Fixpoint contains (list : list string) (needle : string) : bool :=
  match list with [] => false | i :: list => if decide (i = needle) then true else contains list needle end.
Definition hasGet (sc : Schema) : bool := contains (CollectionMethods sc) "GET".
Definition hasPost (sc : Schema) : bool := contains (CollectionMethods sc) "POST".
Definition getCollectionOutput (output codeName : string) : string :=
  if decide (output = "collection") then codeName +:+ "Collection" else Capitalize output.

(** ** Go types of fields *)
Section Generator.
Context `{MapRange}.

Definition bracketed (prefix typeName : string) : go string :=
  let low := String.length prefix in
  let high := (String.length typeName - 1)%nat in
  if decide (low ≤ high)%nat then Ret (str_take (high - low) (str_drop low typeName))
  else Panic.
(** The Go types that are never pointers, and those that may be. *)
Definition fixed_types : gmap string string :=
  {[ "base64" := "string"; "json" := "interface{}"; "multiline" := "string"; "masked" := "string"; "password" := "string";
     "date" := "string"; "string" := "string"; "enum" := "string"; "intOrString" := "intstr.IntOrString";
     "dnsLabel" := "string"; "dnsLabelRestricted" := "string"; "hostname" := "string" ]}.
Definition pointed_types : gmap string string := {[ "boolean" := "bool"; "float" := "float64"; "int" := "int64" ]}.
Definition type_code (typeName : string) (schema : option Schema) (schemas : option Schemas) : string :=
  let name := match schema, schemas with
              | Some sc, Some s => default "" (CodeName <$> Schemas_Schema s (Some (Version sc)) typeName)
              | _, _ => ""
              end in
  if decide (name = "") then Capitalize typeName else name.
Definition leaf_type (nullable : bool) (typeName : string) (schema : option Schema) (schemas : option Schemas) : string :=
  match fixed_types !! typeName with
  | Some t => t
  | None => let name := match pointed_types !! typeName with Some t => t | None => type_code typeName schema schemas end in
            if nullable then "*" +:+ name else name
  end.
(** The recursion is on what is between the brackets: the length of the name
    is enough fuel. *)
Fixpoint type_string (n : nat) (nullable : bool) (typeName : string) (schema : option Schema) (schemas : option Schemas) : go string :=
  match n with
  | O => Ret (leaf_type nullable typeName schema schemas)
  | S n =>
      if HasPrefix typeName "reference[" then Ret "string"
      else if HasPrefix typeName "map[" then
        sub ← bracketed "map[" typeName; t ← type_string n false sub schema schemas; Ret ("map[string]" +:+ t)
      else if HasPrefix typeName "array[" then
        sub ← bracketed "array[" typeName; t ← type_string n false sub schema schemas; Ret ("[]" +:+ t)
      else Ret (leaf_type nullable typeName schema schemas)
  end.
Definition getTypeString (nullable : bool) (typeName : string) (schema : option Schema) (schemas : option Schemas) : go string :=
  type_string (String.length typeName) nullable typeName schema schemas.
Definition getGoType (field : Field) (sc : Schema) (s : Schemas) : go string := getTypeString (Nullable field) (Type_ field) (Some sc) (Some s).

Definition add_field (sc : Schema) (s : Schemas) (result : gmap string fieldInfo) (e : string * Field) : go (gmap string fieldInfo) :=
  if EqualFold e.1 "id" then Ret result
  else t ← getGoType e.2 sc s; Ret (<[FieldCodeName e.2 := mkFieldInfo e.1 t]> result).
Definition getTypeMap (sc : Schema) (s : Schemas) : go (gmap string fieldInfo) := foldM (add_field sc s) (range (ResourceFields sc)) ∅.

(** The actions whose output is a type of the version. *)
Definition known_output (sc : Schema) (s : Schemas) (output : string) : bool :=
  bool_decide (output = "") || bool_decide (is_Some (Schemas_Schema s (Some (Version sc)) output)).
Definition getResourceActions (sc : Schema) (s : Schemas) : gmap string Action :=
  filter (λ e : string * Action, known_output sc s (Output e.2) = true) (ResourceActions sc).
Definition getCollectionActions (sc : Schema) (s : Schemas) : gmap string Action :=
  filter (λ e : string * Action, known_output sc s (if decide (Output e.2 = "collection") then ToLower (CodeName sc) else Output e.2) = true)
    (CollectionActions sc).

(** default.go *)
Definition add_version (version : APIVersion) (sc : Schema) : go APIVersion :=
  if decide (Group version = "") then Ret (Version sc)
  else if decide (Group version = Group (Version sc) ∧ Version_ version = Version_ (Version sc)) then Ret version
  else Panic.
Definition no_version : APIVersion := mkVersion "" "" "" false "".
Definition getVersion (s : Schemas) : go APIVersion := foldM add_version (schemas s) no_version.

(** ** What Generate does

    A file is written from a template and what it is given. *)
Inductive rendering :=
| TypeFile (sc : Schema) (structFields : gmap string fieldInfo) (resourceActions collectionActions : gmap string Action)
| LifecycleFile (sc : Schema) (importPackage prefix : string)
| ControllerFile (sc : Schema) (importPackage prefix : string)
| SchemeFile (version : APIVersion) (schemas : list Schema) (names : list string)
| K8sClientFile (version : APIVersion) (schemas : list Schema)
| ClientFile (schemas : list Schema)
| MockFile (interfaceNames : list string).
Inductive step :=
| PrepareDirs (dirs : list string)
| Write (file : string) (r : rendering)
| NewMocker (dir pkg : string)
| DeepCopyGen (workDir pkg : string)
| Gofmt (workDir pkg : string).
Definition generated_file (outputDir name : string) : string := path_Join [outputDir; ToLower ("zz_generated_" +:+ name)].
Definition generateType (outputDir : string) (sc : Schema) (s : Schemas) : go step :=
  fields ← getTypeMap sc s;
  Ret (Write (generated_file outputDir (addUnderscore (ID sc) +:+ ".go")) (TypeFile sc fields (getResourceActions sc s) (getCollectionActions sc s))).
Section Steps.
Variable PkgName : Schema → string.
Definition importPackage (external : bool) (sc : Schema) : string :=
  if external then String (ascii_of_nat 34) (List.last (SplitStr (PkgName sc) "/vendor/") "") +:+ String (ascii_of_nat 34) "" else "".
Definition import_prefix (external : bool) (sc : Schema) : string := if external then Version_ (Version sc) +:+ "." else "".
Definition generateLifecycle (external : bool) (outputDir : string) (sc : Schema) : step :=
  Write (generated_file outputDir (addUnderscore (ID sc) +:+ "_lifecycle_adapter.go")) (LifecycleFile sc (importPackage external sc) (import_prefix external sc)).
Definition generateController (external : bool) (outputDir : string) (sc : Schema) : step :=
  Write (generated_file outputDir (addUnderscore (ID sc) +:+ "_controller.go")) (ControllerFile sc (importPackage external sc) (import_prefix external sc)).
Definition scheme_names (external : bool) (l : list Schema) : list string :=
  l ≫= λ sc, (if external then [] else [CodeName sc]) ++ (if bool_decide (CanList AllAccess sc None = None) then [CodeName sc +:+ "List"] else []).
Definition generateScheme (external : bool) (outputDir : string) (version : APIVersion) (l : list Schema) : step :=
  Write (generated_file outputDir "scheme.go") (SchemeFile version l (scheme_names external l)).
Definition generateK8sClient (outputDir : string) (version : APIVersion) (l : list Schema) : step :=
  Write (generated_file outputDir "k8s_client.go") (K8sClientFile version l).
Definition generateClient (outputDir : string) (l : list Schema) : step := Write (path_Join [outputDir; "zz_generated_client.go"]) (ClientFile l).
Definition generateFakes (k8sDir : string) (controllers : list Schema) : list step :=
  NewMocker k8sDir "fakes" ::
  ((λ sc, Write (path_Join [k8sDir; "fakes"; "zz_generated_" +:+ addUnderscore (ID sc) +:+ "_mock.go"])
           (MockFile [CodeName sc +:+ "Lister"; CodeName sc +:+ "Controller"; CodeName sc +:+ "Interface"; CodeNamePlural sc +:+ "Getter"])) <$> controllers).

Definition is_controller (privateTypes : gmap string bool) (sc : Schema) : bool :=
  bool_decide (is_Some (privateTypes !! ID sc)) ||
  (contains (CollectionMethods sc) "GET" && negb (HasPrefix (PkgName sc) "k8s.io") && negb (Contains (PkgName sc) "/vendor/")).
(** One turn of the loop over the schemas. *)
Definition schema_steps (s : Schemas) (privateTypes : gmap string bool) (cattleDir k8sDir : string) (sc : Schema) : list (go step) :=
  (if decide (cattleDir = "") then [] else [generateType cattleDir sc s]) ++
  (if is_controller privateTypes sc then [Ret (generateController false k8sDir sc); Ret (generateLifecycle false k8sDir sc)] else []).
Definition generated_schemas (s : Schemas) : list Schema := filter (λ sc, ID sc ∉ blackListTypes) (schemas s).
(** What Generate does, in order; [baseDir] is the default source tree. *)
Definition Generate_steps (baseDir : string) (s : Schemas) (privateTypes : gmap string bool) (cattleOutputPackage k8sOutputPackage : string)
    : list (go step) :=
  let cattleDir := if decide (cattleOutputPackage = "") then "" else path_Join [baseDir; cattleOutputPackage] in
  let k8sDir := path_Join [baseDir; k8sOutputPackage] in
  let controllers := filter (λ sc, is_controller privateTypes sc = true) (generated_schemas s) in
  let cattleClientTypes := filter (λ sc, privateTypes !! ID sc = None) (generated_schemas s) in
  [Ret (PrepareDirs [cattleDir; k8sDir; path_Join [k8sDir; "fakes"]])] ++
  (generated_schemas s ≫= schema_steps s privateTypes cattleDir k8sDir) ++
  (if decide (cattleDir = "") then [] else [Ret (generateClient cattleDir cattleClientTypes)]) ++
  match controllers with
  | [] => []
  | first :: _ =>
      [Ret (DeepCopyGen baseDir k8sOutputPackage); Ret (generateK8sClient k8sDir (Version first) controllers);
       Ret (generateScheme false k8sDir (Version first) controllers)] ++ (Ret <$> generateFakes k8sDir controllers)
  end ++
  [Ret (Gofmt baseDir k8sOutputPackage)] ++ (if decide (cattleOutputPackage = "") then [] else [Ret (Gofmt baseDir cattleOutputPackage)]).
(** The steps are performed until one fails, or panics: by then the file
    of a type that cannot be rendered has been created. *)
Fixpoint perform {W} (run : step → prog W (option error)) (l : list (go step)) : prog W (option error) :=
  match l with
  | [] => mret None
  | s :: l => s ← lift s; err ← run s; match err with Some err => mret (Some err) | None => perform run l end
  end.
Definition Generate {W} (run : step → prog W (option error)) (baseDir : string) (s : Schemas) (privateTypes : gmap string bool)
    (cattleOutputPackage k8sOutputPackage : string) : prog W (option error) :=
  perform run (Generate_steps baseDir s privateTypes cattleOutputPackage k8sOutputPackage).
Definition baseCattle : string := "client".
Definition baseK8s : string := "apis".
Definition DefaultGenerate {W} (run : step → prog W (option error)) (baseDir : string) (s : Schemas) (pkgPath : string) (publicAPI : bool)
    (privateTypes : gmap string bool) : prog W (option error) :=
  version ← lift (getVersion s);
  let group := hd "" (Split (Group version) ".") in
  let cattleOutputPackage := if publicAPI then path_Join [pkgPath; baseCattle; group; Version_ version] else "" in
  Generate run baseDir s privateTypes cattleOutputPackage (path_Join [pkgPath; baseK8s; Group version; Version_ version]).

End Steps.

(** ** The type of a field, in the syntax of schemas and of Go *)
Inductive type_expr := NamedType (name : string) | MapOf (e : type_expr) | ArrayOf (e : type_expr) | ReferenceTo (t : string).
Fixpoint schema_type (e : type_expr) : string :=
  match e with
  | NamedType name => name
  | MapOf e => "map[" +:+ schema_type e +:+ "]"
  | ArrayOf e => "array[" +:+ schema_type e +:+ "]"
  | ReferenceTo t => ToReference t
  end.
Fixpoint go_type (nullable : bool) (e : type_expr) (sc : option Schema) (s : option Schemas) : string :=
  match e with
  | NamedType name => leaf_type nullable name sc s
  | MapOf e => "map[string]" +:+ go_type false e sc s
  | ArrayOf e => "[]" +:+ go_type false e sc s
  | ReferenceTo _ => "string"
  end.
Definition simple_name (t : string) : Prop := HasPrefix t "reference[" = false ∧ HasPrefix t "map[" = false ∧ HasPrefix t "array[" = false.
Fixpoint simple (e : type_expr) : Prop :=
  match e with NamedType name => simple_name name | MapOf e | ArrayOf e => simple e | ReferenceTo _ => True end.

Lemma bracketed_app p t : bracketed p (p +:+ t +:+ "]") = Ret t.
Proof.
  unfold bracketed. rewrite !str_length_app. simpl (String.length "]"). rewrite decide_True by lia. rewrite str_drop_app.
  replace (String.length p + (String.length t + 1) - 1 - String.length p)%nat with (String.length t) by lia. by rewrite str_take_app.
Qed.
Lemma type_string_simple n nullable name sc s : simple_name name → type_string n nullable name sc s = Ret (leaf_type nullable name sc s).
Proof. intros (Hr & Hm & Ha). destruct n; [done|]. simpl. by rewrite Hr, Hm, Ha. Qed.
Lemma type_string_correct e n nullable sc s : simple e → (String.length (schema_type e) ≤ n)%nat →
  type_string n nullable (schema_type e) sc s = Ret (go_type nullable e sc s).
Proof.
  revert n nullable. induction e as [name|e IH|e IH|t]; intros n nullable Hs Hn; cbn [schema_type go_type] in *.
  - by apply type_string_simple.
  - rewrite !str_length_app in Hn. destruct n as [|n]; [simpl in Hn; lia|]. cbn [type_string].
    change (HasPrefix ("map[" +:+ schema_type e +:+ "]") "reference[") with false. rewrite HasPrefix_app, bracketed_app.
    cbn [mbind go_bind]. rewrite IH; [done|done|simpl in Hn; lia].
  - rewrite !str_length_app in Hn. destruct n as [|n]; [simpl in Hn; lia|]. cbn [type_string].
    change (HasPrefix ("array[" +:+ schema_type e +:+ "]") "reference[") with false.
    change (HasPrefix ("array[" +:+ schema_type e +:+ "]") "map[") with false. rewrite HasPrefix_app, bracketed_app.
    cbn [mbind go_bind]. rewrite IH; [done|done|simpl in Hn; lia].
  - unfold ToReference in *. rewrite !str_length_app in Hn. destruct n as [|n]; [simpl in Hn; lia|]. cbn [type_string]. by rewrite HasPrefix_app.
Qed.
Lemma getTypeString_correct e nullable sc s : simple e → getTypeString nullable (schema_type e) sc s = Ret (go_type nullable e sc s).
Proof. intros Hs. by apply type_string_correct. Qed.

(** The types that an import makes have this syntax. *)
Lemma wf_type_expr (K : string → Prop) t :
  (∀ t, K t → simple_name t ∨ ∃ x, t = ToReference x) → wf_type K t → ∃ e, schema_type e = t ∧ simple e.
Proof.
  intros HK. induction 1 as [t Ht|t _ (e & <- & He)|t _ (e & <- & He)|t Ht].
  - exists (NamedType t). split; [done|]. repeat (apply elem_of_cons in Ht as [->|Ht]; [done|]). by apply elem_of_nil in Ht.
  - by exists (MapOf e).
  - by exists (ArrayOf e).
  - destruct (HK _ Ht) as [Hs|[x ->]]; [by exists (NamedType t)|by exists (ReferenceTo x)].
Qed.

(** The field and its entry in the generated struct. *)
Definition rendered (sc : Schema) (s : Schemas) (code : string) (info : fieldInfo) (e : string * Field) : Prop :=
  EqualFold e.1 "id" = false ∧ FIName info = e.1 ∧ FieldCodeName e.2 = code ∧
  ∃ t, schema_type t = Type_ e.2 ∧ simple t ∧ FIType info = go_type (Nullable e.2) t (Some sc) (Some s).
Definition typed_fields (l : list (string * Field)) : Prop := ∀ e, e ∈ l → ∃ t, schema_type t = Type_ e.2 ∧ simple t.
Definition distinct_codes (l : list (string * Field)) : Prop :=
  ∀ e e', e ∈ l → e' ∈ l → EqualFold e.1 "id" = false → EqualFold e'.1 "id" = false → FieldCodeName e.2 = FieldCodeName e'.2 → e = e'.
Lemma rendered_by sc s e t : schema_type t = Type_ e.2 → simple t → EqualFold e.1 "id" = false →
  ∃ info, (∀ result, add_field sc s result e = Ret (<[FieldCodeName e.2 := info]> result)) ∧ rendered sc s (FieldCodeName e.2) info e ∧
    ∀ code info', rendered sc s code info' e → code = FieldCodeName e.2 ∧ info' = info.
Proof.
  intros Ht Hs Hid. exists (mkFieldInfo e.1 (go_type (Nullable e.2) t (Some sc) (Some s))). split_and!.
  - intros result. unfold add_field, getGoType. rewrite Hid, <- Ht, getTypeString_correct by done. done.
  - split_and!; try done. by exists t.
  - intros code [name ty] (_ & Hn & Hc & t' & Ht' & Hs' & Hty). simpl in *. subst. split; [done|]. f_equal.
    pose proof (getTypeString_correct t (Nullable e.2) (Some sc) (Some s) Hs) as H1.
    pose proof (getTypeString_correct t' (Nullable e.2) (Some sc) (Some s) Hs') as H2. rewrite Ht' in H2. rewrite Ht in H1. congruence.
Qed.
Lemma add_fields_correct sc s l (result : gmap string fieldInfo) :
  typed_fields l → distinct_codes l → NoDup l.*1 → (∀ e, e ∈ l → EqualFold e.1 "id" = false → result !! FieldCodeName e.2 = None) →
  ∃ m, foldM (add_field sc s) l result = Ret m ∧
    ∀ code info, m !! code = Some info ↔ result !! code = Some info ∨ ∃ e, e ∈ l ∧ rendered sc s code info e.
Proof.
  revert result. induction l as [|e l IH]; intros result Ht Hd Hnd Hnew.
  { exists result. split; [done|]. intros code info. split; [by left|]. intros [?|(e & ?%not_elem_of_nil & _)]; done. }
  apply NoDup_cons in Hnd as [Hnin Hnd].
  assert (typed_fields l) as Ht' by (intros x Hx; apply Ht; by right). assert (distinct_codes l) as Hd' by (intros x y Hx Hy; apply Hd; by right).
  cbn [foldM]. destruct (EqualFold e.1 "id") eqn:Hid.
  - replace (add_field sc s result e) with (Ret result) by (unfold add_field; by rewrite Hid). cbn [mbind go_bind].
    destruct (IH result) as (m & -> & Hm); [done..|intros; apply Hnew; [by right|done]|]. exists m. split; [done|]. intros code info. rewrite Hm.
    setoid_rewrite elem_of_cons. unfold rendered. naive_solver congruence.
  - destruct (Ht e) as (t & Hte & Hs); [by left|]. destruct (rendered_by sc s e t Hte Hs Hid) as (info0 & Hadd & Hr & Huniq).
    rewrite Hadd. cbn [mbind go_bind]. destruct (IH (<[FieldCodeName e.2:=info0]> result)) as (m & -> & Hm); try done.
    { intros x Hx Hxid. rewrite lookup_insert_ne; [apply Hnew; [by right|done]|]. intros Hc.
      assert (e = x) as -> by (apply Hd; [by left|by right|done..]). apply Hnin, list_elem_of_fmap. by exists x. }
    exists m. split; [done|]. intros code info. rewrite Hm. split.
    + intros [[[<- <-]|[_ Hl]]%lookup_insert_Some|(x & Hx & Hrx)]; [right; exists e; split; [by left|done]|by left|right; exists x; split; [by right|done]].
    + intros [Hl|(x & [->|Hx]%elem_of_cons & Hrx)].
      * left. rewrite lookup_insert_ne; [done|]. intros <-. rewrite (Hnew e) in Hl; [done|by left|done].
      * apply Huniq in Hrx as [-> ->]. left. by rewrite lookup_insert_eq.
      * right. by exists x.
Qed.

(** C32: The struct generated for a schema whose types are those an import
    makes, and whose code names are distinct, has exactly one member for every
    field but id, under its code name, with its JSON name and the Go type that
    reads and writes it; the generator does not panic. *)
Theorem generated_struct_correct (K : string → Prop) sc s :
  (∀ t, K t → simple_name t ∨ ∃ x, t = ToReference x) → schema_ok K sc → distinct_codes (range (ResourceFields sc)) →
  ∃ m, getTypeMap sc s = Ret m ∧
    ∀ code info, m !! code = Some info ↔ ∃ name f, ResourceFields sc !! name = Some f ∧ rendered sc s code info (name, f).
Proof.
  intros HK Hsc Hd. destruct (add_fields_correct sc s (range (ResourceFields sc)) ∅) as (m & Hm & Hl); [|done|apply NoDup_range|done|].
  - intros [name f] Hf%elem_of_range. apply (wf_type_expr K); [done|]. by destruct (Hsc _ _ Hf).
  - exists m. split; [done|]. intros code info. rewrite Hl. split.
    + intros [?|([name f] & Hf%elem_of_range & Hr)]; [done|by exists name, f].
    + intros (name & f & Hf & Hr). right. exists (name, f). split; [by apply elem_of_range|done].
Qed.

(** getVersion: the version all schemas share; it panics if they do not share one. *)
Definition same_version (v : APIVersion) (sc : Schema) : Prop := Group v = Group (Version sc) ∧ Version_ v = Version_ (Version sc).
Lemma add_versions l v : Group v ≠ "" →
  match foldM add_version l v with
  | Ret v' => v' = v ∧ Forall (same_version v) l
  | Panic => ¬ Forall (same_version v) l
  end.
Proof.
  intros Hv. induction l as [|sc l IH]; cbn [foldM]; [split; [done|by apply Forall_nil]|].
  assert (add_version v sc = if decide (Group v = Group (Version sc) ∧ Version_ v = Version_ (Version sc)) then Ret v else Panic) as ->
    by (unfold add_version; by rewrite (decide_False (P := Group v = ""%string))).
  case_decide as Hs; cbn [mbind go_bind]; [destruct (foldM add_version l v) as [v'|]|]; rewrite Forall_cons; unfold same_version in *; tauto.
Qed.
Theorem get_version_correct s : Forall (λ sc, Group (Version sc) ≠ "") (schemas s) →
  match getVersion s with
  | Ret v => Forall (same_version v) (schemas s)
  | Panic => ∃ a b, a ∈ schemas s ∧ b ∈ schemas s ∧ ¬ same_version (Version a) b
  end.
Proof.
  unfold getVersion. destruct (schemas s) as [|sc l]; intros Hg; [by apply Forall_nil|]. apply Forall_cons in Hg as [Hg _]. simpl.
  pose proof (add_versions l (Version sc) Hg) as Hl. destruct (foldM add_version l (Version sc)) as [v|].
  - destruct Hl as [-> Hl]. by apply Forall_cons.
  - apply not_Forall_Exists in Hl; [|intros x; unfold same_version; apply _]. apply Exists_exists in Hl as (b & Hb & Hn).
    exists sc, b. split_and!; [by left|by right|done].
Qed.

(** What was performed. *)
Inductive performed {W} (run : step → prog W (option error)) : list step → W → W → Prop :=
| performed_nil w : performed run [] w w
| performed_cons s l w w1 w2 : run s w = (w1, Ret None) → performed run l w1 w2 → performed run (s :: l) w w2.
Lemma perform_done {W} (run : step → prog W (option error)) l w w' : perform run l w = (w', Ret None) →
  ∃ steps, l = Ret <$> steps ∧ performed run steps w w'.
Proof.
  revert w. induction l as [|[s|] l IH]; intros w; cbn [perform]; unfold mbind, prog_bind, lift.
  - intros [= <-]. exists []. split; [done|constructor].
  - destruct (run s w) as [w1 [[err|]|]] eqn:Hs; try done. intros Hl. destruct (IH w1 Hl) as (steps & -> & Hp).
    exists (s :: steps). split; [done|by econstructor].
  - done.
Qed.
Section StepLemmas.
Variable PkgName : Schema → string.
Lemma elem_of_schema_steps s privateTypes cattleDir k8sDir sc x :
  Ret x ∈ schema_steps PkgName s privateTypes cattleDir k8sDir sc ↔
  (cattleDir ≠ "" ∧ generateType cattleDir sc s = Ret x) ∨
  (is_controller PkgName privateTypes sc = true ∧ (x = generateController PkgName false k8sDir sc ∨ x = generateLifecycle PkgName false k8sDir sc)).
Proof.
  unfold schema_steps. rewrite elem_of_app. case_decide; destruct (is_controller PkgName privateTypes sc); set_solver by congruence.
Qed.
Definition cattle_dir (baseDir cattle : string) : string := if decide (cattle = "") then "" else path_Join [baseDir; cattle].
Definition for_schema (x : step) : Prop :=
  match x with Write _ (TypeFile _ _ _ _) | Write _ (ControllerFile _ _ _) | Write _ (LifecycleFile _ _ _) => True | _ => False end.
(** The steps for single schemas are those of the loop. *)
Lemma elem_of_steps baseDir s privateTypes cattle k8s x : for_schema x →
  Ret x ∈ Generate_steps PkgName baseDir s privateTypes cattle k8s ↔
  ∃ sc, sc ∈ generated_schemas s ∧ Ret x ∈ schema_steps PkgName s privateTypes (cattle_dir baseDir cattle) (path_Join [baseDir; k8s]) sc.
Proof.
  intros Hx. unfold Generate_steps. fold (cattle_dir baseDir cattle).
  set (loop := generated_schemas s ≫= _).
  assert (Ret x ∈ loop ↔ ∃ sc, sc ∈ generated_schemas s ∧ Ret x ∈ schema_steps PkgName s privateTypes (cattle_dir baseDir cattle) (path_Join [baseDir; k8s]) sc) as <-.
  { unfold loop. rewrite list_elem_of_bind. naive_solver. }
  split; [|set_solver]. rewrite !elem_of_app. intros [Hi|[Hi|[Hi|[Hi|[Hi|Hi]]]]]; try done; exfalso; clearbody loop.
  - apply list_elem_of_singleton in Hi. by injection Hi as ->.
  - destruct (decide (cattle_dir _ _ = "")); [by apply elem_of_nil in Hi|]. apply list_elem_of_singleton in Hi. by injection Hi as ->.
  - destruct (filter _ _) as [|first l]; [by apply elem_of_nil in Hi|]. apply elem_of_app in Hi as [Hi|Hi].
    + repeat (apply elem_of_cons in Hi as [Hi|Hi]; [by injection Hi as ->|]). by apply elem_of_nil in Hi.
    + apply list_elem_of_fmap in Hi as (y & [= <-] & Hi). unfold generateFakes in Hi. apply elem_of_cons in Hi as [->|Hi]; [done|].
      by apply list_elem_of_fmap in Hi as (sc & -> & _).
  - apply list_elem_of_singleton in Hi. by injection Hi as ->.
  - destruct (decide (cattle = "")); [by apply elem_of_nil in Hi|]. apply list_elem_of_singleton in Hi. by injection Hi as ->.
Qed.
(** When Generate succeeds, the types of the client are those of the schemas
    that are not built in (if there is a client), and there is a controller and a
    life cycle for exactly those of them that are stored. *)
Theorem generate_covers {W} (run : step → prog W (option error)) baseDir s privateTypes cattle k8s w w' :
  Generate PkgName run baseDir s privateTypes cattle k8s w = (w', Ret None) →
  ∃ steps, performed run steps w w' ∧
    ∀ x, for_schema x → x ∈ steps ↔ ∃ sc, sc ∈ generated_schemas s ∧
      ((cattle_dir baseDir cattle ≠ "" ∧ generateType (cattle_dir baseDir cattle) sc s = Ret x) ∨
       (is_controller PkgName privateTypes sc = true ∧
        (x = generateController PkgName false (path_Join [baseDir; k8s]) sc ∨ x = generateLifecycle PkgName false (path_Join [baseDir; k8s]) sc))).
Proof.
  intros Hg. destruct (perform_done _ _ _ _ Hg) as (steps & Hsteps & Hp). exists steps. split; [done|]. intros x Hx.
  setoid_rewrite <- elem_of_schema_steps. rewrite <- elem_of_steps, Hsteps by done. rewrite list_elem_of_fmap. naive_solver.
Qed.
End StepLemmas.
End Generator.

(** ** GenerateControllerForTypes: controllers for Go types, without a client

    The types are imported into a registry of their own.  A schema that was
    imported is a pointer in the code, whose scope is set; nothing else reads the
    registry's. *)
Section ForTypes.
Context `{MapRange} `{SchemaFormat} `{GoFormat}.
Variables (structs : list StructType) (resourceType namespacedType : nat) (type_String : nat → string) (fuel : nat)
  (PkgName : Schema → string).
Context {W : Type}.
Variable run : step → prog W (option error).

Definition with_scope (sc : Schema) (scope : string) : Schema :=
  mkSchema (ID sc) (Embed sc) (EmbedType sc) (CodeName sc) (CodeNamePlural sc) (SType sc) (BaseType sc) (Version sc) (PluralName sc)
    (ResourceMethods sc) (ResourceFields sc) (ResourceActions sc) (CollectionMethods sc) (CollectionActions sc)
    (CollectionFilters sc) (DynamicSchemaVersion sc) scope (InternalSchema sc).
Definition controller_steps (k8sDir : string) (sc : Schema) : list step :=
  [generateController PkgName true k8sDir sc; generateLifecycle PkgName true k8sDir sc].
(** A loop over types; a nil schema would be dereferenced. *)
Fixpoint controllers_for (version : APIVersion) (k8sDir : string) (namespaced : bool) (objs : list gotype) (im : Importer)
    : prog W (result (Importer * list Schema)) :=
  match objs with
  | [] => mret (inl (im, []))
  | obj :: objs =>
      match Import structs resourceType namespacedType type_String fuel version obj [] im with
      | Returned im (inl (Some sc)) =>
          let sc := if namespaced then with_scope sc "namespace" else sc in
          err ← perform run (Ret <$> controller_steps k8sDir sc);
          match err with
          | Some err => mret (inr err)
          | None =>
              r ← controllers_for version k8sDir namespaced objs im;
              mret match r with inr err => inr err | inl (im, l) => inl (im, sc :: l) end
          end
      | Returned _ (inr err) => mret (inr err)
      | _ => lift Panic
      end
  end.
Definition closing_steps (baseDir k8sOutputPackage : string) (version : APIVersion) (controllers : list Schema) : list step :=
  let k8sDir := path_Join [baseDir; k8sOutputPackage] in
  [DeepCopyGen baseDir k8sOutputPackage; generateK8sClient k8sDir version controllers; generateScheme true k8sDir version controllers]
    ++ generateFakes k8sDir controllers ++ [Gofmt baseDir k8sOutputPackage].
Definition GenerateControllerForTypes (baseDir : string) (version : APIVersion) (k8sOutputPackage : string) (nsObjs objs : list gotype)
    : prog W (option error) :=
  let k8sDir := path_Join [baseDir; k8sOutputPackage] in
  err ← run (PrepareDirs [k8sDir; path_Join [k8sDir; "fakes"]]);
  match err with
  | Some err => mret (Some err)
  | None =>
      r ← controllers_for version k8sDir false objs new_importer;
      match r with
      | inr err => mret (Some err)
      | inl (im, global) =>
          r ← controllers_for version k8sDir true nsObjs im;
          match r with
          | inr err => mret (Some err)
          | inl (_, scoped) => perform run (Ret <$> closing_steps baseDir k8sOutputPackage version (global ++ scoped))
          end
      end
  end.

Lemma performed_app l l' w w1 w2 : performed run l w w1 → performed run l' w1 w2 → performed run (l ++ l') w w2.
Proof. induction 1 as [|s l w w1 w3 Hs _ IH]; intros Hl; [done|]. eapply performed_cons; [done|]. by apply IH. Qed.
Lemma perform_steps l w w' : perform run (Ret <$> l) w = (w', Ret None) → performed run l w w'.
Proof. intros Hp. destruct (perform_done run _ _ _ Hp) as (l' & He & Hl). assert (Inj (=) (=) (Ret (A := step))) by (by intros ?? [= ->]). apply list_fmap_eq_inj in He; [|done]. by subst. Qed.

Lemma controllers_for_done version k8sDir namespaced objs im im' l w w' :
  controllers_for version k8sDir namespaced objs im w = (w', Ret (inl (im', l))) →
  performed run (l ≫= controller_steps k8sDir) w w' ∧ length l = length objs ∧
  (namespaced = true → Forall (λ sc, Scope sc = "namespace") l).
Proof.
  revert im im' l w. induction objs as [|obj objs IH]; intros im im' l w; cbn [controllers_for]; [intros [= <- _ <-]; split_and!; [constructor|done|constructor]|].
  destruct (Import _ _ _ _ _ _ _ _ _) as [| |im1 [[sc|]|err]]; try done.
  set (sc' := if namespaced then with_scope sc "namespace" else sc).
  unfold mbind at 1, prog_bind at 1. destruct (perform _ _ w) as [w1 [[err|]|]] eqn:Hp; try done.
  unfold mbind, prog_bind. destruct (controllers_for _ _ _ objs im1 w1) as [w2 [[[im2 l2]|err]|]] eqn:Hc; try done.
  intros [= <- _ <-]. destruct (IH _ _ _ _ Hc) as (Hl & Hlen & Hs). split_and!; [|simpl; by rewrite Hlen|].
  - apply (performed_app _ _ _ w1); [by apply perform_steps|done].
  - intros Hn. constructor; [|by apply Hs]. unfold sc'. by rewrite Hn.
Qed.

(** When GenerateControllerForTypes succeeds, it has done this and nothing else,
    in this order: prepared the directories, written a controller and a life
    cycle for each type, those without a namespace first, and the client, scheme
    and fakes of them all; the types of the second list have namespaces. *)
Theorem controllers_generated baseDir version k8s nsObjs objs w w' :
  GenerateControllerForTypes baseDir version k8s nsObjs objs w = (w', Ret None) →
  ∃ global scoped, length global = length objs ∧ length scoped = length nsObjs ∧ Forall (λ sc, Scope sc = "namespace") scoped ∧
    let k8sDir := path_Join [baseDir; k8s] in
    performed run (PrepareDirs [k8sDir; path_Join [k8sDir; "fakes"]] :: ((global ++ scoped) ≫= controller_steps k8sDir)
                     ++ closing_steps baseDir k8s version (global ++ scoped)) w w'.
Proof.
  unfold GenerateControllerForTypes. unfold mbind at 1, prog_bind at 1.
  destruct (run _ w) as [w0 [[err|]|]] eqn:Hprep; try done. unfold mbind at 1, prog_bind at 1.
  destruct (controllers_for _ _ false objs _ w0) as [w1 [[[im1 global]|err]|]] eqn:H1'; try done. unfold mbind, prog_bind.
  destruct (controllers_for _ _ true nsObjs _ w1) as [w2 [[[im2 scoped]|err]|]] eqn:H2; try done. intros Hp%perform_steps.
  destruct (controllers_for_done _ _ _ _ _ _ _ _ _ H1') as (Hg & Hlg & _), (controllers_for_done _ _ _ _ _ _ _ _ _ H2) as (Hs & Hls & Hsc).
  exists global, scoped. split_and!; [done..|by apply Hsc|]. eapply performed_cons; [done|].
  rewrite bind_app. eapply performed_app; [|done]. by eapply performed_app.
Qed.
End ForTypes.

(** ** Examples *)
(** The client struct of the pet of [Reflect]. *)
Definition pet_struct : go (gmap string fieldInfo) :=
  match import_pet with
  | Returned im (inl (Some sc)) => @getTypeMap std_range sc (registry im)
  | _ => Panic
  end.
Example pet_members : (λ m : gmap string fieldInfo, (λ code, FIType <$> m !! code) <$> ["Name"; "Owner"; "Age"; "OwnerID"; "ID"]) <$> pet_struct
  = Ret [Some "string"; Some "*Person"; Some "int64"; Some "string"; None].
Proof. vm_compute. reflexivity. Qed.

(** A type name that is cut off makes the generator panic. *)
Example unclosed_panics : @getTypeString std_range false "map[" None None = Panic.
Proof. vm_compute. reflexivity. Qed.

Definition core_schema (id version : string) : Schema :=
  mkSchema id false "" "" "" "" "" (mkVersion "" version ("/" +:+ version) false "") "" [] ∅ ∅ [] ∅ ∅ "" "" None.
(** Two versions of the group with the empty name are not told apart. *)
Example core_versions_mixed :
  (λ v, Version_ v) <$> getVersion (mkSchemas ∅ ∅ [] [core_schema "pod" "v1"; core_schema "job" "v2"] None []) = Ret "v2".
Proof. vm_compute. reflexivity. Qed.

Example underscores : addUnderscore "nodePoolHTTP" = "node_pool_http".
Proof. reflexivity. Qed.

Definition coded (t code : string) : Field :=
  mkField t VNil true false false false false None None None None [] "" "" "" code false.
Definition owner_struct : Schema :=
  mkSchema "owner" false "" "Owner" "Owners" "" "" (mkVersion "zoo" "v3" "/v3" false "") "owners" []
    {[ "id" := coded "string" "ID"; "pets" := coded "array[pet]" "Pets"; "age" := coded "int" "Age" ]} ∅ [] ∅ ∅ "" "" None.
Lemma generated_struct_correct_witness :
  (λ m : gmap string fieldInfo, (λ code, FIType <$> m !! code) <$> ["ID"; "Pets"; "Age"]) <$> @getTypeMap std_range owner_struct (NewSchemas None)
  = Ret [None; Some "[]Pet"; Some "*int64"] ∧ ∃ m, @getTypeMap std_range owner_struct (NewSchemas None) = Ret m ∧ is_Some (m !! "Pets").
Proof.
  split; [vm_compute; reflexivity|].
  destruct (@generated_struct_correct std_range (λ t, t = "pet") owner_struct (NewSchemas None)) as (m & Hm & _).
  - intros t ->. left. split_and!; vm_compute; reflexivity.
  - assert (∀ e, e ∈ map_to_list (ResourceFields owner_struct) → field_ok (λ t, t = "pet") e.2) as Hall.
    { intros e He. vm_compute (map_to_list _) in He. repeat (apply elem_of_cons in He as [->|He]); [..|by apply elem_of_nil in He];
        (split; [|split_and!; intros; by left]); cbn [snd Type_ coded];
        first [apply (wf_array _ "pet"), wf_known; reflexivity | apply wf_scalar; set_solver]. }
    intros name f Hf. apply (Hall (name, f)), elem_of_map_to_list. exact Hf.
  - intros e e' He He' _ _ Hc. vm_compute (range _) in He, He'.
    repeat (apply elem_of_cons in He as [->|He]); [..|by apply elem_of_nil in He];
    (repeat (apply elem_of_cons in He' as [->|He']); [..|by apply elem_of_nil in He']); solve [reflexivity | discriminate Hc].
  - exists m. split; [exact Hm|]. destruct (m !! "Pets") eqn:Hp; [by eexists|].
    assert (((λ m : gmap string fieldInfo, FIType <$> m !! "Pets") <$> @getTypeMap std_range owner_struct (NewSchemas None)) = Ret (Some "[]Pet")) as Hr
      by (vm_compute; reflexivity).
    rewrite Hm in Hr. cbn in Hr. rewrite Hp in Hr. discriminate Hr.
Defined.
