(* ===== verification/Generated.v ===== *)
(** * The generated controllers

    Models the code that generator/controller_template.go and
    lifecycle_template.go generate for each schema that is stored: its lister,
    the typed handlers of its controller, the handlers of one cluster, the
    adapter of a life cycle and the delegates OnCreate, OnChange and OnRemove;
    controller/cluster_check.go, which says to which cluster an object belongs;
    and controller/starter.go.

    It composes [Controller] and [Lifecycle]: the handlers of a controller work
    on the heap of [Lifecycle].  What a type assertion and reflection see of an
    object are parameters of the handlers. *)

From S2P Require Import Prelude GoStrings Errors TypeNames Stores Controller Lifecycle.
From Stdlib Require Import Ascii.

(** ** controller/cluster_check.go *)
(** A value as package reflect presents it, with the name of its type. *)
Inductive gvalue :=
| GString (s : string)
| GStruct (t : string) (fields : list (string * gvalue))
| GPtr (t : string) (target : option gvalue)
| GMap (t : string) (m : gmap string string)
| GOther (t : string).
Definition String_ (v : gvalue) : string :=
  match v with
  | GString s => s
  | GStruct t _ | GPtr t _ | GMap t _ | GOther t => "<" +:+ t +:+ " Value>"
  end.
Definition field_named (fields : list (string * gvalue)) (name : string) : option gvalue :=
  snd <$> (snd <$> list_find (λ e, e.1 = name) fields).
(** None is the zero Value. *)
Definition FieldByName (v : gvalue) (name : string) : go (option gvalue) :=
  match v with GStruct _ fields => Ret (field_named fields name) | _ => Panic end.
Definition MapIndex (v : gvalue) (key : string) : go (option string) := match v with GMap _ m => Ret (m !! key) | _ => Panic end.
Fixpoint getFieldValue (v : gvalue) (name : string) (names : list string) : go (option gvalue) :=
  field ← FieldByName v name;
  match names with
  | [] => Ret field
  | next :: names => match field with None => Panic | Some f => getFieldValue f next names end
  end.
Definition getValue (obj : gvalue) (name : string) (names : list string) : go (option gvalue) :=
  v ← match obj with GPtr _ None => Panic | GPtr _ (Some v) => Ret v | v => Ret v end;
  field ← FieldByName v name;
  match field, names with
  | None, _ | _, [] => Ret field
  | Some f, next :: names => getFieldValue f next names
  end.

(** What each of the places says, empty if it says nothing. *)
Definition said (m : go (option gvalue)) : go string := v ← m; Ret (default "" (String_ <$> v)).
Definition before_colon (s : string) : string := match Split2 s ":" with [a; _] => a | _ => "" end.
Definition said_project (m : go (option gvalue)) : go string := v ← m; Ret (default "" ((λ v, before_colon (String_ v)) <$> v)).
Definition said_annotation (m : go (option gvalue)) : go string :=
  v ← m; match v with
         | None => Ret ""
         | Some a => c ← MapIndex a "field.cattle.io/projectId"; Ret (default "" (before_colon <$> c))
         end.
Definition or_else (m m' : go string) : go string := name ← m; if decide (name = "") then m' else Ret name.
Definition clusterName (obj : gvalue) : go string :=
  or_else (or_else (or_else (or_else (or_else
    (said (getValue obj "ClusterName" [])) (said (getValue obj "Spec" ["ClusterName"])))
    (said_project (getValue obj "ProjectName" []))) (said_project (getValue obj "Spec" ["ProjectName"])))
    (said_annotation (getValue obj "Annotations" []))) (said (getValue obj "Namespace" [])).
Definition ObjectInCluster (cluster : string) (obj : gvalue) : go bool := name ← clusterName obj; Ret (bool_decide (name = cluster)).

(** ** controller/starter.go *)
Record Starter (W : Type) := mkStarter { st_Sync : prog W (option error); st_Start : Z → prog W (option error) }.
Arguments mkStarter {W}. Arguments st_Sync {W}. Arguments st_Start {W}.
(** Every starter is synced; [starters] are in the order in which they end,
    and the first error is the one that counts. *)
Fixpoint Sync {W} (starters : list (Starter W)) : prog W (option error) :=
  match starters with
  | [] => mret None
  | s :: l => err ← st_Sync s; err' ← Sync l; mret (match err with Some _ => err | None => err' end)
  end.
Fixpoint Starters_Start {W} (threadiness : Z) (starters : list (Starter W)) : prog W (option error) :=
  match starters with
  | [] => mret None
  | s :: l => err ← st_Start s threadiness; match err with Some _ => mret err | None => Starters_Start threadiness l end
  end.
Definition SyncThenStart {W} (threadiness : Z) (ended starters : list (Starter W)) : prog W (option error) :=
  err ← Sync ended; match err with Some _ => mret err | None => Starters_Start threadiness starters end.

(** ** The controllers of a client, one for each namespace *)
Record Client (C : Type) := mkClients { controllers : gmap string C; starters : list C }.
Arguments mkClients {C}. Arguments controllers {C}. Arguments starters {C}.
(** Client.Controller; [new] is a new controller. *)
Definition Client_Controller {C} (c : Client C) (ns : string) (new : C) : Client C * C :=
  match controllers c !! ns with
  | Some k => (c, k)
  | None => (mkClients (<[ns := new]> (controllers c)) (starters c ++ [new]), new)
  end.
Definition all_started {C} (c : Client C) : Prop := starters c ≡ₚ (map_to_list (controllers c)).*2.
(** Every controller is started once, and asking again gives the same one. *)
Lemma Client_Controller_correct {C} (c : Client C) ns new :
  all_started c → let '(c', k) := Client_Controller c ns new in
  all_started c' ∧ (∀ new', Client_Controller c' ns new' = (c', k)) ∧ ∀ ns', ns' ≠ ns → controllers c' !! ns' = controllers c !! ns'.
Proof.
  intros Hs. unfold Client_Controller. destruct (controllers c !! ns) as [k|] eqn:Hk; [by rewrite Hk|]. simpl. rewrite lookup_insert_eq. split_and!; [|done|].
  - unfold all_started in *. simpl. rewrite map_to_list_insert by done. cbn [fmap list_fmap snd].
    rewrite <- Permutation_cons_append. by apply Permutation_skip.
  - intros ns' Hne. by apply lookup_insert_ne.
Qed.

(** ** Which cluster an object belongs to *)
Definition first_said (l : list string) : string := default "" (head (filter (λ s, s ≠ "") l)).
(** An object of the API: its spec is a struct and its annotations are a map. *)
Definition api_object (v : gvalue) (fields : list (string * gvalue)) : Prop :=
  ((∃ t, v = GStruct t fields) ∨ ∃ t t', v = GPtr t (Some (GStruct t' fields))) ∧
  (∀ x, field_named fields "Spec" = Some x → ∃ t fs, x = GStruct t fs) ∧
  (∀ x, field_named fields "Annotations" = Some x → ∃ t m, x = GMap t m).
Definition spec_field (fields : list (string * gvalue)) (name : string) : option gvalue :=
  match field_named fields "Spec" with Some (GStruct _ fs) => field_named fs name | _ => None end.
Definition project_annotation (fields : list (string * gvalue)) : string :=
  match field_named fields "Annotations" with
  | Some (GMap _ m) => default "" (before_colon <$> m !! "field.cattle.io/projectId")
  | _ => ""
  end.
(** The places that say it, in the order in which they count. *)
Definition places (fields : list (string * gvalue)) : list string := [
  default "" (String_ <$> field_named fields "ClusterName");
  default "" (String_ <$> spec_field fields "ClusterName");
  default "" ((λ v, before_colon (String_ v)) <$> field_named fields "ProjectName");
  default "" ((λ v, before_colon (String_ v)) <$> spec_field fields "ProjectName");
  project_annotation fields;
  default "" (String_ <$> field_named fields "Namespace")
].
Lemma or_else_said a l : or_else (Ret (first_said a)) (Ret l) = Ret (first_said (a ++ [l])).
Proof.
  unfold or_else, first_said. cbn [mbind go_bind]. induction a as [|x a IH].
  - simpl. rewrite filter_cons, filter_nil. destruct (decide (l ≠ "")) as [|Hl]; [done|]. by apply dec_stable in Hl as ->.
  - simpl. rewrite !filter_cons. destruct (decide (x ≠ "")) as [Hx|Hx]; [|done]. simpl. by rewrite decide_False.
Qed.
Lemma first_said_one l : Ret l = Ret (first_said [l]).
Proof. unfold first_said. rewrite filter_cons, filter_nil. destruct (decide (l ≠ "")) as [|Hl]; [done|]. by apply dec_stable in Hl as ->. Qed.
Lemma getValue_field v fields name : api_object v fields → getValue v name [] = Ret (field_named fields name).
Proof. intros ([[t ->]|(t & t' & ->)] & _ & _); unfold getValue; cbn [mbind go_bind FieldByName]; by destruct (field_named fields name). Qed.
Lemma getValue_spec v fields name : api_object v fields → getValue v "Spec" [name] = Ret (spec_field fields name).
Proof.
  intros (Hv & Hs & _). unfold spec_field.
  assert (getValue v "Spec" [name] = match field_named fields "Spec" with None => Ret None | Some f => getFieldValue f name [] end) as ->
    by (destruct Hv as [[t ->]|(t & t' & ->)]; unfold getValue; cbn [mbind go_bind FieldByName]; by destruct (field_named fields "Spec")).
  destruct (field_named fields "Spec") as [x|] eqn:Hx; [|done]. destruct (Hs x eq_refl) as (t & fs & ->). done.
Qed.
(** The cluster of an object is what the first place that says anything says. *)
Lemma clusterName_places v fields : api_object v fields → clusterName v = Ret (first_said (places fields)).
Proof.
  intros Hv. unfold clusterName. rewrite !(getValue_field v fields), !(getValue_spec v fields) by done.
  assert (said_annotation (Ret (field_named fields "Annotations")) = Ret (project_annotation fields)) as ->.
  { destruct Hv as (_ & _ & Ha). unfold said_annotation, project_annotation. cbn [mbind go_bind].
    destruct (field_named fields "Annotations") as [x|]; [|done]. destruct (Ha x eq_refl) as (t & m & ->). done. }
  unfold said, said_project. cbn [mbind go_bind]. rewrite (first_said_one (default "" (String_ <$> field_named fields "ClusterName"))).
  by rewrite !or_else_said.
Qed.

Section Generated.
Context {X D : Type} `{EqDecision D}.
Abbreviation world := (@Lifecycle.world X D).
Abbreviation call := (world → nat → world * option nat * option error).
Abbreviation HandlerFunc := (world → string → option nat → world * go (option nat * option error)).
Abbreviation controller := (@genericController nat world).
(** Whether the object is of the type of the controller, and what reflection sees of it. *)
Variables (is_kind : world → nat → bool) (reflected : world → nat → gvalue).

(** ** The handlers of a controller *)
Definition typed_handler (h : HandlerFunc) : HandlerFunc := λ w key obj,
  match obj with
  | None => h w key None
  | Some v => if is_kind w v then h w key (Some v) else (w, Ret (None, None))
  end.
Definition cluster_handler (cluster : string) (h : HandlerFunc) : HandlerFunc := λ w key obj,
  match obj with
  | None => h w key None
  | Some v =>
      if is_kind w v then
        match ObjectInCluster cluster (reflected w v) with
        | Panic => (w, Panic)
        | Ret true => h w key (Some v)
        | Ret false => (w, Ret (None, None))
        end
      else (w, Ret (None, None))
  end.
Definition AddHandler (g : controller) (ptr : nat) (name : string) (h : HandlerFunc) : controller :=
  Controller.AddHandler g ptr name (typed_handler h).
Definition AddClusterScopedHandler (g : controller) (ptr : nat) (name cluster : string) (h : HandlerFunc) : controller :=
  Controller.AddHandler g ptr name (cluster_handler cluster h).

(** ** Life cycles *)
Definition NewLifecycleAdapter (name : string) (clusterScoped : bool) (client : @ObjectClient X D) (l : @ObjectLifecycle X D) : HandlerFunc :=
  λ w key obj,
    let '(w, newObj, err) := Lifecycle.sync (mkAdapter name clusterScoped l client) w (match obj with None => InNil | Some p => InObject p end) in
    (w, Ret (newObj, err)).
Definition AddLifecycle (g : controller) (ptr : nat) (name : string) (client : @ObjectClient X D) (l : @ObjectLifecycle X D) : controller :=
  AddHandler g ptr name (NewLifecycleAdapter name false client l).
Definition AddClusterScopedLifecycle (g : controller) (ptr : nat) (name cluster : string) (client : @ObjectClient X D) (l : @ObjectLifecycle X D)
    : controller :=
  AddClusterScopedHandler g ptr name cluster (NewLifecycleAdapter (name +:+ "_" +:+ cluster) true client l).

(** LifecycleDelegate: the functions that are set. *)
Definition delegated (f : option call) : call := match f with None => λ w p, (w, Some p, None) | Some f => f end.
Definition isSome {A} (o : option A) : bool := match o with Some _ => true | None => false end.
Definition LifecycleDelegate (create update remove : option call) : @ObjectLifecycle X D :=
  mkLifecycle (delegated create) (delegated remove) (delegated update) (Some (isSome create)) (Some (isSome remove)).
Definition OnCreate (g : controller) (ptr : nat) (name : string) (client : @ObjectClient X D) (sync : call) : controller :=
  AddLifecycle g ptr (name +:+ "-create") client (LifecycleDelegate (Some sync) None None).
Definition OnChange (g : controller) (ptr : nat) (name : string) (client : @ObjectClient X D) (sync : call) : controller :=
  AddLifecycle g ptr (name +:+ "-change") client (LifecycleDelegate None (Some sync) None).
Definition OnRemove (g : controller) (ptr : nat) (name : string) (client : @ObjectClient X D) (sync : call) : controller :=
  AddLifecycle g ptr name client (LifecycleDelegate None None (Some sync)).

(** ** The lister and the index of the cache *)
Definition object_key (namespace name : string) : string := if decide (namespace = "") then name else namespace +:+ "/" +:+ name.
Definition Lister_Get (GetByKey : string → result (option nat)) (namespace name : string) : result nat :=
  let key := object_key namespace name in
  match GetByKey key with
  | inr err => inr err
  | inl None => inr (StatusError 404 "NotFound" (key +:+ " not found"))
  | inl (Some p) => inl p
  end.
Definition GetIndexed (ByIndex : string → string → result (list nat)) (w : world) (name key : string) : result (list nat) :=
  match ByIndex name key with
  | inr err => inr err
  | inl objs => inl (filter (λ p, is_kind w p = true) objs)
  end.

(** ** Handlers of one cluster *)
Record registration := mkRegistration { r_ptr : nat; r_name : string; r_cluster : string; r_handler : HandlerFunc }.
Definition register_scoped (g : controller) (l : list registration) : controller :=
  foldl (λ g r, AddClusterScopedHandler g (r_ptr r) (r_name r) (r_cluster r) (r_handler r)) g l.
Definition register_plain (g : controller) (l : list registration) : controller :=
  foldl (λ g r, AddHandler g (r_ptr r) (r_name r) (r_handler r)) g l.
Definition in_cluster (cluster : string) (w : world) (p : nat) : Prop := is_kind w p = true ∧ clusterName (reflected w p) = Ret cluster.
(** A handler that leaves the object, and what it returns, in the cluster. *)
Definition stays (cluster : string) (h : HandlerFunc) : Prop := ∀ w key p w' r err,
  in_cluster cluster w p → h w key (Some p) = (w', Ret (r, err)) →
  in_cluster cluster w' p ∧ (err = None → ∀ q, r = Some q → in_cluster cluster w' q).

Definition scoped_def (gen : Z) (r : registration) : @handlerDef nat world :=
  mkHandlerDef (r_ptr r) (r_name r) gen (cluster_handler (r_cluster r) (r_handler r)).
Definition plain_def (gen : Z) (r : registration) : @handlerDef nat world := mkHandlerDef (r_ptr r) (r_name r) gen (typed_handler (r_handler r)).
Lemma register_scoped_handlers l g :
  handlers (register_scoped g l) = handlers g ++ (scoped_def (generation g) <$> l) ∧ generation (register_scoped g l) = generation g.
Proof.
  revert g. induction l as [|r l IH]; intros g; [by rewrite app_nil_r|]. unfold register_scoped in *. cbn [foldl fmap list_fmap].
  destruct (IH (AddClusterScopedHandler g (r_ptr r) (r_name r) (r_cluster r) (r_handler r))) as [-> ->]. simpl. by rewrite <- app_assoc.
Qed.
Lemma register_plain_handlers l g :
  handlers (register_plain g l) = handlers g ++ (plain_def (generation g) <$> l) ∧ generation (register_plain g l) = generation g.
Proof.
  revert g. induction l as [|r l IH]; intros g; [by rewrite app_nil_r|]. unfold register_plain in *. cbn [foldl fmap list_fmap].
  destruct (IH (AddHandler g (r_ptr r) (r_name r) (r_handler r))) as [-> ->]. simpl. by rewrite <- app_assoc.
Qed.
Lemma scoped_handler cluster gen r w key p : in_cluster cluster w p →
  Controller.handler (scoped_def gen r) w key (Some p)
  = if decide (r_cluster r = cluster) then r_handler r w key (Some p) else (w, Ret (None, None)).
Proof.
  intros [Hk Hc]. cbn. unfold ObjectInCluster. rewrite Hk, Hc. cbn [mbind go_bind].
  case_decide; [by rewrite bool_decide_eq_true_2|by rewrite bool_decide_eq_false_2].
Qed.
Lemma plain_handler cluster gen r w key p : in_cluster cluster w p →
  Controller.handler (plain_def gen r) w key (Some p) = r_handler r w key (Some p).
Proof. intros [Hk _]. cbn. by rewrite Hk. Qed.
Lemma scoped_run cluster gen key l w p errs :
  Forall (λ r, r_cluster r = cluster → stays cluster (r_handler r)) l → in_cluster cluster w p →
  run_handlers key (scoped_def gen <$> l) w (Some p) errs = run_handlers key (plain_def gen <$> filter (λ r, r_cluster r = cluster) l) w (Some p) errs.
Proof.
  intros Hl. revert w p errs. induction Hl as [|r l Hr Hl IH]; intros w p errs Hin; [done|].
  rewrite fmap_cons. cbn [run_handlers]. rewrite (scoped_handler cluster) by done. rewrite filter_cons. case_decide as Hd; [|by apply IH].
  rewrite fmap_cons. cbn [run_handlers]. rewrite (plain_handler cluster) by done.
  destruct (r_handler r w key (Some p)) as [w' [[r' err]|]] eqn:Hh; [|done].
  destruct (Hr Hd w key p w' r' err Hin Hh) as [Hin' Hret].
  destruct err as [err|]; [destruct r'; by apply IH|]. destruct r' as [q|]; apply IH; [by apply Hret|done].
Qed.
(** C22: An object is handled for its own cluster only.  A controller with the
    handlers of any clusters does with the object of a key exactly what a
    controller with only the handlers of the cluster of the object does, as long
    as these leave the object in its cluster. *)
Theorem handled_in_own_cluster name l cluster GetByKey w key p :
  GetByKey key = inl (Some p) → in_cluster cluster w p →
  Forall (λ r, r_cluster r = cluster → stays cluster (r_handler r)) l →
  syncHandler (register_scoped (NewGenericController name) l) GetByKey w (Key key)
  = syncHandler (register_plain (NewGenericController name) (filter (λ r, r_cluster r = cluster) l)) GetByKey w (Key key).
Proof.
  intros Hget Hin Hl. unfold syncHandler. cbn [key_string]. rewrite Hget.
  rewrite !(proj1 (register_scoped_handlers _ _)), !(proj1 (register_plain_handlers _ _)). cbn [handlers NewGenericController app].
  assert (∀ hs : list (@handlerDef nat world), filter (λ h, selected (Key key) h = true) hs = hs) as Hf
    by (induction hs as [|h hs IH]; [done|]; by rewrite filter_cons_True, IH).
  by rewrite !Hf, (scoped_run cluster).
Qed.

(** ** The cache under all handlers *)
(** A handler that changes no object there is, and returns an object. *)
Definition careful (h : HandlerFunc) : Prop := ∀ S w key obj w' res,
  h w key obj = (w', res) → S ⊆ dom (heap w) → (∀ p, obj = Some p → p ∈ dom (heap w)) →
  keeps S w w' ∧ ∀ q, res = Ret (Some q, None) → q ∈ dom (heap w').
Lemma careful_adapter name clusterScoped client l :
  adapter_framed (mkAdapter name clusterScoped l client) → careful (NewLifecycleAdapter name clusterScoped client l).
Proof.
  intros Hfr S w key obj w' res Hh HS Hobj. unfold NewLifecycleAdapter in Hh. destruct obj as [p|].
  - destruct (Lifecycle.sync _ w (InObject p)) as [[w1 r] err] eqn:Hs. injection Hh as <- <-.
    destruct (sync_keeps _ S w p w1 r err Hfr HS (Hobj p eq_refl) Hs) as [Hk Hr]. split; [done|]. intros q [= -> ->]. by apply Hr.
  - simpl in Hh. injection Hh as <- <-. by split.
Qed.
Lemma careful_typed h : careful h → careful (typed_handler h).
Proof.
  intros Hc S w key obj w' res Hh HS Hobj. unfold typed_handler in Hh. destruct obj as [p|]; [|by eapply Hc].
  destruct (is_kind w p); [by eapply Hc|]. injection Hh as <- <-. by split.
Qed.
Lemma careful_cluster cluster h : careful h → careful (cluster_handler cluster h).
Proof.
  intros Hc S w key obj w' res Hh HS Hobj. unfold cluster_handler in Hh. destruct obj as [p|]; [|by eapply Hc].
  destruct (is_kind w p); [|injection Hh as <- <-; by split].
  destruct (ObjectInCluster _ _) as [[]|]; [by eapply Hc|injection Hh as <- <-; by split..].
Qed.
Lemma careful_run S key hs w obj errs w' res :
  Forall (λ h : @handlerDef nat world, careful (Controller.handler h)) hs → S ⊆ dom (heap w) → (∀ p, obj = Some p → p ∈ dom (heap w)) →
  run_handlers key hs w obj errs = (w', res) → keeps S w w'.
Proof.
  intros Hhs. revert w obj errs. induction Hhs as [|h hs Hh Hhs IH]; intros w obj errs HS Hobj Hr; cbn [run_handlers] in Hr; [by injection Hr as <- _|].
  destruct (Controller.handler h w key obj) as [w1 r] eqn:He.
  destruct (Hh S w key obj w1 r He HS Hobj) as [Hk Hret]. destruct (Hh _ w key obj w1 r He (reflexivity _) Hobj) as [[Hd _] _].
  assert (∀ obj' errs', (∀ p, obj' = Some p → p ∈ dom (heap w1)) → run_handlers key hs w1 obj' errs' = (w', res) → keeps S w w') as Hgo.
  { intros obj' errs' Ho' Hr'. eapply keeps_trans; [exact Hk|]. eapply IH; [apply Hk|exact Ho'|exact Hr']. }
  destruct r as [[[q|] [err|]]|]; [..|by injection Hr as <- _]; (eapply Hgo; [|exact Hr]); try (intros p Hp; apply Hd, Hobj, Hp).
  intros p [= <-]. by apply Hret.
Qed.

(** The controllers that can be built from life cycles. *)
Inductive built : controller → Prop :=
| built_new name : built (NewGenericController name)
| built_lifecycle g ptr name client l : built g → adapter_framed (mkAdapter name false l client) → built (AddLifecycle g ptr name client l)
| built_cluster g ptr name cluster client l : built g → adapter_framed (mkAdapter (name +:+ "_" +:+ cluster) true l client) →
    built (AddClusterScopedLifecycle g ptr name cluster client l)
| built_done g h : built g → h ∈ handlers g → built (handler_done g h)
| built_start g cached keys threadiness : built g → built (Controller.Start g cached keys threadiness).1
| built_enqueue g namespace name : built g → built (Enqueue g namespace name).
Lemma delegate_framed name clusterScoped client (create update remove : option call) :
  (∀ f, create = Some f ∨ update = Some f ∨ remove = Some f → framed f) →
  (∀ name, framed (client_Update client name)) →
  (∀ n name w w' r e, client_Get client n name w = (w', r, e) → framed_result w w' None r) →
  adapter_framed (mkAdapter name clusterScoped (LifecycleDelegate create update remove) client).
Proof.
  intros Hf Hu Hg. assert (∀ f : option call, (∀ g, f = Some g → framed g) → framed (delegated f)) as Hd.
  { intros [f|] Hfr; [by apply Hfr|]. intros w p w' r e [= <- <- <-] Hp. split_and!; [done..|]. intros q [= <-]. auto. }
  split; [apply Hd; auto..|done|done].
Qed.
Lemma built_careful g : built g → Forall (λ h, careful (Controller.handler h)) (handlers g).
Proof.
  induction 1 as [name|g ptr name client l _ IH Hf|g ptr name cluster client l _ IH Hf|g h _ IH Hh|g cached keys threadiness _ IH|g namespace name _ IH].
  - apply Forall_nil, I.
  - apply Forall_app_2; [done|]. apply Forall_singleton. by apply careful_typed, careful_adapter.
  - apply Forall_app_2; [done|]. apply Forall_singleton. by apply careful_cluster, careful_adapter.
  - simpl. pose proof (proj1 (Forall_forall _ _) IH h Hh) as Hc.
    enough (∀ l acc, Forall (λ h, careful (Controller.handler h)) acc →
      Forall (λ h, careful (Controller.handler h)) (foldl (λ hs x, if decide (hptr x ≠ hptr h) then hs ++ [h] else hs) acc l)) as Hfold
      by by apply Hfold, Forall_nil.
    induction l as [|x l IHl]; intros acc Hacc; simpl; [done|]. apply IHl. case_decide; [|done]. apply Forall_app_2; [done|by apply Forall_singleton].
  - unfold Controller.Start, Controller.sync. destruct (synced g), cached; simpl; done.
  - done.
Qed.

(** C23: The controllers of a program share the objects of their cache without
    disturbing each other: whatever life cycles a controller was given, of any
    names and clusters, handling a key changes no object that was there
    before, as long as each function of a life cycle changes at most the object
    it is given. *)
Theorem work_keeps_cache g GetByKey w k w' err :
  built g → (∀ p, GetByKey (key_string k) = inl (Some p) → p ∈ dom (heap w)) →
  syncHandler g GetByKey w k = (w', err) → ∀ q, q ∈ dom (heap w) → heap w' !! q = heap w !! q.
Proof.
  intros Hg Hget Hs. unfold syncHandler in Hs. destruct (GetByKey (key_string k)) as [obj|e]; [|by injection Hs as <- _].
  destruct (run_handlers _ _ w obj []) as [w1 r] eqn:Hr. assert (w1 = w') as -> by (destruct r as [[]|]; congruence).
  enough (keeps (dom (heap w)) w w') as [_ Hk] by done. eapply careful_run; [|done| |exact Hr].
  - apply Forall_forall. intros h [_ Hh]%list_elem_of_filter. by apply (proj1 (Forall_forall _ _) (built_careful g Hg)).
  - intros p ->. by apply Hget.
Qed.
End Generated.

(** ** Examples *)
Definition pod_value (fields : list (string * gvalue)) : gvalue := GPtr "*v1.Pod" (Some (GStruct "v1.Pod" fields)).
(** The spec counts more than the project, and the namespace counts least. *)
Example cluster_of_spec :
  clusterName (pod_value [("Namespace", GString "ns"); ("Spec", GStruct "v1.PodSpec" [("ProjectName", GString "c2:p1"); ("ClusterName", GString "c1")])])
  = Ret "c1".
Proof. vm_compute. reflexivity. Qed.
Example cluster_of_project :
  clusterName (pod_value [("Namespace", GString "ns"); ("Annotations", GMap "map[string]string" {[ "field.cattle.io/projectId" := "c2:p1" ]})]) = Ret "c2".
Proof. vm_compute. reflexivity. Qed.
(** An object that says nothing is in the cluster that has the name of its namespace. *)
Example cluster_of_namespace : ObjectInCluster "ns" (pod_value [("Namespace", GString "ns"); ("ProjectName", GString "p1")]) = Ret true.
Proof. vm_compute. reflexivity. Qed.

Definition logging (name : string) (w : @Lifecycle.world (list string) unit) (key : string) (obj : option nat)
    : @Lifecycle.world (list string) unit * go (option nat * option error) := (mkWorld (heap w) (ext w ++ [name]), Ret (None, None)).
Definition in_c1 (w : @Lifecycle.world (list string) unit) (p : nat) : gvalue :=
  pod_value [("Spec", GStruct "v1.PodSpec" [("ClusterName", GString "c1")])].
Definition two_clusters : list (@registration (list string) unit) :=
  [mkRegistration 0 "a" "c1" (logging "a"); mkRegistration 1 "b" "c2" (logging "b"); mkRegistration 2 "c" "c1" (logging "c")].
Lemma handled_in_own_cluster_witness :
  ext (syncHandler (register_scoped (λ _ _, true) in_c1 (NewGenericController "pods") two_clusters) (λ _, inl (Some 0%nat)) (mkWorld ∅ []) (Key "ns/a")).1
  = ["a"; "c"].
Proof.
  rewrite (handled_in_own_cluster (λ _ _, true) in_c1 "pods" two_clusters "c1" (λ _, inl (Some 0%nat)) (mkWorld ∅ []) "ns/a" 0%nat).
  - vm_compute. reflexivity.
  - reflexivity.
  - split; vm_compute; reflexivity.
  - repeat apply Forall_cons_2; [..|apply Forall_nil; exact I]; intros _ w key p w' r err _ [= <- <- <-];
      (split; [split; vm_compute; reflexivity|intros _ q Hq; discriminate Hq]).
Defined.

Definition demo_controller : @genericController nat (@Lifecycle.world (gmap (string * string) ObjectMeta) unit) :=
  AddLifecycle (λ _ _, true) (NewGenericController "pods") 0 "demo" (mkClient demo_Update demo_Get)
    (mkLifecycle demo_call demo_call demo_call None None).
Lemma work_keeps_cache_witness :
  heap (syncHandler demo_controller (λ _, inl (Some 0%nat)) (demo_start new_meta) (Key "ns/a")).1 !! 0%nat = Some (mkObject (Some new_meta) tt).
Proof.
  destruct (syncHandler demo_controller (λ _, inl (Some 0%nat)) (demo_start new_meta) (Key "ns/a")) as [w' err] eqn:Hs.
  apply (work_keeps_cache (λ _ _, true) (λ _ _, pod_value []) demo_controller (λ _, inl (Some 0%nat)) (demo_start new_meta) (Key "ns/a") w' err).
  - apply built_lifecycle; [apply built_new|exact demo_framed].
  - intros p [= <-]. apply elem_of_dom. vm_compute. by eexists.
  - exact Hs.
  - apply elem_of_dom. vm_compute. by eexists.
Defined.

(** OnChange leaves no mark on the object; OnRemove holds it back. *)
Definition one_handler (g : @genericController nat (@Lifecycle.world (gmap (string * string) ObjectMeta) unit)) : option ObjectMeta :=
  ext (syncHandler g (λ _, inl (Some 0%nat)) (demo_start new_meta) (Key "ns/a")).1 !! ("ns", "a").
Example on_change_unmarked :
  one_handler (OnChange (λ _ _, true) (NewGenericController "pods") 0 "demo" (mkClient demo_Update demo_Get) demo_call) = Some new_meta.
Proof. vm_compute. reflexivity. Qed.
Example on_remove_finalizer :
  finalizers_of <$> one_handler (OnRemove (λ _ _, true) (NewGenericController "pods") 0 "demo" (mkClient demo_Update demo_Get) demo_call)
  = Some ["controller.cattle.io/demo"].
Proof. vm_compute. reflexivity. Qed.
