(* ===== verification/TypedClients.v ===== *)
(** * The generated clients

    Models the clients that generator/controller_template.go,
    k8s_client_template.go and scheme_template.go generate for the controllers
    of a schema, and those that generator/type_template.go and
    client_template.go generate for users of the API.

    The first are an [ObjectClient] for the kind and resource that the templates
    write out, and a second client (Client2) on top; the objects of Go types are
    those of [ObjectSet], and the cast of a result never fails since the factory
    makes the type.  The others are typed calls of [Client].  The theorems say
    that clients, definitions and stores of one schema meet at the same objects
    of the API server. *)

From S2P Require Import Prelude GoStrings Values Errors TypeNames Convert Schemas Query Http Urls Parse Stores ProxyStore ObjectSet Rest ObjectClient Crd Client Generator.
From Stdlib Require Import Ascii.

(** ** Clients of controllers *)
Section Kubernetes.
Context {W : Type} `{KubeEncoding}.
(** GroupName and Version are those of the version the package was generated for. *)
Definition GroupVersionKind_of (version : APIVersion) (sc : Schema) : GVK := mkGVK (Group version) (Version_ version) (CodeName sc).
Definition Resource_of (sc : Schema) : APIResource := mkAPIResource (ToLower (PluralName sc)) (bool_decide (Scope sc = "namespace")).

(** resource/resource.go: the set of the resources of all generated packages,
    which their init functions fill; a collision panics. *)
Abbreviation GVR := (string * string * string)%type.
Definition GroupVersionResource_of (version : APIVersion) (sc : Schema) : GVR := (Group version, Version_ version, ToLower (PluralName sc)).
Definition resource_Put (rancherTypes : gset GVR) (key : GVR) : go (gset GVR) :=
  if decide (key ∈ rancherTypes) then Panic else Ret ({[ key ]} ∪ rancherTypes).
Definition resource_Get (rancherTypes : gset GVR) : gset GVR := rancherTypes.
Definition init_resources (l : list (APIVersion * Schema)) (rancherTypes : gset GVR) : go (gset GVR) :=
  foldM (λ m e, resource_Put m (GroupVersionResource_of e.1 e.2)) l rancherTypes.

(** New: an object of the kind, with a name. *)
Definition New_object (version : APIVersion) (sc : Schema) (namespace name : string) (obj : kobject) : kobject :=
  let g := GroupVersionKind_of version sc in
  mkObject (set_kind (set_apiVersion (o_gvk obj) (apiVersion g)) (g_Kind g))
    (Some match o_meta obj with
          | Some m => mkMeta name namespace (m_labels m) (m_annotations m) (m_resourceVersion m)
          | None => mkMeta name namespace ∅ ∅ ""
          end)
    (o_content obj).

(** Client.Pods(namespace) and the like *)
Definition Getter (version : APIVersion) (sc : Schema) (c : Rest.RestClient W) (watch : option (Rest.RestClient W)) (factory : ObjectFactory)
    (namespace : string) : ObjectClient W :=
  NewObjectClient namespace c watch (Resource_of sc) (GroupVersionKind_of version sc) factory.

(** The methods of the client; those it shares with the object client are its. *)
Definition object_name (o : kobject) : string := default "" (m_name <$> o_meta o).
Definition k8s_Update (p : ObjectClient W) (o : kobject) : prog W (with_error kobject) := ObjectClient.Update p (object_name o) o.
Definition k8s_Patch (p : ObjectClient W) (o : kobject) (patchType data : string) (subresources : list string) : prog W (with_error kobject) :=
  ObjectClient.Patch p (object_name o) o patchType data subresources.

(** Client2: on the client of all namespaces. *)
Definition Client2_Get (iface : ObjectClient W) (namespace name : string) (opts : GetOptions) : prog W (with_error kobject) :=
  ObjectClient.GetNamespaced iface namespace name opts.
Definition Client2_Update (iface : ObjectClient W) (o : kobject) : prog W (with_error kobject) := k8s_Update iface o.
Definition Client2_Delete (iface : ObjectClient W) (namespace name : string) (opts : option DeleteOptions) : prog W (option error) :=
  ObjectClient.DeleteNamespaced iface namespace name opts.
Definition Client2_List (iface : ObjectClient W) (namespace : string) (opts : ListOptions) : prog W (with_error (list kobject)) :=
  ObjectClient.List iface opts.
End Kubernetes.

(** ** One resource for clients, definitions and stores *)
Lemma generated_resource_agrees version sc :
  same_version version sc →
  crd_Group (new_crd sc) = g_Group (GroupVersionKind_of version sc) ∧
  crd_Version (new_crd sc) = g_Version (GroupVersionKind_of version sc) ∧
  crd_Plural (new_crd sc) = ar_Name (Resource_of sc) ∧
  (crd_Scope (new_crd sc) = "Namespaced" ↔ ar_Namespaced (Resource_of sc) = true).
Proof.
  intros [Hg Hv]. simpl. split_and!; [done..|]. rewrite bool_decide_eq_true. by case_decide.
Qed.

(** A program with generated packages starts exactly if no two of their schemas have
    the same group, version and plural, whatever their case. *)
Theorem packages_start l rancherTypes :
  let keys := (λ e : APIVersion * Schema, GroupVersionResource_of e.1 e.2) <$> l in
  match init_resources l rancherTypes with
  | Ret m => NoDup keys ∧ (∀ k, k ∈ keys → k ∉ rancherTypes) ∧ resource_Get m = list_to_set keys ∪ rancherTypes
  | Panic => ¬ NoDup keys ∨ ∃ k, k ∈ keys ∧ k ∈ rancherTypes
  end.
Proof.
  revert rancherTypes. unfold init_resources, resource_Get. induction l as [|[v sc] l IH]; intros m; simpl.
  { split; [constructor|]. split; [set_solver|]. set_solver. }
  set (k := GroupVersionResource_of v sc) in *. unfold resource_Put at 2. destruct (decide (k ∈ m)) as [Hk|Hk]; simpl.
  - right. exists k. set_solver.
  - specialize (IH ({[ k ]} ∪ m)). destruct (foldM _ l _) as [m'|].
    + destruct IH as (Hnd & Hout & ->). split_and!.
      * constructor; [|done]. intros Hin. specialize (Hout k Hin). set_solver.
      * intros k' [->|Hin]%elem_of_cons; [done|]. specialize (Hout k' Hin). set_solver.
      * set_solver.
    + destruct IH as [Hnd|(k' & Hin & [->%elem_of_singleton|Hm]%elem_of_union)].
      * left. by intros [_ ?]%NoDup_cons.
      * left. by intros [? _]%NoDup_cons.
      * right. exists k'. split; [by right|done].
Qed.
(** A name that begins with one capital is the kind of its own schema. *)
Lemma Capitalize_LowerTitle c d s :
  is_upper c = true → is_upper d = false → Capitalize (LowerTitle (String c (String d s))) = String c (String d s).
Proof.
  intros Hc Hd. unfold LowerTitle. cbn [LowerTitle_go]. rewrite Hc, Hd. cbn [andb orb].
  replace (is_upper d && (false || match s with "" => true | String x _ => is_upper x end)) with false by (by rewrite Hd).
  unfold Capitalize. simpl. f_equal. unfold is_upper in Hc. revert Hc. clear. destruct c as [[] [] [] [] [] [] [] []]; vm_compute; done.
Qed.

Section Meeting.
Context {W : Type} `{KubeEncoding} `{SchemaFormat}.
Variable base : list string.
(** Where a store asks for an object: the path of client-go for the parts of its
    request. *)
Definition store_segments (r : rest_request) : list string :=
  base ++ rq_Prefix r ++ in_namespace (rq_Namespace r) ++ [ToLower (rq_Resource r)] ++ option_list (rq_Name r).

(** The generated client of a schema, its custom resource definition and the
    store that is assigned to it meet at the same objects: group, version,
    resource and scope are the same, and a request of the store for an object
    goes to the path of the generated client.  The kinds are the same too if the
    Go name of the schema begins with a single capital, which is all that a
    schema whose names were guessed can have.  For other names they are not, see
    [acronym_kinds_differ]. *)
Theorem clients_and_stores_meet version sc (c : Rest.RestClient W) watch factory n name storageContext crd v :
  same_version version sc → Group (Version sc) ≠ "" → Version_ (Version sc) ≠ "" →
  crd_Group crd = crd_Group (new_crd sc) → crd_Version crd = crd_Version (new_crd sc) → crd_AcceptedPlural crd = crd_Plural (new_crd sc) →
  let p := Getter version sc c watch factory n in
  abs (store_segments (set_name (common (crd_store storageContext crd) n v) name)) = object_path base p n name ∧
  (CodeName sc = Capitalize (ID sc) → crd_Kind (new_crd sc) = g_Kind (gvk p)) ∧
  (crd_Scope (new_crd sc) = "Namespaced" ↔ ar_Namespaced (resource p) = true).
Proof.
  intros Hv Hg Hver Hcg Hcv Hcp p. destruct (generated_resource_agrees version sc Hv) as (Eg & Ev & Ep & Es). split_and!; [|intros Hc; symmetry; exact Hc|done].
  destruct Hv as [Hvg Hvv]. unfold object_path, collection_segments, api_segments, store_segments, getAPIPrefix. simpl. f_equal.
  rewrite Hcg, Hcv, Hcp. simpl. rewrite <- Hvg in Hg |- *. rewrite <- Hvv in Hver |- *.
  rewrite !(decide_False (P := Group version = "")) by done.
  repeat rewrite filter_cons_True by done. simpl. by rewrite <- !app_assoc.
Qed.
End Meeting.

(** An imported schema has the name of its Go type, and an id that is that name
    with the capitals in front lowered. *)
Lemma imported_kinds_agree sc c d s :
  ID sc = LowerTitle (CodeName sc) → CodeName sc = String c (String d s) → is_upper c = true → is_upper d = false →
  CodeName sc = Capitalize (ID sc).
Proof. intros -> -> Hc Hd. by rewrite Capitalize_LowerTitle. Qed.
Definition named_schema (name : string) : Schema :=
  mkSchema (LowerTitle name) false "" name "" "" "" v3 "" [] ∅ ∅ [] ∅ ∅ "" "namespace" None.
(** A name that begins with an acronym is not: the definition is created for
    another kind than the one the generated client writes into its objects. *)
Example acronym_kinds_differ :
  crd_Kind (new_crd (named_schema "HTTPRoute")) = "HttpRoute" ∧ g_Kind (GroupVersionKind_of v3 (named_schema "HTTPRoute")) = "HTTPRoute" ∧
  crd_Kind (new_crd (named_schema "Route")) = g_Kind (GroupVersionKind_of v3 (named_schema "Route")).
Proof. vm_compute. done. Qed.

(** ** Clients of the API *)
Section Typed.
Context {W : Type} `{MapRange} `{GoFormat} `{ClientJSON} `{UrlEdit}.
Variable http : HttpClient W.
Variable sprint_resource : Client.Resource → string.
(** The struct of a schema: what it embeds and how it is written and read; an
    empty one.  [collection] is its collection, with the link to the next page. *)
Context {T : Type}.
Variables (embedded : T → Client.Resource) (written : T → value) (zero : T) (read : value → T).
Variable collection_of : value → option string * list T.
Variables (a : APIBaseClient) (sc : Schema).
(** The constant with the name of the type. *)
Definition type_constant : string := ID sc.
Record TypedCollection := mkTypedCollection { col_Next : option string; col_Data : list T; col_client : APIBaseClient }.

(** A response object is returned as it is, with or without an error. *)
Definition answered (r : answer (option value)) : T * option client_error :=
  match r with inl v => (default zero (read <$> v), None) | inr err => (zero, Some err) end.
Definition answered_value (r : answer value) : T * option client_error :=
  match r with inl v => (read v, None) | inr err => (zero, Some err) end.
Definition collected (client : APIBaseClient) (r : answer value) : TypedCollection * option client_error :=
  match r with
  | inl v => let '(next, data) := collection_of v in (mkTypedCollection next data client, None)
  | inr err => (mkTypedCollection None [] client, Some err)
  end.
(** The address of a part of a nil struct panics. *)
Definition part (x : option T) : go Client.Resource := match x with Some x => Ret (embedded x) | None => Panic end.

Definition typed_Create (container : option T) : prog W (T * option client_error) :=
  r ← client_Create http a type_constant (written <$> container); mret (answered r).
Definition typed_Update (existing : option T) (updates : option value) : prog W (T * option client_error) :=
  res ← lift (part existing);
  r ← client_Update http sprint_resource a type_constant (Some res) updates; mret (answered r).
Definition typed_Replace (obj : option T) : prog W (T * option client_error) :=
  res ← lift (part obj);
  r ← client_Replace http sprint_resource a type_constant (Some res) (written <$> obj); mret (answered r).
Definition typed_List (filters : gmap string value) : prog W (TypedCollection * option client_error) :=
  r ← client_List http a type_constant filters; mret (collected a r).
(** Next: nothing, without a request, behind the last page. *)
Definition typed_Next (cc : option TypedCollection) : prog W (option TypedCollection * option client_error) :=
  match cc with
  | Some cc =>
      let url := default "" (col_Next cc) in
      if decide (url = "") then mret (None, None)
      else
        r ← with_ops (col_client cc) (λ o tr _, DoNext http o tr url);
        let '(c, err) := collected (col_client cc) r in mret (Some c, err)
  | None => mret (None, None)
  end.
Definition typed_ByID (id : string) : prog W (T * option client_error) :=
  r ← client_ByID http a type_constant id; mret (answered_value r).
Definition typed_Delete (container : option T) : prog W (option client_error) :=
  res ← lift (part container);
  with_ops a (λ o tr ts, DoResourceDelete http sprint_resource o tr ts type_constant res).

(** Actions, which differ in what they take and give: an action without an input
    is called without a body, the answer to one without an output is not read.
    For those of a collection [existing] is what the collection embeds. *)
Definition typed_Action (name : string) (action : Action) (existing : go Client.Resource) (input : option value) :
    prog W (answer (option value)) :=
  res ← lift existing;
  client_Action http sprint_resource a type_constant name (Some res)
    (if decide (Input action = "") then None else input) (negb (bool_decide (Output action = ""))).
(** The methods that are generated: only for types that can be listed. *)
Definition typed_methods (s : Schemas) : list string :=
  if hasGet sc then
    ["Create"; "Update"; "Replace"; "List"; "ByID"; "Delete"]
      ++ ((λ e, "Action" +:+ Capitalize e.1) <$> range (getResourceActions sc s))
      ++ ((λ e, "CollectionAction" +:+ Capitalize e.1) <$> range (getCollectionActions sc s))
  else [].

(** Following the links of the pages: as often as Next gives one. *)
Fixpoint follow (n : nat) (cc : TypedCollection) : prog W (list T * option client_error) :=
  match n with
  | O => mret (col_Data cc, None)
  | S n =>
      '(next, err) ← typed_Next (Some cc);
      match next, err with
      | Some cc', None => '(l, err) ← follow n cc'; mret (col_Data cc ++ l, err)
      | _, err => mret (col_Data cc, err)
      end
  end.
(** The pages of a collection as a service gives them, each with the link to the
    next. *)
Inductive pages_from (w : W) : TypedCollection → list T → Prop :=
| last_page cc : default "" (col_Next cc) = "" → pages_from w cc (col_Data cc)
| a_page cc url v cc' l : col_Next cc = Some url → url ≠ "" →
    with_ops (col_client cc) (λ o tr _, DoNext http o tr url) w = (w, Ret (inl v)) →
    collected (col_client cc) (inl v) = (cc', None) → pages_from w cc' l → pages_from w cc (col_Data cc ++ l).

(** Following Next gives all that is on the pages, in order and without an
    error; enough steps are as many as there are pages, and more change nothing. *)
Theorem next_follows_pages w cc l :
  pages_from w cc l → ∃ n, ∀ m, (n ≤ m)%nat → follow m cc w = (w, Ret (l, None)).
Proof.
  induction 1 as [cc Hn|cc url v cc' l Hn Hne Hv Hc _ (n & IH)].
  - exists 0%nat. intros [|m] _; [done|]. simpl. unfold typed_Next. by rewrite decide_True.
  - exists (S n). intros [|m] Hm; [lia|]. simpl. unfold typed_Next. rewrite Hn. simpl. rewrite decide_False by done.
    unfold mbind, prog_bind. rewrite Hv, Hc. simpl. by rewrite IH by lia.
Qed.
End Typed.
