(* ===== verification/Connect.v ===== *)
(** * Clients from a configuration

    How the clients of a generated package are made: NewForConfig, Factory, From
    and ClientsFrom of generator/k8s_client_template.go, with restwatch/rest.go,
    which gives watches a client of their own, and what decodes the answers,
    objectclient/dynamic/content.go.  Also the small steps before: waiting for
    the API server (pkg/k8scheck/wait.go) and pkg/resolvehome.

    A configuration of client-go is what it says about time and encoding with
    the rest; building a client from it is a parameter. *)

From S2P Require Import Prelude GoStrings Values Errors TypeNames Convert Schemas Query Http Urls Parse Stores ProxyStore ObjectSet Rest ObjectClient TypedClients.

Section Connect.
Context {W : Type} `{KubeEncoding} `{SchemaFormat}.

(** ** restwatch/rest.go *)
(** rest.Config: [K] is a serializer, [T] all other fields. *)
Context {K T : Type}.
Record restConfig := mkRestConfig { cfg_Timeout : Z; cfg_NegotiatedSerializer : option K; cfg_rest : T }.
Definition set_Timeout (c : restConfig) (t : Z) : restConfig := mkRestConfig t (cfg_NegotiatedSerializer c) (cfg_rest c).
Variable rest_UnversionedRESTClientFor : restConfig → result (Rest.RestClient W).
(** A client, with the one for watches ([WatchClient]) if it is a clientWithWatch. *)
Definition UnversionedRESTClientFor (config : restConfig) : result (Rest.RestClient W * option (Rest.RestClient W)) :=
  match rest_UnversionedRESTClientFor config with
  | inr err => inr err
  | inl client =>
      if decide (cfg_Timeout config = 0) then inl (client, None)
      else match rest_UnversionedRESTClientFor (set_Timeout config (30 * Minute)) with
           | inr err => inr err
           | inl watchClient => inl (client, Some watchClient)
           end
  end.

(** ** The client of a generated package *)
Variable dynamic_NegotiatedSerializer : K.
Definition with_NegotiatedSerializer (c : restConfig) : restConfig :=
  mkRestConfig (cfg_Timeout c) (Some (default dynamic_NegotiatedSerializer (cfg_NegotiatedSerializer c))) (cfg_rest c).
(** A package: its path, its version and its schemas, each with its factory. *)
Record package := mkPackage { pkg_path : string; pkg_version : APIVersion; pkg_schemas : list (Schema * ObjectFactory) }.
(** [Generated] says what happens to the controllers, of which there are none
    yet. *)
Record pkg_client := mkPkgClient { pc_restClient : Rest.RestClient W; pc_watchClient : option (Rest.RestClient W) }.
Definition NewForConfig (config : restConfig) : result pkg_client :=
  match UnversionedRESTClientFor (with_NegotiatedSerializer config) with
  | inr err => inr err
  | inl (c, watch) => inl (mkPkgClient c watch)
  end.
(** The typed client of a schema. *)
Definition client_for (p : package) (c : pkg_client) (e : Schema * ObjectFactory) (namespace : string) : ObjectClient W :=
  Getter (pkg_version p) e.1 (pc_restClient c) (pc_watchClient c) e.2 namespace.
Record pkg_clients := mkPkgClients { pcs_Interface : pkg_client; pcs_clients : list (string * ObjectClient W) }.
Definition NewClientsFromInterface (p : package) (iface : pkg_client) : pkg_clients :=
  mkPkgClients iface ((λ e, (CodeName e.1, client_for p iface e "")) <$> pkg_schemas p).
Definition NewClients (p : package) (config : restConfig) : result pkg_clients :=
  match NewForConfig config with inr err => inr err | inl iface => inl (NewClientsFromInterface p iface) end.

(** A context holds values under keys, each of a type of its own: those of two
    packages are different. *)
Inductive context_key := contextKey (path : string) | contextClientsKey (path : string).
#[global] Instance context_key_eq_dec : EqDecision context_key.
Proof. solve_decision. Defined.
Inductive context_value := InterfaceValue (c : pkg_client) | ClientsValue (cs : pkg_clients).
Definition context := list (context_key * context_value).
Definition WithValue (ctx : context) (k : context_key) (v : context_value) : context := (k, v) :: ctx.
Fixpoint Value (ctx : context) (k : context_key) : option context_value :=
  match ctx with [] => None | (k', v) :: ctx => if decide (k = k') then Some v else Value ctx k end.
Definition Factory (p : package) (ctx : context) (config : restConfig) : context * option pkg_client * option error :=
  match NewForConfig config with
  | inr err => (ctx, None, Some err)
  | inl c =>
      let cs := NewClientsFromInterface p c in
      let ctx := WithValue ctx (contextKey (pkg_path p)) (InterfaceValue c) in
      let ctx := WithValue ctx (contextClientsKey (pkg_path p)) (ClientsValue cs) in
      (ctx, Some c, None)
  end.
(** A type assertion panics when the factory was not run. *)
Definition From (p : package) (ctx : context) : go pkg_client :=
  match Value ctx (contextKey (pkg_path p)) with Some (InterfaceValue c) => Ret c | _ => Panic end.
Definition ClientsFrom (p : package) (ctx : context) : go pkg_clients :=
  match Value ctx (contextClientsKey (pkg_path p)) with Some (ClientsValue cs) => Ret cs | _ => Panic end.
(** The factories of several packages, one after the other as Build runs them. *)
Fixpoint Factories (ps : list package) (ctx : context) (config : restConfig) : context * option error :=
  match ps with
  | [] => (ctx, None)
  | p :: ps => match Factory p ctx config with (ctx, _, Some err) => (ctx, Some err) | (ctx, _, None) => Factories ps ctx config end
  end.

(** A client is one of the configuration with a serializer; when the configuration
    has a timeout, the watches of all typed clients have half an hour instead. *)
Theorem watches_outlive_timeout p config c e namespace : NewForConfig config = inl c →
  let config := with_NegotiatedSerializer config in let o := client_for p c e namespace in
  rest_UnversionedRESTClientFor config = inl (restClient o) ∧
  rest_UnversionedRESTClientFor (if decide (cfg_Timeout config = 0) then config else set_Timeout config (30 * Minute)) =
    inl (default (restClient o) (watchClient o)).
Proof.
  unfold NewForConfig, UnversionedRESTClientFor. destruct (rest_UnversionedRESTClientFor _) as [client|] eqn:Hc; [|done].
  destruct (decide _).
  - intros [= <-]. by split.
  - destruct (rest_UnversionedRESTClientFor (set_Timeout _ _)) as [w|] eqn:Hw; [|done]. intros [= <-]. by split.
Qed.

Lemma Factories_keep ps config : ∀ ctx ctx' err k,
  Factories ps ctx config = (ctx', err) → (∀ p, p ∈ ps → k ≠ contextKey (pkg_path p) ∧ k ≠ contextClientsKey (pkg_path p)) →
  Value ctx' k = Value ctx k.
Proof.
  induction ps as [|p ps IH]; intros ctx ctx' err k Hf Hk; simpl in Hf; [by injection Hf as <-|].
  unfold Factory in Hf. destruct (NewForConfig config) as [c|]; [|by injection Hf as <-].
  destruct (Hk p ltac:(by left)) as [H1 H2]. rewrite (IH _ _ _ _ Hf) by (intros; apply Hk; by right). simpl.
  by rewrite !decide_False by done.
Qed.
(** Packages do not disturb each other: when the factories of different packages
    succeed, each finds its own client, with the typed clients of its schemas;
    the context keeps what else it holds.  If one fails all do. *)
Theorem factories_keep_apart ps ctx config ctx' err :
  NoDup (pkg_path <$> ps) → Factories ps ctx config = (ctx', err) →
  match err with
  | Some err => NewForConfig config = inr err ∧ ctx' = ctx
  | None => ∀ p, p ∈ ps → ∃ c, NewForConfig config = inl c ∧ From p ctx' = Ret c ∧ ClientsFrom p ctx' = Ret (NewClientsFromInterface p c)
  end ∧
  ∀ p, pkg_path p ∉ pkg_path <$> ps → From p ctx' = From p ctx ∧ ClientsFrom p ctx' = ClientsFrom p ctx.
Proof.
  intros Hnd Hf. split.
  - revert ctx Hf. induction ps as [|p ps IH]; intros ctx Hf; simpl in Hf; [injection Hf as <- <-; by intros p ?%elem_of_nil|].
    apply NoDup_cons in Hnd as [Hp Hnd]. unfold Factory in Hf. destruct (NewForConfig config) as [c|e] eqn:Hc; [|by injection Hf as <- <-].
    specialize (IH Hnd _ Hf). destruct err as [err|]; [by destruct IH|].
    intros q [->|Hq]%elem_of_cons; [|by apply IH]. exists c. unfold From, ClientsFrom.
    rewrite !(Factories_keep _ _ _ _ _ _ Hf); [simpl; by rewrite !decide_True| |];
      intros q Hq; (split; [|]; try done); intros [= Heq]; apply Hp; rewrite Heq; by apply list_elem_of_fmap_2.
  - intros p Hp. unfold From, ClientsFrom. rewrite !(Factories_keep _ _ _ _ _ _ Hf); [done| |];
      intros q Hq; (split; [|]; try done); intros [= Heq]; apply Hp; rewrite Heq; by apply list_elem_of_fmap_2.
Qed.
End Connect.

(** ** objectclient/dynamic/content.go *)
Section Dynamic.
(** The decoder of apimachinery gives a status or another object, and the kind it
    read. *)
Context {Status : Type} (unstructured_Decode : string → result (decoded (Status := Status) * GVK)) (unmarshal_status : string → result Status).
Definition dynamicCodec_Decode (data : string) : result (decoded (Status := Status) * GVK) :=
  match unstructured_Decode data with
  | inr err => inr err
  | inl (DStatus s, gvk) => inl (DStatus s, gvk)
  | inl (DObject o, gvk) =>
      if decide (ToLower (g_Kind gvk) = "status") then
        match unmarshal_status data with inl s => inl (DStatus s, gvk) | inr err => inr err end
      else inl (DObject o, gvk)
  end.
(** An error of the API server is never taken for an object. *)
Theorem statuses_recognised data r gvk : dynamicCodec_Decode data = inl (r, gvk) → ToLower (g_Kind gvk) = "status" → ∃ s, r = DStatus s.
Proof.
  unfold dynamicCodec_Decode. destruct (unstructured_Decode data) as [[[o|s] g]|]; [|by intros [= <- <-]; eexists|done].
  case_decide as Hk; [|by intros [= <- <-]]. destruct (unmarshal_status data) as [s|]; [|done]. intros [= <- <-] _. by eexists.
Qed.
End Dynamic.

(** ** pkg/k8scheck/wait.go *)
(** What the API server answers, each time, and whether the context is done before
    the next; [None] while Wait waits. *)
Fixpoint Wait_loop (answers : list (option error * bool)) : option (option error) :=
  match answers with
  | [] => None
  | (None, _) :: _ => Some None
  | (Some _, true) :: _ => Some (Some (ErrorString "startup canceled"))
  | (Some _, false) :: answers => Wait_loop answers
  end.
Definition Wait (NewForConfig : option error) (answers : list (option error * bool)) : option (option error) :=
  match NewForConfig with Some err => Some (Some err) | None => Wait_loop answers end.
(** Wait succeeds exactly if the API server answers, and it was not cancelled
    before. *)
Theorem Wait_correct answers :
  Wait None answers = Some None ↔ ∃ failed b rest, answers = failed ++ (None, b) :: rest ∧ Forall (λ a, is_Some a.1 ∧ a.2 = false) failed.
Proof.
  simpl. split.
  - induction answers as [|[[err|] b] answers IH]; simpl; [done| |intros _; by exists [], b, answers].
    destruct b; [done|]. intros Hw. destruct (IH Hw) as (failed & b & rest & -> & Hf). exists ((Some err, false) :: failed), b, rest.
    split; [done|]. constructor; [split; [by eexists|done]|done].
  - intros (failed & b & rest & -> & Hf). induction Hf as [|[[err|] b'] failed [Hs Hb] Hf IH]; simpl in *; [done| |by destruct Hs].
    by subst b'.
Qed.

(** ** pkg/resolvehome/home.go *)
Definition homes : list string := ["$HOME"; "${HOME}"; "~"].
(** An error of the user data base is wrapped. *)
Definition getHomeDir (uid : Z) (user_Current : result string) : result string :=
  if decide (uid = 0) then inl "/root"
  else match user_Current with
       | inl dir => inl dir
       | inr err => inr (ErrorString ("determining current user, try set HOME and USER env vars: " +:+ Errors.Error err))
       end.
(** strings.Replace of all occurrences of a string that is not empty. *)
Definition ReplaceAll (s old new : string) : string := Join (SplitStr s old) new.
Fixpoint resolve_homes (l : list string) (home : result string) (s : string) : result string :=
  match l with
  | [] => inl s
  | h :: l =>
      if Contains s h then
        match home with
        | inr err => inr (ErrorString ("determining current user: " +:+ Errors.Error err))
        | inl dir => resolve_homes l home (ReplaceAll s h dir)
        end
      else resolve_homes l home s
  end.
Definition Resolve (uid : Z) (user_Current : result string) (s : string) : result string := resolve_homes homes (getHomeDir uid user_Current) s.
(** A path that names no home is kept, whoever the user is; for the superuser every
    path is resolved. *)
Theorem Resolve_correct uid user_Current s :
  ((∀ h, h ∈ homes → Contains s h = false) → Resolve uid user_Current s = inl s) ∧
  ∃ s', Resolve 0 user_Current s = inl s'.
Proof.
  unfold Resolve. split.
  - generalize homes. intros l. induction l as [|h l IH]; intros Hl; [done|]. simpl. rewrite (Hl h) by (by left). apply IH.
    intros h' Hh'. apply Hl. by right.
  - unfold getHomeDir. rewrite decide_True by done. revert s. generalize homes. intros l. induction l as [|h l IH]; intros s; [by eexists|].
    simpl. destruct (Contains s h); apply IH.
Qed.
Example homes_resolved :
  Resolve 0 (inr (ErrorString "no user")) "${HOME}/a:$HOME/b:~/c" = inl "/root/a:/root/b:/root/c" ∧
  Resolve 1000 (inl "/home/me") "~/.kube/config" = inl "/home/me/.kube/config" ∧
  Resolve 1000 (inr (ErrorString "no user")) "./state" = inl "./state".
Proof. by vm_compute. Qed.
