(* ===== verification/Startup.v ===== *)
(** * Starting a server

    Models build.go and types.go (Config.Build and what it calls), leader.go
    and kwrapper/k8s/config.go: how a server is put together from its
    configuration, in which order, and what a failure leaves behind.

    The configuration has the callbacks of the user, the platform the
    constructors of client-go; both are programs over a world.  Contexts,
    clients and configurations of clients are abstract.  The fields of Config
    that Build fills in are a record of their own, [Settings].  A goroutine that
    Build starts is recorded with its program; a fatal log or a panic in a
    goroutine ends the process and is a panic here, and so is a recursion that
    runs out of fuel, which overflows the stack. *)

From S2P Require Import Prelude GoStrings Values Errors TypeNames Convert Schemas Query Http Parse Access Stores Server ProxyStore Rest Crd Generated.

Section Startup.
(** Worlds, contexts, configurations and clients, and what k3s makes. *)
Context {W C R G U K E T H : Type}.
Context `{MapRange} `{SchemaFormat} `{CrdCodec}.

(** What client-go is told about an election; durations in seconds. *)
Record LeaderElectionConfig := mkElection {
  lock_namespace : string;
  lock_name : string;
  lock_identity : string;
  LeaseDuration : Z;
  RenewDeadline : Z;
  RetryPeriod : Z
}.

Record Platform := mkPlatform {
  getenv : string → W → string;
  nil_context : C;
  with_server : C → C;
  BuildConfigFromFlags : string → prog W (option R * option error);
  InClusterConfig : prog W (result R);
  BearerToken : R → string;
  set_BearerToken : string → R → R;
  ReadFile : string → prog W (result string);
  getEmbedded : C → prog W (bool * C * option R * option error);
  NewK3sConfig : C → string → prog W (C * option T * option H * option error);
  NewTunnelServer : H;
  Hostname : prog W (result string);
  (* leaderelection.RunOrDie: calls back when elected, returns when the lead is lost *)
  elect : C → LeaderElectionConfig → (C → prog W unit) → prog W unit;
  with_serializer : R → R;                 (* the dynamic serializer, if there is none *)
  UnversionedRESTClientFor : R → result U;
  simple_getter : R → U → E → G;           (* a simpleClientGetter, as an interface *)
  NewKubernetesClient : R → result K;
  NewAPIExtClient : R → result E;
  crd_client : option G → Rest.RestClient W * option error   (* APIExtClient of a getter *)
}.
Variable platform : Platform.

(** ** store/proxy/proxy_store.go: the clients of a configuration *)
Definition NewClientGetterFromConfig (config : R) : result G :=
  let dynamicConfig := with_serializer platform config in
  match UnversionedRESTClientFor platform dynamicConfig with
  | inr err => inr err
  | inl unversionedClient =>
      match NewAPIExtClient platform dynamicConfig with
      | inr err => inr err
      | inl apiExtClient => inl (simple_getter platform config unversionedClient apiExtClient)
      end
  end.

(** ** kwrapper/k8s/config.go *)
Definition getExternal (kubeConfig : string) : prog W (option R * option error) := BuildConfigFromFlags platform kubeConfig.
Definition getAuto (ctx : C) (kubeConfig : string) : prog W (bool * C * option R * option error) :=
  if decide (kubeConfig = "") then
    r ← InClusterConfig platform;
    match r with
    | inl config =>
        if decide (BearerToken platform config = "") then
          r ← ReadFile platform "/var/run/secrets/kubernetes.io/serviceaccount/token";
          mret (false, ctx, Some (match r with inl token => set_BearerToken platform token config | inr _ => config end), None)
        else mret (false, ctx, Some config, None)
    | inr _ => getEmbedded platform ctx
    end
  else
    '(cfg, err) ← getExternal kubeConfig;
    mret (false, ctx, cfg, err).
Definition GetConfig (ctx : C) (k8sMode kubeConfig : string) : prog W (bool * C * option R * option error) :=
  if decide (k8sMode = "auto") then getAuto ctx kubeConfig
  else if decide (k8sMode = "embedded") then getEmbedded platform ctx
  else if decide (k8sMode = "external") then '(cfg, err) ← getExternal kubeConfig; mret (false, ctx, cfg, err)
  else mret (false, nil_context platform, None, Some (ErrorString ("invalid k8s-mode " +:+ k8sMode))).

(** ** types.go *)
Record Settings := mkSettings {
  Threadiness : Z;
  KubeConfig : string;
  RestConfig : option R;                 (* Config.Config *)
  ClientGetter : option G;
  K8sClient : option K;
  APIExtClient : option E
}.
(** The handler of the API: its registry, and whether the built-in schemas were
    added. *)
Abbreviation api := (Schemas * bool)%type.
Record Config := mkConfig {
  c_Name : string;
  DisableAPI : bool;
  c_Schemas : list Schemas;
  CRDs : list (APIVersion * list string);  (* in the order it is ranged over *)
  Clients : list (C → R → prog W (C * Starter W * option error));
  CRDStorageContext : string;
  LeaderLockNamespace : string;
  IgnoredKubeConfigEnv : bool;
  K3s_DataDir : string;
  K3s_RemoteDialerAuthorizer : bool;      (* whether there is one *)
  CustomizeSchemas : option (C → option G → Schemas → prog W (Schemas * option error));
  GlobalSetup : option (C → prog W (C * option error));
  MasterSetup : option (C → prog W (C * option error));
  PreStart : option (C → prog W (option error));
  APISetup : option (C → api → prog W (api * option error));
  PerServerControllers : list (C → prog W (option error));
  MasterControllers : list (C → prog W (option error))
}.
Record Options := mkOptions { o_KubeConfig : string; o_K8sMode : string; DisableControllers : bool }.
Record Runtime := mkRuntime {
  AllSchemas : Schemas;
  SchemaStores : gmap string proxy;      (* the stores of the schemas, by pointer *)
  LocalConfig : option R;
  APIHandler : option api;
  K3sTunnelServer : option H;
  K3sServerConfig : option T;
  Embedded : bool
}.

(** ** Build as the code is written: statements that may return early *)
Record build := mkBuild { b_settings : Settings; b_runtime : Runtime; b_spawned : list (prog W unit) }.
Definition stage (A : Type) : Type := build → prog W (build * (A + C * error)).
#[local] Instance stage_ret : MRet stage := λ A a b, mret (b, inl a).
#[local] Instance stage_bind : MBind stage := λ A B f m b,
  '(b, r) ← m b; match r with inl a => f a b | inr e => mret (b, inr e) end.
Definition run {A} (p : prog W A) : stage A := λ b, a ← p; mret (b, inl a).
Definition fail {A} (ctx : C) (err : error) : stage A := λ b, mret (b, inr (ctx, err)).
Definition check (ctx : C) (err : option error) : stage unit :=
  match err with Some err => fail ctx err | None => mret tt end.
Definition the_build : stage build := λ b, mret (b, inl b).
Definition set_settings (s : Settings) : stage unit := λ b, mret (mkBuild s (b_runtime b) (b_spawned b), inl tt).
Definition set_runtime (r : Runtime) : stage unit := λ b, mret (mkBuild (b_settings b) r (b_spawned b), inl tt).
(** A go statement. *)
Definition spawn (p : prog W unit) : stage unit := λ b, mret (mkBuild (b_settings b) (b_runtime b) (b_spawned b ++ [p]), inl tt).
Definition the_settings : stage Settings := b ← the_build; mret (b_settings b).
Definition the_runtime : stage Runtime := b ← the_build; mret (b_runtime b).
Definition set_AllSchemas (s : Schemas) : stage unit :=
  r ← the_runtime;
  set_runtime (mkRuntime s (SchemaStores r) (LocalConfig r) (APIHandler r) (K3sTunnelServer r) (K3sServerConfig r) (Embedded r)).
(** A nil pointer that is dereferenced. *)
Definition deref {A} (o : option A) : stage A := run (lift match o with Some a => Ret a | None => Panic end).

Variable c : Config.
(** The fuel of the registry, where it keeps a schema, the error of a context and
    the ticks of a poll of [Crd], and the order in which starters are synced. *)
Variables (fuel : nat) (pointer : Schema → string) (ctx_Err : W → option error) (ticks : string → nat)
  (ended : list (Starter W) → list (Starter W)).

Definition set_threadiness (s : Settings) (n : Z) : Settings :=
  mkSettings n (KubeConfig s) (RestConfig s) (ClientGetter s) (K8sClient s) (APIExtClient s).
Definition set_kubeconfig (s : Settings) (k : string) : Settings :=
  mkSettings (Threadiness s) k (RestConfig s) (ClientGetter s) (K8sClient s) (APIExtClient s).
Definition set_rest (s : Settings) (r : option R) : Settings :=
  mkSettings (Threadiness s) (KubeConfig s) r (ClientGetter s) (K8sClient s) (APIExtClient s).
Definition set_getter (s : Settings) (g : G) : Settings :=
  mkSettings (Threadiness s) (KubeConfig s) (RestConfig s) (Some g) (K8sClient s) (APIExtClient s).
Definition set_k8s (s : Settings) (k : K) : Settings :=
  mkSettings (Threadiness s) (KubeConfig s) (RestConfig s) (ClientGetter s) (Some k) (APIExtClient s).
Definition set_apiext (s : Settings) (e : E) : Settings :=
  mkSettings (Threadiness s) (KubeConfig s) (RestConfig s) (ClientGetter s) (K8sClient s) (Some e).

(** The configuration of the client, found if there is none. *)
Definition find_config (ctx : C) (opts : Options) : stage C :=
  s ← the_settings;
  let mode := if decide (o_K8sMode opts = "") then "auto" else o_K8sMode opts in
  env ← run (λ w, (w, Ret (getenv platform "KUBECONFIG" w)));
  let envConfig := if decide (KubeConfig s = "") then (if IgnoredKubeConfigEnv c then "" else env) else KubeConfig s in
  ctx ← (if bool_decide (K3s_DataDir c ≠ "") && K3s_RemoteDialerAuthorizer c then
           '(ctx, config, tunnel, err) ← run (NewK3sConfig platform ctx (K3s_DataDir c));
           r ← the_runtime;
           _ ← set_runtime (mkRuntime (AllSchemas r) (SchemaStores r) (LocalConfig r) (APIHandler r) tunnel config (Embedded r));
           _ ← check ctx err;
           mret ctx
         else mret ctx);
  '(embedded, ctx, cfg, err) ← run (GetConfig ctx mode envConfig);
  r ← the_runtime;
  _ ← set_runtime (mkRuntime (AllSchemas r) (SchemaStores r) (LocalConfig r) (APIHandler r) (K3sTunnelServer r) (K3sServerConfig r) embedded);
  _ ← set_settings (set_rest s cfg);
  _ ← check ctx err;
  mret ctx.
Definition defaults (ctx : C) (opts : Options) : stage C :=
  s ← the_settings;
  let s := if decide (Threadiness s ≤ 0)%Z then set_threadiness s 5 else s in
  _ ← set_settings (if decide (o_KubeConfig opts = "") then s else set_kubeconfig s (o_KubeConfig opts));
  ctx ← match RestConfig s with Some _ => mret ctx | None => find_config ctx opts end;
  s ← the_settings;
  r ← the_runtime;
  _ ← set_runtime (mkRuntime (AllSchemas r) (SchemaStores r) (RestConfig s) (APIHandler r) (K3sTunnelServer r) (K3sServerConfig r) (Embedded r));
  match ClientGetter s with
  | Some _ => mret ctx
  | None =>
      config ← deref (RestConfig s);
      match NewClientGetterFromConfig config with
      | inr err => fail ctx err
      | inl cg => _ ← set_settings (set_getter s cg); mret ctx
      end
  end.

(** The schemas of the configuration; their errors stay in the registry. *)
Fixpoint add_all (s : Schemas) (l : list Schemas) : option Schemas :=
  match l with [] => Some s | x :: l => s ← AddSchemas fuel s x; add_all s l end.
Definition add_schemas : stage unit :=
  r ← the_runtime;
  s ← deref (add_all (AllSchemas r) (c_Schemas c));
  set_AllSchemas s.

(** The batches run concurrently, each for the schemas of a version, until all
    have ended; a panic of one ends the process. *)
Fixpoint run_batches (getter : option G) (s : Schemas) (batches : list (APIVersion * list string)) (stores : gmap string proxy)
    : prog W (gmap string proxy) :=
  match batches with
  | [] => mret stores
  | (version, ids) :: batches =>
      let '(client, err) := crd_client platform getter in
      stores ← BatchCreateCRDs client err ctx_Err ticks (CRDStorageContext c) s version pointer ids stores;
      run_batches getter s batches stores
  end.
Definition createCRDs : stage unit :=
  s ← the_settings;
  r ← the_runtime;
  stores ← run (run_batches (ClientGetter s) (AllSchemas r) (CRDs c) (SchemaStores r));
  set_runtime (mkRuntime (AllSchemas r) stores (LocalConfig r) (APIHandler r) (K3sTunnelServer r) (K3sServerConfig r) (Embedded r)).

(** A client that is there, or a new one. *)
Definition client_of {A} (ctx : C) (o : option A) (new : R → result A) : stage A :=
  match o with
  | Some a => mret a
  | None =>
      s ← the_settings;
      config ← deref (RestConfig s);
      match new config with inl a => mret a | inr err => fail ctx err end
  end.
Fixpoint start_clients (ctx : C) (factories : list (C → R → prog W (C * Starter W * option error))) : stage (C * list (Starter W)) :=
  match factories with
  | [] => mret (ctx, [])
  | f :: factories =>
      s ← the_settings;
      config ← deref (RestConfig s);
      '(ctx, starter, err) ← run (f ctx config);
      _ ← check ctx err;
      '(ctx, starters) ← start_clients ctx factories;
      mret (ctx, starter :: starters)
  end.
Definition clients (ctx : C) : stage (C * list (Starter W)) :=
  s ← the_settings;
  k ← client_of ctx (K8sClient s) (NewKubernetesClient platform);
  let s := set_k8s s k in
  _ ← set_settings s;
  e ← client_of ctx (APIExtClient s) (NewAPIExtClient platform);
  _ ← set_settings (set_apiext s e);
  start_clients ctx (Clients c).

Fixpoint registerControllers (ctx : C) (controllers : list (C → prog W (option error))) : prog W (option error) :=
  match controllers with
  | [] => mret None
  | f :: controllers =>
      err ← f ctx;
      match err with
      | Some err => mret (Some (ErrorString ("failed to start controller: " +:+ Error err)))
      | None => registerControllers ctx controllers
      end
  end.

(** apiServer *)
Definition apiServer (ctx : C) : stage unit :=
  r ← the_runtime;
  let tunnel := match K3sTunnelServer r with
                | None => if K3s_RemoteDialerAuthorizer c then Some (NewTunnelServer platform) else None
                | Some t => Some t
                end in
  let r := mkRuntime (AllSchemas r) (SchemaStores r) (LocalConfig r) (APIHandler r) tunnel (K3sServerConfig r) (Embedded r) in
  _ ← set_runtime r;
  '(server, err) ← deref (server_AddSchemas fuel false (NewSchemas None, false) (AllSchemas r));
  _ ← check ctx err;
  let handler server := mkRuntime (AllSchemas r) (SchemaStores r) (LocalConfig r) (Some server) tunnel (K3sServerConfig r) (Embedded r) in
  _ ← set_runtime (handler server);
  match APISetup c with
  | None => mret tt
  | Some f =>
      '(server, err) ← run (f ctx server);
      _ ← set_runtime (handler server);
      check ctx err
  end.

(** ** leader/leader.go *)
Definition leader_config (namespace name id : string) (dev_mode : bool) : LeaderElectionConfig :=
  let t := if dev_mode then 3600%Z else 1%Z in
  mkElection (if decide (namespace = "") then "kube-system" else namespace) name id (45 * t) (30 * t) (2 * t).
Definition leader_run (ctx : C) (namespace name : string) (cb : C → prog W unit) : prog W (option error) :=
  id ← Hostname platform;
  match id with
  | inr err => mret (Some err)
  | inl id =>
      dev ← (λ w, (w, Ret (bool_decide (getenv platform "NORMAN_DEV_MODE" w ≠ ""))));
      _ ← elect platform ctx (leader_config namespace name id dev) cb;
      lift Panic
  end.
(** RunOrDie of package leader: it ends the process. *)
Definition RunOrDie (ctx : C) (namespace name : string) (cb : C → prog W unit) : prog W unit :=
  _ ← leader_run ctx namespace name cb; lift Panic.

(** ** Build *)
Definition fatal (err : option error) : prog W unit := match err with Some _ => lift Panic | None => mret tt end.
(** What the leader does until its context is done. *)
Definition lead (threadiness : Z) (starters : list (Starter W)) (ctx : C) : prog W unit :=
  ctx ← match MasterSetup c with
        | None => mret ctx
        | Some f => '(ctx, err) ← f ctx; _ ← fatal err; mret ctx
        end;
  err ← registerControllers ctx (MasterControllers c);
  _ ← fatal err;
  err ← SyncThenStart threadiness (ended starters) starters;
  fatal err.
Definition masterControllers (ctx : C) (threadiness : Z) (starters : list (Starter W)) : prog W unit :=
  RunOrDie ctx (LeaderLockNamespace c) (c_Name c) (lead threadiness starters).

Definition customize (ctx : C) : stage unit :=
  match CustomizeSchemas c with
  | None => mret tt
  | Some f =>
      s ← the_settings;
      r ← the_runtime;
      '(schemas, err) ← run (f ctx (ClientGetter s) (AllSchemas r));
      _ ← set_AllSchemas schemas;
      check ctx err
  end.
Definition global_setup (ctx : C) : stage C :=
  match GlobalSetup c with None => mret ctx | Some f => '(ctx, err) ← run (f ctx); _ ← check ctx err; mret ctx end.
Definition pre_start (ctx : C) : stage unit :=
  match PreStart c with None => mret tt | Some f => err ← run (f ctx); check ctx err end.

(** Everything until the controllers start. *)
Definition prepare (ctx : C) (opts : Options) : stage (C * list (Starter W)) :=
  ctx ← defaults (with_server platform ctx) opts;
  _ ← add_schemas;
  _ ← createCRDs;
  '(ctx, starters) ← clients ctx;
  _ ← customize ctx;
  ctx ← global_setup ctx;
  err ← run (registerControllers ctx (PerServerControllers c));
  _ ← check ctx err;
  s ← the_settings;
  _ ← (if DisableControllers opts then mret tt else spawn (masterControllers ctx (Threadiness s) starters));
  _ ← (if DisableAPI c then mret tt else apiServer ctx);
  _ ← pre_start ctx;
  mret (ctx, starters).

(** Config.Build: the context, the server, the error; and, for what it leaves
    behind, what was built. *)
Definition no_runtime : Runtime := mkRuntime (NewSchemas None) ∅ None None None None false.
Definition Build (s : Settings) (ctx : C) (opts : option Options) : prog W (C * option build * option error * build) :=
  let b := mkBuild s no_runtime [] in
  if decide (c_Name c = "") then mret (ctx, None, Some (ErrorString "name must be set on norman.Config"), b)
  else
    let opts := default (mkOptions "" "external" false) opts in
    '(b, r) ← prepare ctx opts b;
    match r with
    | inr (ctx, err) => mret (ctx, None, Some err, b)
    | inl (ctx, starters) =>
        err ← (if DisableControllers opts then mret None
               else SyncThenStart (Threadiness (b_settings b)) (ended starters) starters);
        mret (ctx, Some b, err, b)
    end.

(** ** What holds when a stage succeeds *)
Definition wlp {A} (m : stage A) (b : build) (post : build → A → Prop) : Prop :=
  ∀ w w' b' a, m b w = (w', Ret (b', inl a)) → post b' a.
Lemma wlp_ret {A} (a : A) b (post : build → A → Prop) : post b a → wlp (mret a) b post.
Proof. intros Hp w w' b' a' [= _ <- <-]. done. Qed.
Lemma wlp_bind {A B} (m : stage A) (f : A → stage B) b post :
  wlp m b (λ b' a, wlp (f a) b' post) → wlp (m ≫= f) b post.
Proof.
  intros Hm w w' b' a. unfold mbind, stage_bind, mbind, prog_bind. destruct (m b w) as [w1 [[b1 [x|e]]|]] eqn:Hb; [|done|done].
  intros Hf. by apply (Hm _ _ _ _ Hb _ _ _ _ Hf).
Qed.
Lemma wlp_mono {A} (m : stage A) b (post post' : build → A → Prop) :
  (∀ b' a, post b' a → post' b' a) → wlp m b post → wlp m b post'.
Proof. intros Hp Hm w w' b' a Hr. eauto. Qed.
Lemma wlp_run_with {A} (p : prog W A) (Q : A → Prop) b (post : build → A → Prop) :
  (∀ w w' a, p w = (w', Ret a) → Q a) → (∀ a, Q a → post b a) → wlp (run p) b post.
Proof.
  intros HQ Hp w w' b' a. unfold run, mbind, prog_bind. destruct (p w) as [w1 [x|]] eqn:Hr; [|done]. intros [= _ <- <-]. eauto.
Qed.
Lemma wlp_run {A} (p : prog W A) b (post : build → A → Prop) : (∀ a, post b a) → wlp (run p) b post.
Proof. intros Hp. by apply (wlp_run_with p (λ _, True)). Qed.
Lemma wlp_deref {A} (o : option A) b (post : build → A → Prop) : (∀ a, o = Some a → post b a) → wlp (deref o) b post.
Proof. intros Hp. apply (wlp_run_with _ (λ a, o = Some a)); [|done]. intros w w' a. by destruct o; intros [= _ <-]. Qed.
Lemma wlp_fail {A} ctx err b (post : build → A → Prop) : wlp (fail ctx err) b post.
Proof. intros w w' b' a. done. Qed.
Lemma wlp_check ctx err b (post : build → unit → Prop) : (err = None → post b tt) → wlp (check ctx err) b post.
Proof. intros Hp. destruct err; [apply wlp_fail|by apply wlp_ret, Hp]. Qed.
Lemma wlp_the_settings b (post : build → Settings → Prop) : post b (b_settings b) → wlp the_settings b post.
Proof. intros Hp w w' b' a [= _ <- <-]. done. Qed.
Lemma wlp_the_runtime b (post : build → Runtime → Prop) : post b (b_runtime b) → wlp the_runtime b post.
Proof. intros Hp w w' b' a [= _ <- <-]. done. Qed.
Lemma wlp_set_settings s b (post : build → unit → Prop) :
  post (mkBuild s (b_runtime b) (b_spawned b)) tt → wlp (set_settings s) b post.
Proof. intros Hp w w' b' a [= _ <- <-]. done. Qed.
Lemma wlp_set_runtime r b (post : build → unit → Prop) :
  post (mkBuild (b_settings b) r (b_spawned b)) tt → wlp (set_runtime r) b post.
Proof. intros Hp w w' b' a [= _ <- <-]. done. Qed.
Lemma wlp_spawn p b (post : build → unit → Prop) :
  post (mkBuild (b_settings b) (b_runtime b) (b_spawned b ++ [p])) tt → wlp (spawn p) b post.
Proof. intros Hp w w' b' a [= _ <- <-]. done. Qed.

Ltac stage_step :=
  lazymatch goal with
  | |- wlp (mbind _ _) _ _ => apply wlp_bind
  | |- wlp (mret _) _ _ => apply wlp_ret
  | |- wlp (run _) _ _ => apply wlp_run; intros ?
  | |- wlp (deref _) _ _ => apply wlp_deref; intros ? ?
  | |- wlp (fail _ _) _ _ => apply wlp_fail
  | |- wlp (check _ _) _ _ => apply wlp_check; intros ?
  | |- wlp the_settings _ _ => apply wlp_the_settings
  | |- wlp the_runtime _ _ => apply wlp_the_runtime
  | |- wlp (set_settings _) _ _ => apply wlp_set_settings
  | |- wlp (set_runtime _) _ _ => apply wlp_set_runtime
  | |- wlp (spawn _) _ _ => apply wlp_spawn
  | |- wlp (match ?x with _ => _ end) _ _ => destruct x eqn:?
  end.

(** What the code relies on: a configuration of client-go is there if no error
    says otherwise. *)
Definition gives_config {A} (p : prog W (A * option R * option error)) : Prop :=
  ∀ w w' a cfg err, p w = (w', Ret (a, cfg, err)) → err = None → is_Some cfg.
Record configures : Prop := {
  flags_config : ∀ k w w' cfg err, BuildConfigFromFlags platform k w = (w', Ret (cfg, err)) → err = None → is_Some cfg;
  embedded_config : ∀ ctx, gives_config (getEmbedded platform ctx)
}.
Hypothesis platform_configures : configures.

Lemma external_config A (a : A) k : gives_config ('(cfg, err) ← getExternal k; mret (a, cfg, err)).
Proof.
  intros w w' a' cfg err. unfold getExternal, mbind, prog_bind. destruct (BuildConfigFromFlags platform k w) as [w1 [[cfg1 err1]|]] eqn:Hb; [|done].
  intros [= <- <- <- <-]. by apply (flags_config platform_configures _ _ _ _ _ Hb).
Qed.
Lemma GetConfig_config ctx mode k : gives_config (GetConfig ctx mode k).
Proof.
  unfold GetConfig. repeat case_decide.
  - unfold getAuto. case_decide.
    + intros w w' a cfg err. unfold mbind at 1, prog_bind at 1. destruct (InClusterConfig platform w) as [w1 [[config|e]|]]; [| |done].
      * case_decide; [|by intros [= _ _ <- <-]]. unfold mbind, prog_bind. destruct (ReadFile _ _ _) as [w2 [r|]]; [|done].
        by intros [= _ _ <- <-].
      * apply (embedded_config platform_configures).
    + apply external_config.
  - apply (embedded_config platform_configures).
  - apply external_config.
  - by intros w w' a cfg err [= _ _ _ <-].
Qed.

(** The client library is configured; no API and no goroutine yet. *)
Definition configured (b : build) : Prop :=
  is_Some (RestConfig (b_settings b)) ∧ LocalConfig (b_runtime b) = RestConfig (b_settings b) ∧
  is_Some (ClientGetter (b_settings b)) ∧ (0 < Threadiness (b_settings b))%Z.
Definition unserved (b : build) : Prop := APIHandler (b_runtime b) = None ∧ b_spawned b = [].
Definition connected (b : build) : Prop :=
  configured b ∧ is_Some (K8sClient (b_settings b)) ∧ is_Some (APIExtClient (b_settings b)).

Lemma find_config_wlp ctx opts b :
  unserved b → (0 < Threadiness (b_settings b))%Z →
  wlp (find_config ctx opts) b (λ b' _, unserved b' ∧ is_Some (RestConfig (b_settings b')) ∧ (0 < Threadiness (b_settings b'))%Z).
Proof.
  intros [Hapi Hsp] Ht. unfold find_config. do 4 stage_step.
  apply wlp_bind, (wlp_mono _ _ (λ b' _, unserved b' ∧ (0 < Threadiness (b_settings b'))%Z)).
  2: { stage_step; repeat first [stage_step|case_match]; simpl; by repeat split. }
  intros b1 ctx1 [[Hapi1 Hsp1] Ht1]. stage_step.
  apply (wlp_run_with _ (λ r, r.2 = None → is_Some r.1.2)).
  { intros w w' [[[e x] cfg] err] Hg. simpl. by apply (GetConfig_config _ _ _ _ _ _ _ _ Hg). }
  intros [[[e x] cfg] err] Hcfg. simpl in Hcfg. repeat stage_step. simpl. by repeat split; eauto.
Qed.

Lemma defaults_wlp ctx opts b : unserved b → wlp (defaults ctx opts) b (λ b' _, configured b' ∧ unserved b').
Proof.
  intros [Hapi Hsp]. unfold defaults. do 4 stage_step. apply wlp_bind.
  set (s := if decide (Threadiness (b_settings b) ≤ 0)%Z then _ else _).
  assert (0 < Threadiness s)%Z as Ht by (unfold s; case_decide; simpl; lia).
  set (s' := if decide (o_KubeConfig opts = "") then s else _). assert (0 < Threadiness s')%Z as Ht' by (unfold s'; by case_decide).
  apply (wlp_mono _ _ (λ b' _, unserved b' ∧ is_Some (RestConfig (b_settings b')) ∧ (0 < Threadiness (b_settings b'))%Z)).
  2: { destruct (RestConfig s) as [r|] eqn:Hr; [|by apply find_config_wlp]. stage_step. simpl. repeat split; [done..| |done].
       unfold s'. case_decide; [by rewrite Hr|]. simpl. by rewrite Hr. }
  intros b1 ctx1 ([Hapi1 Hsp1] & Hc1 & Ht1). repeat stage_step; simpl; try (by repeat split; eauto).
Qed.

Lemma client_of_wlp {A} ctx (o : option A) new b (post : build → A → Prop) : (∀ a, post b a) → wlp (client_of ctx o new) b post.
Proof. intros Hp. unfold client_of. repeat stage_step; auto. Qed.
Lemma start_clients_wlp fs ctx b : wlp (start_clients ctx fs) b (λ b' _, b' = b).
Proof.
  revert ctx b. induction fs as [|f fs IH]; intros ctx b; simpl; [by stage_step|]. repeat stage_step.
  eapply wlp_mono; [|apply IH]. intros b' [x l] ->. by stage_step.
Qed.
Lemma clients_wlp ctx b : configured b ∧ unserved b → wlp (clients ctx) b (λ b' _, connected b' ∧ unserved b').
Proof.
  intros [(Hc & Hl & Hg & Ht) [Hapi Hsp]]. unfold clients. do 2 stage_step. stage_step. apply client_of_wlp. intros k. do 2 stage_step. stage_step.
  apply client_of_wlp. intros e. do 2 stage_step. eapply wlp_mono; [|apply start_clients_wlp]. intros b' l ->.
  split; [split; [|by split; eexists]|done]. by split_and!.
Qed.

(** A server that was put together. *)
Definition complete (opts : Options) (b : build) : Prop :=
  connected b ∧ (is_Some (APIHandler (b_runtime b)) ↔ DisableAPI c = false) ∧
  length (b_spawned b) = (if DisableControllers opts then 0 else 1)%nat.

Lemma prepare_wlp ctx opts b : unserved b → wlp (prepare ctx opts) b (λ b' _, complete opts b').
Proof.
  intros Hb. unfold prepare. stage_step. eapply wlp_mono; [|by apply defaults_wlp].
  clear. intros b1 ctx1 [Hcon [Hapi Hsp]]. stage_step. apply (wlp_mono _ _ (λ b' _, configured b' ∧ unserved b')).
  2: { unfold add_schemas, set_AllSchemas. repeat stage_step; by repeat split; try apply Hcon. }
  clear. intros b _ [Hcon [Hapi Hsp]]. stage_step. apply (wlp_mono _ _ (λ b' _, configured b' ∧ unserved b')).
  2: { unfold createCRDs. repeat stage_step; by repeat split; try apply Hcon. }
  clear. intros b1 _ Hb. stage_step. eapply wlp_mono; [|by apply clients_wlp]. clear. intros b [ctx1 starters] [Hcon [Hapi Hsp]].
  stage_step. apply (wlp_mono _ _ (λ b' _, connected b' ∧ unserved b')).
  2: { unfold customize, set_AllSchemas. repeat stage_step; by repeat split; try apply Hcon. }
  clear. intros b1 _ [Hcon [Hapi Hsp]]. stage_step. apply (wlp_mono _ _ (λ b' _, connected b' ∧ unserved b')).
  2: { unfold global_setup. repeat stage_step; by repeat split; try apply Hcon. }
  clear. intros b2 ctx2 [Hcon [Hapi Hsp]]. do 6 stage_step.
  apply wlp_bind, (wlp_mono _ _ (λ b' _, connected b' ∧ APIHandler (b_runtime b') = None ∧ length (b_spawned b') = (if DisableControllers opts then 0 else 1)%nat)).
  2: { destruct (DisableControllers opts); stage_step; simpl; rewrite Hsp; by repeat split; try apply Hcon. }
  clear. intros b3 _ (Hcon & Hapi & Hsp). stage_step. apply (wlp_mono _ _ (λ b' _, complete opts b')).
  2: { unfold apiServer, complete. destruct (DisableAPI c) eqn:Hd.
       - stage_step. rewrite Hapi. split_and!; [done| |done]. by split; [intros [? ?]|].
       - repeat stage_step; simpl; by split_and!; try apply Hcon; eauto. }
  clear. intros b4 _ Hcon. unfold pre_start. repeat stage_step; done.
Qed.

(** A server that Build returns is put together: the client library is
    configured, every client it needs is there, at least one worker handles each
    controller, there is a handler for the API unless it is disabled, and one
    goroutine stands for election unless controllers are disabled.  A server is
    returned unless an error is, or together with the error of a controller that
    did not start. *)
Theorem build_complete s ctx opts w w' ctx' server err b :
  Build s ctx opts w = (w', Ret (ctx', server, err, b)) →
  match server with
  | Some b' => b' = b ∧ c_Name c ≠ "" ∧ complete (default (mkOptions "" "external" false) opts) b
  | None => is_Some err
  end.
Proof.
  unfold Build. case_decide; [by intros [= _ _ <- <- _]|]. unfold mbind, prog_bind.
  destruct (prepare _ _ _ w) as [w1 [[b1 [[ctx1 starters]|[ctx1 e]]]|]] eqn:Hp; [| |done].
  - match goal with |- context [match ?p w1 with _ => _ end] => destruct (p w1) as [w2 [r|]] end; [|done].
    intros [= _ _ <- _ <-]. split_and!; [done..|]. eapply prepare_wlp; [|exact Hp]. by split.
  - by intros [= _ _ <- <- _].
Qed.

(** ** A failure leaves the controllers alone *)
Section Early.
Variable moved : W → W → Prop.
Context `{!PreOrder moved}.
Definition moves {A} (p : prog W A) : Prop := ∀ w, moved w (p w).1.
Lemma moves_ret {A} (a : A) : moves (mret a).
Proof. intros w. simpl. reflexivity. Qed.
Lemma moves_lift {A} (m : go A) : moves (lift m).
Proof. intros w. simpl. reflexivity. Qed.
Lemma moves_bind {A B} (m : prog W A) (f : A → prog W B) : moves m → (∀ a, moves (f a)) → moves (m ≫= f).
Proof.
  intros Hm Hf w. unfold mbind, prog_bind. specialize (Hm w). destruct (m w) as [w' [a|]]; simpl in *; [|done].
  etrans; [done|apply Hf].
Qed.
Definition stage_moves {A} (m : stage A) : Prop := ∀ b, moves (m b).
Lemma stage_moves_ret {A} (a : A) : stage_moves (mret a).
Proof. intros b. apply moves_ret. Qed.
Lemma stage_moves_bind {A B} (m : stage A) (f : A → stage B) : stage_moves m → (∀ a, stage_moves (f a)) → stage_moves (m ≫= f).
Proof. intros Hm Hf b. apply moves_bind; [apply Hm|]. intros [b' [a|e]]; [apply Hf|apply moves_ret]. Qed.
Lemma stage_moves_run {A} (p : prog W A) : moves p → stage_moves (run p).
Proof. intros Hp b. apply moves_bind; [done|]. intros a. apply moves_ret. Qed.
Lemma stage_moves_check ctx err : stage_moves (check ctx err).
Proof. intros b. destruct err; apply moves_ret. Qed.
Lemma stage_moves_deref {A} (o : option A) : stage_moves (deref o).
Proof. apply stage_moves_run, moves_lift. Qed.

(** Everything but the starters: what the platform and the callbacks of the
    configuration do. *)
Record quiet : Prop := {
  quiet_flags : ∀ k, moves (BuildConfigFromFlags platform k);
  quiet_cluster : moves (InClusterConfig platform);
  quiet_file : ∀ f, moves (ReadFile platform f);
  quiet_embedded : ∀ ctx, moves (getEmbedded platform ctx);
  quiet_k3s : ∀ ctx d, moves (NewK3sConfig platform ctx d);
  quiet_crds : ∀ g s stores, moves (run_batches g s (CRDs c) stores);
  quiet_clients : ∀ f ctx r, f ∈ Clients c → moves (f ctx r);
  quiet_customize : ∀ f ctx g s, CustomizeSchemas c = Some f → moves (f ctx g s);
  quiet_global : ∀ f ctx, GlobalSetup c = Some f → moves (f ctx);
  quiet_prestart : ∀ f ctx, PreStart c = Some f → moves (f ctx);
  quiet_api : ∀ f ctx a, APISetup c = Some f → moves (f ctx a);
  quiet_controllers : ∀ f ctx, f ∈ PerServerControllers c → moves (f ctx)
}.
Hypothesis is_quiet : quiet.

Ltac moves_step :=
  lazymatch goal with
  | |- stage_moves (mbind _ _) => apply stage_moves_bind; [|intros ?]
  | |- stage_moves (mret _) => apply stage_moves_ret
  | |- stage_moves (run _) => apply stage_moves_run
  | |- stage_moves (check _ _) => apply stage_moves_check
  | |- stage_moves (deref _) => apply stage_moves_deref
  | |- stage_moves (match ?x with _ => _ end) => destruct x eqn:?
  | |- stage_moves _ => intros ?; apply moves_ret
  | |- moves (mbind _ _) => apply moves_bind; [|intros ?]
  | |- moves (mret _) => apply moves_ret
  | |- moves (lift _) => apply moves_lift
  | |- moves (match ?x with _ => _ end) => destruct x eqn:?
  end.

Lemma defaults_moves ctx opts : stage_moves (defaults ctx opts).
Proof.
  assert (∀ k, moves (getExternal k)) as He by (intros k; apply is_quiet).
  unfold defaults, find_config, GetConfig, getAuto, client_of.
  repeat first [moves_step|apply is_quiet|apply He|(intros ?; reflexivity)].
Qed.
Lemma start_clients_moves fs ctx : (∀ f, f ∈ fs → f ∈ Clients c) → stage_moves (start_clients ctx fs).
Proof.
  revert ctx. induction fs as [|f fs IH]; intros ctx Hin; simpl; repeat first [moves_step|apply IH; set_solver].
  apply (quiet_clients is_quiet). set_solver.
Qed.
Lemma registerControllers_moves fs ctx : (∀ f, f ∈ fs → f ∈ PerServerControllers c) → moves (registerControllers ctx fs).
Proof.
  induction fs as [|f fs IH]; intros Hin; simpl; repeat first [moves_step|apply IH; set_solver].
  apply (quiet_controllers is_quiet). set_solver.
Qed.
Lemma prepare_moves ctx opts : stage_moves (prepare ctx opts).
Proof.
  unfold prepare, add_schemas, createCRDs, clients, customize, global_setup, apiServer, pre_start, client_of, set_AllSchemas.
  repeat first [moves_step|apply defaults_moves|apply start_clients_moves; done|apply registerControllers_moves; done
    |by eapply quiet_crds|by eapply quiet_customize|by eapply quiet_global|by eapply quiet_prestart|by eapply quiet_api].
Qed.

(** If Build returns no server, the world is as the platform and the callbacks
    left it: no controller was synced or started. *)
Theorem failed_build_starts_nothing s ctx opts w w' ctx' err b :
  Build s ctx opts w = (w', Ret (ctx', None, err, b)) → moved w w'.
Proof.
  unfold Build. case_decide; [intros [= <- _ _ _]; reflexivity|]. unfold mbind, prog_bind.
  pose proof (prepare_moves ctx (default (mkOptions "" "external" false) opts) (mkBuild s no_runtime []) w) as Hm.
  destruct (prepare _ _ _ w) as [w1 [[b1 [[ctx1 starters]|[ctx1 e]]]|]]; [| |done].
  - match goal with |- context [match ?p w1 with _ => _ end] => destruct (p w1) as [w2 [r|]] end; done.
  - by intros [= <- _ _ _].
Qed.
End Early.

(** client-go accepts the times: the lease outlasts the deadline to renew it, and
    the deadline the jittered period of retries (1.2 times the period). *)
Lemma election_accepted namespace name id dev :
  let l := leader_config namespace name id dev in
  (RenewDeadline l < LeaseDuration l)%Z ∧ (12 * RetryPeriod l < 10 * RenewDeadline l)%Z ∧ lock_namespace l ≠ "".
Proof. unfold leader_config. destruct dev; simpl; (split; [lia|]; split; [lia|]); by case_decide. Qed.
(** Standing for election never ends but with the process. *)
Lemma RunOrDie_dies ctx namespace name cb w : (RunOrDie ctx namespace name cb w).2 = Panic.
Proof. unfold RunOrDie, mbind, prog_bind. by destruct (leader_run _ _ _ _ w) as [w' [a|]]. Qed.
End Startup.

(** ** Examples *)
Section Examples.
#[local] Instance no_crds : CrdCodec :=
  {| EncodeCrd := λ _, inl "{}"; DecodeCrd := λ _, (empty_crd, None); DecodeCrdList := λ _, ([], None) |}.
(** The world is a log; contexts and clients are names. *)
Definition logged (s : string) : prog (list string) unit := λ w, (w ++ [s], Ret tt).
Definition demo_platform : @Platform (list string) string string string string string string string string :=
  {| getenv := λ _ _, ""; nil_context := "nil"; with_server := λ ctx, ctx;
     BuildConfigFromFlags := λ k, mret (Some k, None);
     InClusterConfig := mret (inl "in-cluster"); BearerToken := λ _, ""; set_BearerToken := λ t r, r +:+ " with " +:+ t;
     ReadFile := λ _, mret (inl "token"); getEmbedded := λ ctx, mret (false, ctx, None, Some (ErrorString "not compiled in"));
     NewK3sConfig := λ ctx _, mret (ctx, None, None, None); NewTunnelServer := "tunnel"; Hostname := mret (inl "host");
     elect := λ ctx l cb, _ ← logged ("elected in " +:+ lock_namespace l); cb ctx;
     with_serializer := λ r, r; UnversionedRESTClientFor := λ r, inl r; simple_getter := λ r _ _, r; NewKubernetesClient := λ r, inl r; NewAPIExtClient := λ r, inl r;
     crd_client := λ _, (mkRestClient "" "" id (λ _, mret (inl "")) (λ _, mret (inl "")), None) |}.
Definition demo_starter : Starter (list string) :=
  mkStarter (_ ← logged "synced"; mret None) (λ n, _ ← logged ("started " +:+ itoa n); mret None).
Definition demo_config (pre_start_error : option error) (no_api : bool) (l : list Schemas) :
    @Config (list string) string string string :=
  mkConfig "demo" no_api l [] [λ ctx r, mret (ctx, demo_starter, None)] "" "" false "" false None None None
    (Some (λ _, mret pre_start_error)) None [] [λ _, _ ← logged "registered"; mret None].
Definition nothing_set : @Settings string string string string := mkSettings 0 "" None None None None.
Abbreviation demo_build c :=
  (@Build (list string) string string string string string string string string std_range std_schema_format no_crds demo_platform c
     2 ID (λ _, None) (λ _, 0%nat) id nothing_set "ctx").

(** Without options: the cluster it runs in is used, with the token of its
    account, and the controllers are started with five workers. *)
Example demo_starts :
  match demo_build (demo_config None false [one_schema]) (Some (mkOptions "" "" false)) [] with
  | (w, Ret (_, Some b, None, _)) =>
      (w, RestConfig (b_settings b), Threadiness (b_settings b), length (b_spawned b)) =
        (["synced"; "started 5"], Some "in-cluster with token", 5%Z, 1%nat)
  | _ => False
  end.
Proof. vm_compute. reflexivity. Qed.

(** The goroutine that stands for election is started before the API is set up
    and PreStart is called.  If they fail, so does Build, but the goroutine goes
    on, and starts the controllers when it is elected. *)
Example master_outlives_failure :
  match demo_build (demo_config (Some (ErrorString "not ready")) false [one_schema]) None [] with
  | (w, Ret (_, None, Some err, b)) =>
      (w, Error err, (λ p, (p w).1) <$> b_spawned b) =
        ([], "not ready", [["elected in kube-system"; "registered"; "synced"; "started 5"]])
  | _ => False
  end.
Proof. vm_compute. reflexivity. Qed.

(** A schema without an id is an error, but only the API looks for it. *)
Definition bad_schemas : Schemas := default (NewSchemas None) (@AddSchema std_range std_schema_format 2 (NewSchemas None) (plain_schema "" ∅)).
Example schema_errors_unnoticed :
  match (demo_build (demo_config None true [one_schema; bad_schemas]) None []).2,
        (demo_build (demo_config None false [one_schema; bad_schemas]) None []).2 with
  | Ret (_, Some b, None, _), Ret (_, None, Some _, _) => bool_decide (Schemas_Err (AllSchemas (b_runtime b)) = None) = false
  | _, _ => False
  end.
Proof. vm_compute. reflexivity. Qed.
End Examples.
